(* ===== verification/_CoqProject ===== *)
-Q . S2P
Prelude.v
GoStrings.v
Config.v
Paths.v
Labels.v
ActionRef.v
FileSystem.v
Tar.v
Setup.v
Delivery.v
K8sNames.v
Loader.v
Masker.v
Reporter.v
LogDelivery.v
Commands.v
Envfile.v
Entrypoint.v
Expressions.v
Builder.v
TaskHandler.v
CacheMirror.v
Sha256.v
Snapshot.v
Watcher.v
Tail.v
Pod.v
Poller.v
Health.v
Register.v
CacheDb.v
CacheStore.v
CacheServer.v
Controller.v
