(* ===== verification/Prelude.v ===== *)
(** * drawbar: a verification development

    drawbar is a runner for Forgejo and Gitea Actions on Kubernetes.  A
    controller ([cmd/controller]) registers with the forge, polls it for tasks
    and turns each task into a Kubernetes job.  The job's pod runs the entrypoint
    binary ([cmd/entrypoint]): its setup step fetches the actions, its runner
    executes the steps of a manifest, its tail sidecar streams the steps' state
    events.  The controller follows the pod's two streams, reports log rows and
    step results to the forge, and serves a cache to the jobs.

    ** Representation

    A Go string is a list of bytes ([gostring]), with executable versions of the
    standard library's string functions in [GoStrings] and of path/filepath in
    [Paths].  Machine integers are [Z] with their wrap-around where it matters
    ([wrap64], [Config.uint16]); times and durations are [Z]; maps are [gmap], or
    lists of pairs where the order of a map's iteration is visible.  Errors are
    values of [result].  What the repository only calls is a class or a
    parameter, with its documented behaviour as laws: the RPC client
    ([RunnerClient], [Forge]), the SQL engine ([Sql]), the expression
    interpreter of nektos/act ([Interp]), git and action.yml ([ActionHost]), YAML
    and JSON, the Kubernetes API ([Cluster]), the table of non-ASCII letters
    ([UnicodeTables]).  Package os is a model of its own, [FileSystem]: a tree of
    nodes, the kernel's path resolution through links, and the calls on it.

    ** Files and sources

    Shared:
    - [Prelude], [GoStrings], [Paths], [FileSystem], [Sha256]: the language's
      standard library, as far as the program uses it;
    Controller:
    - [Config] ([pkg/config]): [Load], [applyEnvOverrides], [Validate];
    - [Labels] ([pkg/labels]): labels and the choice of the image;
    - [Register] ([pkg/server/register.go], [client.go]): [EnsureRegistered] and
      the two credential stores;
    - [Poller], [Health] ([pkg/server/poller.go], probes of
      [cmd/controller/main.go]): the poll loop, its handlers, [Shutdown] and
      the goroutine that waits for it as a transition system, one operation on
      the semaphore, a counter, the wait group, a context or a channel at a
      time, and what the probes read of it;
    - [TaskHandler] ([cmd/controller/main.go], [pkg/workflow]):
      [makeTaskHandler], as a trace of what leaves the controller; the sweep of
      orphaned jobs and volumes;
    - [ActionRef], [Loader] ([pkg/actions]): references, cloning, and the
      expansion of actions into steps;
    - [Expressions] ([pkg/expressions]): template rewriting, interpolation, the
      evaluation context of a run;
    - [K8sNames], [Builder] ([pkg/k8s/labels.go], [builder.go]): [BuildJob] with
      the manifest, the setup command and the wait script;
    - [Watcher] ([pkg/k8s/watcher.go]): the streams, the waits and the result;
    - [Masker], [Reporter], [Commands], [LogDelivery] ([pkg/reporter]): masking,
      batching, the final report, workflow commands, and the interleaving of log
      calls with concurrent flushes and lost messages;
    - [CacheDb], [CacheStore], [CacheServer], [Tar] ([pkg/cache]): the index, the
      blobs, the protocol handlers and the archive of an action;
    - [Snapshot] ([pkg/snapshot]): lookup, claims, snapshots, collection;
    - [Controller] ([cmd/controller/main.go], [StartHandler] of
      [pkg/cache/handler.go]): [main] and [run], which wire the above together;
    Pod:
    - [Setup] ([cmd/entrypoint/setup.go]): extraction and fetching;
    - [Delivery]: from the controller's clone to the pod, [Tar] and [Setup]
      together;
    - [CacheMirror] ([cmd/entrypoint/cache_mirror.go]);
    - [Envfile], [Entrypoint] ([cmd/entrypoint/envfile.go], [main.go]): the
      environment files and the loop over the steps;
    - [Tail] ([cmd/entrypoint/tail.go]);
    - [Pod] ([main] of [cmd/entrypoint/main.go], [manifest.go]): the containers of
      [Builder] as the entrypoint runs them, up to the report.
    A component's state is a record with the fields of the Go struct, and each
    method a function of the same name; anonymous parts of a long function are
    definitions of their own, named after what they do.

    ** What is shown

    - A run is reported as it happened: from the job the controller builds,
      through the commands of its pod, the state file and the streams, to the
      step results of the closed report ([Pod.pod_reports],
      [Entrypoint.run_events]); the forge's log is a prefix of the
      rows logged, however flushes and failures interleave
      ([LogDelivery.log_rows_exact]); every task gets one final report
      ([TaskHandler.task_reported_once]).
    - Secrets and isolation: no row holds a secret, of those long enough to be
      masked ([Reporter.no_secret_in_rows], [Watcher.add_mask_line_hides]); the
      manifest cannot break out of the
      command that writes it ([Builder.manifest_delivered]); extraction and
      mirroring stay where they should ([Setup.untar_confined],
      [CacheMirror.cache_places]); directory names are accepted where they are
      used ([ActionRef.action_dir_is_safe]).
    - Data arrive unchanged: actions ([Delivery.setup_delivers],
      [Delivery.archive_roundtrip], about the extraction the setup runs), caches
      ([CacheServer.upload_download], [CacheMirror.mirror_one],
      [Snapshot.snapshot_restored]), environment files
      ([Envfile.env_file_roundtrip]) and the variables in them, over all the
      steps of a run ([Entrypoint.exported_env_visible]).
    - Results and settings are what they are documented to be: the job's result
      against a specification of its own of what the API server answered
      ([Watcher.watch_result]), what conditions see of earlier steps
      ([Expressions.runner_evaluator_tracks]), the shutdown timeout
      ([Config.shutdown_timeout_resolved], which is also where it is not).
    - The process polls only when all it needs is in place, wired as the
      components assume ([Controller.controller_ready]).
    - Bounds, invariants and termination: capacity of the poll loop, what is
      fetched after polling was cancelled and what a returned [Shutdown] leaves
      ([Poller]); consistency of the cache whatever fails, and what ignored
      removals leave behind ([CacheServer.cache_consistent]); expansion of cyclic
      actions; retries of [Close] and of the setup.
    Where the code departs from its comments or loses data, an example or a
    theorem shows it next to the component.

    ** Fuel and bounds

    Recursion that is not structural has fuel computed from the input, enough by
    a lemma next to it: the length of the text for scanning and rewriting, the
    number of distinct references that can be loaded for nested actions
    ([Loader.expansion_terminates]), the depth of the tree for walks and merges,
    the number of names and links left for path resolution (the kernel follows at
    most forty).  Retries are the code's: ten attempts of [Close], three of a
    fetch, five names for a partial directory.  Waits that poll are given the
    list of answers they would see.

    ** Not modelled

    The construction of clients and servers ([pkg/k8s/client.go], the HTTP and
    RPC transport of [pkg/server/client.go], the routers), flag parsing, logging,
    goroutine dumps, the encodings (JSON, YAML, tar, protobuf) and the
    SPDY connection to the pod.  Permissions of directories, owners, and two
    processes writing to the same files are outside [FileSystem].  Cancellation
    is modelled where the code's outcome depends on it (poll loop, close, waits,
    the end of the task handler), not at every call that takes a context.  One
    call of [Shutdown] is modelled, made when [Run] has set its cancel
    functions.  A panic that ends the process (a snapshot size that is not a
    quantity) is a run of the task handler without a result. *)
From Stdlib Require Import Ascii String.
From Stdlib.Strings Require Import Byte.
From stdpp Require Export strings gmap list.

(** ** Go strings

    A Go [string] is an immutable sequence of bytes; it is modelled as a list
    of 8-bit characters, so that stdpp's list library applies to it.  String
    literals in [go_scope] denote such lists directly. *)
Abbreviation gostring := (list ascii).

Inductive literal :=
  | lit_nil
  | lit_cons (c : ascii) (l : literal).

Fixpoint literal_of_bytes (l : list Byte.byte) : literal :=
  match l with
  | [] => lit_nil
  | x :: l => lit_cons (ascii_of_byte x) (literal_of_bytes l)
  end.

Fixpoint bytes_of_literal (l : literal) : list Byte.byte :=
  match l with
  | lit_nil => []
  | lit_cons c l => byte_of_ascii c :: bytes_of_literal l
  end.

Definition go_literal : Type := list ascii.

Declare Scope go_scope.
Delimit Scope go_scope with go.
#[warnings="-via-type-remapping,-via-type-mismatch"]
String Notation go_literal literal_of_bytes bytes_of_literal
  (via literal mapping [[nil] => lit_nil, [cons] => lit_cons]) : go_scope.
Open Scope go_scope.

(** The empty Go string. *)
Abbreviation ε := (@nil ascii) (only parsing).

(** ** Fallible computations

    A Go function returning [(T, error)] is a [result]: either the value or
    the error, never both. *)
Inductive result (E A : Type) :=
  | Ok (a : A)
  | Err (e : E).
Arguments Ok {E A} a.
Arguments Err {E A} e.

#[export] Instance result_eq_dec {E A} `{EqDecision E, EqDecision A} :
  EqDecision (result E A).
Proof. solve_decision. Defined.

Definition result_bind {E A B} (m : result E A) (k : A -> result E B) : result E B :=
  match m with Ok a => k a | Err e => Err e end.

Definition is_ok {E A} (m : result E A) : bool :=
  match m with Ok _ => true | Err _ => false end.

Notation "'let?' x ':=' m 'in' k" := (result_bind m (fun x => k))
  (at level 10, x name, m at level 100, k at level 200) : go_scope.

(** ** Automation *)

(** Case analysis on every [match] and [if] of the goal. *)
Ltac split_matches :=
  repeat (case_match || case_decide || case_bool_decide); simplify_eq/=.

(** Turn boolean tests into propositions. *)
Ltac reflect_bools :=
  repeat match goal with
  | H : (_ && _)%bool = true |- _ => apply andb_true_iff in H as [? ?]
  | H : (_ || _)%bool = false |- _ => apply orb_false_iff in H as [? ?]
  | H : negb _ = true |- _ => apply negb_true_iff in H
  | H : negb _ = false |- _ => apply negb_false_iff in H
  | H : (_ <? _)%Z = true |- _ => apply Z.ltb_lt in H
  | H : (_ <? _)%Z = false |- _ => apply Z.ltb_ge in H
  | H : (_ <=? _)%Z = true |- _ => apply Z.leb_le in H
  | H : (_ <=? _)%Z = false |- _ => apply Z.leb_gt in H
  | H : (_ =? _)%Z = true |- _ => apply Z.eqb_eq in H
  | H : (_ =? _)%Z = false |- _ => apply Z.eqb_neq in H
  | H : (_ <? _)%nat = true |- _ => apply Nat.ltb_lt in H
  | H : (_ <? _)%nat = false |- _ => apply Nat.ltb_ge in H
  | H : (_ <=? _)%nat = true |- _ => apply Nat.leb_le in H
  | H : (_ <=? _)%nat = false |- _ => apply Nat.leb_gt in H
  | H : (_ =? _)%nat = true |- _ => apply Nat.eqb_eq in H
  | H : (_ =? _)%nat = false |- _ => apply Nat.eqb_neq in H
  | H : bool_decide _ = true |- _ => apply bool_decide_eq_true in H
  | H : bool_decide _ = false |- _ => apply bool_decide_eq_false in H
  end.

(** The cases of a membership in a list written out with [::] and [++]. *)
Ltac elem_inv H :=
  repeat match type of H with
  | _ ∈ _ :: _ => apply elem_of_cons in H; destruct H as [H|H]; [try discriminate H|]
  | _ ∈ _ ++ _ => apply elem_of_app in H; destruct H as [H|H]
  | _ ∈ [] => exfalso; revert H; apply not_elem_of_nil
  end.

(** Close a decidable closed goal by evaluating its decision procedure. *)
Ltac decide_now := apply (bool_decide_unpack _); vm_compute; exact I.

Create HintDb drawbar.

(** ** Machine integers *)

(** Two's-complement wrap-around of Go's [int64] and [int] (64-bit). *)
Definition wrap64 (z : Z) : Z :=
  ((z + 2 ^ 63) mod 2 ^ 64 - 2 ^ 63)%Z.

Definition int64_min : Z := (- 2 ^ 63)%Z.
Definition int64_max : Z := (2 ^ 63 - 1)%Z.

Definition in_int64 (z : Z) : Prop := (int64_min <= z <= int64_max)%Z.

Lemma wrap64_id z : in_int64 z -> wrap64 z = z.
Proof.
  unfold in_int64, int64_min, int64_max, wrap64. intros Hz.
  rewrite Z.mod_small; lia.
Qed.

Lemma wrap64_range z : in_int64 (wrap64 z).
Proof.
  unfold in_int64, int64_min, int64_max, wrap64.
  pose proof (Z.mod_pos_bound (z + 2 ^ 63) (2 ^ 64) ltac:(lia)). lia.
Qed.

#[export] Hint Resolve wrap64_range : drawbar.

(** ** Pairs and lists *)

Lemma pair_from_fst {A B} (p : A * B) a : p.1 = a -> p = (a, p.2).
Proof. by destruct p; intros [= ->]. Qed.

Lemma Forall_snoc {A} (P : A -> Prop) l x :
  Forall P (l ++ [x]) <-> Forall P l /\ P x.
Proof. rewrite Forall_app, Forall_singleton. done. Qed.

Lemma list_filter_length_le {A} (P : A -> Prop) `{!forall x, Decision (P x)} l :
  length (filter P l) <= length l.
Proof. induction l as [|x l IH]; simpl; [done|]. rewrite filter_cons. case_decide; simpl; lia. Qed.

Lemma elem_of_mid_weaken {A} (x y : A) l1 l2 : x ∈ l1 ++ l2 -> x ∈ l1 ++ y :: l2.
Proof. rewrite !elem_of_app. intros [?|?]; [by left|right; by right]. Qed.

Lemma filter_all_nil {A} (P : A -> Prop) `{!forall x, Decision (P x)} l :
  (forall x, x ∈ l -> ~ P x) -> filter P l = [].
Proof.
  induction l as [|x l IH]; intros Hl; [done|].
  rewrite filter_cons_False by (apply Hl; left). apply IH. intros y ?. apply Hl. by right.
Qed.

(** Counting the elements with a property, around one position. *)
Definition count {A} (P : A -> Prop) `{!forall x, Decision (P x)} (l : list A) : Z :=
  Z.of_nat (length (filter P l)).

Section count.
Context {A} (P : A -> Prop) `{!forall x, Decision (P x)}.

Lemma count_app l1 l2 : count P (l1 ++ l2) = (count P l1 + count P l2)%Z.
Proof. unfold count. rewrite filter_app, length_app. lia. Qed.

Lemma count_cons x l : count P (x :: l) = ((if decide (P x) then 1 else 0) + count P l)%Z.
Proof. unfold count. rewrite filter_cons. case_decide; simpl length; lia. Qed.

Lemma count_insert l i x y :
  l !! i = Some x ->
  count P (<[i := y]> l) =
    (count P l - (if decide (P x) then 1 else 0) + (if decide (P y) then 1 else 0))%Z.
Proof.
  intros Hi. rewrite insert_take_drop by by eapply lookup_lt_Some.
  rewrite <-(take_drop_middle l i x Hi) at 3. rewrite !count_app, !count_cons. lia.
Qed.

Lemma count_delete l i x :
  l !! i = Some x -> count P (delete i l) = (count P l - (if decide (P x) then 1 else 0))%Z.
Proof.
  intros Hi. rewrite delete_take_drop. rewrite <-(take_drop_middle l i x Hi) at 3.
  rewrite !count_app, count_cons. lia.
Qed.

Lemma count_nonneg l : (0 <= count P l)%Z.
Proof. unfold count. lia. Qed.
End count.
