(* ===== verification/GoStrings.v ===== *)
(** * The parts of Go's standard library the program calls on strings

    Packages [strings], [strconv], [unicode/utf8] and [fmt]'s integer verbs,
    on strings represented as byte lists.  Every function is executable; the
    lemmas are the ones the components share.  The only data taken as a
    parameter is the upper/lower case table of non-ASCII code points
    ([UnicodeTables]). *)
From Stdlib Require Import Ascii.
From S2P Require Import Prelude.
#[local] Open Scope Z_scope.

(** ** Bytes *)

Definition code (c : ascii) : Z := Z.of_N (N_of_ascii c).
Definition chr (z : Z) : ascii := ascii_of_N (Z.to_N z).

Lemma code_range c : 0 <= code c < 256.
Proof. unfold code. pose proof (N_ascii_bounded c). lia. Qed.

Lemma chr_code c : chr (code c) = c.
Proof. unfold chr, code. rewrite N2Z.id. apply ascii_N_embedding. Qed.

Lemma code_chr z : 0 <= z < 256 -> code (chr z) = z.
Proof.
  intros Hz. unfold chr, code.
  rewrite N_ascii_embedding by lia. rewrite Z2N.id; lia.
Qed.

Lemma code_inj c d : code c = code d -> c = d.
Proof. intros H. rewrite <-(chr_code c), <-(chr_code d). by rewrite H. Qed.

Definition nl : ascii := chr 10.
Definition cr : ascii := chr 13.

(** ** Prefixes, suffixes and searching *)

Section affixes.
Implicit Types s p : gostring.

(** [strings.HasPrefix], [strings.TrimPrefix] and their mirror images. *)
Definition has_prefix s p : bool := bool_decide (p `prefix_of` s).
Definition has_suffix s p : bool := bool_decide (p `suffix_of` s).

Definition trim_prefix s p : gostring :=
  if has_prefix s p then drop (length p) s else s.
Definition trim_suffix s p : gostring :=
  if has_suffix s p then take (length s - length p) s else s.

(** [strings.IndexByte] and [strings.Index]; Go's [-1] is [None]. *)
Fixpoint index_byte (c : ascii) s : option nat :=
  match s with
  | [] => None
  | x :: s' => if decide (x = c) then Some 0%nat else S <$> index_byte c s'
  end.

Fixpoint index (sub s : gostring) : option nat :=
  if has_prefix s sub then Some 0%nat else
  match s with
  | [] => None
  | _ :: s' => S <$> index sub s'
  end.

(** [strings.Contains]. *)
Definition contains (sub s : gostring) : bool :=
  match index sub s with Some _ => true | None => false end.
End affixes.

Lemma has_prefix_spec s p : has_prefix s p = true <-> exists r, s = p ++ r.
Proof. unfold has_prefix. rewrite bool_decide_eq_true. done. Qed.

Lemma has_suffix_spec s p : has_suffix s p = true <-> exists r, s = r ++ p.
Proof. unfold has_suffix. rewrite bool_decide_eq_true. done. Qed.

Lemma trim_prefix_app s p : trim_prefix (p ++ s) p = s.
Proof.
  unfold trim_prefix. rewrite (proj2 (has_prefix_spec _ _)) by eauto.
  apply drop_app_length.
Qed.

Lemma index_byte_None c s : index_byte c s = None <-> c ∉ s.
Proof.
  induction s as [|x s IH]; simpl.
  - split; [by intros _ ?%elem_of_nil|done].
  - rewrite not_elem_of_cons. case_decide; subst.
    + split; [done|]. by intros [? _].
    + rewrite <-IH. destruct (index_byte c s); simpl; split; try done; try (by intros [_ ?]); by split.
Qed.

Lemma index_byte_Some c s i :
  index_byte c s = Some i <-> 
    exists b, (s = take i s ++ c :: b) /\ (c ∉ take i s) /\ (i < length s)%nat.
Proof.
  revert i. induction s as [|x s IH]; intros i; simpl.
  - split; [done|]. intros (b & _ & _ & ?). lia.
  - case_decide as Hx; subst.
    + split.
      * intros [= <-]. exists s. simpl. split; [done|]. split; [apply not_elem_of_nil|lia].
      * intros (b & Hs & Hni & Hi). destruct i as [|i]; [done|]. exfalso. apply Hni. simpl. left.
    + split.
      * intros (j & Hj & ->)%fmap_Some. apply IH in Hj as (b & Hs & Hni & Hi).
        exists b. simpl. rewrite <-Hs. split; [done|].
        split; [|lia]. rewrite not_elem_of_cons. auto.
      * intros (b & Hs & Hni & Hi). destruct i as [|i].
        { simpl in Hs. simplify_eq. }
        simpl in *. apply not_elem_of_cons in Hni as [_ Hni]. simplify_eq.
        rewrite (proj2 (IH i)); [done|]. exists b. split; [congruence|]. split; [done|lia].
Qed.

(** [contains] finds exactly the infixes. *)
Lemma contains_spec sub s : contains sub s = true <-> exists a b, s = a ++ sub ++ b.
Proof.
  unfold contains. induction s as [|x s IH]; simpl.
  - destruct (has_prefix [] sub) eqn:Hp.
    + apply has_prefix_spec in Hp as [r Hr]. split; [|done].
      intros _. exists [], r. done.
    + split; [done|]. intros (a & b & Hab). exfalso.
      assert (has_prefix [] sub = true) by
        (apply has_prefix_spec; destruct a, sub; simplify_eq/=; by exists []).
      congruence.
  - destruct (has_prefix (x :: s) sub) eqn:Hp.
    + apply has_prefix_spec in Hp as [r Hr]. split; [|done].
      intros _. exists [], r. done.
    + split.
      * destruct (index sub s); simpl; [|done]. intros _.
        destruct (proj1 IH eq_refl) as (a & b & ->). by exists (x :: a), b.
      * intros (a & b & Hab). destruct a as [|y a]; simplify_eq/=.
        { assert (has_prefix (sub ++ b) sub = true) by (apply has_prefix_spec; eauto).
          congruence. }
        destruct (index sub (a ++ sub ++ b)); [done|].
        by apply IH; eauto.
Qed.

Lemma contains_cons_false sub x s : contains sub (x :: s) = false -> contains sub s = false.
Proof.
  intros Hf. destruct (contains sub s) eqn:Hc; [|done].
  apply contains_spec in Hc as (a & b & ->). rewrite <-Hf. symmetry. apply contains_spec.
  by exists (x :: a), b.
Qed.

Lemma index_Some_contains sub s i : index sub s = Some i -> contains sub s = true.
Proof. unfold contains. by intros ->. Qed.

(** [index] returns a position at which [sub] really occurs. *)
Lemma index_Some sub s i :
  index sub s = Some i -> sub `prefix_of` drop i s /\ (i <= length s)%nat.
Proof.
  revert i. induction s as [|x s IH]; intros i; simpl.
  - destruct (has_prefix [] sub) eqn:Hp; [|done]. intros [= <-].
    apply bool_decide_eq_true in Hp. simpl. split; [done|lia].
  - destruct (has_prefix (x :: s) sub) eqn:Hp.
    + intros [= <-]. apply bool_decide_eq_true in Hp. simpl. split; [done|lia].
    + intros (j & Hj & ->)%fmap_Some. apply IH in Hj as [? ?]. simpl. split; [done|lia].
Qed.

(** ** Cutting, splitting and joining at a separator byte *)

Section split.
Implicit Types (c : ascii) (s : gostring).

(** [strings.Cut] with a one-byte separator. *)
Fixpoint cut c s : option (gostring * gostring) :=
  match s with
  | [] => None
  | x :: s' =>
      if decide (x = c) then Some ([], s')
      else match cut c s' with
           | Some (a, b) => Some (x :: a, b)
           | None => None
           end
  end.

(** [strings.Split(s, c)]. *)
Fixpoint split c s : list gostring :=
  match s with
  | [] => [[]]
  | x :: s' =>
      if decide (x = c) then [] :: split c s'
      else match split c s' with
           | h :: t => (x :: h) :: t
           | [] => [[x]]
           end
  end.

(** [strings.SplitN(s, c, n)] for [n > 0]. *)
Fixpoint splitn c (n : nat) s : list gostring :=
  match n with
  | O => []
  | S O => [s]
  | S (S _ as m) =>
      match cut c s with
      | Some (a, b) => a :: splitn c m b
      | None => [s]
      end
  end.

(** [strings.Join]. *)
Fixpoint join (sep : gostring) (l : list gostring) : gostring :=
  match l with
  | [] => []
  | [x] => x
  | x :: l' => x ++ sep ++ join sep l'
  end.
End split.

Lemma cut_Some c s a b : cut c s = Some (a, b) <-> s = a ++ c :: b /\ c ∉ a.
Proof.
  revert a. induction s as [|x s IH]; intros a; simpl.
  - split; [done|]. intros [? _]. by destruct a.
  - case_decide as Hx; subst.
    + split.
      * intros [= <- <-]. split; [done|apply not_elem_of_nil].
      * intros [Hs Hni]. destruct a as [|y a]; simplify_eq/=; [done|].
        exfalso. apply Hni. left.
    + destruct (cut c s) as [[a' b']|].
      * split.
        { intros [= <- <-]. destruct (proj1 (IH a') eq_refl) as [-> Hni].
          split; [done|]. rewrite not_elem_of_cons. auto. }
        intros [Hs Hni]. destruct a as [|y a]; simplify_eq/=.
        apply not_elem_of_cons in Hni as [_ Hni].
        by pose proof (proj2 (IH a) (conj eq_refl Hni)); simplify_eq.
      * split; [done|]. intros [Hs Hni]. destruct a as [|y a]; simplify_eq/=.
        apply not_elem_of_cons in Hni as [_ Hni].
        by pose proof (proj2 (IH a) (conj eq_refl Hni)).
Qed.

Lemma cut_None c s : cut c s = None <-> c ∉ s.
Proof.
  induction s as [|x s IH]; simpl.
  - split; [by intros _ ?%elem_of_nil|done].
  - rewrite not_elem_of_cons. case_decide; subst.
    + split; [done|]. by intros [? _].
    + rewrite <-IH. destruct (cut c s) as [[a b]|]; split; try done; try (by intros [_ ?]); by split.
Qed.

Lemma split_nonempty c s : split c s <> [].
Proof. destruct s; simpl; [done|]. case_decide; [done|]. by destruct (split c s). Qed.

Lemma split_no_sep c s : Forall (fun p => c ∉ p) (split c s).
Proof.
  induction s as [|x s IH]; simpl.
  - apply Forall_singleton, not_elem_of_nil.
  - case_decide.
    + apply Forall_cons. split; [apply not_elem_of_nil|done].
    + destruct (split c s) eqn:Hs; [by apply split_nonempty in Hs|].
      apply Forall_cons in IH as [? ?]. apply Forall_cons. split; [|done].
      rewrite not_elem_of_cons. auto.
Qed.

Lemma join_cons sep x l :
  l <> [] -> join sep (x :: l) = x ++ sep ++ join sep l.
Proof. by destruct l. Qed.

Lemma join_byte c x l :
  l <> [] -> join [c] (x :: l) = x ++ c :: join [c] l.
Proof. by destruct l. Qed.

Lemma join_split c s : join [c] (split c s) = s.
Proof.
  induction s as [|x s IH]; [done|]. cbn [split]. case_decide; subst.
  - rewrite join_byte by apply split_nonempty. by rewrite IH.
  - destruct (split c s) as [|h t] eqn:Hs; [by apply split_nonempty in Hs|].
    rewrite <-IH. by destruct t.
Qed.

Lemma split_nosep c s : c ∉ s -> split c s = [s].
Proof.
  induction s as [|x s IH]; simpl; [done|]. intros [Hx Hs]%not_elem_of_cons.
  case_decide; [congruence|]. by rewrite IH.
Qed.

Lemma split_cons c s r : c ∉ s -> split c (s ++ c :: r) = s :: split c r.
Proof.
  induction s as [|x s IH]; simpl; intros Hs.
  - by rewrite decide_True.
  - apply not_elem_of_cons in Hs as [Hx Hs].
    rewrite decide_False by congruence. by rewrite IH.
Qed.

Lemma split_join c l :
  l <> [] -> Forall (fun p => c ∉ p) l -> split c (join [c] l) = l.
Proof.
  induction l as [|x l IH]; [done|]. intros _ [Hx Hl]%Forall_cons.
  destruct l as [|y l].
  - by apply split_nosep.
  - rewrite join_byte by done. rewrite split_cons by done. by rewrite IH.
Qed.

(** A cut point splits a string into independently split halves. *)
Lemma split_app_sep c s r : split c (s ++ c :: r) = split c s ++ split c r.
Proof.
  induction s as [|x s IH]; simpl.
  - by rewrite decide_True.
  - case_decide; [by rewrite IH|]. rewrite IH.
    destruct (split c s) eqn:Hs; [by apply split_nonempty in Hs|]. done.
Qed.

Lemma splitn_first c n s : (0 < n)%nat -> exists h t, splitn c n s = h :: t.
Proof.
  destruct n as [|[|n]]; [lia|by eauto|]. intros _. simpl.
  destruct (cut c s) as [[a b]|]; eauto.
Qed.

Lemma join_splitn c n s : (0 < n)%nat -> join [c] (splitn c n s) = s.
Proof.
  revert s. induction n as [|n IH]; intros s Hn; [lia|].
  destruct n as [|n]; [done|]. cbn [splitn].
  destruct (cut c s) as [[a b]|] eqn:Hc; [|done].
  apply cut_Some in Hc as [-> _].
  destruct (splitn_first c (S n) b) as (h & t & Ht); [lia|].
  cbn [splitn] in *. rewrite Ht, join_byte by done. rewrite <-Ht.
  by rewrite (IH b) by lia.
Qed.

(** ** Trimming *)

(** The UTF-8 encodings of the code points for which [unicode.IsSpace] holds:
    the ASCII blanks, U+0085, U+00A0, U+1680, U+2000 to U+200A, U+2028,
    U+2029, U+202F, U+205F and U+3000. *)
Definition space_encodings : list gostring :=
  map (fun z => [chr z]) [9; 10; 11; 12; 13; 32] ++
  map (map chr)
    ([[0xC2; 0x85]; [0xC2; 0xA0]; [0xE1; 0x9A; 0x80]] ++
     map (fun k => [0xE2; 0x80; 0x80 + Z.of_nat k]) (seq 0 11) ++
     [[0xE2; 0x80; 0xA8]; [0xE2; 0x80; 0xA9]; [0xE2; 0x80; 0xAF];
      [0xE2; 0x81; 0x9F]; [0xE3; 0x80; 0x80]]).

(** Drop one leading element of [encs], if there is one. *)
Fixpoint strip_once (encs : list gostring) (s : gostring) : option gostring :=
  match encs with
  | [] => None
  | e :: encs' => if has_prefix s e then Some (drop (length e) s) else strip_once encs' s
  end.

Fixpoint strip (encs : list gostring) (fuel : nat) (s : gostring) : gostring :=
  match fuel with
  | O => s
  | S n => match strip_once encs s with
           | Some s' => strip encs n s'
           | None => s
           end
  end.

(** [strings.TrimSpace]. *)
Definition trim_space (s : gostring) : gostring :=
  let l := strip space_encodings (length s) s in
  reverse (strip (map reverse space_encodings) (length l) (reverse l)).

(** [strings.TrimLeft] / [strings.TrimRight] with a cutset of ASCII bytes. *)
Fixpoint trim_left (p : ascii -> bool) (s : gostring) : gostring :=
  match s with
  | [] => []
  | x :: s' => if p x then trim_left p s' else s
  end.

Definition trim_right (p : ascii -> bool) (s : gostring) : gostring :=
  reverse (trim_left p (reverse s)).

Section strip_lemmas.
Context (encs : list gostring) (Hencs : Forall (fun e : gostring => e <> []) encs).

Lemma strip_once_Some s s' :
  strip_once encs s = Some s' -> exists e, e ∈ encs /\ s = e ++ s'.
Proof.
  clear Hencs. induction encs as [|e l IH]; simpl; [done|].
  destruct (has_prefix s e) eqn:Hp.
  - intros [= <-]. apply has_prefix_spec in Hp as [r ->].
    exists e. rewrite drop_app_length. split; [left|done].
  - intros (e' & ? & ?)%IH. exists e'. split; [by right|done].
Qed.

Lemma strip_once_None s :
  strip_once encs s = None <-> Forall (fun e => has_prefix s e = false) encs.
Proof.
  clear Hencs. induction encs as [|e l IH]; simpl.
  - split; [constructor|done].
  - rewrite Forall_cons. destruct (has_prefix s e); [split; [done|by intros [? _]]|].
    rewrite IH. split; [by split|by intros [_ ?]].
Qed.

Lemma strip_once_shorter s s' :
  strip_once encs s = Some s' -> (length s' < length s)%nat.
Proof.
  intros (e & He & ->)%strip_once_Some. rewrite length_app.
  rewrite Forall_forall in Hencs. specialize (Hencs _ He).
  destruct e; simpl; [done|lia].
Qed.

Lemma strip_id fuel s : strip_once encs s = None -> strip encs fuel s = s.
Proof. clear Hencs. intros H. destruct fuel; simpl; [done|]. by rewrite H. Qed.

Lemma strip_done fuel s :
  (length s <= fuel)%nat -> strip_once encs (strip encs fuel s) = None.
Proof.
  revert s. induction fuel as [|n IH]; intros s Hs; simpl.
  - destruct s; [|simpl in Hs; lia].
    destruct (strip_once encs []) eqn:He; [|done].
    apply strip_once_shorter in He. simpl in He. lia.
  - destruct (strip_once encs s) eqn:He; [|done].
    apply IH. apply strip_once_shorter in He. lia.
Qed.

(** Stripping removes a prefix made of elements of [encs]. *)
Lemma strip_suffix fuel s : exists pre, s = pre ++ strip encs fuel s.
Proof.
  clear Hencs. revert s. induction fuel as [|n IH]; intros s; simpl; [by exists []|].
  destruct (strip_once encs s) as [s'|] eqn:He; [|by exists []].
  apply strip_once_Some in He as (e & _ & ->).
  destruct (IH s') as [pre Hpre]. exists (e ++ pre). rewrite <-app_assoc. by rewrite <-Hpre.
Qed.

(** A prefix of a string that starts with no element of [encs] starts with none. *)
Lemma strip_once_None_prefix s p :
  strip_once encs (p ++ s) = None -> strip_once encs p = None.
Proof.
  clear Hencs. rewrite !strip_once_None, !Forall_forall. intros H e He.
  specialize (H e He). destruct (has_prefix p e) eqn:Hp; [|done].
  apply has_prefix_spec in Hp as [r ->].
  rewrite <-app_assoc in H.
  assert (has_prefix (e ++ r ++ s) e = true) by (apply has_prefix_spec; eauto).
  congruence.
Qed.
End strip_lemmas.

(** A string with neither a leading nor a trailing blank. *)
Definition no_edge_space (s : gostring) : Prop :=
  strip_once space_encodings s = None /\
  strip_once (map reverse space_encodings) (reverse s) = None.

Lemma trim_space_id s : no_edge_space s -> trim_space s = s.
Proof.
  intros [H1 H2]. unfold trim_space. rewrite (strip_id space_encodings) by done.
  rewrite strip_id by done.
  apply reverse_involutive.
Qed.

Lemma space_encodings_nonempty : Forall (fun e : gostring => e <> []) space_encodings.
Proof. unfold space_encodings. simpl. repeat constructor; done. Qed.

Lemma space_encodings_rev_nonempty :
  Forall (fun e : gostring => e <> []) (map reverse space_encodings).
Proof. vm_compute. repeat constructor; done. Qed.

Lemma trim_space_edges s : no_edge_space (trim_space s).
Proof.
  unfold no_edge_space, trim_space.
  set (l := strip space_encodings (length s) s).
  assert (Hl : strip_once space_encodings l = None).
  { apply strip_done; [apply space_encodings_nonempty|done]. }
  rewrite reverse_involutive. split.
  - destruct (strip_suffix (map reverse space_encodings) (length l) (reverse l)) as [pre Hpre].
    apply (f_equal reverse) in Hpre. rewrite reverse_involutive, reverse_app in Hpre.
    apply strip_once_None_prefix with (s := reverse pre). by rewrite <-Hpre.
  - apply strip_done; [apply space_encodings_rev_nonempty|].
    by rewrite length_reverse.
Qed.

Lemma trim_space_idemp s : trim_space (trim_space s) = trim_space s.
Proof. apply trim_space_id, trim_space_edges. Qed.

Lemma trim_left_hd p s : forall x r, trim_left p s = x :: r -> p x = false.
Proof.
  induction s as [|y s IH]; simpl; [done|]. intros x r.
  destruct (p y) eqn:Hy; [apply IH|]. intros ?. by simplify_eq.
Qed.

Lemma trim_left_id p s :
  match s with [] => True | x :: _ => p x = false end -> trim_left p s = s.
Proof. destruct s; simpl; [done|]. by intros ->. Qed.

Lemma trim_left_suffix p s : exists pre, s = pre ++ trim_left p s /\ Forall (fun x => p x = true) pre.
Proof.
  induction s as [|x s (pre & Hs & Hp)]; simpl; [by exists []|].
  destruct (p x) eqn:Hx.
  - exists (x :: pre). rewrite Hs at 1. simpl. split; [done|]. by constructor.
  - by exists [].
Qed.

(** ** Integers in text *)

Definition digit_char (d : Z) : ascii := if d <? 10 then chr (48 + d) else chr (87 + d).

Definition digit_val (c : ascii) : option Z :=
  let z := code c in
  if (48 <=? z) && (z <=? 57) then Some (z - 48)
  else if (97 <=? z) && (z <=? 122) then Some (z - 87)
  else if (65 <=? z) && (z <=? 90) then Some (z - 55)
  else None.

Fixpoint to_digits (b : Z) (fuel : nat) (z : Z) (acc : gostring) : gostring :=
  match fuel with
  | O => acc
  | S n =>
      let acc' := digit_char (z mod b) :: acc in
      if z <? b then acc' else to_digits b n (z / b) acc'
  end.

(** [fmt]'s [%d] and [%x] on a non-negative integer. *)
Definition fmt_uint (b z : Z) : gostring := to_digits b (S (Z.to_nat (Z.log2 z))) z [].

(** [fmt.Sprint] of an integer. *)
Definition itoa (z : Z) : gostring :=
  if z <? 0 then "-" ++ fmt_uint 10 (- z) else fmt_uint 10 z.

(** [%0<w>x]: the sign, if any, comes before the zeros and counts in the width. *)
Definition fmt_hex_pad (w : nat) (z : Z) : gostring :=
  let ds := fmt_uint 16 (Z.abs z) in
  if z <? 0 then "-" ++ replicate (w - S (length ds)) (chr 48) ++ ds
  else replicate (w - length ds) (chr 48) ++ ds.

Fixpoint parse_digits (b : Z) (acc : Z) (s : gostring) : option Z :=
  match s with
  | [] => Some acc
  | c :: s' => match digit_val c with
               | Some d => if d <? b then parse_digits b (acc * b + d) s' else None
               | None => None
               end
  end.

Definition parse_uint (b : Z) (s : gostring) : option Z :=
  match s with [] => None | _ => parse_digits b 0 s end.

(** [strconv.ParseInt(s, 10, bits)]; [None] stands for either error. *)
Definition parse_int (bits : Z) (s : gostring) : option Z :=
  let '(neg, rest) :=
    match s with
    | c :: s' => if decide (c = chr 43) then (false, s')
                 else if decide (c = chr 45) then (true, s')
                 else (false, s)
    | [] => (false, [])
    end in
  match parse_uint 10 rest with
  | None => None
  | Some u =>
      let cutoff := 2 ^ (bits - 1) in
      if neg then (if cutoff <? u then None else Some (- u))
      else (if cutoff <=? u then None else Some u)
  end.

Lemma digit_val_char d : 0 <= d < 16 -> digit_val (digit_char d) = Some d.
Proof.
  intros Hd. assert (d = 0 \/ d = 1 \/ d = 2 \/ d = 3 \/ d = 4 \/ d = 5 \/ d = 6 \/ d = 7 \/
    d = 8 \/ d = 9 \/ d = 10 \/ d = 11 \/ d = 12 \/ d = 13 \/ d = 14 \/ d = 15) as Hc by lia.
  destruct_or! Hc; by subst.
Qed.

Lemma parse_digits_app b acc s t :
  parse_digits b acc (s ++ t) = parse_digits b acc s ≫= fun a => parse_digits b a t.
Proof.
  revert acc. induction s as [|c s IH]; intros acc; simpl; [done|].
  destruct (digit_val c); [|done]. case_match; [apply IH|done].
Qed.

(** The accumulator form behind [fmt_uint]: enough fuel prints every digit. *)
Lemma to_digits_parse b fuel z acc k :
  2 <= b <= 16 -> 0 <= z < b ^ Z.of_nat fuel -> 0 <= k ->
  exists ds, to_digits b fuel z acc = ds ++ acc /\ (fuel <> 0%nat -> ds <> []) /\
    parse_digits b k ds = Some (k * b ^ Z.of_nat (length ds) + z) /\
    Forall (fun c => exists d, 0 <= d < b /\ c = digit_char d) ds.
Proof.
  intros Hb. revert z acc. induction fuel as [|n IH]; intros z acc Hz Hk; cbn [to_digits].
  { exists []. simpl in *. rewrite Z.pow_0_r in *. split; [done|]. split; [done|].
    split; [f_equal; lia|constructor]. }
  assert (Hd : 0 <= z mod b < b) by (apply Z.mod_pos_bound; lia).
  assert (Hv : forall a, parse_digits b a [digit_char (z mod b)] = Some (a * b + z mod b)).
  { intros a. simpl. rewrite digit_val_char by lia. by rewrite (proj2 (Z.ltb_lt _ _)) by lia. }
  assert (Hc : Forall (fun c => exists d, 0 <= d < b /\ c = digit_char d) [digit_char (z mod b)]).
  { apply Forall_singleton. eauto. }
  destruct (z <? b) eqn:Hlt; reflect_bools.
  - exists [digit_char (z mod b)]. split; [done|]. split; [done|]. rewrite Hv. split; [|done].
    rewrite Z.mod_small by lia. simpl. rewrite Z.pow_1_r. done.
  - destruct (IH (z / b) (digit_char (z mod b) :: acc)) as (ds & -> & Hne & Hp & Hf).
    { rewrite Nat2Z.inj_succ, Z.pow_succ_r in Hz by lia.
      split; [apply Z.div_pos; lia|]. apply Z.div_lt_upper_bound; lia. }
    { done. }
    exists (ds ++ [digit_char (z mod b)]). rewrite <-app_assoc. split; [done|].
    split; [by destruct ds|]. split; [|by apply Forall_app].
    rewrite parse_digits_app, Hp. etransitivity; [apply Hv|]. f_equal.
    rewrite length_app, Nat2Z.inj_add, Z.pow_add_r by lia. simpl. rewrite Z.pow_1_r.
    pose proof (Z.div_mod z b ltac:(lia)). nia.
Qed.

Lemma pow_log2_bound b z : 2 <= b -> 0 <= z -> z < b ^ Z.of_nat (S (Z.to_nat (Z.log2 z))).
Proof.
  intros Hb Hz. destruct (decide (z = 0)) as [->|Hne].
  { simpl. rewrite Z.pow_1_r. lia. }
  pose proof (Z.log2_spec z ltac:(lia)) as [_ Hlt].
  pose proof (Z.log2_nonneg z).
  rewrite Nat2Z.inj_succ, Z2Nat.id by lia.
  eapply Z.lt_le_trans; [exact Hlt|].
  apply Z.pow_le_mono_l; lia.
Qed.

(** Printing in base [b] and reading back gives the number. *)
Lemma fmt_uint_spec b z :
  2 <= b <= 16 -> 0 <= z ->
  fmt_uint b z <> [] /\
  parse_digits b 0 (fmt_uint b z) = Some z /\
  Forall (fun c => exists d, 0 <= d < b /\ c = digit_char d) (fmt_uint b z).
Proof.
  intros Hb Hz. unfold fmt_uint.
  destruct (to_digits_parse b (S (Z.to_nat (Z.log2 z))) z [] 0) as (ds & -> & Hne & Hp & Hf);
    [done|split; [lia|apply pow_log2_bound; lia]|lia|].
  rewrite app_nil_r. split; [by apply Hne|]. split; [|done].
  rewrite Hp. f_equal; lia.
Qed.

Lemma to_digits_length b fuel z acc n :
  2 <= b -> 0 <= z < b ^ Z.of_nat n -> (0 < n)%nat ->
  (length (to_digits b fuel z acc) <= n + length acc)%nat.
Proof.
  intros Hb. revert z acc n. induction fuel as [|f IH]; intros z acc n Hz Hn; cbn [to_digits]; [lia|].
  destruct (z <? b) eqn:Hlt; reflect_bools; [simpl; lia|].
  destruct n as [|[|n]]; [lia|simpl in Hz; rewrite Z.pow_1_r in Hz; lia|].
  specialize (IH (z / b) (digit_char (z mod b) :: acc) (S n)). simpl in *.
  rewrite <-plus_n_Sm in IH. apply IH; [|lia].
  split; [apply Z.div_pos; lia|]. apply Z.div_lt_upper_bound; [lia|].
  rewrite <-Z.pow_succ_r by lia. replace (Z.succ (Z.of_nat (S n))) with (Z.of_nat (S (S n))) by lia.
  apply Hz.
Qed.

Lemma fmt_uint_length b z n :
  2 <= b -> 0 <= z < b ^ Z.of_nat n -> (0 < n)%nat -> (length (fmt_uint b z) <= n)%nat.
Proof.
  intros. unfold fmt_uint. etransitivity; [by apply to_digits_length|]. simpl. lia.
Qed.

Lemma fmt_hex_pad_length w z :
  0 <= z < 16 ^ Z.of_nat w -> (0 < w)%nat -> length (fmt_hex_pad w z) = w.
Proof.
  intros Hz Hw. unfold fmt_hex_pad. rewrite (proj2 (Z.ltb_ge _ _)) by lia.
  rewrite Z.abs_eq by lia. rewrite length_app, length_replicate.
  pose proof (fmt_uint_length 16 z w ltac:(lia) Hz Hw). lia.
Qed.

Lemma digit_char_code d :
  0 <= d < 16 -> 48 <= code (digit_char d) <= 57 \/ 97 <= code (digit_char d) <= 102.
Proof.
  intros Hd. unfold digit_char. destruct (d <? 10) eqn:Hlt; reflect_bools;
    rewrite code_chr by lia; lia.
Qed.

(** A decimal numeral read by [ParseInt] with its sign already split off. *)
Lemma parse_uint_fmt b z : 2 <= b <= 16 -> 0 <= z -> parse_uint b (fmt_uint b z) = Some z.
Proof.
  intros Hb Hz. destruct (fmt_uint_spec b z Hb Hz) as (Hne & Hp & _).
  unfold parse_uint. by destruct (fmt_uint b z).
Qed.

(** [ParseInt] reads back what [%d] prints, for every value of the width. *)
Lemma parse_int_itoa bits z :
  1 <= bits -> - 2 ^ (bits - 1) <= z < 2 ^ (bits - 1) -> parse_int bits (itoa z) = Some z.
Proof.
  intros Hbits Hz. unfold itoa. destruct (z <? 0) eqn:Hneg; reflect_bools.
  - unfold parse_int. cbn [app]. rewrite decide_False, decide_True by done.
    rewrite parse_uint_fmt by lia. rewrite (proj2 (Z.ltb_ge _ _)) by lia. f_equal; lia.
  - destruct (fmt_uint_spec 10 z) as (Hne & _ & Hf); [lia|lia|].
    unfold parse_int. destruct (fmt_uint 10 z) as [|c ds] eqn:Hs; [done|].
    apply Forall_cons in Hf as [(d & Hd & ->) _].
    pose proof (digit_char_code d ltac:(lia)).
    rewrite !decide_False by (intros Hc; rewrite Hc, code_chr in * by lia; lia).
    rewrite <-Hs, parse_uint_fmt by lia. by rewrite (proj2 (Z.leb_gt _ _)) by lia.
Qed.

(** ** UTF-8 *)

Definition rune_error : Z := 0xFFFD.

Definition in_range (lo hi z : Z) : bool := (lo <=? z) && (z <=? hi).

(** [utf8.DecodeRuneInString] on a non-empty string: the code point and the
    number of bytes it takes; an invalid byte is U+FFFD of width one. *)
Definition decode_rune (b0 : Z) (rest : list Z) : Z * nat :=
  let cont z := in_range 0x80 0xBF z in
  let low z := Z.land z 0x3F in
  if b0 <? 0x80 then (b0, 1%nat)
  else if in_range 0xC2 0xDF b0 then
    match rest with
    | b1 :: _ => if cont b1 then (Z.shiftl (Z.land b0 0x1F) 6 + low b1, 2%nat)
                 else (rune_error, 1%nat)
    | [] => (rune_error, 1%nat)
    end
  else if in_range 0xE0 0xEF b0 then
    let lo := if b0 =? 0xE0 then 0xA0 else 0x80 in
    let hi := if b0 =? 0xED then 0x9F else 0xBF in
    match rest with
    | b1 :: b2 :: _ =>
        if in_range lo hi b1 && cont b2
        then (Z.shiftl (Z.land b0 0x0F) 12 + Z.shiftl (low b1) 6 + low b2, 3%nat)
        else (rune_error, 1%nat)
    | _ => (rune_error, 1%nat)
    end
  else if in_range 0xF0 0xF4 b0 then
    let lo := if b0 =? 0xF0 then 0x90 else 0x80 in
    let hi := if b0 =? 0xF4 then 0x8F else 0xBF in
    match rest with
    | b1 :: b2 :: b3 :: _ =>
        if in_range lo hi b1 && cont b2 && cont b3
        then (Z.shiftl (Z.land b0 0x07) 18 + Z.shiftl (low b1) 12 +
              Z.shiftl (low b2) 6 + low b3, 4%nat)
        else (rune_error, 1%nat)
    | _ => (rune_error, 1%nat)
    end
  else (rune_error, 1%nat).

(** [for _, r := range s]: the code points of a string.  [skip] counts the
    continuation bytes of the rune just decoded. *)
Fixpoint runes_go (skip : nat) (s : list Z) : list Z :=
  match s with
  | [] => []
  | b :: s' =>
      match skip with
      | S k => runes_go k s'
      | O => let '(r, n) := decode_rune b s' in r :: runes_go (n - 1) s'
      end
  end.

Definition runes (s : gostring) : list Z := runes_go 0 (map code s).

(** [utf8.AppendRune]. *)
Definition encode_rune (r : Z) : gostring :=
  let r := if in_range 0xD800 0xDFFF r || (0x10FFFF <? r) || (r <? 0) then rune_error else r in
  if r <? 0x80 then [chr r]
  else if r <? 0x800 then
    [chr (0xC0 + Z.shiftr r 6); chr (0x80 + Z.land r 0x3F)]
  else if r <? 0x10000 then
    [chr (0xE0 + Z.shiftr r 12); chr (0x80 + Z.land (Z.shiftr r 6) 0x3F);
     chr (0x80 + Z.land r 0x3F)]
  else
    [chr (0xF0 + Z.shiftr r 18); chr (0x80 + Z.land (Z.shiftr r 12) 0x3F);
     chr (0x80 + Z.land (Z.shiftr r 6) 0x3F); chr (0x80 + Z.land r 0x3F)].

(** [string(rs)] for a slice of runes. *)
Definition of_runes (rs : list Z) : gostring := concat (map encode_rune rs).

(** [strings.Map]: a negative result drops the rune. *)
Definition map_runes (f : Z -> Z) (s : gostring) : gostring :=
  of_runes (List.filter (fun r => 0 <=? r) (map f (runes s))).

(** The case tables of package [unicode] beyond ASCII. *)
Class UnicodeTables := {
  lower_table : Z -> Z;
  upper_table : Z -> Z;
}.

Section case.
Context `{UnicodeTables}.

Definition rune_lower (r : Z) : Z :=
  if r <? 0x80 then (if in_range 65 90 r then r + 32 else r) else lower_table r.
Definition rune_upper (r : Z) : Z :=
  if r <? 0x80 then (if in_range 97 122 r then r - 32 else r) else upper_table r.

(** [strings.ToLower] and [strings.ToUpper]. *)
Definition to_lower (s : gostring) : gostring := map_runes rune_lower s.
Definition to_upper (s : gostring) : gostring := map_runes rune_upper s.
End case.

(** Tables that change nothing, for concrete evaluation on ASCII strings. *)
Definition ascii_tables : UnicodeTables :=
  {| lower_table := fun r => r; upper_table := fun r => r |}.

Definition is_ascii (s : gostring) : Prop := Forall (fun c => code c < 128) s.

Lemma runes_ascii s : is_ascii s -> runes s = map code s.
Proof.
  unfold runes. induction s as [|c s IH]; simpl; [done|]. intros [Hc Hs]%Forall_cons.
  unfold decode_rune. rewrite (proj2 (Z.ltb_lt _ _)) by lia. simpl. by rewrite IH.
Qed.

Lemma encode_rune_ascii r : 0 <= r < 128 -> encode_rune r = [chr r].
Proof.
  intros Hr. unfold encode_rune, in_range.
  rewrite (proj2 (Z.leb_gt 0xD800 r)), (proj2 (Z.ltb_ge 0x10FFFF r)), (proj2 (Z.ltb_ge r 0)) by lia.
  simpl. by rewrite (proj2 (Z.ltb_lt r 128)) by lia.
Qed.

(** A rune map into ASCII yields one byte per rune. *)
Lemma map_runes_ascii f s :
  (forall r, 0 <= f r < 128) -> map_runes f s = map (fun r => chr (f r)) (runes s).
Proof.
  intros Hf. unfold map_runes, of_runes. induction (runes s) as [|r rs IH]; simpl; [done|].
  rewrite (proj2 (Z.leb_le _ _)) by (specialize (Hf r); lia). simpl.
  rewrite encode_rune_ascii by done. simpl. by rewrite IH.
Qed.

Lemma runes_nonneg s : Forall (fun r => 0 <= r) (runes s).
Proof.
  unfold runes. generalize 0%nat. induction s as [|c s IH]; intros k; simpl; [constructor|].
  destruct k as [|k]; [|apply IH].
  assert (Hr : 0 <= (decode_rune (code c) (map code s)).1).
  { assert (Hl : forall z, 0 <= Z.land z 63) by (intros; apply Z.land_nonneg; lia).
    assert (Hs : forall z m k, 0 <= m -> 0 <= Z.shiftl (Z.land z m) k) by
      (intros; apply Z.shiftl_nonneg, Z.land_nonneg; lia).
    pose proof (code_range c).
    unfold decode_rune, rune_error. repeat case_match; simpl;
      repeat apply Z.add_nonneg_nonneg; auto with lia. }
  destruct (decode_rune _ _) as [r n]. constructor; [done|apply IH].
Qed.

(** The zero padding of [%0<w>x] does not change the value read back. *)
Lemma fmt_hex_pad_parse w z :
  0 <= z -> parse_digits 16 0 (fmt_hex_pad w z) = Some z.
Proof.
  intros Hz. unfold fmt_hex_pad. rewrite (proj2 (Z.ltb_ge _ _)) by lia.
  rewrite Z.abs_eq by lia. rewrite parse_digits_app.
  assert (Hr : forall n, parse_digits 16 0 (replicate n (chr 48)) = Some 0).
  { induction n as [|n IH]; [done|]. simpl. apply IH. }
  rewrite Hr. simpl. by destruct (fmt_uint_spec 16 z) as (_ & -> & _).
Qed.

Lemma fmt_hex_pad_inj w z z' :
  0 <= z -> 0 <= z' -> fmt_hex_pad w z = fmt_hex_pad w z' -> z = z'.
Proof.
  intros Hz Hz' H. apply (f_equal (parse_digits 16 0)) in H.
  rewrite !fmt_hex_pad_parse in H by done. by simplify_eq.
Qed.

Lemma fmt_hex_pad_chars w z :
  0 <= z ->
  Forall (fun c => 48 <= code c <= 57 \/ 97 <= code c <= 102) (fmt_hex_pad w z).
Proof.
  intros Hz. unfold fmt_hex_pad. rewrite (proj2 (Z.ltb_ge _ _)) by lia.
  rewrite Z.abs_eq by lia. apply Forall_app. split.
  - apply Forall_replicate. left. rewrite code_chr by lia. lia.
  - destruct (fmt_uint_spec 16 z) as (_ & _ & Hf); [lia|done|].
    eapply Forall_impl; [exact Hf|]. simpl. intros c (d & Hd & ->). by apply digit_char_code.
Qed.

(** An affix that does not contain a byte cannot reach across that byte. *)
Lemma has_prefix_sep (e x y : gostring) c :
  c ∉ e -> has_prefix (x ++ c :: y) e = has_prefix x e.
Proof.
  intros Hc. apply bool_decide_ext. split; [|apply prefix_app_r].
  intros [r Hr]. revert x Hr. induction e as [|z e IH]; intros x Hr; [by exists x|].
  apply not_elem_of_cons in Hc as [Hz He].
  destruct x as [|w x]; simplify_eq/=.
  apply prefix_cons. by apply IH.
Qed.

Lemma strip_once_sep encs x y c :
  Forall (fun e => c ∉ e) encs ->
  strip_once encs (x ++ c :: y) = None <-> strip_once encs x = None.
Proof.
  intros Hc. rewrite !strip_once_None. rewrite !Forall_forall in *.
  split; intros H e He; [rewrite <-(has_prefix_sep e x y c)|rewrite has_prefix_sep]; auto.
Qed.

(** Around a byte that is part of no blank, the two edges are independent. *)
Lemma no_edge_space_sep x y c :
  Forall (fun e => c ∉ e) space_encodings ->
  no_edge_space (x ++ c :: y) <->
  strip_once space_encodings x = None /\
  strip_once (map reverse space_encodings) (reverse y) = None.
Proof.
  intros Hc. unfold no_edge_space. rewrite strip_once_sep by done.
  rewrite reverse_app, reverse_cons, <-app_assoc. cbn [app].
  rewrite strip_once_sep; [done|].
  apply Forall_map. eapply Forall_impl; [exact Hc|]. simpl. intros e. by rewrite elem_of_reverse.
Qed.

Lemma land_low z m k : 0 <= k -> m = Z.ones k -> Z.land z m = z mod 2 ^ k.
Proof. intros Hk ->. by apply Z.land_ones. Qed.

(** Every rune whose encoding starts with a non-ASCII byte is non-ASCII. *)
Lemma decode_rune_ge b rest :
  128 <= b -> 128 <= (decode_rune b rest).1.
Proof.
  intros Hb. unfold decode_rune, rune_error, in_range.
  rewrite (proj2 (Z.ltb_ge _ _)) by lia.
  assert (Hlow : forall z, Z.land z 63 = z mod 64) by (intros; by rewrite (land_low z 63 6)).
  assert (H31 : forall z, Z.land z 31 = z mod 32) by (intros; by rewrite (land_low z 31 5)).
  assert (H15 : forall z, Z.land z 15 = z mod 16) by (intros; by rewrite (land_low z 15 4)).
  assert (H7 : forall z, Z.land z 7 = z mod 8) by (intros; by rewrite (land_low z 7 3)).
  repeat (case_match; simplify_eq/=; try lia);
    rewrite ?Hlow, ?H31, ?H15, ?H7, ?Z.shiftl_mul_pow2 by lia;
    reflect_bools; Z.div_mod_to_equations; lia.
Qed.

Lemma runes_below_ascii s : Forall (fun r => r < 128) (runes s) -> is_ascii s.
Proof.
  unfold runes. induction s as [|c s IH]; simpl; [constructor|].
  destruct (decide (code c < 128)) as [Hc|Hc].
  - unfold decode_rune. rewrite (proj2 (Z.ltb_lt _ _)) by lia. simpl.
    intros [_ Hr]%Forall_cons. constructor; [done|by apply IH].
  - pose proof (decode_rune_ge (code c) (map code s) ltac:(lia)) as Hge.
    destruct (decode_rune _ _) as [r n]. intros [Hr _]%Forall_cons. simpl in Hge. lia.
Qed.

(** [%d] prints digits and at most a sign: no other byte occurs. *)
Lemma itoa_chars z : Forall (fun c => c = chr 45 \/ 48 <= code c <= 57) (itoa z).
Proof.
  assert (forall y, 0 <= y -> Forall (fun c => c = chr 45 \/ 48 <= code c <= 57) (fmt_uint 10 y)) as Hu.
  { intros y Hy. destruct (fmt_uint_spec 10 y) as (_ & _ & Hf); [lia|done|].
    apply (Forall_impl _ _ _ Hf). intros c (d & Hd & ->). right.
    unfold digit_char. rewrite (proj2 (Z.ltb_lt _ _)) by lia. rewrite code_chr by lia. lia. }
  unfold itoa. destruct (z <? 0) eqn:Hz; reflect_bools; [|by apply Hu].
  apply Forall_app. split; [repeat constructor|apply Hu; lia].
Qed.

Lemma itoa_no c z : c <> chr 45 -> (code c < 48 \/ 57 < code c) -> c ∉ itoa z.
Proof.
  intros Hc Hr Hin. pose proof (itoa_chars z) as Hf.
  eapply Forall_forall in Hf; [|exact Hin]. destruct Hf as [?|?]; [done|lia].
Qed.
