(* ===== verification/Config.v ===== *)
(** * Configuration ([pkg/config/config.go])

    Defaults, the file's values, the overrides from the environment and the
    validation.  Durations are [time.Duration]: 64-bit counts of nanoseconds.
    The YAML decoder is a parameter: what it does to a configuration. *)
From Stdlib Require Import Ascii.
From S2P Require Import Prelude GoStrings.
#[local] Open Scope Z_scope.
#[local] Open Scope go_scope.

Definition Second : Z := 1000000000.
Definition Millisecond : Z := 1000000.
Definition Minute : Z := 60 * Second.
Definition Hour : Z := 60 * Minute.

Record JobSecret := { jsName : gostring; jsMountPath : gostring }.

Record Config := {
  ServerURL : gostring;
  RegistrationToken : gostring;
  Insecure : bool;
  RunnerName : gostring;
  Labels : list gostring;
  Capacity : Z;
  Ephemeral : bool;
  FetchInterval : Z;
  FetchTimeout : Z;
  Timeout : Z;
  ShutdownTimeout : Z;
  GitCloneURL : gostring;
  ActionsURL : gostring;
  ControllerImage : gostring;
  JobSecrets : list JobSecret;
  AptProxyURL : gostring;
  CacheEnabled : bool;
  CacheDir : gostring;
  CachePort : Z;
  CacheServiceName : gostring;
  SnapshotEnabled : bool;
  SnapshotClass : gostring;
  StorageClass : gostring;
  SnapshotSize : gostring;
  RetentionDays : Z;
  LogLevel : gostring;
}.

(** [min(timeout, 10*fetchTimeout)] clamped to 30 s and 5 min; the product
    wraps around. *)
Definition computeShutdownTimeoutDefault (timeout fetchTimeout : Z) : Z :=
  let d := Z.min timeout (wrap64 (10 * fetchTimeout)) in
  Z.max (30 * Second) (Z.min d (5 * Minute)).

Definition Default (hostname : gostring) : Config := {|
  ServerURL := []; RegistrationToken := []; Insecure := false;
  RunnerName := hostname; Labels := ["ubuntu-latest:docker://node:22-bookworm"]; Capacity := 1;
  Ephemeral := false; FetchInterval := 2 * Second; FetchTimeout := 30 * Second;
  Timeout := 3 * Hour;
  ShutdownTimeout := computeShutdownTimeoutDefault (3 * Hour) (30 * Second);
  GitCloneURL := []; ActionsURL := []; ControllerImage := []; JobSecrets := []; AptProxyURL := [];
  CacheEnabled := true; CacheDir := "/cache"; CachePort := 9300; CacheServiceName := [];
  SnapshotEnabled := false; SnapshotClass := []; StorageClass := []; SnapshotSize := "10Gi";
  RetentionDays := 7; LogLevel := "info" |}.

(** The environment, and the standard library's duration parser. *)
Class ConfigEnv := {
  Getenv : gostring -> gostring;
  ParseDuration : gostring -> option Z;
}.

Section overrides.
Context `{ConfigEnv}.

Definition env_string (k old : gostring) : gostring :=
  if decide (Getenv k = []) then old else Getenv k.
Definition env_bool (k : gostring) (old : bool) : bool :=
  if decide (Getenv k = []) then old
  else bool_decide (Getenv k = "true") || bool_decide (Getenv k = "1").
Definition env_parsed (parse : gostring -> option Z) (k : gostring) (old : Z) : Z :=
  if decide (Getenv k = []) then old else default old (parse (Getenv k)).
Definition Atoi : gostring -> option Z := parse_int 64.
Definition uint16 (z : Z) : Z := z mod 2 ^ 16.

(** [applyEnvOverrides]: each variable that is set replaces its field. *)
Definition applyEnvOverrides (c : Config) : Config := {|
  ServerURL := env_string "SERVER_URL" (ServerURL c);
  RegistrationToken := env_string "SERVER_REGISTRATION_TOKEN" (RegistrationToken c);
  Insecure := env_bool "SERVER_INSECURE" (Insecure c);
  RunnerName := env_string "RUNNER_NAME" (RunnerName c);
  Labels := if decide (Getenv "RUNNER_LABELS" = []) then Labels c
            else split (chr 44) (Getenv "RUNNER_LABELS");
  Capacity := env_parsed Atoi "RUNNER_CAPACITY" (Capacity c);
  Ephemeral := env_bool "RUNNER_EPHEMERAL" (Ephemeral c);
  FetchInterval := FetchInterval c; FetchTimeout := FetchTimeout c; Timeout := Timeout c;
  ShutdownTimeout := env_parsed ParseDuration "RUNNER_SHUTDOWN_TIMEOUT" (ShutdownTimeout c);
  GitCloneURL := env_string "RUNNER_GIT_CLONE_URL" (GitCloneURL c);
  ActionsURL := env_string "RUNNER_ACTIONS_URL" (ActionsURL c);
  ControllerImage := env_string "CONTROLLER_IMAGE" (ControllerImage c);
  JobSecrets := JobSecrets c;
  AptProxyURL := env_string "RUNNER_APT_PROXY_URL" (AptProxyURL c);
  CacheEnabled := env_bool "CACHE_ENABLED" (CacheEnabled c);
  CacheDir := env_string "CACHE_DIR" (CacheDir c);
  CachePort := env_parsed (fun s => uint16 <$> Atoi s) "CACHE_PORT" (CachePort c);
  CacheServiceName := env_string "CACHE_SERVICE_NAME" (CacheServiceName c);
  SnapshotEnabled := env_bool "SNAPSHOT_ENABLED" (SnapshotEnabled c);
  SnapshotClass := env_string "SNAPSHOT_CLASS" (SnapshotClass c);
  StorageClass := env_string "SNAPSHOT_STORAGE_CLASS" (StorageClass c);
  SnapshotSize := env_string "SNAPSHOT_SIZE" (SnapshotSize c);
  RetentionDays := env_parsed Atoi "SNAPSHOT_RETENTION_DAYS" (RetentionDays c);
  LogLevel := env_string "LOG_LEVEL" (LogLevel c);
|}.

Definition or_string (v d : gostring) : gostring := if decide (v = []) then d else v.
Definition or_zero (v d : Z) : Z := if decide (v = 0) then d else v.

(** The defaults for zero values; the default shutdown timeout follows the
    timeouts the configuration then has. *)
Definition fill_defaults (d c : Config) : Config :=
  let timeout := or_zero (Timeout c) (Timeout d) in
  let fetchTimeout := or_zero (FetchTimeout c) (FetchTimeout d) in {|
  ServerURL := ServerURL c; RegistrationToken := RegistrationToken c; Insecure := Insecure c;
  RunnerName := or_string (RunnerName c) (RunnerName d); Labels := Labels c;
  Capacity := or_zero (Capacity c) (Capacity d); Ephemeral := Ephemeral c;
  FetchInterval := or_zero (FetchInterval c) (FetchInterval d);
  FetchTimeout := fetchTimeout; Timeout := timeout;
  ShutdownTimeout := or_zero (ShutdownTimeout c) (computeShutdownTimeoutDefault timeout fetchTimeout);
  GitCloneURL := GitCloneURL c; ActionsURL := ActionsURL c; ControllerImage := ControllerImage c;
  JobSecrets := JobSecrets c; AptProxyURL := AptProxyURL c; CacheEnabled := CacheEnabled c;
  CacheDir := or_string (CacheDir c) (CacheDir d); CachePort := or_zero (CachePort c) (CachePort d);
  CacheServiceName := CacheServiceName c; SnapshotEnabled := SnapshotEnabled c;
  SnapshotClass := SnapshotClass c; StorageClass := StorageClass c; SnapshotSize := SnapshotSize c;
  RetentionDays := RetentionDays c; LogLevel := or_string (LogLevel c) (LogLevel d);
|}.

(** What reading the file gives: it does not exist, cannot be read, or holds a
    document that the decoder applies to a configuration. *)
Inductive config_file := NoFile | Unreadable | Document (decode : Config -> option Config).

Inductive load_error := ReadingConfig | ParsingConfig.

Definition Load (hostname : gostring) (f : config_file) : result load_error Config :=
  match f with
  | NoFile => Ok (applyEnvOverrides (Default hostname))
  | Unreadable => Err ReadingConfig
  | Document decode =>
      match decode (Default hostname) with
      | None => Err ParsingConfig
      | Some c => Ok (applyEnvOverrides (fill_defaults (Default hostname) c))
      end
  end.
End overrides.

Inductive config_error :=
  | NoServerURL | NoLabels | BadCapacity (n : Z) | BadFetchInterval | BadFetchTimeout
  | BadTimeout | ShutdownTooShort | ShutdownTooLong | NoCacheDir | NoSnapshotClass
  | NoStorageClass | BadRetention (n : Z) | BadLogLevel (l : gostring).

(** The first failing check. *)
Fixpoint first_error (checks : list (bool * config_error)) : option config_error :=
  match checks with
  | [] => None
  | (failed, e) :: checks => if failed then Some e else first_error checks
  end.

Definition Validate (c : Config) : option config_error :=
  first_error [
    (bool_decide (ServerURL c = []), NoServerURL);
    (bool_decide (Labels c = []), NoLabels);
    (Capacity c <? 1, BadCapacity (Capacity c));
    (FetchInterval c <? 100 * Millisecond, BadFetchInterval);
    (FetchTimeout c <? FetchInterval c, BadFetchTimeout);
    (Timeout c <? 1 * Minute, BadTimeout);
    (ShutdownTimeout c <? 1 * Second, ShutdownTooShort);
    (Timeout c <? ShutdownTimeout c, ShutdownTooLong);
    (CacheEnabled c && bool_decide (CacheDir c = []), NoCacheDir);
    (SnapshotEnabled c && bool_decide (SnapshotClass c = []), NoSnapshotClass);
    (SnapshotEnabled c && bool_decide (StorageClass c = []), NoStorageClass);
    (SnapshotEnabled c && (RetentionDays c <? 1), BadRetention (RetentionDays c));
    (negb (existsb (fun l => bool_decide (LogLevel c = l)) ["debug"; "info"; "warn"; "error"]),
     BadLogLevel (LogLevel c))].

(** ** Theorems *)

Lemma shutdown_default_bounds timeout fetchTimeout :
  30 * Second <= computeShutdownTimeoutDefault timeout fetchTimeout <= 5 * Minute /\
  computeShutdownTimeoutDefault timeout fetchTimeout <= Z.max (30 * Second) timeout.
Proof. unfold computeShutdownTimeoutDefault, Minute, Second. lia. Qed.

Section theorems.
Context `{ConfigEnv}.

(** What a file says of the shutdown timeout: nothing, or a value.  [Load]
    decodes into the defaults, so a file that says nothing keeps theirs. *)
Definition unset_in (f : config_file) : Prop :=
  match f with
  | Document decode => forall c c', decode c = Some c' -> ShutdownTimeout c' = ShutdownTimeout c
  | _ => True
  end.
Definition set_in (f : config_file) (v : Z) : Prop :=
  match f with
  | Document decode => forall c c', decode c = Some c' -> ShutdownTimeout c' = v
  | _ => False
  end.

(** The two checks of [Validate] on the shutdown timeout. *)
Lemma validate_shutdown c :
  (Validate c = Some ShutdownTooShort -> ShutdownTimeout c < 1 * Second /\ 1 * Minute <= Timeout c) /\
  (Validate c = Some ShutdownTooLong -> Timeout c < ShutdownTimeout c /\ 1 * Minute <= Timeout c) /\
  (Timeout c < ShutdownTimeout c -> Validate c <> None).
Proof.
  split_and!; [intros Hv|intros Hv|intros Ht Hv]; unfold Validate in Hv; cbn [first_error] in Hv;
    repeat match type of Hv with
    | (if ?b then _ else _) = _ => destruct b eqn:?; [try discriminate|]
    end; try discriminate; reflect_bools; unfold Minute, Second in *; lia.
Qed.

(** The field before the environment's override. *)
Lemma Load_shutdown hostname f c :
  Load hostname f = Ok c ->
  exists d, Timeout c = Timeout d /\
    ShutdownTimeout c = env_parsed ParseDuration "RUNNER_SHUTDOWN_TIMEOUT" (ShutdownTimeout d) /\
    (unset_in f -> ShutdownTimeout d = 5 * Minute) /\
    (forall v, set_in f v -> ShutdownTimeout d =
       or_zero v (computeShutdownTimeoutDefault (Timeout d) (FetchTimeout d))).
Proof.
  destruct f as [| |decode]; simpl; [intros [= <-]|done|].
  - by exists (Default hostname).
  - destruct (decode _) as [c0|] eqn:Hd; [|done]. intros [= <-].
    exists (fill_defaults (Default hostname) c0). split; [done|]. split; [done|]. simpl. split.
    + intros Hf. by rewrite (Hf _ _ Hd).
    + intros v Hf. by rewrite (Hf _ _ Hd).
Qed.

(** C38: where the shutdown timeout comes from.  A duration in the environment
    wins; a value in the file is kept; a zero in the file is replaced by a
    default computed from the other timeouts, between 30 s and 5 min even if
    [10*fetch_timeout] overflows, which passes both of its checks.  A file that
    does not mention it leaves the default's 5 min whatever its other timeouts
    are: validation then accepts it exactly as far as the job timeout is at
    least 5 min, and refuses every configuration with a shorter one. *)
Theorem shutdown_timeout_resolved hostname f c :
  Load hostname f = Ok c ->
  let env := if decide (Getenv "RUNNER_SHUTDOWN_TIMEOUT" = []) then None
             else ParseDuration (Getenv "RUNNER_SHUTDOWN_TIMEOUT") in
  (forall d, env = Some d -> ShutdownTimeout c = d) /\
  (env = None ->
   (forall v, v <> 0 -> set_in f v -> ShutdownTimeout c = v) /\
   (set_in f 0 -> 30 * Second <= ShutdownTimeout c <= 5 * Minute /\
      Validate c <> Some ShutdownTooShort /\ Validate c <> Some ShutdownTooLong) /\
   (unset_in f -> ShutdownTimeout c = 5 * Minute /\
      (5 * Minute <= Timeout c ->
         Validate c <> Some ShutdownTooShort /\ Validate c <> Some ShutdownTooLong) /\
      (Timeout c < 5 * Minute -> Validate c <> None))).
Proof.
  intros (d & Ht & Hs & Hunset & Hset)%Load_shutdown env.
  destruct (validate_shutdown c) as (Hshort & Hlong & Hnone).
  assert (ShutdownTimeout c = default (ShutdownTimeout d) env) as He.
  { rewrite Hs. unfold env_parsed, env. by case_decide. }
  split; [intros e Hd; by rewrite He, Hd|]. intros Hd. rewrite Hd in He. simpl in He. split_and!.
  - intros v Hv Hf. rewrite He, (Hset v Hf). unfold or_zero. by rewrite decide_False.
  - intros Hf. rewrite (Hset 0 Hf) in He. unfold or_zero in He. rewrite decide_True in He by done.
    destruct (shutdown_default_bounds (Timeout d) (FetchTimeout d)) as [Hb Hmax].
    rewrite <-He in Hb, Hmax. rewrite <-Ht in Hmax. unfold Minute, Second in *. split; [done|].
    split; [intros [? ?]%Hshort|intros [? ?]%Hlong]; lia.
  - intros Hf. rewrite (Hunset Hf) in He. unfold Minute, Second in *. split; [done|]. split.
    + intros Hm. split; [intros [? ?]%Hshort|intros [? ?]%Hlong]; lia.
    + intros Hm. apply Hnone. lia.
Qed.
End theorems.

(** The port of the environment wraps around: 70000 becomes 4464. *)
Example cache_port_wraps :
  CachePort (@applyEnvOverrides {| Getenv k := if decide (k = "CACHE_PORT") then "70000" else [];
                                   ParseDuration _ := None |} (Default [])) = 4464.
Proof. reflexivity. Qed.

Definition example_env : ConfigEnv :=
  {| Getenv k := if decide (k = "SERVER_URL") then "https://forge" else []; ParseDuration _ := None |}.

(** A file that only sets a fetch timeout whose tenfold overflows. *)
Definition example_file : config_file :=
  Document (fun c => Some {|
    ServerURL := []; RegistrationToken := []; Insecure := false; RunnerName := []; Labels := Labels c;
    Capacity := 0; Ephemeral := false; FetchInterval := 0; FetchTimeout := 2 ^ 62; Timeout := Minute;
    ShutdownTimeout := 0; GitCloneURL := []; ActionsURL := []; ControllerImage := [];
    JobSecrets := []; AptProxyURL := []; CacheEnabled := true; CacheDir := []; CachePort := 0;
    CacheServiceName := []; SnapshotEnabled := false; SnapshotClass := []; StorageClass := [];
    SnapshotSize := []; RetentionDays := 0; LogLevel := [] |}).

(** A file that sets a server and a job timeout of two minutes. *)
Definition short_file : config_file :=
  Document (fun c => Some {|
    ServerURL := "https://forge"; RegistrationToken := []; Insecure := false; RunnerName := [];
    Labels := Labels c; Capacity := 0; Ephemeral := false; FetchInterval := 0; FetchTimeout := 0;
    Timeout := 2 * Minute; ShutdownTimeout := ShutdownTimeout c; GitCloneURL := []; ActionsURL := [];
    ControllerImage := []; JobSecrets := []; AptProxyURL := []; CacheEnabled := true; CacheDir := [];
    CachePort := 0; CacheServiceName := []; SnapshotEnabled := false; SnapshotClass := [];
    StorageClass := []; SnapshotSize := []; RetentionDays := 0; LogLevel := [] |}).

Lemma shutdown_timeout_resolved_witness :
  (exists c, @Load example_env "host" example_file = Ok c /\ ShutdownTimeout c = 30 * Second /\
    Validate c = None /\ Validate c <> Some ShutdownTooLong) /\
  (exists c, @Load example_env "host" short_file = Ok c /\ ShutdownTimeout c = 5 * Minute /\
    Validate c = Some ShutdownTooLong /\ Validate c <> None).
Proof.
  split; eexists; repeat (split; [reflexivity|]).
  - destruct (@shutdown_timeout_resolved example_env "host" example_file _ eq_refl) as (_ & H).
    destruct (H eq_refl) as (_ & H0 & _). apply H0. intros c c' [= <-]. reflexivity.
  - destruct (@shutdown_timeout_resolved example_env "host" short_file _ eq_refl) as (_ & H).
    destruct (H eq_refl) as (_ & _ & H5). apply H5; [|reflexivity].
    intros c c' [= <-]. reflexivity.
Defined.
