(* ===== verification/Paths.v ===== *)
(** * Slash-separated paths ([path/filepath] on Unix)

    [Clean], [Join], [Dir] and [IsAbs] as the standard library documents them,
    and the fact the code relies on for its traversal checks: a path without
    [..] segments cleans to its named components and stays below whatever it
    is joined to. *)
From Stdlib Require Import Ascii.
From S2P Require Import Prelude GoStrings.
#[local] Open Scope go_scope.

Definition slash : ascii := chr 47.
Definition dotdot : gostring := "..".

Definition IsAbs (p : gostring) : bool := has_prefix p [slash].

(** Lexical elimination of one component after the other; [acc] holds what is
    kept, in reverse. *)
Fixpoint clean_segs (rooted : bool) (acc segs : list gostring) : list gostring :=
  match segs with
  | [] => reverse acc
  | s :: segs =>
      if decide (s = [] \/ s = ".") then clean_segs rooted acc segs
      else if decide (s = dotdot) then
        match acc with
        | a :: acc' => if decide (a = dotdot) then clean_segs rooted (s :: acc) segs
                       else clean_segs rooted acc' segs
        | [] => clean_segs rooted (if rooted then [] else [s]) segs
        end
      else clean_segs rooted (s :: acc) segs
  end.

Definition render (rooted : bool) (segs : list gostring) : gostring :=
  if rooted then slash :: join [slash] segs
  else match segs with [] => "." | _ => join [slash] segs end.

Definition Clean (p : gostring) : gostring :=
  render (IsAbs p) (clean_segs (IsAbs p) [] (split slash p)).

(** [filepath.Join]: the elements from the first non-empty one on. *)
Fixpoint Join (elems : list gostring) : gostring :=
  match elems with
  | [] => []
  | e :: es => if decide (e = []) then Join es else Clean (join [slash] elems)
  end.

(** [filepath.Dir]. *)
Definition Dir (p : gostring) : gostring :=
  Clean (trim_right (fun c => bool_decide (c <> slash)) p).

Example clean_1 : Clean "/a/./b//../c/" = "/a/c". Proof. reflexivity. Qed.
Example clean_2 : Clean "../a/../../b" = "../../b". Proof. reflexivity. Qed.
Example clean_3 : Clean "/.." = "/" /\ Clean [] = "." /\ Clean "a/.." = ".".
Proof. done. Qed.
Example join_1 : Join ["/workspace"; "a/../b"] = "/workspace/b" /\ Join [[]; "x"] = "x".
Proof. done. Qed.
Example dir_1 : Dir "/a/b" = "/a" /\ Dir "/a" = "/" /\ Dir "a" = ".". Proof. done. Qed.

(** ** Paths without [..] *)

(** The components a path names. *)
Definition named (s : gostring) : Prop := s <> [] /\ s <> ".".
#[export] Instance named_dec s : Decision (named s).
Proof. unfold named. apply _. Defined.

Definition segments (p : gostring) : list gostring := filter named (split slash p).

Definition has_traversal (p : gostring) : bool := bool_decide (dotdot ∈ split slash p).

Lemma clean_segs_named rooted acc segs :
  (dotdot ∉ segs) -> clean_segs rooted acc segs = reverse acc ++ filter named segs.
Proof.
  revert acc. induction segs as [|s segs IH]; intros acc Hs; cbn [clean_segs];
    [by rewrite app_nil_r|].
  apply not_elem_of_cons in Hs as [Hne Hs]. rewrite filter_cons.
  destruct (decide (s = [] \/ s = ".")) as [Hd|Hd].
  - rewrite decide_False by (unfold named; intuition congruence). by apply IH.
  - rewrite decide_False by congruence. rewrite decide_True by (unfold named; intuition congruence).
    rewrite IH by done. by rewrite reverse_cons, <-app_assoc.
Qed.

Lemma clean_plain p : has_traversal p = false -> Clean p = render (IsAbs p) (segments p).
Proof.
  intros Hp. unfold has_traversal in Hp. reflect_bools. unfold Clean.
  by rewrite clean_segs_named.
Qed.

Lemma segments_app p q : segments (p ++ slash :: q) = segments p ++ segments q.
Proof. unfold segments. by rewrite split_app_sep, filter_app. Qed.

Lemma traversal_app p q :
  has_traversal (p ++ slash :: q) = has_traversal p || has_traversal q.
Proof.
  unfold has_traversal. rewrite split_app_sep. apply eq_true_iff_eq.
  rewrite orb_true_iff, !bool_decide_eq_true. apply elem_of_app.
Qed.

Lemma segments_nosep p : Forall (fun s => slash ∉ s) (segments p).
Proof.
  apply Forall_forall. intros s [_ Hs]%list_elem_of_filter.
  pose proof (split_no_sep slash p) as Hf. eapply Forall_forall in Hf; done.
Qed.

(** ** Staying below a root *)

(** [p] written below [root], one slash before each component. *)
Definition under (root : gostring) (segs : list gostring) : gostring :=
  root ++ concat (map (cons slash) segs).

(** An absolute path in its cleaned form, other than the root directory. *)
Definition clean_abs (root : gostring) : Prop :=
  has_traversal root = false /\ segments root <> [] /\ root = render true (segments root).

Lemma join_slash segs : segs <> [] -> slash :: join [slash] segs = concat (map (cons slash) segs).
Proof.
  induction segs as [|s segs IH]; [done|]. intros _. destruct segs as [|s' segs].
  - simpl. by rewrite app_nil_r.
  - rewrite join_byte by done. change (slash :: s ++ slash :: join [slash] (s' :: segs))
      with ((slash :: s) ++ (slash :: join [slash] (s' :: segs))).
    by rewrite IH.
Qed.

Lemma clean_abs_under root : clean_abs root -> root = under [] (segments root).
Proof. intros (_ & Hne & Hr). rewrite Hr at 1. unfold under, render. by apply join_slash. Qed.

Lemma clean_abs_IsAbs root : clean_abs root -> IsAbs root = true.
Proof. intros (_ & _ & ->). unfold IsAbs, render. apply has_prefix_spec. by eexists. Qed.

(** Joining a path without [..] to a root stays below it. *)
Lemma join_under root q :
  clean_abs root -> has_traversal q = false -> Join [root; q] = under root (segments q).
Proof.
  intros Hroot Hq. pose proof (clean_abs_IsAbs _ Hroot) as Habs.
  assert (root <> []) as Hne by (intros ->; done).
  pose proof Hroot as (Ht & Hs & _).
  cbn [Join join app]. rewrite decide_False by done.
  rewrite clean_plain by (by rewrite traversal_app, Ht, Hq).
  assert (IsAbs (root ++ slash :: q) = true) as ->.
  { apply has_prefix_spec in Habs as [r Hr]. apply has_prefix_spec. rewrite Hr. by eexists. }
  rewrite segments_app. unfold render, under. rewrite join_slash by by destruct (segments root).
  rewrite map_app, concat_app. f_equal. symmetry. exact (clean_abs_under root Hroot).
Qed.

(** ** Absolute paths as lists of names *)

(** A name a file can have. *)
Definition plain (s : gostring) : Prop := named s /\ (slash ∉ s) /\ s <> dotdot.
#[export] Instance plain_dec s : Decision (plain s).
Proof. unfold plain. apply _. Defined.

Lemma segments_plain p : has_traversal p = false -> Forall plain (segments p).
Proof.
  intros Hp. unfold has_traversal in Hp. reflect_bools. apply Forall_forall. intros s Hs.
  pose proof (segments_nosep p) as Hn. rewrite Forall_forall in Hn.
  apply list_elem_of_filter in Hs as [Hnm Hin]. split_and!; [done| |by intros ->].
  apply Hn. by apply list_elem_of_filter.
Qed.

Lemma plain_not_dotdot s : plain s -> s <> dotdot.
Proof. by intros (_ & _ & ?). Qed.

Lemma plain_dotdot ns : Forall plain ns -> dotdot ∉ ns.
Proof. intros Hf Hin. eapply Forall_forall in Hf as (_ & _ & ?); done. Qed.

Lemma split_names ns : Forall plain ns -> ns <> [] -> split slash (join [slash] ns) = ns.
Proof. intros Hf Hne. apply split_join; [done|]. eapply Forall_impl; [done|]. by intros s (_ & ? & _). Qed.

Lemma filter_named ns : Forall plain ns -> filter named ns = ns.
Proof. induction 1 as [|s ns [Hs _] _ IH]; [done|]. by rewrite filter_cons_True, IH. Qed.

Lemma segments_names ns : Forall plain ns -> segments (join [slash] ns) = ns.
Proof.
  intros Hf. destruct (decide (ns = [])) as [->|Hne]; [done|].
  unfold segments. rewrite split_names by done. by apply filter_named.
Qed.

Lemma segments_slash p : segments (slash :: p) = segments p.
Proof. exact (segments_app [] p). Qed.

Lemma traversal_slash p : has_traversal (slash :: p) = has_traversal p.
Proof. exact (traversal_app [] p). Qed.

Lemma traversal_names ns : Forall plain ns -> has_traversal (join [slash] ns) = false.
Proof.
  intros Hf. destruct (decide (ns = [])) as [->|Hne]; [done|].
  unfold has_traversal. rewrite split_names by done. apply bool_decide_eq_false. by apply plain_dotdot.
Qed.

(** The absolute path of a list of names. *)
Lemma segments_render ns : Forall plain ns -> segments (render true ns) = ns.
Proof. intros Hf. unfold render. rewrite segments_slash. by apply segments_names. Qed.

Lemma clean_slash p : has_traversal p = false -> Clean (slash :: p) = render true (segments p).
Proof. intros Hp. rewrite clean_plain by by rewrite traversal_slash. by rewrite segments_slash. Qed.

Lemma clean_abs_render ns : Forall plain ns -> ns <> [] -> clean_abs (render true ns).
Proof.
  intros Hf Hne. split; [|by rewrite segments_render].
  unfold render. rewrite traversal_slash. by apply traversal_names.
Qed.

Lemma clean_abs_plain p : clean_abs p -> Forall plain (segments p).
Proof. intros [Ht _]. by apply segments_plain. Qed.

Lemma clean_abs_clean p : clean_abs p -> Clean p = p.
Proof.
  intros Hp. pose proof Hp as (Ht & _ & Hr). rewrite clean_plain, (clean_abs_IsAbs _ Hp) by done.
  by rewrite <-Hr.
Qed.

Lemma segments_under root ns :
  clean_abs root -> Forall plain ns -> segments (under root ns) = segments root ++ ns.
Proof.
  intros Hroot Hf. unfold under. destruct (decide (ns = [])) as [->|Hne]; [by rewrite !app_nil_r|].
  rewrite <-join_slash by done. by rewrite segments_app, segments_names.
Qed.

Lemma under_render root ns :
  clean_abs root -> Forall plain ns -> under root ns = render true (segments root ++ ns).
Proof.
  intros Hroot Hf. rewrite (clean_abs_under root Hroot) at 1. unfold under, render. simpl.
  rewrite <-concat_app, <-map_app. symmetry. apply join_slash.
  destruct Hroot as (_ & Hne & _). by destruct (segments root).
Qed.

(** A joined path does not change with a slash at the end of the root. *)
Lemma join_slash_root root q :
  clean_abs root -> has_traversal q = false ->
  Join [root ++ [slash]; q] = under root (segments q).
Proof.
  intros Hroot Hq. rewrite <-join_under by done. pose proof (clean_abs_IsAbs _ Hroot) as Habs.
  pose proof Hroot as (Ht & _ & _).
  assert (root <> []) as Hne by (intros ->; done). assert (root ++ [slash] <> []) by by destruct root.
  cbn [Join]. rewrite !decide_False by done.
  change (join [slash] [root; q]) with (root ++ slash :: q).
  change (join [slash] [root ++ [slash]; q]) with ((root ++ [slash]) ++ slash :: q).
  rewrite <-app_assoc. change ([slash] ++ slash :: q) with (slash :: slash :: q).
  rewrite !clean_plain by by rewrite !traversal_app, ?traversal_slash, Ht, Hq.
  rewrite !segments_app, segments_slash. f_equal.
  apply has_prefix_spec in Habs as [r Hr]. by rewrite Hr.
Qed.

Lemma trim_right_tail p s c r :
  p c = false -> Forall (fun x => p x = true) r -> trim_right p (s ++ c :: r) = s ++ [c].
Proof.
  intros Hc Hr. unfold trim_right. rewrite reverse_app, reverse_cons.
  assert (trim_left p ((reverse r ++ [c]) ++ reverse s) = c :: reverse s) as ->.
  { rewrite <-app_assoc. apply Forall_reverse in Hr. induction Hr as [|x l Hx _ IH]; simpl.
    - by rewrite Hc.
    - by rewrite Hx. }
  by rewrite reverse_cons, reverse_involutive.
Qed.

(** [filepath.Dir] drops the last name. *)
Lemma segments_Dir ns n :
  Forall plain (ns ++ [n]) -> segments (Dir (render true (ns ++ [n]))) = ns.
Proof.
  intros [Hf [(_ & Hn & _) _]%Forall_cons]%Forall_app.
  assert (exists q, render true (ns ++ [n]) = q ++ slash :: n /\ segments q = ns /\
                    has_traversal q = false /\ (q = [] \/ IsAbs q = true)) as (q & -> & Hs & Ht & Ha).
  { destruct (decide (ns = [])) as [->|Hne]; [exists []; auto|].
    exists (render true ns). pose proof (clean_abs_render ns Hf Hne) as Hc.
    split_and!; [|by apply segments_render|by apply Hc|right; by apply clean_abs_IsAbs].
    unfold render. rewrite !join_slash by (done || by destruct ns).
    rewrite map_app, concat_app. simpl. by rewrite app_nil_r. }
  unfold Dir. rewrite trim_right_tail.
  - assert (has_traversal (q ++ [slash]) = false) as Ht'
      by by rewrite traversal_app, Ht.
    rewrite clean_plain by done. assert (IsAbs (q ++ [slash]) = true) as ->.
    { destruct Ha as [->|Ha]; [done|]. apply has_prefix_spec in Ha as [r ->].
      apply has_prefix_spec. by eexists. }
    rewrite segments_app, Hs. change (segments []) with (@nil gostring). rewrite app_nil_r.
    by apply segments_render.
  - apply bool_decide_eq_false. auto.
  - apply Forall_forall. intros x Hx. apply bool_decide_eq_true. by intros ->.
Qed.

Lemma segments_Dir_snoc p : clean_abs p -> exists n, segments p = segments (Dir p) ++ [n].
Proof.
  intros Hp. pose proof (clean_abs_plain _ Hp) as Hpl. destruct Hp as (_ & Hne & Hr).
  destruct (segments p) as [|n ns _] eqn:E using rev_ind; [done|]. exists n. rewrite Hr.
  by rewrite segments_Dir.
Qed.
