(* ===== verification/Labels.v ===== *)
(** * Runner labels ([pkg/labels/labels.go])

    A label binds a [runs-on] name to an execution scheme and its argument
    (for the docker scheme, the container image).  [Label] parses and prints
    one label, [LabelSet] holds the operations on the runner's label list. *)
From Stdlib Require Import Ascii.
From S2P Require Import Prelude GoStrings.

Definition SchemeHost : gostring := "host".
Definition SchemeDocker : gostring := "docker".
Definition ArgDocker : gostring := "//node:24-trixie".
Definition SchemeLXC : gostring := "lxc".
Definition ArgLXC : gostring := "//debian:bookworm".

Record Label := {
  Name : gostring;
  Schema : gostring;
  Arg : gostring;
}.

#[export] Instance label_eq_dec : EqDecision Label.
Proof. solve_decision. Defined.

Inductive label_error :=
  | SpaceAtEdge (name : gostring)
  | UnsupportedSchema (schema : gostring)
  | SchemaTakesNoArgument (schema : gostring).

#[export] Instance label_error_eq_dec : EqDecision label_error.
Proof. solve_decision. Defined.

Module Label.

Definition colon : ascii := chr 58.

(** The argument a scheme gets when the label names none. *)
Definition default_arg (schema arg : gostring) : gostring :=
  if decide (arg = ε) then
    if decide (schema = SchemeDocker) then ArgDocker
    else if decide (schema = SchemeLXC) then ArgLXC
    else arg
  else arg.

Definition supported (schema : gostring) : bool :=
  bool_decide (schema = SchemeHost) || bool_decide (schema = SchemeDocker)
    || bool_decide (schema = SchemeLXC).

Definition Parse (str : gostring) : result label_error Label :=
  let splits := splitn colon 3 str in
  let name := splits !!! 0 in
  if decide (trim_space name = name) then
    match splits with
    | _ :: schema :: rest =>
        if supported schema then
          match rest with
          | arg :: _ =>
              if decide (schema = SchemeHost) then Err (SchemaTakesNoArgument schema)
              else Ok {| Name := name; Schema := schema; Arg := default_arg schema arg |}
          | [] => Ok {| Name := name; Schema := schema; Arg := default_arg schema ε |}
          end
        else Err (UnsupportedSchema schema)
    | _ => Ok {| Name := name; Schema := SchemeDocker; Arg := default_arg SchemeDocker ε |}
    end
  else Err (SpaceAtEdge name).

(** [MustParse] panics where [Parse] fails: [None] is the panic. *)
Definition MustParse (str : gostring) : option Label :=
  match Parse str with Ok l => Some l | Err _ => None end.

Definition String (l : Label) : gostring :=
  let s := Name l in
  if decide (Schema l = ε) then s else
  let s := s ++ [colon] ++ Schema l in
  if decide (Arg l = ε) then s else s ++ [colon] ++ Arg l.

(** What [Parse] guarantees of the labels it returns. *)
Definition well_formed (l : Label) : Prop :=
  trim_space (Name l) = Name l /\ (colon ∉ Name l) /\
  ((Schema l = SchemeHost /\ Arg l = ε) \/
   ((Schema l = SchemeDocker \/ Schema l = SchemeLXC) /\ Arg l <> ε)).

Lemma default_arg_id schema arg : arg <> ε -> default_arg schema arg = arg.
Proof. intros. unfold default_arg. by rewrite decide_False. Qed.

Lemma default_arg_nonempty schema arg :
  schema = SchemeDocker \/ schema = SchemeLXC -> default_arg schema arg <> ε.
Proof. unfold default_arg. intros [-> | ->]; repeat case_decide; done. Qed.

Lemma supported_spec schema :
  supported schema = true <->
  schema = SchemeHost \/ schema = SchemeDocker \/ schema = SchemeLXC.
Proof. unfold supported. rewrite !orb_true_iff, !bool_decide_eq_true. tauto. Qed.

(** The three shapes of [strings.SplitN(str, ":", 3)]. *)
Lemma splitn3 str :
  (splitn colon 3 str = [str] /\ (colon ∉ str)) \/
  (exists a b, splitn colon 3 str = [a; b] /\ str = a ++ colon :: b /\ (colon ∉ a) /\ (colon ∉ b)) \/
  (exists a b c, splitn colon 3 str = [a; b; c] /\ str = a ++ colon :: b ++ colon :: c /\
     (colon ∉ a) /\ colon ∉ b).
Proof.
  cbn [splitn].
  destruct (cut colon str) as [[a b]|] eqn:Hc; [|left; by rewrite <-cut_None].
  apply cut_Some in Hc as [-> Ha]. right.
  destruct (cut colon b) as [[b1 c]|] eqn:Hc.
  - apply cut_Some in Hc as [-> Hb]. right. by exists a, b1, c.
  - apply cut_None in Hc. left. by exists a, b.
Qed.

Lemma splitn3_two a b :
  colon ∉ a -> colon ∉ b -> splitn colon 3 (a ++ colon :: b) = [a; b].
Proof.
  intros Ha Hb. cbn [splitn].
  rewrite (proj2 (cut_Some colon _ a b)) by done.
  by rewrite (proj2 (cut_None colon b)).
Qed.

Lemma splitn3_three a b c :
  colon ∉ a -> colon ∉ b -> splitn colon 3 (a ++ colon :: b ++ colon :: c) = [a; b; c].
Proof.
  intros Ha Hb. cbn [splitn].
  rewrite (proj2 (cut_Some colon _ a (b ++ colon :: c))) by done.
  by rewrite (proj2 (cut_Some colon _ b c)).
Qed.

Lemma parse_well_formed str l : Parse str = Ok l -> well_formed l.
Proof.
  unfold Parse. case_decide as Htrim; [|done].
  destruct (splitn3 str) as [[Hs Hn]|[(a & b & Hs & -> & Ha & Hb)|(a & b & c & Hs & -> & Ha & Hb)]];
    rewrite Hs in *; simpl in Htrim |- *.
  - intros [= <-]. split; [done|]. split; [done|]. right.
    split; [by left|]. apply default_arg_nonempty. by left.
  - destruct (supported b) eqn:Hsup; [|done]. intros [= <-].
    split; [done|]. split; [done|]. simpl.
    apply supported_spec in Hsup as [-> | Hsup]; [by left|right].
    split; [done|]. by apply default_arg_nonempty.
  - destruct (supported b) eqn:Hsup; [|done]. case_decide; [done|]. intros [= <-].
    split; [done|]. split; [done|]. simpl.
    apply supported_spec in Hsup as [-> | Hsup]; [done|right].
    split; [done|]. by apply default_arg_nonempty.
Qed.

Lemma string_host name :
  String {| Name := name; Schema := SchemeHost; Arg := ε |} = name ++ colon :: SchemeHost.
Proof. done. Qed.

Lemma string_arg name schema arg :
  schema <> ε -> arg <> ε ->
  String {| Name := name; Schema := schema; Arg := arg |} =
    name ++ colon :: schema ++ colon :: arg.
Proof.
  intros. unfold String. simpl. rewrite !decide_False by done.
  by rewrite <-app_assoc.
Qed.

Lemma parse_print l : well_formed l -> Parse (String l) = Ok l.
Proof.
  intros (Htrim & Hn & Hargs). destruct l as [name schema arg]; simpl in *.
  destruct Hargs as [[-> ->]|[Hsch Harg]].
  - rewrite string_host. unfold Parse.
    rewrite splitn3_two by (done || decide_now).
    simpl. by rewrite decide_True.
  - assert (Hcol : colon ∉ schema) by (destruct Hsch as [-> | ->]; decide_now).
    rewrite string_arg by (destruct Hsch as [-> | ->]; done). unfold Parse.
    rewrite splitn3_three by done. simpl.
    rewrite decide_True by done.
    rewrite (proj2 (supported_spec schema)) by tauto.
    rewrite decide_False by (destruct Hsch as [-> | ->]; done).
    by rewrite default_arg_id.
Qed.
End Label.

(** Printing a parsed label and parsing it again gives the same label, so
    [String] is an inverse of [Parse] on everything [Parse] returns: names
    with edge blanks, unknown schemes and host arguments never appear. *)
Theorem parse_string_roundtrip str l :
  Label.Parse str = Ok l -> Label.Parse (Label.String l) = Ok l /\ Label.well_formed l.
Proof.
  intros H. pose proof (Label.parse_well_formed _ _ H) as Hwf.
  split; [by apply Label.parse_print|done].
Qed.

Lemma parse_string_roundtrip_witness :
  Label.Parse "ubuntu-latest:docker://node:22-bookworm" =
    Ok {| Name := "ubuntu-latest"; Schema := "docker"; Arg := "//node:22-bookworm" |} /\
  Label.Parse (Label.String {| Name := "ubuntu-latest"; Schema := "docker";
                               Arg := "//node:22-bookworm" |}) =
    Ok {| Name := "ubuntu-latest"; Schema := "docker"; Arg := "//node:22-bookworm" |}.
Proof.
  split; [vm_compute; reflexivity|].
  apply (parse_string_roundtrip "ubuntu-latest:docker://node:22-bookworm").
  vm_compute; reflexivity.
Defined.

Module LabelSet.
Abbreviation Labels := (list Label).

Definition RequireDocker (l : Labels) : bool :=
  existsb (fun label => bool_decide (Schema label = SchemeDocker)) l.

(** The image one label contributes, [None] for an unknown scheme. *)
Definition platform (label : Label) : option gostring :=
  if decide (Schema label = SchemeDocker) then Some (trim_prefix (Arg label) "//")
  else if decide (Schema label = SchemeHost) then Some "-self-hosted"
  else if decide (Schema label = SchemeLXC) then Some ("lxc:" ++ trim_prefix (Arg label) "//")
  else None.

(** The [platforms] map: later labels overwrite earlier ones of their name. *)
Definition platforms (l : Labels) : gmap gostring gostring :=
  foldl (fun m label =>
           match platform label with
           | Some image => <[Name label := image]> m
           | None => m
           end) ∅ l.

Fixpoint first_match (m : gmap gostring gostring) (runsOn : list gostring) : option gostring :=
  match runsOn with
  | [] => None
  | v :: rest => match m !! v with
                 | Some image => Some image
                 | None => first_match m rest
                 end
  end.

Definition PickPlatform (l : Labels) (runsOn : list gostring) : gostring :=
  match first_match (platforms l) runsOn with
  | Some image => image
  | None => trim_prefix ArgDocker "//"
  end.

Definition Names (l : Labels) : list gostring := map Name l.
Definition Strings (l : Labels) : list gostring := map Label.String l.

(** [parseLabels] of the controller: the first bad label fails the start. *)
Fixpoint parseLabels (raw : list gostring) : result (gostring * label_error) Labels :=
  match raw with
  | [] => Ok []
  | r :: raw' =>
      match Label.Parse r with
      | Err e => Err (r, e)
      | Ok label =>
          let? rest := parseLabels raw' in
          Ok (label :: rest)
      end
  end.

(** The declarative reading: the image of the last usable label of a name. *)
Definition last_image (l : Labels) (name : gostring) : option gostring :=
  last (omap (fun label => if decide (Name label = name) then platform label else None) l).

Lemma platforms_lookup l name : platforms l !! name = last_image l name.
Proof.
  unfold platforms, last_image. induction l as [|label l IH] using rev_ind; [done|].
  rewrite foldl_app, omap_app, last_app. simpl.
  destruct (platform label) as [image|].
  - destruct (decide (Name label = name)) as [<-|Hne]; simpl.
    + by rewrite lookup_insert_eq.
    + rewrite lookup_insert_ne by done. by rewrite IH.
  - by case_decide.
Qed.

Lemma first_match_omap m runsOn : first_match m runsOn = head (omap (fun v => m !! v) runsOn).
Proof.
  induction runsOn as [|v r IH]; simpl; [done|]. by destruct (m !! v).
Qed.
End LabelSet.

(** The image a job runs in is that of the first [runs-on] entry the
    runner has a label for; among several labels of one name the last wins;
    with no match the default docker image is used. *)
Theorem pick_platform_spec l runsOn :
  LabelSet.PickPlatform l runsOn =
    default "node:24-trixie" (head (omap (LabelSet.last_image l) runsOn)).
Proof.
  unfold LabelSet.PickPlatform. rewrite LabelSet.first_match_omap.
  rewrite (list_omap_ext _ (LabelSet.last_image l) runsOn runsOn).
  - by destruct (head _).
  - apply Forall_Forall2_diag, Forall_true. intros v. apply LabelSet.platforms_lookup.
Qed.
