(* ===== verification/ActionRef.v ===== *)
(** * Action references ([pkg/actions/resolve.go])

    [uses:] strings such as [actions/cache@v4], their components, the clone
    URL and the directory name an action is cached under.  [isSafeActionDir]
    is the check the cache server applies to that directory name
    ([pkg/cache/handler.go]). *)
From Stdlib Require Import Ascii.
From S2P Require Import Prelude GoStrings Paths.
#[local] Open Scope Z_scope.

Record ActionRef := {
  Org : gostring;
  Repo : gostring;
  Path : gostring;
  Ref : gostring;
  URL : gostring;
}.

#[export] Instance action_ref_eq_dec : EqDecision ActionRef.
Proof. solve_decision. Defined.

Inductive ref_error :=
  | EmptyReference
  | NotRemote (uses : gostring)
  | MissingRef (uses : gostring)
  | InvalidURL (uses : gostring)
  | ExpectedOrgRepo (uses : gostring)
  | PathTraversal (path : gostring).

#[export] Instance ref_error_eq_dec : EqDecision ref_error.
Proof. solve_decision. Defined.

Definition at_sign : ascii := chr 64.

(** The loop over the path's segments. *)
Definition has_dotdot (path : gostring) : bool :=
  existsb (fun part => bool_decide (part = "..")) (split slash path).

Definition validateActionPath (path : gostring) : option ref_error :=
  if decide (path = ε) then None
  else if has_dotdot path then Some (PathTraversal path) else None.

Definition checked (a : ActionRef) : result ref_error ActionRef :=
  match validateActionPath (Path a) with
  | Some e => Err e
  | None => Ok a
  end.

(** The [scheme://host/org/repo/path] form. *)
Definition parse_url_ref (uses repoPath ref : gostring) : result ref_error ActionRef :=
  match index "://" repoPath with
  | None => Err (InvalidURL uses)
  | Some idx =>
      let rest := drop (idx + 3) repoPath in
      match splitn slash 4 rest with
      | host :: org :: repo :: more =>
          checked {| Org := org; Repo := repo; Path := default ε (head more); Ref := ref;
                     URL := take (idx + 3) repoPath ++ host |}
      | _ => Err (InvalidURL uses)
      end
  end.

(** The plain [org/repo/path] form. *)
Definition parse_plain_ref (uses repoPath ref : gostring) : result ref_error ActionRef :=
  match splitn slash 3 repoPath with
  | org :: repo :: more =>
      checked {| Org := org; Repo := repo; Path := default ε (head more); Ref := ref; URL := ε |}
  | _ => Err (ExpectedOrgRepo uses)
  end.

Definition ParseActionRef (uses : gostring) : result ref_error ActionRef :=
  let uses := trim_space uses in
  if decide (uses = ε) then Err EmptyReference
  else if has_prefix uses "./" || has_prefix uses "docker://" then Err (NotRemote uses)
  else
    match splitn at_sign 2 uses with
    | [repoPath; ref] =>
        if decide (ref = ε) then Err (MissingRef uses)
        else if contains "://" repoPath then parse_url_ref uses repoPath ref
        else parse_plain_ref uses repoPath ref
    | _ => Err (MissingRef uses)
    end.

Definition CloneURL (a : ActionRef) (defaultActionsURL : gostring) : gostring :=
  let base := if decide (URL a = ε) then defaultActionsURL else URL a in
  let base := trim_right (fun c => bool_decide (c = slash)) base in
  base ++ "/" ++ Org a ++ "/" ++ Repo a ++ ".git".

(** ** The cache directory name *)

(** The rune map of [ActionDir]. *)
Definition dir_rune (r : Z) : Z :=
  if in_range 97 122 r || in_range 65 90 r || in_range 48 57 r || (r =? 45) || (r =? 95)
  then r else 45.

Definition fnv_prime : Z := 16777619.
Definition fnv_offset : Z := 2166136261.

(** [hash/fnv]'s 32-bit FNV-1a. *)
Definition fnv_step (h : Z) (c : ascii) : Z := (Z.lxor h (code c) * fnv_prime) mod 2 ^ 32.
Definition fnv1a (s : gostring) : Z := foldl fnv_step fnv_offset s.

Definition ref_key (a : ActionRef) : gostring := Org a ++ "/" ++ Repo a ++ "@" ++ Ref a.

Definition ActionDir (a : ActionRef) : gostring :=
  map_runes dir_rune (Org a ++ "-" ++ Repo a ++ "-" ++ Ref a) ++ "-" ++
  fmt_hex_pad 8 (fnv1a (ref_key a)).

Definition String (a : ActionRef) : gostring :=
  let s := Org a ++ "/" ++ Repo a in
  let s := if decide (Path a = ε) then s else s ++ "/" ++ Path a in
  s ++ "@" ++ Ref a.

(** [isSafeActionDir] of the cache server. *)
Definition isSafeActionDir (s : gostring) : bool :=
  if decide (s = ε) then false
  else forallb (fun r => in_range 97 122 r || in_range 65 90 r || in_range 48 57 r
                         || (r =? 45) || (r =? 95)) (runes s).

(** ** Directory names are always served *)

Definition safe_code (r : Z) : Prop :=
  97 <= r <= 122 \/ 65 <= r <= 90 \/ 48 <= r <= 57 \/ r = 45 \/ r = 95.

Lemma safe_code_bool r :
  (in_range 97 122 r || in_range 65 90 r || in_range 48 57 r || (r =? 45) || (r =? 95)) = true
  <-> safe_code r.
Proof.
  unfold in_range, safe_code.
  rewrite !orb_true_iff, !andb_true_iff, !Z.leb_le, !Z.eqb_eq. lia.
Qed.

Lemma isSafeActionDir_spec s :
  isSafeActionDir s = true <-> s <> ε /\ Forall (fun c => safe_code (code c)) s.
Proof.
  unfold isSafeActionDir. case_decide as He; [by split; [|intros [? _]]|].
  rewrite forallb_forall. setoid_rewrite safe_code_bool.
  assert (Hsafe : Forall (fun c => safe_code (code c)) s -> runes s = map code s).
  { intros H. apply runes_ascii. eapply Forall_impl; [exact H|]. unfold safe_code. simpl. lia. }
  split.
  - intros Hall. split; [done|].
    assert (Ha : is_ascii s).
    { apply runes_below_ascii. apply Forall_forall. intros r Hr%list_elem_of_In%Hall.
      unfold safe_code in Hr. lia. }
    rewrite runes_ascii in Hall by done. apply Forall_forall. intros c Hc.
    apply Hall, in_map. by apply list_elem_of_In.
  - intros [_ Hf] r Hr. rewrite Hsafe in Hr by done.
    apply in_map_iff in Hr as (c & <- & Hc%list_elem_of_In).
    by apply (proj1 (Forall_forall _ _) Hf).
Qed.

Lemma dir_rune_safe r : safe_code (dir_rune r).
Proof.
  unfold dir_rune. destruct (_ || (r =? 95)) eqn:H.
  - by apply safe_code_bool.
  - unfold safe_code. lia.
Qed.

Lemma map_dir_rune s : map_runes dir_rune s = map (fun r => chr (dir_rune r)) (runes s).
Proof.
  apply map_runes_ascii. intros r. pose proof (dir_rune_safe r) as H. unfold safe_code in H. lia.
Qed.

Lemma fnv1a_range s : 0 <= fnv1a s < 2 ^ 32.
Proof.
  unfold fnv1a. destruct s as [|c s _] using rev_ind; [by vm_compute|].
  rewrite foldl_app. simpl. apply Z.mod_pos_bound. lia.
Qed.

(** What the cache server's route asks of a directory name. *)
Class ActionDirNaming (R : Type) := {
  dir_of : R -> gostring;
  dir_of_safe : forall r, isSafeActionDir (dir_of r) = true;
}.

Lemma ActionDir_safe a : isSafeActionDir (ActionDir a) = true.
Proof.
  apply isSafeActionDir_spec. unfold ActionDir. rewrite map_dir_rune.
  split; [by destruct (map _ _)|]. apply Forall_app. split.
  - apply Forall_map, Forall_true. intros r. simpl.
    pose proof (dir_rune_safe r) as H. rewrite code_chr; [done|]. unfold safe_code in H. lia.
  - apply Forall_app. split.
    + apply Forall_singleton. right. right. right. by left.
    + pose proof (fnv1a_range (ref_key a)).
      eapply Forall_impl; [apply fmt_hex_pad_chars; lia|]. unfold safe_code. simpl. lia.
Qed.

#[export] Instance action_ref_dir : ActionDirNaming ActionRef :=
  {| dir_of := ActionDir; dir_of_safe := ActionDir_safe |}.

(** ** One-byte differences never collide *)

Lemma lxor_range h x : 0 <= h < 2 ^ 32 -> 0 <= x < 256 -> 0 <= Z.lxor h x < 2 ^ 32.
Proof.
  intros Hh Hx. assert (0 <= Z.lxor h x) by (apply Z.lxor_nonneg; lia). split; [done|].
  destruct (decide (Z.lxor h x = 0)) as [->|Hne]; [lia|].
  apply Z.log2_lt_pow2; [lia|]. eapply Z.le_lt_trans; [apply Z.log2_lxor; lia|].
  apply Z.max_lub_lt.
  - destruct (decide (h = 0)) as [->|]; [simpl; lia|]. apply Z.log2_lt_pow2; lia.
  - destruct (decide (x = 0)) as [->|]; [simpl; lia|].
    apply Z.lt_le_trans with 8; [|lia]. apply Z.log2_lt_pow2; lia.
Qed.

(** The FNV prime is odd, hence invertible modulo 2^32. *)
Definition fnv_inverse : Z := 899433627.

Lemma fnv_mul_inj a b :
  0 <= a < 2 ^ 32 -> 0 <= b < 2 ^ 32 ->
  (a * fnv_prime) mod 2 ^ 32 = (b * fnv_prime) mod 2 ^ 32 -> a = b.
Proof.
  intros Ha Hb H. apply (f_equal (fun z => (z * fnv_inverse) mod 2 ^ 32)) in H.
  rewrite !Z.mul_mod_idemp_l in H by lia.
  rewrite <-!Z.mul_assoc in H.
  rewrite <-(Z.mul_mod_idemp_r a), <-(Z.mul_mod_idemp_r b) in H by lia.
  change ((fnv_prime * fnv_inverse) mod 2 ^ 32) with 1 in H.
  rewrite !Z.mul_1_r, !Z.mod_small in H by lia. done.
Qed.

Lemma fnv_step_range h c : 0 <= fnv_step h c < 2 ^ 32.
Proof. apply Z.mod_pos_bound. lia. Qed.

Lemma fnv_step_inj_state h h' c :
  0 <= h < 2 ^ 32 -> 0 <= h' < 2 ^ 32 -> fnv_step h c = fnv_step h' c -> h = h'.
Proof.
  intros Hh Hh' H. pose proof (code_range c).
  apply fnv_mul_inj in H; [|by apply lxor_range..].
  apply (f_equal (fun z => Z.lxor z (code c))) in H.
  by rewrite !Z.lxor_assoc, Z.lxor_nilpotent, !Z.lxor_0_r in H.
Qed.

Lemma fnv_step_inj_byte h c d :
  0 <= h < 2 ^ 32 -> fnv_step h c = fnv_step h d -> c = d.
Proof.
  intros Hh H. pose proof (code_range c). pose proof (code_range d).
  apply fnv_mul_inj in H; [|by apply lxor_range..].
  apply (f_equal (Z.lxor h)) in H.
  rewrite <-!Z.lxor_assoc, Z.lxor_nilpotent, !Z.lxor_0_l in H. by apply code_inj.
Qed.

Lemma fnv_fold_inj s h h' :
  0 <= h < 2 ^ 32 -> 0 <= h' < 2 ^ 32 ->
  foldl fnv_step h s = foldl fnv_step h' s -> h = h'.
Proof.
  revert h h'. induction s as [|c s IH]; intros h h' Hh Hh'; simpl; [done|].
  intros H%IH; [|apply fnv_step_range..]. by apply fnv_step_inj_state in H.
Qed.

Lemma fnv1a_one_byte p q c d : fnv1a (p ++ c :: q) = fnv1a (p ++ d :: q) -> c = d.
Proof.
  unfold fnv1a. rewrite !foldl_app. simpl.
  intros H%fnv_fold_inj; [|apply fnv_step_range..].
  apply fnv_step_inj_byte in H; [done|]. apply (fnv1a_range p).
Qed.

Lemma ActionDir_hash a b : ActionDir a = ActionDir b -> fnv1a (ref_key a) = fnv1a (ref_key b).
Proof.
  unfold ActionDir. rewrite !app_assoc. intros H.
  pose proof (fnv1a_range (ref_key a)). pose proof (fnv1a_range (ref_key b)).
  apply app_inj_2 in H as [_ H].
  - by apply fmt_hex_pad_inj in H; [|lia..].
  - by rewrite !fmt_hex_pad_length by (change (16 ^ Z.of_nat 8) with (2 ^ 32); lia).
Qed.

(** C26: every cache directory name [ActionDir] produces passes the cache
    server's [isSafeActionDir] check, whatever the reference: the charset the
    handler documents is exactly what the resolver emits, so a resolved
    action is never refused by the tar route. *)
Theorem action_dir_is_safe (a : ActionRef) :
  isSafeActionDir (dir_of a) = true /\
  exists prefix hash, ActionDir a = prefix ++ "-" ++ hash /\ length hash = 8%nat /\
    parse_digits 16 0 hash = Some (fnv1a (Org a ++ "/" ++ Repo a ++ "@" ++ Ref a)).
Proof.
  split; [apply dir_of_safe|].
  pose proof (fnv1a_range (ref_key a)).
  eexists _, _. split; [done|]. split.
  - apply fmt_hex_pad_length; [change (16 ^ Z.of_nat 8) with (2 ^ 32); lia|lia].
  - apply fmt_hex_pad_parse. unfold ref_key in *. lia.
Qed.

(** Two references whose [org/repo@ref] differ in exactly one byte get
    different directories, although the sanitised prefix may coincide (as for
    [v4.0] and [v4-0]): the appended FNV-1a hash separates them. *)
Theorem action_dir_one_byte a b p q c d :
  ref_key a = p ++ c :: q -> ref_key b = p ++ d :: q -> c <> d ->
  ActionDir a <> ActionDir b.
Proof.
  intros Ha Hb Hne H%ActionDir_hash. rewrite Ha, Hb in H. by apply fnv1a_one_byte in H.
Qed.

Lemma action_dir_one_byte_witness :
  ActionDir {| Org := "actions"; Repo := "cache"; Path := ε; Ref := "v4.0"; URL := ε |} <>
  ActionDir {| Org := "actions"; Repo := "cache"; Path := ε; Ref := "v4-0"; URL := ε |}.
Proof.
  apply (action_dir_one_byte _ _ "actions/cache@v4" "0" (chr 46) (chr 45));
    [vm_compute; reflexivity | vm_compute; reflexivity | ].
  intros H; vm_compute in H; discriminate H.
Defined.

(** ** Parsing *)

Lemma checked_Ok a b : checked a = Ok b <-> b = a /\ (Path a = ε \/ has_dotdot (Path a) = false).
Proof.
  unfold checked, validateActionPath. case_decide as Hp; [|destruct (has_dotdot (Path a)) eqn:Hd].
  - split; [intros [= <-]; auto|by intros [-> _]].
  - split; [done|]. by intros [_ [?|?]].
  - split; [intros [= <-]; auto|by intros [-> _]].
Qed.

(** The plain form, described by how the string decomposes. *)
Lemma parse_plain_ref_spec uses repoPath ref a :
  parse_plain_ref uses repoPath ref = Ok a ->
  URL a = ε /\ Ref a = ref /\ (slash ∉ Org a) /\ (slash ∉ Repo a) /\
  (Path a = ε \/ has_dotdot (Path a) = false) /\
  exists tail, repoPath = (Org a ++ slash :: Repo a) ++ tail /\
    (if decide (Path a = ε) then tail = ε \/ tail = "/" else tail = slash :: Path a).
Proof.
  unfold parse_plain_ref. cbn [splitn].
  destruct (cut slash repoPath) as [[org r1]|] eqn:H1; [|done].
  apply cut_Some in H1 as [-> Ho].
  destruct (cut slash r1) as [[repo path]|] eqn:H2; intros [-> Hd]%checked_Ok; simpl in *.
  - apply cut_Some in H2 as [-> Hr]. do 5 (split; [done|]).
    exists (slash :: path). rewrite <-app_assoc. split; [done|].
    case_decide; subst; [by right|done].
  - apply cut_None in H2. do 5 (split; [done|]).
    exists ε. rewrite app_nil_r. split; [done|]. by left.
Qed.

(** The converse: rebuilding the string gives the same components. *)
Lemma parse_plain_ref_build uses org repo path ref :
  (slash ∉ org) -> (slash ∉ repo) -> (path = ε \/ has_dotdot path = false) ->
  parse_plain_ref uses
    (if decide (path = ε) then org ++ slash :: repo else org ++ slash :: repo ++ slash :: path) ref
  = Ok {| Org := org; Repo := repo; Path := path; Ref := ref; URL := ε |}.
Proof.
  intros Ho Hr Hp. unfold parse_plain_ref. cbn [splitn]. case_decide; subst.
  - rewrite (proj2 (cut_Some slash _ org repo)) by done.
    rewrite (proj2 (cut_None slash repo)) by done. by apply checked_Ok.
  - rewrite (proj2 (cut_Some slash _ org (repo ++ slash :: path))) by done.
    rewrite (proj2 (cut_Some slash _ repo path)) by done. by apply checked_Ok.
Qed.

Lemma contains_prefix sub p s : contains sub (p ++ s) = false -> contains sub p = false.
Proof.
  intros H. destruct (contains sub p) eqn:Hp; [|done].
  apply contains_spec in Hp as (a & b & ->).
  rewrite <-H. symmetry. apply contains_spec. exists a, (b ++ s). by rewrite !app_assoc.
Qed.

Lemma has_prefix_shorten p t y e :
  at_sign ∉ e -> has_prefix ((p ++ t) ++ at_sign :: y) e = false ->
  has_prefix (p ++ at_sign :: y) e = false.
Proof.
  intros He. rewrite !has_prefix_sep by done. intros H.
  destruct (has_prefix p e) eqn:Hp; [|done].
  apply has_prefix_spec in Hp as [r ->]. rewrite <-H, <-app_assoc. symmetry.
  apply has_prefix_spec. eauto.
Qed.

Lemma at_sign_not_blank : Forall (fun e => at_sign ∉ e) space_encodings.
Proof. decide_now. Qed.

(** Inversion of [ParseActionRef] on the plain form. *)
Lemma parse_action_ref_inv uses a :
  ParseActionRef uses = Ok a -> URL a = ε ->
  exists repoPath, trim_space uses = repoPath ++ at_sign :: Ref a /\ (at_sign ∉ repoPath) /\
    Ref a <> ε /\ has_prefix (trim_space uses) "./" = false /\
    has_prefix (trim_space uses) "docker://" = false /\ contains "://" repoPath = false /\
    parse_plain_ref (trim_space uses) repoPath (Ref a) = Ok a.
Proof.
  unfold ParseActionRef. case_decide as Hne; [done|].
  destruct (_ || _) eqn:Hpre; [done|]. apply orb_false_iff in Hpre as [Hp1 Hp2].
  cbn [splitn]. destruct (cut at_sign (trim_space uses)) as [[repoPath ref]|] eqn:Hc; [|done].
  apply cut_Some in Hc as [Hs Hat]. case_decide as Href; [done|].
  destruct (contains "://" repoPath) eqn:Hurl; intros Hparse Hnil.
  - exfalso. unfold parse_url_ref in Hparse.
    destruct (index "://" repoPath) as [idx|] eqn:Hidx; [|done].
    repeat (case_match; try done). apply checked_Ok in Hparse as [-> _]. simpl in Hnil.
    apply app_eq_nil in Hnil as [Ht _].
    apply index_Some in Hidx as [[r Hr] ?].
    destruct repoPath; [|by rewrite Nat.add_comm in Ht].
    simpl in *. rewrite drop_nil in Hr. done.
  - assert (Ref a = ref) as Hra by (by apply parse_plain_ref_spec in Hparse as (_ & ? & _)).
    exists repoPath. rewrite Hra. done.
Qed.

Lemma String_shape a :
  String a = (if decide (Path a = ε) then Org a ++ slash :: Repo a
              else Org a ++ slash :: Repo a ++ slash :: Path a) ++ at_sign :: Ref a.
Proof. unfold String. case_decide; [done|]. rewrite <-!app_assoc. simpl. by rewrite <-!app_assoc. Qed.

(** On a plain [org/repo(/path)@ref] reference, printing the parsed
    reference and parsing it again gives the same components. *)
Theorem parse_action_ref_roundtrip uses a :
  ParseActionRef uses = Ok a -> URL a = ε -> ParseActionRef (String a) = Ok a.
Proof.
  intros Hparse Hurl.
  destruct (parse_action_ref_inv _ _ Hparse Hurl)
    as (repoPath & Htrim & Hat & Href & Hp1 & Hp2 & Hcon & Hplain).
  pose proof (parse_plain_ref_spec _ _ _ _ Hplain) as (_ & _ & Ho & Hr & Hd & tail & Hrp & Htail).
  set (p := if decide (Path a = ε) then Org a ++ slash :: Repo a
            else Org a ++ slash :: Repo a ++ slash :: Path a).
  assert (exists t, repoPath = p ++ t) as [t Ht].
  { subst p. case_decide; subst; [by eexists|]. exists ε. by rewrite app_nil_r, <-app_assoc. }
  pose proof (trim_space_edges uses) as Hedge. rewrite Htrim in Hedge, Hp1, Hp2.
  apply no_edge_space_sep in Hedge as [He1 He2]; [|apply at_sign_not_blank].
  rewrite Ht in He1, Hp1, Hp2, Hcon, Hat. apply strip_once_None_prefix in He1.
  apply contains_prefix in Hcon. apply not_elem_of_app in Hat as [Hat _].
  rewrite String_shape. fold p. unfold ParseActionRef.
  rewrite trim_space_id by (apply no_edge_space_sep; [apply at_sign_not_blank|done]).
  rewrite decide_False by (by intros [_ ?]%app_eq_nil).
  apply has_prefix_shorten in Hp1; [|decide_now].
  apply has_prefix_shorten in Hp2; [|decide_now].
  rewrite Hp1, Hp2. cbn [orb splitn].
  rewrite (proj2 (cut_Some at_sign _ p (Ref a))) by done.
  rewrite decide_False by done. rewrite Hcon.
  destruct a as [org repo path ref url]; simpl in *; subst. by apply parse_plain_ref_build.
Qed.

Lemma parse_action_ref_roundtrip_witness :
  ParseActionRef "  actions/cache/restore@v4 " =
    Ok {| Org := "actions"; Repo := "cache"; Path := "restore"; Ref := "v4"; URL := ε |} /\
  ParseActionRef (String {| Org := "actions"; Repo := "cache"; Path := "restore"; Ref := "v4";
                            URL := ε |}) =
    Ok {| Org := "actions"; Repo := "cache"; Path := "restore"; Ref := "v4"; URL := ε |}.
Proof.
  split; [vm_compute; reflexivity|].
  apply (parse_action_ref_roundtrip "  actions/cache/restore@v4 ");
    [vm_compute; reflexivity | reflexivity].
Defined.
