(* ===== verification/FileSystem.v ===== *)
(** * The file system the program runs on ([os], [path/filepath])

    A tree of named nodes keyed by their physical path, the kernel's path
    resolution (symbolic links are followed, at most forty in one path), and
    the operations of package [os] that the setup step, the cache mirror and
    the action server use, in an error and state monad.  Paths are given as
    the list of names of an absolute path in cleaned form.  Permissions of
    files are kept, those of directories, owners and I/O faults are not
    modelled.

    The main result is [chroot]: below a directory whose symbolic links are
    all relative and free of [..], every operation acts as if that directory
    were the root, and touches nothing outside it. *)
From Stdlib Require Import Ascii.
From stdpp Require Import fin_maps fin_sets sorting.
From S2P Require Import Prelude GoStrings Paths.
#[local] Open Scope go_scope.

Abbreviation path := (list gostring).

Inductive node :=
  | NDir
  | NFile (mode : Z) (data : gostring)
  | NLink (target : gostring).

#[export] Instance node_eq_dec : EqDecision node.
Proof. solve_decision. Defined.

Abbreviation tree := (gmap path node).

Inductive errno := ENOENT | ENOTDIR | EEXIST | EISDIR | ELOOP | ENOTEMPTY | EINVAL.

#[export] Instance errno_eq_dec : EqDecision errno.
Proof. solve_decision. Defined.

(** The root is always there. *)
Definition node_at (t : tree) (p : path) : option node :=
  if decide (p = []) then Some NDir else t !! p.

(** ** Path resolution *)

Definition max_links : nat := 40.

(** The physical path a list of names leads to from directory [cur]; the last
    component may be missing; a link there is followed if [follow]. *)
Fixpoint resolve (links : nat) (t : tree) (follow : bool) : path -> list gostring -> result errno path :=
  fix go (cur : path) (rest : list gostring) {struct rest} :=
    match rest with
    | [] => Ok cur
    | s :: rest =>
        if decide (s = dotdot) then go (take (length cur - 1) cur) rest
        else
          match node_at t (cur ++ [s]) with
          | None => if decide (rest = []) then Ok (cur ++ [s]) else Err ENOENT
          | Some NDir => go (cur ++ [s]) rest
          | Some (NFile _ _) => if decide (rest = []) then Ok (cur ++ [s]) else Err ENOTDIR
          | Some (NLink l) =>
              if bool_decide (rest = []) && negb follow then Ok (cur ++ [s])
              else match links with
                   | O => Err ELOOP
                   | S links => resolve links t follow (if IsAbs l then [] else cur) (segments l ++ rest)
                   end
          end
    end.

Definition namei (follow : bool) (t : tree) (p : path) : result errno path :=
  resolve max_links t follow [] p.

(** ** The operations *)

(** A computation on a tree that may fail; what it did before failing stays. *)
Definition act (E A : Type) : Type := tree -> result E A * tree.

#[export] Instance act_ret E : MRet (act E) := fun A a t => (Ok a, t).
#[export] Instance act_bind E : MBind (act E) := fun A B k m t =>
  match m t with (Ok a, t) => k a t | (Err e, t) => (Err e, t) end.

Definition fail {E A : Type} (e : E) : act E A := fun t => (Err e, t).
Definition look {E A : Type} (f : tree -> A) : act E A := fun t => (Ok (f t), t).
Definition map_error {E F A : Type} (f : E -> F) (m : act E A) : act F A := fun t =>
  match m t with (Ok a, t) => (Ok a, t) | (Err e, t) => (Err (f e), t) end.

(** The node at a path; [None]: no such node. *)
Definition stat_with (follow : bool) (t : tree) (p : path) : result errno node :=
  match namei follow t p with
  | Ok q => match node_at t q with Some n => Ok n | None => Err ENOENT end
  | Err e => Err e
  end.
Definition Stat := stat_with true.
Definition Lstat := stat_with false.

(** A change at the place a path leads to, the last link not followed. *)
Definition at_path (p : path) (k : path -> option node -> act errno unit) : act errno unit := fun t =>
  match namei false t p with
  | Ok q => k q (node_at t q) t
  | Err e => (Err e, t)
  end.

Definition put (q : path) (n : node) : act errno unit := fun t => (Ok tt, <[q := n]> t).

Definition Mkdir (p : path) : act errno unit :=
  at_path p (fun q n => match n with Some _ => fail EEXIST | None => put q NDir end).

Definition Symlink (oldname : gostring) (p : path) : act errno unit :=
  if decide (oldname = []) then fail ENOENT
  else at_path p (fun q n => match n with Some _ => fail EEXIST | None => put q (NLink oldname) end).

(** [os.MkdirAll]: the path is given from its last component on. *)
Fixpoint mkdir_all (rev_path : path) : act errno unit := fun t =>
  match Stat t (reverse rev_path) with
  | Ok NDir => (Ok tt, t)
  | Ok _ => (Err ENOTDIR, t)
  | Err e =>
      match rev_path with
      | [] => (Err e, t)
      | _ :: up =>
          match mkdir_all up t with
          | (Ok _, t) =>
              match Mkdir (reverse rev_path) t with
              | (Ok _, t) => (Ok tt, t)
              | (Err e, t) => match Lstat t (reverse rev_path) with
                              | Ok NDir => (Ok tt, t)
                              | _ => (Err e, t)
                              end
              end
          | r => r
          end
      end
  end.
Definition MkdirAll (p : path) : act errno unit := mkdir_all (reverse p).

(** Opening with [O_CREATE|O_WRONLY|O_TRUNC|O_NOFOLLOW] and writing [data]:
    a new file gets the mode less the process's [umask], an existing one keeps
    its own. *)
Definition write_nofollow (umask : Z) (p : path) (mode : Z) (data : gostring) : act errno unit :=
  at_path p (fun q n =>
    match n with
    | None => put q (NFile (Z.land (Z.land mode 511) (Z.lnot umask)) data)
    | Some (NFile m _) => put q (NFile m data)
    | Some NDir => fail EISDIR
    | Some (NLink _) => fail ELOOP
    end).

(** Names in a directory, as [os.ReadDir] sorts them. *)
Fixpoint name_leb (s u : gostring) : bool :=
  match s, u with
  | [], _ => true
  | _ :: _, [] => false
  | c :: s, d :: u => if (code c =? code d)%Z then name_leb s u else (code c <? code d)%Z
  end.

Definition child_of (d p : path) : option gostring :=
  match reverse p with
  | n :: up => if decide (reverse up = d) then Some n else None
  | [] => None
  end.

Definition children (t : tree) (d : path) : list gostring :=
  merge_sort (fun s u => Is_true (name_leb s u)) (elements (set_omap (child_of d) (dom t) : gset gostring)).

Definition ReadDir (t : tree) (p : path) : result errno (list gostring) :=
  match namei true t p with
  | Ok q => match node_at t q with
            | Some NDir => Ok (children t q)
            | Some _ => Err ENOTDIR
            | None => Err ENOENT
            end
  | Err e => Err e
  end.

(** What is below a directory, and everything else. *)
Definition strip (d p : path) : option path :=
  if decide (d `prefix_of` p) then Some (drop (length d) p) else None.

Definition sub (d : path) (t : tree) : tree :=
  list_to_map (omap (fun x : path * node => (fun r => (r, x.2)) <$> strip d x.1) (map_to_list t)).

Definition prune (d : path) (t : tree) : tree :=
  filter (fun x : path * node => ~ d `prefix_of` x.1) t.

Definition graft (d : path) (t : tree) : tree := kmap (app d) t.

(** [os.Remove]. *)
Definition Remove (p : path) : act errno unit :=
  at_path p (fun q n t =>
    match n with
    | None => (Err ENOENT, t)
    | Some NDir => if decide (children t q = []) then (Ok tt, delete q t) else (Err ENOTEMPTY, t)
    | Some _ => (Ok tt, delete q t)
    end).

(** [os.RemoveAll]: a path that is not there is no error. *)
Definition RemoveAll (p : path) : act errno unit := fun t =>
  match namei false t p with
  | Ok q => (Ok tt, prune q t)
  | Err ENOENT => (Ok tt, t)
  | Err e => (Err e, t)
  end.

(** [os.Rename]: an existing target is replaced if it is a file or a link and
    the source is not a directory, or an empty directory and the source is
    one. *)
Definition Rename (old new : path) : act errno unit := fun t =>
  match namei false t old, namei false t new with
  | Err e, _ | _, Err e => (Err e, t)
  | Ok a, Ok b =>
      match node_at t a with
      | None => (Err ENOENT, t)
      | Some n =>
          if decide (a = b) then (Ok tt, t)
          else if decide (a `prefix_of` b) then (Err EINVAL, t)
          else
            let moved := (Ok tt, graft b (sub a t) ∪ prune a (prune b t)) in
            match n, node_at t b with
            | _, None => moved
            | NDir, Some NDir => if decide (children t b = []) then moved else (Err ENOTEMPTY, t)
            | NDir, Some _ => (Err ENOTDIR, t)
            | _, Some NDir => (Err EEXIST, t)
            | _, Some _ => moved
            end
      end
  end.

(** ** Lookups *)

Lemma strip_Some d p r : strip d p = Some r <-> p = d ++ r.
Proof.
  unfold strip. case_decide as Hp.
  - destruct Hp as [k ->]. rewrite drop_app_length. naive_solver.
  - split; [done|]. intros ->. destruct Hp. by eexists.
Qed.

Lemma lookup_sub d t r : sub d t !! r = t !! (d ++ r).
Proof.
  apply option_eq. intros n. unfold sub. rewrite <-elem_of_list_to_map.
  - rewrite list_elem_of_omap. split.
    + intros ([p m] & Hin & (r' & Hr & [= -> ->])%fmap_Some). simpl in Hr.
      apply strip_Some in Hr as ->. by apply elem_of_map_to_list in Hin.
    + intros Hl. exists (d ++ r, n). split; [by apply elem_of_map_to_list|]. simpl.
      by rewrite (proj2 (strip_Some d (d ++ r) r) eq_refl).
  - apply NoDup_fmap_fst.
    + intros k n1 n2. rewrite !list_elem_of_omap.
      intros ([p1 m1] & H1 & (r1 & E1 & [= -> ->])%fmap_Some)
             ([p2 m2] & H2 & (r2 & E2 & [= -> ->])%fmap_Some).
      apply strip_Some in E1, E2. simpl in *. subst. apply elem_of_map_to_list in H1, H2.
      congruence.
    + pose proof (NoDup_map_to_list t) as Hn. induction Hn as [|[p m] l Hni Hn IH]; simpl; [constructor|].
      destruct (strip d p) as [r'|] eqn:E; simpl; [|done]. constructor; [|done].
      rewrite list_elem_of_omap. intros ([p2 m2] & H2 & (r2 & E2 & [= -> ->])%fmap_Some).
      simpl in E2. apply strip_Some in E, E2. by subst.
Qed.

Lemma lookup_prune d t p : prune d t !! p = if decide (d `prefix_of` p) then None else t !! p.
Proof.
  unfold prune. case_decide as Hp.
  - apply map_lookup_filter_None. right. intros n _ Hn. by apply Hn.
  - destruct (t !! p) as [n|] eqn:E.
    + by apply map_lookup_filter_Some.
    + apply map_lookup_filter_None. by left.
Qed.

Lemma lookup_graft d t p : graft d t !! p = strip d p ≫= (t !!.).
Proof.
  unfold graft. destruct (strip d p) as [r|] eqn:E.
  - apply strip_Some in E as ->. simpl. by rewrite lookup_kmap by apply _.
  - apply lookup_kmap_None; [apply _|]. intros r ->.
    by rewrite (proj2 (strip_Some d (d ++ r) r) eq_refl) in E.
Qed.

Lemma elem_of_children t d n : n ∈ children t d <-> is_Some (t !! (d ++ [n])).
Proof.
  unfold children. rewrite merge_sort_Permutation, elem_of_elements, elem_of_set_omap. split.
  - intros (p & Hp%elem_of_dom & Hc). unfold child_of in Hc.
    destruct (reverse p) as [|m up] eqn:E; [done|]. case_decide as Hd; simplify_eq.
    apply (f_equal reverse) in E. rewrite reverse_involutive, reverse_cons in E. by subst.
  - intros Hp. exists (d ++ [n]). rewrite elem_of_dom. split; [done|]. unfold child_of.
    rewrite reverse_snoc, decide_True by apply reverse_involutive. done.
Qed.

Lemma NoDup_children t d : NoDup (children t d).
Proof. unfold children. rewrite merge_sort_Permutation. apply NoDup_elements. Qed.

(** ** Resolution through directories without links *)

Lemma resolve_nil links t f cur : resolve links t f cur [] = Ok cur.
Proof. by destruct links. Qed.

Lemma resolve_cons links t f cur s rest :
  resolve links t f cur (s :: rest) =
    if decide (s = dotdot) then resolve links t f (take (length cur - 1) cur) rest
    else match node_at t (cur ++ [s]) with
         | None => if decide (rest = []) then Ok (cur ++ [s]) else Err ENOENT
         | Some NDir => resolve links t f (cur ++ [s]) rest
         | Some (NFile _ _) => if decide (rest = []) then Ok (cur ++ [s]) else Err ENOTDIR
         | Some (NLink l) =>
             if bool_decide (rest = []) && negb f then Ok (cur ++ [s])
             else match links with
                  | O => Err ELOOP
                  | S links => resolve links t f (if IsAbs l then [] else cur) (segments l ++ rest)
                  end
         end.
Proof. by destruct links. Qed.

Definition real_dirs (d : path) (t : tree) : Prop :=
  (dotdot ∉ d) /\ forall q, q `prefix_of` d -> node_at t q = Some NDir.

Lemma real_dirs_self d t : real_dirs d t -> node_at t d = Some NDir.
Proof. intros [_ H]. by apply H. Qed.

Lemma real_dirs_app d1 d2 t : real_dirs (d1 ++ d2) t -> real_dirs d1 t.
Proof.
  intros [Hd H]. split; [intros ?; apply Hd, elem_of_app; by left|].
  intros q Hq. apply H. by apply prefix_app_r.
Qed.

Lemma real_dirs_snoc d n t :
  real_dirs d t -> n <> dotdot -> t !! (d ++ [n]) = Some NDir -> real_dirs (d ++ [n]) t.
Proof.
  intros [Hd H] Hn Ht. split; [set_solver|]. intros q [k Hk].
  destruct k as [|k' k _] using rev_ind.
  - rewrite app_nil_r in Hk. subst q. unfold node_at. rewrite decide_False by (by destruct d). done.
  - rewrite app_assoc in Hk. apply app_inj_tail in Hk as [-> _]. apply H. by eexists.
Qed.

Lemma resolve_real links t f cur d rest :
  (dotdot ∉ d) -> (forall q, q `prefix_of` d -> node_at t (cur ++ q) = Some NDir) ->
  resolve links t f cur (d ++ rest) = resolve links t f (cur ++ d) rest.
Proof.
  revert cur. induction d as [|s d IH]; intros cur Hd Hq; simpl; [by rewrite app_nil_r|].
  apply not_elem_of_cons in Hd as [Hs Hd]. rewrite resolve_cons, decide_False by done.
  rewrite (Hq [s]) by (by exists d). rewrite IH; [by rewrite <-app_assoc|done|].
  intros q [k ->]. rewrite <-app_assoc. apply Hq. by exists k.
Qed.

(** From a real directory, one more name: no link needs to be followed. *)
Lemma namei_child t d n :
  real_dirs d t -> n <> dotdot -> namei false t (d ++ [n]) = Ok (d ++ [n]).
Proof.
  intros [Hd Hq] Hn. unfold namei. rewrite resolve_real by done. simpl app.
  rewrite resolve_cons, decide_False by done.
  destruct (node_at t (d ++ [n])) as [[| |l]|]; by rewrite ?resolve_nil.
Qed.

Lemma namei_real f t d : real_dirs d t -> namei f t d = Ok d.
Proof.
  intros [Hd Hq]. unfold namei. rewrite <-(app_nil_r d) at 1. rewrite resolve_real by done.
  by rewrite resolve_nil.
Qed.

Lemma node_at_child t d n : node_at t (d ++ [n]) = t !! (d ++ [n]).
Proof. unfold node_at. rewrite decide_False; [done|]. by destruct d. Qed.

Lemma Stat_real t d : real_dirs d t -> Stat t d = Ok NDir.
Proof. intros Hd. unfold Stat, stat_with. by rewrite namei_real, (real_dirs_self _ _ Hd). Qed.

Lemma MkdirAll_real d t : real_dirs d t -> MkdirAll d t = (Ok tt, t).
Proof.
  intros Hd. unfold MkdirAll. destruct (reverse d) as [|n up] eqn:E; simpl;
    rewrite <-?E, ?reverse_involutive.
  - done.
  - by rewrite Stat_real.
Qed.

(** ** A directory as the root *)

Definition safe_link (l : gostring) : Prop := IsAbs l = false /\ (dotdot ∉ segments l).

Definition confined (t : tree) : Prop := forall p l, t !! p = Some (NLink l) -> safe_link l.

Definition jail (d : path) (t : tree) : Prop := real_dirs d t /\ confined (sub d t).

Definition result_map {E A B : Type} (f : A -> B) (r : result E A) : result E B :=
  match r with Ok a => Ok (f a) | Err e => Err e end.

Lemma node_at_sub d t p : real_dirs d t -> node_at t (d ++ p) = node_at (sub d t) p.
Proof.
  intros Hd. unfold node_at at 2. case_decide as Hp; subst.
  - rewrite app_nil_r. by apply real_dirs_self.
  - unfold node_at. rewrite decide_False, lookup_sub; [done|]. intros [-> ->]%app_eq_nil. done.
Qed.

Lemma resolve_sub links d t f c rest :
  jail d t -> (dotdot ∉ rest) ->
  resolve links t f (d ++ c) rest = result_map (app d) (resolve links (sub d t) f c rest).
Proof.
  intros [Hd Hc]. revert c rest. induction links as [|links IHl].
  all: intros c rest; revert c; induction rest as [|s rest IH]; intros c Hr;
    rewrite ?resolve_nil; [done|].
  all: apply not_elem_of_cons in Hr as [Hs Hr].
  all: rewrite !resolve_cons; destruct (decide (s = dotdot)); [done|].
  all: rewrite <-app_assoc, node_at_sub by done.
  all: destruct (node_at (sub d t) (c ++ [s])) as [[|m x|l]|] eqn:E.
  all: try (by rewrite IH); try (by case_decide).
  all: destruct (bool_decide (rest = []) && negb f); [done|]; try done.
  assert (safe_link l) as [Ha Hl].
  { apply (Hc (c ++ [s])). unfold node_at in E. case_decide; [by destruct c|done]. }
  rewrite Ha. apply IHl. set_solver.
Qed.

Lemma namei_sub d t f r :
  jail d t -> (dotdot ∉ r) -> namei f t (d ++ r) = result_map (app d) (namei f (sub d t) r).
Proof.
  intros Hj Hr. pose proof Hj as [[Hd Hq] _]. unfold namei. rewrite resolve_real by done.
  rewrite <-(app_nil_r ([] ++ d)). simpl app at 1. by apply resolve_sub.
Qed.

(** [m] acts below [d] as [m0] does on [d] as the root, and nowhere else. *)
Definition chroot {E A : Type} (d : path) (m m0 : act E A) : Prop :=
  forall t, jail d t -> exists r t',
    m t = (r, t') /\ m0 (sub d t) = (r, sub d t') /\ prune d t' = prune d t /\ jail d t'.

Create HintDb chroot.

Section chroot.
Context {E : Type} (d : path).

Lemma chroot_ret {A : Type} (a : A) : chroot d (mret a : act E A) (mret a).
Proof. intros t Ht. by eexists _, t. Qed.

Lemma chroot_fail {A : Type} (e : E) : chroot d (fail e : act E A) (fail e).
Proof. intros t Ht. by eexists _, t. Qed.

Lemma chroot_bind {A B : Type} (m m0 : act E A) (k k0 : A -> act E B) :
  chroot d m m0 -> (forall a, chroot d (k a) (k0 a)) -> chroot d (m ≫= k) (m0 ≫= k0).
Proof.
  intros Hm Hk t Ht. destruct (Hm t Ht) as (r & t1 & E1 & E2 & Hp & Hj).
  unfold mbind, act_bind. rewrite E1, E2. destruct r as [a|e]; [|by eexists _, t1].
  destruct (Hk a t1 Hj) as (r & t2 & E3 & E4 & Hp2 & Hj2). exists r, t2.
  split_and!; [done|done|congruence|done].
Qed.

Lemma chroot_map_error {F A : Type} (f : E -> F) (m m0 : act E A) :
  chroot d m m0 -> chroot d (map_error f m) (map_error f m0).
Proof.
  intros Hm t Ht. destruct (Hm t Ht) as (r & t1 & E1 & E2 & Hp & Hj).
  unfold map_error. rewrite E1, E2. destruct r; by eexists _, t1.
Qed.

Lemma chroot_if {A : Type} (b : bool) (m m0 n n0 : act E A) :
  chroot d m m0 -> chroot d n n0 -> chroot d (if b then m else n) (if b then m0 else n0).
Proof. by destruct b. Qed.
End chroot.

#[export] Hint Resolve chroot_ret chroot_fail chroot_bind chroot_map_error chroot_if : chroot.

Section chroot_ops.
Context (d : path).

Lemma sub_insert q n t : sub d (<[d ++ q := n]> t) = <[q := n]> (sub d t).
Proof.
  apply map_eq. intros p. rewrite lookup_sub. destruct (decide (p = q)) as [->|Hne].
  - by rewrite !lookup_insert_eq.
  - rewrite !lookup_insert_ne by naive_solver. by rewrite lookup_sub.
Qed.

Lemma prune_insert q n t : prune d (<[d ++ q := n]> t) = prune d t.
Proof.
  apply map_eq. intros p. rewrite !lookup_prune. case_decide as Hp; [done|].
  rewrite lookup_insert_ne; [done|]. intros <-. apply Hp. by eexists.
Qed.

Lemma real_dirs_outside t t' :
  prune d t' = prune d t -> node_at t' d = Some NDir -> real_dirs d t -> real_dirs d t'.
Proof.
  intros Hp Hd [Hn Hq]. split; [done|]. intros q Hpre. destruct (decide (q = d)) as [->|Hne]; [done|].
  rewrite <-(Hq q Hpre). unfold node_at. case_decide; [done|].
  apply (f_equal (.!! q)) in Hp. rewrite !lookup_prune in Hp.
  assert (~ d `prefix_of` q) by (intros ?; apply Hne; by apply (anti_symm prefix)).
  by rewrite !decide_False in Hp by done.
Qed.

Lemma chroot_put q n :
  q <> [] -> (forall l, n = NLink l -> safe_link l) -> chroot d (put (d ++ q) n) (put q n).
Proof.
  intros Hq Hn t [Hd Hc]. eexists _, _. split; [done|]. rewrite sub_insert, prune_insert.
  split_and!; [done|done|]. split.
  - apply (real_dirs_outside t); [apply prune_insert| |done].
    rewrite <-(real_dirs_self _ _ Hd). unfold node_at. case_decide; [done|].
    apply lookup_insert_ne. intros Hdq. apply Hq. by apply (app_inv_head d); rewrite app_nil_r.
  - rewrite sub_insert. intros p l. destruct (decide (p = q)) as [->|Hne].
    + rewrite lookup_insert_eq. naive_solver.
    + rewrite lookup_insert_ne by done. apply Hc.
Qed.

Lemma chroot_at_path r k k0 :
  (dotdot ∉ r) ->
  (forall q n, (q = [] -> n = Some NDir) -> chroot d (k (d ++ q) n) (k0 q n)) ->
  chroot d (at_path (d ++ r) k) (at_path r k0).
Proof.
  intros Hr Hk t Ht. pose proof Ht as [Hd Hc]. unfold at_path. rewrite namei_sub by done.
  destruct (namei false (sub d t) r) as [q|e]; simpl; [|by eexists _, t].
  rewrite node_at_sub by done. apply Hk; [|done]. by intros ->.
Qed.

Lemma chroot_Mkdir r : (dotdot ∉ r) -> chroot d (Mkdir (d ++ r)) (Mkdir r).
Proof.
  intros Hr. apply chroot_at_path; [done|]. intros q [n|] Hq; [apply chroot_fail|].
  apply chroot_put; [|done]. intros ->. by specialize (Hq eq_refl).
Qed.

Lemma chroot_Symlink l r :
  (dotdot ∉ r) -> safe_link l -> chroot d (Symlink l (d ++ r)) (Symlink l r).
Proof.
  intros Hr Hl. unfold Symlink. case_decide; [apply chroot_fail|].
  apply chroot_at_path; [done|]. intros q [n|] Hq; [apply chroot_fail|].
  apply chroot_put; [|by intros ? [= <-]]. intros ->. by specialize (Hq eq_refl).
Qed.

Lemma chroot_write umask r mode data :
  (dotdot ∉ r) -> chroot d (write_nofollow umask (d ++ r) mode data) (write_nofollow umask r mode data).
Proof.
  intros Hr. apply chroot_at_path; [done|]. intros q n Hq.
  destruct n as [[| |]|]; try apply chroot_fail; (apply chroot_put; [|done]);
    intros ->; by specialize (Hq eq_refl).
Qed.

Lemma stat_sub f t r : jail d t -> (dotdot ∉ r) -> stat_with f t (d ++ r) = stat_with f (sub d t) r.
Proof.
  intros Hj Hr. unfold stat_with. rewrite namei_sub by done.
  destruct (namei f (sub d t) r) as [q|e]; simpl; [|done]. by rewrite node_at_sub by apply Hj.
Qed.

Lemma chroot_mkdir_all rp :
  (dotdot ∉ rp) -> chroot d (mkdir_all (rp ++ reverse d)) (mkdir_all rp).
Proof.
  induction rp as [|n rp IH]; intros Hn t Ht.
  - exists (Ok tt), t. split_and!; try done.
    pose proof (MkdirAll_real d t (proj1 Ht)) as Hm. unfold MkdirAll in Hm. by simpl.
  - apply not_elem_of_cons in Hn as [Hne Hn].
    assert (dotdot ∉ reverse (n :: rp)) as Hr by (rewrite elem_of_reverse; set_solver).
    cbn [mkdir_all app]. change (n :: rp ++ reverse d) with ((n :: rp) ++ reverse d).
    rewrite !reverse_app, !reverse_involutive. unfold Stat, Lstat. rewrite stat_sub by done.
    destruct (stat_with true (sub d t) (reverse (n :: rp))) as [[| |]|e]; try by eexists _, t.
    destruct (IH Hn t Ht) as (r1 & t1 & -> & -> & Hp1 & Hj1).
    destruct r1 as [[]|e1]; [|by eexists _, t1].
    destruct (chroot_Mkdir _ Hr t1 Hj1) as (r2 & t2 & -> & -> & Hp2 & Hj2).
    destruct r2 as [[]|e2]; [exists (Ok tt), t2; split_and!; [done|done|congruence|done]|].
    rewrite stat_sub by done.
    destruct (stat_with false (sub d t2) (reverse (n :: rp))) as [[| |]|e3];
      eexists _, t2; (split_and!; [done|done|congruence|done]).
Qed.

Lemma chroot_MkdirAll r : (dotdot ∉ r) -> chroot d (MkdirAll (d ++ r)) (MkdirAll r).
Proof.
  intros Hr. unfold MkdirAll. rewrite reverse_app. apply chroot_mkdir_all. by rewrite elem_of_reverse.
Qed.
End chroot_ops.

#[export] Hint Resolve chroot_Mkdir chroot_Symlink chroot_write chroot_MkdirAll : chroot.

(** ** Well-formed trees *)

(** What is in a directory that exists. *)
Definition closed (t : tree) : Prop :=
  forall p s, is_Some (t !! (p ++ [s])) -> node_at t p = Some NDir.

Lemma closed_missing t p r : closed t -> p <> [] -> t !! p = None -> t !! (p ++ r) = None.
Proof.
  intros Hc Hp Ht. induction r as [|s r IH] using rev_ind; [by rewrite app_nil_r|].
  apply eq_None_not_Some. rewrite app_assoc. intros Hs%Hc. unfold node_at in Hs.
  rewrite decide_False in Hs by by destruct p. congruence.
Qed.

Lemma closed_above t p s x :
  closed t -> is_Some (t !! (p ++ s :: x)) -> node_at t p = Some NDir /\ is_Some (t !! (p ++ [s])).
Proof.
  intros Hc. induction x as [|y x IH] using rev_ind; intros Hs; [by split; [eapply Hc|]|].
  apply IH. rewrite app_comm_cons, app_assoc in Hs. apply Hc in Hs. unfold node_at in Hs.
  case_decide; [by destruct p|]. by eexists.
Qed.

(** Nothing is below what is not a directory, or below an empty one. *)
Lemma closed_leaf t p x :
  closed t -> p <> [] -> t !! p <> Some NDir -> x <> [] -> t !! (p ++ x) = None.
Proof.
  intros Hc Hp Hd Hx. destruct x as [|s x]; [done|]. apply eq_None_not_Some. intros Hs.
  destruct (closed_above t p s x Hc Hs) as [Hn _]. unfold node_at in Hn. by rewrite decide_False in Hn.
Qed.

Lemma closed_empty t p x :
  closed t -> (forall s, t !! (p ++ [s]) = None) -> x <> [] -> t !! (p ++ x) = None.
Proof.
  intros Hc Hp Hx. destruct x as [|s x]; [done|]. apply eq_None_not_Some. intros Hs.
  destruct (closed_above t p s x Hc Hs) as [_ [n Hn]]. by rewrite Hp in Hn.
Qed.

Lemma prune_missing t p : closed t -> p <> [] -> t !! p = None -> prune p t = t.
Proof.
  intros Hc Hp Ht. apply map_eq. intros q. rewrite lookup_prune. case_decide as Hq; [|done].
  destruct Hq as [r ->]. symmetry. by apply closed_missing.
Qed.

Lemma real_dirs_agree d t t' :
  (forall q, q `prefix_of` d -> t' !! q = t !! q) -> real_dirs d t -> real_dirs d t'.
Proof.
  intros Hag [Hd Hq]. split; [done|]. intros q Hp. rewrite <-(Hq q Hp). unfold node_at.
  case_decide; [done|]. by apply Hag.
Qed.

(** Siblings have nothing in common. *)
Lemma sibling_prefix (d : path) n m q :
  n <> m -> (d ++ [n]) `prefix_of` q -> ~ (d ++ [m]) `prefix_of` q.
Proof.
  intros Hne [k ->] [k' Hk]. rewrite <-!app_assoc in Hk. apply app_inv_head in Hk.
  simpl in Hk. congruence.
Qed.

Lemma above_prefix (d : path) n q : q `prefix_of` d -> ~ (d ++ [n]) `prefix_of` q.
Proof.
  intros [k ->] [k' Hk]. apply (f_equal length) in Hk. rewrite !length_app in Hk. simpl in Hk. lia.
Qed.

Section siblings.
Context (d : path) (t : tree) (Hd : real_dirs d t).

Lemma real_dirs_prune n : real_dirs d (prune (d ++ [n]) t).
Proof.
  eapply real_dirs_agree; [|exact Hd]. intros q Hq. rewrite lookup_prune.
  by rewrite decide_False by by apply above_prefix.
Qed.

Lemma real_dirs_insert n x : real_dirs d (<[d ++ [n] := x]> t).
Proof.
  eapply real_dirs_agree; [|exact Hd]. intros q Hq. apply lookup_insert_ne. intros <-.
  by apply (above_prefix d n (d ++ [n])).
Qed.

Lemma Mkdir_child n :
  n <> dotdot ->
  Mkdir (d ++ [n]) t =
    match t !! (d ++ [n]) with
    | Some _ => (Err EEXIST, t)
    | None => (Ok tt, <[d ++ [n] := NDir]> t)
    end.
Proof.
  intros Hn. unfold Mkdir, at_path. rewrite namei_child, node_at_child by done.
  by destruct (t !! (d ++ [n])).
Qed.

Lemma Lstat_child n :
  n <> dotdot ->
  Lstat t (d ++ [n]) = match t !! (d ++ [n]) with Some x => Ok x | None => Err ENOENT end.
Proof.
  intros Hn. unfold Lstat, stat_with. by rewrite namei_child, node_at_child.
Qed.

Lemma write_child umask n mode data :
  n <> dotdot ->
  write_nofollow umask (d ++ [n]) mode data t =
    match t !! (d ++ [n]) with
    | None => (Ok tt, <[d ++ [n] := NFile (Z.land (Z.land mode 511) (Z.lnot umask)) data]> t)
    | Some (NFile m _) => (Ok tt, <[d ++ [n] := NFile m data]> t)
    | Some NDir => (Err EISDIR, t)
    | Some (NLink _) => (Err ELOOP, t)
    end.
Proof.
  intros Hn. unfold write_nofollow, at_path. rewrite namei_child, node_at_child by done.
  by destruct (t !! (d ++ [n])) as [[| |]|].
Qed.

Lemma Symlink_child l n :
  n <> dotdot ->
  Symlink l (d ++ [n]) t =
    if decide (l = []) then (Err ENOENT, t)
    else match t !! (d ++ [n]) with
         | Some _ => (Err EEXIST, t)
         | None => (Ok tt, <[d ++ [n] := NLink l]> t)
         end.
Proof.
  intros Hn. unfold Symlink. case_decide; [done|]. unfold at_path.
  rewrite namei_child, node_at_child by done. by destruct (t !! (d ++ [n])).
Qed.

Lemma RemoveAll_child n : n <> dotdot -> RemoveAll (d ++ [n]) t = (Ok tt, prune (d ++ [n]) t).
Proof. intros Hn. unfold RemoveAll. by rewrite namei_child. Qed.

(** Renaming a directory to a free name next to it. *)
Lemma Rename_sibling n m :
  n <> dotdot -> m <> dotdot -> n <> m -> t !! (d ++ [n]) = Some NDir -> t !! (d ++ [m]) = None ->
  Rename (d ++ [n]) (d ++ [m]) t =
    (Ok tt, graft (d ++ [m]) (sub (d ++ [n]) t) ∪ prune (d ++ [n]) (prune (d ++ [m]) t)).
Proof.
  intros Hn Hm Hne Ha Hb. unfold Rename. rewrite !namei_child, !node_at_child, Ha, Hb by done.
  rewrite decide_False by (intros [=]%app_inv_head; done).
  rewrite decide_False; [done|]. intros Hp. eapply sibling_prefix; [exact Hne|exact Hp|done].
Qed.
End siblings.

Lemma MkdirAll_child p s u :
  real_dirs p u -> s <> dotdot -> u !! (p ++ [s]) = None ->
  MkdirAll (p ++ [s]) u = (Ok tt, <[p ++ [s] := NDir]> u).
Proof.
  intros Hp Hs Hu. pose proof (MkdirAll_real p u Hp) as Hup. unfold MkdirAll in *.
  rewrite reverse_snoc. cbn [mkdir_all]. rewrite reverse_cons, reverse_involutive.
  assert (Stat u (p ++ [s]) = Err ENOENT) as ->.
  { unfold Stat, stat_with, namei. destruct Hp as [Hd Hq]. rewrite resolve_real by done. simpl app.
    rewrite resolve_cons, decide_False by done. by rewrite node_at_child, Hu, decide_True, node_at_child, Hu. }
  by rewrite Hup, Mkdir_child, Hu.
Qed.

(** ** Creating a path *)

(** A path on which nothing is in the way: every part of it is missing or a
    directory. *)
Definition open_path (p : path) (t : tree) : Prop :=
  (dotdot ∉ p) /\ forall q, q `prefix_of` p -> node_at t q = None \/ node_at t q = Some NDir.

Lemma real_open p t : real_dirs p t -> open_path p t.
Proof. intros [Hd Hq]. split; [done|]. intros q Hp. right. by apply Hq. Qed.

Lemma open_path_app p q t : open_path (p ++ q) t -> open_path p t.
Proof.
  intros [Hd Hq]. split; [intros ?; apply Hd, elem_of_app; by left|].
  intros r Hr. apply Hq. by apply prefix_app_r.
Qed.

Lemma resolve_open links t f cur rest :
  (dotdot ∉ rest) ->
  (forall q, q `prefix_of` rest -> node_at t (cur ++ q) = None \/ node_at t (cur ++ q) = Some NDir) ->
  resolve links t f cur rest = Ok (cur ++ rest) \/ resolve links t f cur rest = Err ENOENT.
Proof.
  revert cur. induction rest as [|s rest IH]; intros cur Hd Hq.
  - left. by rewrite resolve_nil, app_nil_r.
  - apply not_elem_of_cons in Hd as [Hs Hd]. rewrite resolve_cons, decide_False by done.
    destruct (Hq [s]) as [-> | ->]; [by exists rest|by destruct rest; [left|right]|].
    destruct (IH (cur ++ [s]) Hd) as [-> | ->]; [|left; by rewrite <-app_assoc|by right].
    intros q [k ->]. rewrite <-app_assoc. apply Hq. by exists k.
Qed.

Lemma Stat_open_missing p t : open_path p t -> node_at t p = None -> Stat t p = Err ENOENT.
Proof.
  intros [Hd Hq] Hp. unfold Stat, stat_with, namei.
  destruct (resolve_open max_links t true [] p Hd Hq) as [-> | ->]; [|done]. simpl. by rewrite Hp.
Qed.

(** In a well-formed tree the parts of a directory's path are directories. *)
Lemma closed_real p t : closed t -> (dotdot ∉ p) -> node_at t p = Some NDir -> real_dirs p t.
Proof.
  intros Hc. induction p as [|s p IH] using rev_ind; intros Hd Hp.
  - split; [done|]. by intros q ->%prefix_nil_inv.
  - rewrite node_at_child in Hp. apply real_dirs_snoc; [|set_solver|done].
    apply IH; [set_solver|]. eapply Hc. by eexists.
Qed.

Definition on_path (p q : path) : Prop := q `prefix_of` p /\ q <> [].
#[export] Instance on_path_dec p q : Decision (on_path p q).
Proof. unfold on_path. apply _. Defined.

Lemma closed_insert_dir p n t :
  closed t -> node_at t p = Some NDir -> closed (<[p ++ [n] := NDir]> t).
Proof.
  intros Hc Hp q s Hs. assert (node_at t q = Some NDir) as Hq.
  { destruct (decide (q ++ [s] = p ++ [n])) as [Heq|Hne].
    - by apply app_inj_tail in Heq as [-> _].
    - rewrite lookup_insert_ne in Hs by done. by eapply Hc. }
  unfold node_at in *. case_decide; [done|]. destruct (decide (q = p ++ [n])) as [->|Hne].
  - by rewrite lookup_insert_eq.
  - by rewrite lookup_insert_ne.
Qed.

Lemma open_path_mono p t t' :
  (forall q, t' !! q = t !! q \/ t' !! q = Some NDir) -> open_path p t -> open_path p t'.
Proof.
  intros Hm [Hd Hq]. split; [done|]. intros q Hp. specialize (Hq q Hp). unfold node_at in *.
  case_decide; [done|]. destruct (Hm q) as [-> | ->]; auto.
Qed.

Lemma MkdirAll_open p t :
  closed t -> open_path p t ->
  exists t', MkdirAll p t = (Ok tt, t') /\ real_dirs p t' /\ closed t' /\
    forall q, t' !! q = if decide (on_path p q) then Some NDir else t !! q.
Proof.
  intros Hc. induction p as [|n p IH] using rev_ind; intros Ho.
  { exists t. split_and!; [done| |done|].
    - split; [apply not_elem_of_nil|]. by intros q ->%prefix_nil_inv.
    - intros q. rewrite decide_False; [done|]. by intros [->%prefix_nil_inv ?]. }
  destruct (proj2 Ho (p ++ [n])) as [Hn|Hn]; [done| |].
  2: { assert (real_dirs (p ++ [n]) t) as Hr by (apply closed_real; [done|apply Ho|done]).
    exists t. split_and!; [by apply MkdirAll_real|done|done|]. intros q.
    case_decide as Hq; [|done]. destruct Hq as [Hq Hne]. apply (proj2 Hr) in Hq.
    unfold node_at in Hq. by rewrite decide_False in Hq. }
  destruct (IH (open_path_app _ _ _ Ho)) as (t1 & Hm & Hr & Hc1 & Hl).
  assert (n <> dotdot) as Hdd by (destruct Ho as [Hd _]; set_solver).
  assert (t1 !! (p ++ [n]) = None) as Hfree.
  { rewrite Hl, decide_False, <-node_at_child; [done|]. intros [Hp _]. by eapply (above_prefix p n). }
  exists (<[p ++ [n] := NDir]> t1). split_and!.
  - unfold MkdirAll in *. rewrite reverse_snoc. cbn [mkdir_all].
    rewrite reverse_cons, reverse_involutive, Stat_open_missing, Hm by done.
    by rewrite Mkdir_child, Hfree.
  - apply real_dirs_snoc; [by apply real_dirs_insert|done|apply lookup_insert_eq].
  - apply closed_insert_dir; [done|by apply real_dirs_self].
  - intros q. destruct (decide (q = p ++ [n])) as [->|Hne].
    + rewrite lookup_insert_eq, decide_True; [done|]. split; [done|by destruct p].
    + rewrite lookup_insert_ne, Hl by done. apply decide_ext. unfold on_path.
      split; intros [[k Hk] Hq]; (split; [|done]).
      * exists (k ++ [n]). by rewrite Hk, app_assoc.
      * destruct k as [|k' k _] using rev_ind; [by rewrite app_nil_r in Hk|].
        rewrite app_assoc in Hk. apply app_inj_tail in Hk as [-> _]. by eexists.
Qed.

(** ** Deciding well-formedness *)

#[export] Instance closed_dec t : Decision (closed t).
Proof.
  refine (cast_if (decide (map_Forall (fun p _ => p = [] \/
                     node_at t (take (length p - 1) p) = Some NDir) t))).
  - intros p s [n Hn]. apply m in Hn as [Hn|Hn]; [by destruct p|].
    rewrite length_app in Hn. simpl in Hn. by rewrite Nat.add_sub, take_app_length in Hn.
  - intros Hc. apply n. intros p x Hp. destruct p as [|s p _] using rev_ind; [by left|]. right.
    rewrite length_app. simpl. rewrite Nat.add_sub, take_app_length. eapply Hc. by eexists.
Defined.

#[export] Instance real_dirs_dec d t : Decision (real_dirs d t).
Proof.
  refine (cast_if (decide ((dotdot ∉ d) /\
            Forall (fun k => node_at t (take k d) = Some NDir) (seq 0 (S (length d)))))).
  - destruct a as [Hd Hf]. split; [done|]. intros q [k ->]. rewrite Forall_forall in Hf.
    rewrite <-(take_app_length q k). apply Hf. apply elem_of_seq. rewrite length_app. lia.
  - intros [Hd Hq]. apply n. split; [done|]. apply Forall_forall. intros k _. apply Hq.
    exists (drop k d). by rewrite take_drop.
Defined.

#[export] Instance safe_link_dec l : Decision (safe_link l).
Proof. unfold safe_link. apply _. Defined.

Definition harmless (n : node) : Prop := match n with NLink l => safe_link l | _ => True end.
#[export] Instance harmless_dec n : Decision (harmless n).
Proof. destruct n; apply _. Defined.

#[export] Instance confined_dec t : Decision (confined t).
Proof.
  refine (cast_if (decide (map_Forall (fun _ n => harmless n) t))).
  - intros p l Hl. by apply (m p (NLink l)).
  - intros Hc. apply n. intros p [| |l] Hl; [done..|]. by eapply Hc.
Defined.

#[export] Instance jail_dec d t : Decision (jail d t).
Proof. unfold jail. apply _. Defined.

#[export] Instance open_path_dec p t : Decision (open_path p t).
Proof.
  refine (cast_if (decide ((dotdot ∉ p) /\
            Forall (fun k => node_at t (take k p) = None \/ node_at t (take k p) = Some NDir)
                   (seq 0 (S (length p)))))).
  - destruct a as [Hd Hf]. split; [done|]. intros q [k ->]. rewrite Forall_forall in Hf.
    rewrite <-(take_app_length q k). apply Hf. apply elem_of_seq. rewrite length_app. lia.
  - intros [Hd Hq]. apply n. split; [done|]. apply Forall_forall. intros k _. apply Hq.
    exists (drop k p). by rewrite take_drop.
Defined.
