(* ===== verification/Tar.v ===== *)
(** * Serving an action as a tar stream ([pkg/cache/tar.go], [serveAction])

    The archive of a directory as its reader sees it: the entries that arrive
    complete, and how the stream ends.  Walking the directory may meet an I/O
    error at any place; what the reader then sees depends on whether the error
    comes before an entry's header or within its body. *)
From Stdlib Require Import Ascii.
From S2P Require Import Prelude GoStrings Paths FileSystem ActionRef.
#[local] Open Scope go_scope.

Inductive typeflag := TypeDir | TypeReg | TypeSymlink | TypeOther.

Record header := {
  hName : gostring;
  hType : typeflag;
  hLinkname : gostring;
  hMode : Z;
}.

(** How a reader finds the end: the end of the archive, a header that cannot
    be read, or the body of an entry that stops after some bytes. *)
Inductive ending := TarEOF | TarNextError | TarBodyCut (h : header) (got : gostring).

Record stream := { entries : list (header * gostring); finish : ending }.

(** ** Writing ([tarDir]) *)

(** Where the walk can fail at a path: its information cannot be read, its
    entries cannot be listed, its contents cannot be opened, or copied beyond
    some bytes. *)
Inductive walk_fault := FStat | FReadDir | FOpen | FCopy (n : nat).

#[export] Instance walk_fault_eq_dec : EqDecision walk_fault.
Proof. solve_decision. Defined.

(** Entries written, and the ending if the walk stopped there. *)
Abbreviation output := (list (header * gostring) * option ending)%type.

Definition out_seq (o o' : output) : output :=
  match o with
  | (l, Some e) => (l, Some e)
  | (l, None) => (l ++ o'.1, o'.2)
  end.

Definition out_all (os : list output) : output := foldr out_seq ([], None) os.

Definition entry_header (r : path) (n : node) : header :=
  match n with
  | NDir => {| hName := join [slash] r ++ [slash]; hType := TypeDir; hLinkname := []; hMode := 493 |}
  | NFile m _ => {| hName := join [slash] r; hType := TypeReg; hLinkname := []; hMode := m |}
  | NLink l => {| hName := join [slash] r; hType := TypeSymlink; hLinkname := l; hMode := 511 |}
  end.

(** A body of which only [n] bytes are written.  If they are all of it, the
    archive ends properly after it. *)
Definition cut_body (h : header) (data : gostring) (n : nat) : output :=
  if (n <? length data)%nat then ([], Some (TarBodyCut h (take n data))) else ([(h, data)], Some TarEOF).

Section tarDir.
Context (t : tree) (root : path) (excludes : list gostring) (fault : path -> option walk_fault).

(** The callback of [WalkDir] at the path [r] below the root, and the walk
    below it. *)
Fixpoint tar_entry (fuel : nat) (r : path) : output :=
  match fuel with
  | O => ([], None)
  | S fuel =>
      if decide (default [] (head r) ∈ excludes) then ([], None)
      else if decide (fault r = Some FStat) then ([], Some TarEOF)
      else
        match t !! (root ++ r) with
        | None => ([], Some TarEOF)
        | Some NDir =>
            out_seq ([(entry_header r NDir, [])], None)
              (if decide (fault r = Some FReadDir) then ([], Some TarEOF)
               else out_all (map (fun n => tar_entry fuel (r ++ [n])) (children t (root ++ r))))
        | Some (NFile m data) =>
            match fault r with
            | Some FOpen => cut_body (entry_header r (NFile m data)) data 0
            | Some (FCopy n) => cut_body (entry_header r (NFile m data)) data n
            | _ => ([(entry_header r (NFile m data), data)], None)
            end
        | Some (NLink l) => ([(entry_header r (NLink l), [])], None)
        end
  end.

(** Deep enough for every path of the tree. *)
Definition depth : nat := max_list (length <$> elements (dom t)).

(** The root itself is not an entry; what is not a directory is empty. *)
Definition tar_walk : output :=
  match node_at t root with
  | Some NDir =>
      if decide (fault [] = Some FReadDir) then ([], Some TarEOF)
      else out_all (map (fun n => tar_entry (S depth) [n]) (children t root))
  | Some _ => ([], None)
  | None => ([], Some TarEOF)
  end.

Definition tarDir : stream :=
  {| entries := tar_walk.1; finish := default TarEOF tar_walk.2 |}.
End tarDir.

(** ** The handler *)

Inductive http_response := NetError | Status (code : Z) (body : stream).

Definition empty_body : stream := {| entries := []; finish := TarEOF |}.

Definition serveAction (t : tree) (cacheDir dir : gostring) (fault : path -> option walk_fault)
    : http_response :=
  if negb (isSafeActionDir dir) then Status 400 empty_body
  else
    let actionPath := segments (Join [cacheDir; "actions-repo-cache"; dir]) in
    match Stat t actionPath with
    | Ok NDir =>
        match namei false t actionPath with
        | Ok q => Status 200 (tarDir t q [(".git" : gostring)] fault)
        | Err _ => Status 200 empty_body
        end
    | _ => Status 404 empty_body
    end.
