(* ===== verification/Setup.v ===== *)
(** * Fetching the actions of a job ([cmd/entrypoint/setup.go])

    [untarInto] extracts an archive below a target directory; [fetchAction]
    does so in a fresh sibling directory and renames it, with retries.  The
    first result is that extraction refines [unpack], the same extraction with
    the target as the root: nothing outside the target is read or changed.
    The server's answers and the random directory names are an oracle. *)
From Stdlib Require Import Ascii.
From S2P Require Import Prelude GoStrings Paths FileSystem Tar.
#[local] Open Scope go_scope.

Inductive setup_error :=
  | TarNext
  | Escapes (name : gostring)
  | UnsafeLink (name linkname : gostring)
  | BodyCut
  | Os (e : errno)
  | FetchNotFound
  | NetworkError
  | HttpStatus (code : Z)
  | RandFailed
  | Exhausted
  | AfterAttempts (e : setup_error).

(** ** Extraction ([untarInto]) *)

Section untar.
Context (umask : Z).

Definition parent (p : path) : path := take (length p - 1) p.

(** One entry; [target'] is the target in cleaned form with a slash. *)
Definition untar_entry (target' : gostring) (h : header) (data : gostring) : act setup_error unit :=
  if has_traversal (hName h) then fail (Escapes (hName h))
  else
    let clean := Clean (slash :: hName h) in
    let dest := Join [target'; trim_prefix clean [slash]] in
    if negb (has_prefix (dest ++ [slash]) target') && bool_decide (dest <> trim_suffix target' [slash])
    then fail (Escapes (hName h))
    else
      match hType h with
      | TypeDir => map_error Os (MkdirAll (segments dest))
      | TypeReg =>
          map_error Os (MkdirAll (segments (Dir dest))) ≫= fun _ =>
          map_error Os (write_nofollow umask (segments dest) (hMode h) data)
      | TypeSymlink =>
          map_error Os (MkdirAll (segments (Dir dest))) ≫= fun _ =>
          if IsAbs (hLinkname h) || contains dotdot (hLinkname h)
          then fail (UnsafeLink (hName h) (hLinkname h))
          else map_error Os (Symlink (hLinkname h) (segments dest))
      | TypeOther => mret tt
      end.

(** The loop: entry after entry to the end of the stream.  An entry whose body
    is cut has been written as far as it came. *)
Fixpoint each_entry (f : header -> gostring -> act setup_error unit) (s : list (header * gostring))
    (e : ending) : act setup_error unit :=
  match s with
  | [] =>
      match e with
      | TarEOF => mret tt
      | TarNextError => fail TarNext
      | TarBodyCut h got =>
          f h got ≫= fun _ => match hType h with TypeReg => fail BodyCut | _ => fail TarNext end
      end
  | (h, data) :: s => f h data ≫= fun _ => each_entry f s e
  end.

Definition untarInto (s : stream) (target : gostring) : act setup_error unit :=
  each_entry (untar_entry (Clean target ++ [slash])) (entries s) (finish s).

(** The reference: the target is the root, and names are lists of names. *)
Definition unpack_entry (h : header) (data : gostring) : act setup_error unit :=
  let r := segments (hName h) in
  if has_traversal (hName h) then fail (Escapes (hName h))
  else
    match hType h with
    | TypeDir => map_error Os (MkdirAll r)
    | TypeReg => map_error Os (MkdirAll (parent r)) ≫= fun _ =>
                 map_error Os (write_nofollow umask r (hMode h) data)
    | TypeSymlink => map_error Os (MkdirAll (parent r)) ≫= fun _ =>
                     if IsAbs (hLinkname h) || contains dotdot (hLinkname h)
                     then fail (UnsafeLink (hName h) (hLinkname h))
                     else map_error Os (Symlink (hLinkname h) r)
    | TypeOther => mret tt
    end.

Definition unpack (s : stream) : act setup_error unit := each_entry unpack_entry (entries s) (finish s).
End untar.

(** ** Fetching *)

(** What one call of [fetchAction] meets: the answer to its n-th request, and
    the bytes of the k-th name it draws in its n-th attempt. *)
Record fetch_env := {
  answer : nat -> http_response;
  drawn : nat -> nat -> option (list Z);
}.

Section fetch.
Context (umask : Z).

Definition tryFetch (r : http_response) (target : gostring) : act setup_error unit :=
  match r with
  | NetError => fail NetworkError
  | Status code body =>
      if decide (code = 200%Z) then untarInto umask body target
      else if decide (code = 404%Z) then fail FetchNotFound
      else fail (HttpStatus code)
  end.

Definition partial_name (target : gostring) (bytes : list Z) : gostring :=
  target ++ ".partial." ++ concat (map (fmt_hex_pad 2) bytes).

(** A fresh sibling of the target, in at most [tries] draws. *)
Fixpoint makePartialDir (draw : nat -> option (list Z)) (target : gostring) (k tries : nat)
    : act setup_error gostring :=
  match tries with
  | O => fail Exhausted
  | S tries =>
      match draw k with
      | None => fail RandFailed
      | Some bytes => fun t =>
          let tmp := partial_name target bytes in
          match Mkdir (segments tmp) t with
          | (Ok _, t) => (Ok tmp, t)
          | (Err EEXIST, t) => makePartialDir draw target (S k) tries t
          | (Err e, t) => (Err (Os e), t)
          end
      end
  end.

(** [tryFetchAndPromote] after the temporary directory is made. *)
Definition promote (r : http_response) (target tmp : gostring) : act setup_error unit :=
  tryFetch r tmp ≫= fun _ =>
  look (fun t => Lstat t (segments target)) ≫= fun st =>
  match st with
  | Ok _ => map_error Os (RemoveAll (segments target))
  | Err ENOENT => mret tt
  | Err e => fail (Os e)
  end ≫= fun _ => map_error Os (Rename (segments tmp) (segments target)).

(** The deferred removal happens however the attempt ends. *)
Definition with_removal (tmp : gostring) (m : act setup_error unit) : act setup_error unit := fun t =>
  let '(r, t) := m t in (r, (RemoveAll (segments tmp) t).2).

Definition tryFetchAndPromote (r : http_response) (draw : nat -> option (list Z)) (target : gostring)
    : act setup_error unit :=
  makePartialDir draw target 0 5 ≫= fun tmp => with_removal tmp (promote r target tmp).

Definition setupMaxAttempts : nat := 3.

(** The attempts from the n-th on, [more] of them. *)
Fixpoint attempts (e : fetch_env) (target : gostring) (n more : nat) (last : setup_error)
    : act setup_error unit := fun t =>
  match more with
  | O => (Err (AfterAttempts last), t)
  | S more =>
      match tryFetchAndPromote (answer e n) (drawn e n) target t with
      | (Ok _, t) => (Ok tt, t)
      | (Err FetchNotFound, t) => (Err FetchNotFound, t)
      | (Err err, t) => attempts e target (S n) more err t
      end
  end.

Definition fetchAction (e : fetch_env) (dir actionsDir : gostring) : act setup_error unit :=
  map_error Os (MkdirAll (segments actionsDir)) ≫= fun _ =>
  attempts e (Join [actionsDir; dir]) 1 setupMaxAttempts NetworkError.

(** [runSetup] once the manifest is read: the askpass script, then the actions
    in order, stopping at the first that fails. *)
Definition askpass : gostring :=
  "#!/bin/sh" ++ [nl] ++ "echo " ++ [chr 34] ++ "$GIT_AUTH_TOKEN" ++ [chr 34; nl].

(** [os.WriteFile]: the last link is followed. *)
Definition WriteFile (p : path) (mode : Z) (data : gostring) : act errno unit := fun t =>
  match namei true t p with
  | Err e => (Err e, t)
  | Ok q =>
      match node_at t q with
      | None => put q (NFile (Z.land mode (Z.lnot umask)) data) t
      | Some (NFile m _) => put q (NFile m data) t
      | Some NDir => (Err EISDIR, t)
      | Some (NLink _) => (Err ELOOP, t)
      end
  end.

Definition writeAskpassShim (p : gostring) : act errno unit :=
  MkdirAll (segments (Dir p)) ≫= fun _ => WriteFile (segments p) 493 askpass.

Fixpoint fetch_all (envs : nat -> fetch_env) (actionsDir : gostring) (i : nat) (dirs : list gostring)
    : act setup_error unit :=
  match dirs with
  | [] => mret tt
  | d :: dirs => fetchAction (envs i) d actionsDir ≫= fun _ => fetch_all envs actionsDir (S i) dirs
  end.

Definition runSetup (envs : nat -> fetch_env) (actions : list gostring) (actionsDir shimDir : gostring)
    : act setup_error unit :=
  map_error Os (writeAskpassShim (Join [shimDir; "askpass.sh"])) ≫= fun _ =>
  map_error Os (MkdirAll (segments actionsDir)) ≫= fun _ =>
  fetch_all envs actionsDir 0 actions.
End fetch.

(** ** Extraction stays below the target *)

Lemma split_infix c s l : s ∈ split c l -> contains s l = true.
Proof.
  intros Hin. apply contains_spec. rewrite <-(join_split c l).
  induction (split c l) as [|x xs IH]; [by apply elem_of_nil in Hin|].
  apply elem_of_cons in Hin as [->|Hin].
  - destruct xs as [|y xs]; [exists [], []; by rewrite app_nil_r|].
    rewrite join_byte by done. by exists [], (c :: join [c] (y :: xs)).
  - destruct (IH Hin) as (a & b & Hab). destruct xs as [|y xs]; [by apply elem_of_nil in Hin|].
    rewrite join_byte by done. exists (x ++ c :: a), b. rewrite Hab. by rewrite <-app_assoc.
Qed.

Lemma safe_link_checked l : IsAbs l || contains dotdot l = false -> safe_link l.
Proof.
  intros Hl. reflect_bools. split; [done|]. intros [_ Hin]%list_elem_of_filter.
  apply split_infix in Hin. congruence.
Qed.

Section untar_spec.
Context (umask : Z) (target : gostring) (Htarget : clean_abs target).

(** The place of an entry: the names of the entry below those of the target,
    and the check against escaping never fires. *)
Lemma dest_under name :
  has_traversal name = false ->
  Join [target ++ [slash]; trim_prefix (Clean (slash :: name)) [slash]] = under target (segments name) /\
  has_prefix (under target (segments name) ++ [slash]) (target ++ [slash]) = true.
Proof.
  intros Hn. pose proof (segments_plain name Hn) as Hp. split.
  - rewrite clean_slash by done. unfold render. change (slash :: ?x) with ([slash] ++ x).
    rewrite trim_prefix_app, join_slash_root by (done || by apply traversal_names).
    by rewrite segments_names.
  - apply has_prefix_spec. unfold under. destruct (segments name) as [|s ss]; simpl.
    + exists []. by rewrite !app_nil_r.
    + eexists. rewrite <-!app_assoc. simpl. done.
Qed.

Lemma segments_parent r :
  Forall plain r -> r <> [] ->
  segments (Dir (under target r)) = segments target ++ parent r.
Proof.
  intros Hr Hne. rewrite under_render by done. destruct r as [|n r _] using rev_ind; [done|].
  rewrite app_assoc, segments_Dir.
  - unfold parent. rewrite length_app. simpl. by rewrite Nat.add_sub, take_app_length.
  - rewrite <-app_assoc. apply Forall_app_2; [by apply clean_abs_plain|done].
Qed.

(** Creating the parent directory: nothing to do for the target itself. *)
Lemma chroot_parent r :
  Forall plain r ->
  chroot (segments target) (MkdirAll (segments (Dir (under target r)))) (MkdirAll (parent r)).
Proof.
  intros Hr. destruct (decide (r = [])) as [->|Hne].
  - intros t [Hd Hc]. exists (Ok tt), t. split_and!; [|done|done|done]. apply MkdirAll_real.
    pose proof Htarget as (_ & Hne & Hrend). pose proof (clean_abs_plain _ Htarget) as Hp.
    unfold under. simpl. rewrite app_nil_r. rewrite Hrend.
    destruct (segments target) as [|n ns _] using rev_ind; [done|].
    rewrite segments_Dir by done. by eapply real_dirs_app.
  - rewrite segments_parent by done. apply chroot_MkdirAll. unfold parent.
    intros Hin. apply (plain_dotdot r Hr). by eapply subseteq_take.
Qed.

Lemma chroot_untar_entry h data :
  chroot (segments target) (untar_entry umask (target ++ [slash]) h data) (unpack_entry umask h data).
Proof.
  unfold untar_entry, unpack_entry. destruct (has_traversal (hName h)) eqn:Ht; [auto with chroot|].
  destruct (dest_under _ Ht) as [-> Hp]. rewrite Hp. simpl.
  pose proof (segments_plain _ Ht) as Hr. pose proof (plain_dotdot _ Hr) as Hdd.
  pose proof (chroot_parent _ Hr) as Hpar.
  rewrite segments_under by done.
  destruct (hType h); [auto with chroot| | |auto with chroot].
  - apply chroot_bind; [auto with chroot|intros _]. auto with chroot.
  - apply chroot_bind; [auto with chroot|intros _].
    destruct (IsAbs (hLinkname h) || contains dotdot (hLinkname h)) eqn:Hl; [auto with chroot|].
    apply chroot_map_error, chroot_Symlink; [done|]. by apply safe_link_checked.
Qed.

Lemma chroot_each_entry f f0 s e :
  (forall h data, chroot (segments target) (f h data) (f0 h data)) ->
  chroot (segments target) (each_entry f s e) (each_entry f0 s e).
Proof.
  intros Hf. induction s as [|[h data] s IH]; simpl; [|by apply chroot_bind].
  destruct e as [| |h got]; [auto with chroot..|].
  apply chroot_bind; [done|intros _]. destruct (hType h); auto with chroot.
Qed.

Lemma chroot_untarInto s : chroot (segments target) (untarInto umask s target) (unpack umask s).
Proof.
  unfold untarInto, unpack. rewrite clean_abs_clean by done.
  apply chroot_each_entry. intros h data. apply chroot_untar_entry.
Qed.
End untar_spec.

(** Extraction does below its target what it would do with it as the root. *)
Lemma untar_below umask target s t r t' :
  clean_abs target -> jail (segments target) t -> untarInto umask s target t = (r, t') ->
  prune (segments target) t' = prune (segments target) t /\
  jail (segments target) t' /\
  unpack umask s (sub (segments target) t) = (r, sub (segments target) t').
Proof.
  intros Hc Hj He. destruct (chroot_untarInto umask target Hc s t Hj) as (r1 & t1 & E1 & E2 & Hp & Hj1).
  rewrite He in E1. by simplify_eq.
Qed.

(** C11: extraction is confined to its target.  Whatever the archive holds and
    however it ends, if the path to the target goes through real directories
    and the links already below it are harmless, then extraction leaves
    everything outside the target as it was, leaves only harmless links below
    it, and does below it exactly what it would do with the target as the
    root of the file system: in particular the check of the joined path never
    fires, and no write goes through a link of the archive to the outside. *)
Theorem untar_confined umask target s t r t' :
  clean_abs target -> jail (segments target) t -> untarInto umask s target t = (r, t') ->
  prune (segments target) t' = prune (segments target) t /\
  jail (segments target) t' /\
  unpack umask s (sub (segments target) t) = (r, sub (segments target) t').
Proof. apply untar_below. Qed.

(** ** Fetching is all or nothing *)

Section fetch_spec.
Context (umask : Z) (actionsDir dir : gostring).
Context (Hactions : clean_abs actionsDir) (Hdir : plain dir).

Abbreviation A := (segments actionsDir).
Abbreviation target := (Join [actionsDir; dir]).
Abbreviation T := (A ++ [dir]).

Lemma under_name n : plain n -> segments (under actionsDir [n]) = A ++ [n].
Proof. intros Hn. apply segments_under; [done|by constructor]. Qed.

Lemma target_under : target = under actionsDir [dir].
Proof.
  assert (segments dir = [dir]) as Hs by exact (segments_names [dir] (Forall_cons_2 _ _ _ Hdir (Forall_nil_2 _))).
  rewrite <-Hs at 2. apply join_under; [done|].
  exact (traversal_names [dir] (Forall_cons_2 _ _ _ Hdir (Forall_nil_2 _))).
Qed.

Lemma target_segments : segments target = T.
Proof. rewrite target_under. by apply under_name. Qed.

(** The name drawn for a temporary directory. *)
Definition tmp_name (bytes : list Z) : gostring := dir ++ ".partial." ++ concat (map (fmt_hex_pad 2) bytes).

Lemma tmp_name_plain bytes : Forall (fun b => 0 <= b < 256)%Z bytes -> plain (tmp_name bytes).
Proof.
  intros Hb. destruct Hdir as ([Hne Hdot] & Hs & Hdd). unfold tmp_name.
  assert (slash ∉ concat (map (fmt_hex_pad 2) bytes)) as Hh.
  { induction Hb as [|b bs Hb _ IH]; simpl; [apply not_elem_of_nil|].
    apply not_elem_of_app. split; [|done]. intros Hin.
    pose proof (fmt_hex_pad_chars 2 b ltac:(lia)) as Hf. eapply Forall_forall in Hf; [|exact Hin].
    change (code slash) with 47%Z in Hf. lia. }
  assert (9 <= length (dir ++ ".partial." ++ concat (map (fmt_hex_pad 2) bytes)))%nat as Hl
    by (rewrite !length_app; simpl; lia).
  split_and!.
  - split; intros Heq; rewrite Heq in Hl; simpl in Hl; lia.
  - rewrite !not_elem_of_app. split_and!; [done| |done]. decide_now.
  - intros Heq. rewrite Heq in Hl. unfold dotdot in Hl. simpl in Hl. lia.
Qed.

Lemma partial_segments bytes :
  Forall (fun b => 0 <= b < 256)%Z bytes ->
  segments (partial_name target bytes) = A ++ [tmp_name bytes].
Proof.
  intros Hb. rewrite <-under_name by by apply tmp_name_plain. unfold partial_name.
  rewrite target_under. unfold under, tmp_name. simpl. by rewrite !app_nil_r, <-app_assoc.
Qed.

Definition byte_draws (draw : nat -> option (list Z)) : Prop :=
  forall k bytes, draw k = Some bytes -> Forall (fun b => 0 <= b < 256)%Z bytes.

Lemma tmp_name_ne bytes : tmp_name bytes <> dir.
Proof.
  unfold tmp_name. intros Heq. apply (f_equal length) in Heq. rewrite !length_app in Heq.
  simpl in Heq. lia.
Qed.

(** Either nothing happened, or a new empty directory is next to the target. *)
Lemma makePartialDir_spec draw k tries t r t' :
  byte_draws draw -> real_dirs A t -> makePartialDir draw target k tries t = (r, t') ->
  match r with
  | Ok tmp => exists bytes, Forall (fun b => 0 <= b < 256)%Z bytes /\ tmp = partial_name target bytes /\
       t !! (A ++ [tmp_name bytes]) = None /\ t' = <[A ++ [tmp_name bytes] := NDir]> t
  | Err _ => t' = t
  end.
Proof.
  intros Hdraw Hreal. revert k. induction tries as [|tries IH]; intros k Hm; simpl in Hm;
    unfold fail in *; [by simplify_eq|].
  destruct (draw k) as [bytes|] eqn:Hk; [|by simplify_eq/=]. pose proof (Hdraw _ _ Hk) as Hb.
  rewrite partial_segments in Hm by done.
  rewrite Mkdir_child in Hm by (done || by apply plain_not_dotdot, tmp_name_plain).
  destruct (t !! (A ++ [tmp_name bytes])) eqn:Ht; [by apply IH in Hm|]. simplify_eq. by exists bytes.
Qed.

(** The outcome of an attempt: the target is what the archive unpacks to, or
    the tree is as before. *)
Definition installed (t t' : tree) (response : http_response) : Prop :=
  exists body s, response = Status 200 body /\
    unpack umask body {[ [] := NDir ]} = (Ok tt, s) /\ sub T t' = s /\ prune T t' = prune T t.

Section attempt.
Context (bytes : list Z) (t : tree) (Hb : Forall (fun b => 0 <= b < 256)%Z bytes).
Context (Hreal : real_dirs A t) (Hclosed : closed t) (Hfree : t !! (A ++ [tmp_name bytes]) = None).

Abbreviation P := (A ++ [tmp_name bytes]).
Abbreviation t0 := (<[P := NDir]> t).

Lemma plain_tmp : plain (tmp_name bytes).
Proof. by apply tmp_name_plain. Qed.

Lemma tmp_dotdot : tmp_name bytes <> dotdot.
Proof. apply plain_not_dotdot, plain_tmp. Qed.

Lemma P_nonempty : P <> [].
Proof. by destruct A. Qed.

Lemma sub_fresh : sub P t0 = {[ [] := NDir ]}.
Proof.
  apply map_eq. intros r. rewrite lookup_sub. destruct (decide (r = [])) as [->|Hr].
  - by rewrite app_nil_r, lookup_insert_eq, lookup_singleton_eq.
  - rewrite lookup_insert_ne, lookup_singleton_ne by
      (done || (intros Heq; apply Hr; apply (app_inv_head P); by rewrite app_nil_r)).
    apply closed_missing; [done|apply P_nonempty|done].
Qed.

Lemma prune_fresh : prune P t0 = t.
Proof.
  rewrite <-(app_nil_r P) at 2. rewrite prune_insert. apply prune_missing; [done|apply P_nonempty|done].
Qed.

Lemma jail_fresh : jail P t0.
Proof.
  split.
  - apply real_dirs_snoc; [by apply real_dirs_insert|apply tmp_dotdot|by rewrite lookup_insert_eq].
  - rewrite sub_fresh. intros p l. destruct (decide (p = [])) as [->|Hp].
    + by rewrite lookup_singleton_eq.
    + by rewrite lookup_singleton_ne.
Qed.

Lemma tmp_clean : clean_abs (partial_name target bytes).
Proof.
  assert (partial_name target bytes = under actionsDir [tmp_name bytes]) as ->.
  { unfold partial_name. rewrite target_under. unfold under, tmp_name. simpl.
    by rewrite !app_nil_r, <-app_assoc. }
  rewrite under_render by (done || (constructor; [apply plain_tmp|done])).
  apply clean_abs_render; [|by destruct A].
  apply Forall_app_2; [by apply clean_abs_plain|constructor; [apply plain_tmp|done]].
Qed.

(** A tree in which only the temporary directory has changed. *)
Lemma tryFetch_fresh response r t1 :
  tryFetch umask response (partial_name target bytes) t0 = (r, t1) ->
  prune P t1 = t /\ real_dirs P t1 /\
  (r = Ok tt -> exists body, response = Status 200 body /\
       unpack umask body {[ [] := NDir ]} = (Ok tt, sub P t1)).
Proof.
  assert (forall e, (r, t1) = (Err e : result setup_error unit, t0) ->
            prune P t1 = t /\ real_dirs P t1 /\
       (r = Ok tt -> exists body, response = Status 200 body /\
       unpack umask body {[ [] := NDir ]} = (Ok tt, sub P t1))) as Herr.
  { intros e [= -> ->]. split_and!; [apply prune_fresh|apply jail_fresh|done]. }
  unfold tryFetch. destruct response as [|code body]; [by intros [= <- <-]; eapply Herr|].
  destruct (decide (code = 200%Z)) as [->|Hc].
  - pose proof (partial_segments bytes Hb) as Hseg.
    pose proof tmp_clean as Hca.
    intros Hu. apply untar_below in Hu; [|done|rewrite Hseg; apply jail_fresh].
    rewrite Hseg, sub_fresh, prune_fresh in Hu. destruct Hu as (Hp & [Hr _] & Hun).
    split_and!; [done|done|]. intros ->. by exists body.
  - destruct (decide _); intros [= <- <-]; by eapply Herr.
Qed.

Lemma outside_tmp t1 q : prune P t1 = t -> ~ P `prefix_of` q -> t1 !! q = t !! q.
Proof.
  intros Hp Hq. rewrite <-Hp, lookup_prune. by rewrite decide_False.
Qed.

Lemma outside_T q : T `prefix_of` q -> ~ P `prefix_of` q.
Proof. apply sibling_prefix. intros Heq. by destruct (tmp_name_ne bytes). Qed.

(** From the archive unpacked in the temporary directory to the target. *)
Definition promoted (t1 : tree) : tree := graft T (sub P t1) ∪ prune P (prune T t1).

Lemma promoted_spec t1 :
  prune P t1 = t ->
  sub T (promoted t1) = sub P t1 /\ prune T (promoted t1) = prune T t /\
  prune P (promoted t1) = promoted t1.
Proof.
  intros Hp. assert (forall r, strip T (T ++ r) = Some r) as Hstrip
    by (intros r; by apply strip_Some).
  assert (forall q, P `prefix_of` q -> strip T q = None) as HP.
  { intros q Hq. destruct (strip T q) as [r|] eqn:E; [|done]. apply strip_Some in E as ->.
    exfalso. eapply outside_T; [|exact Hq]. by eexists. }
  unfold promoted. split_and!; apply map_eq; intros q.
  - rewrite !lookup_sub, lookup_union, lookup_graft, Hstrip. simpl. rewrite lookup_sub.
    rewrite !lookup_prune. rewrite (decide_True (P := T `prefix_of` _)) by by eexists.
    case_decide; by destruct (t1 !! (P ++ q)).
  - rewrite !lookup_prune. case_decide as HT; [done|].
    rewrite lookup_union, lookup_graft. destruct (strip T q) as [r|] eqn:E.
    { apply strip_Some in E as ->. destruct HT. by eexists. }
    simpl. rewrite (left_id_L None _), !lookup_prune, (decide_False (P := T `prefix_of` _)) by done.
    case_decide as HPq; [|by apply outside_tmp]. destruct HPq as [r ->].
    symmetry. apply closed_missing; [done|apply P_nonempty|done].
  - rewrite lookup_prune. case_decide as HPq; [|done].
    rewrite lookup_union, lookup_graft, (HP _ HPq), !lookup_prune. simpl.
    by rewrite decide_True.
Qed.

(** The attempt after the directory was made, with the deferred removal: once
    the archive is unpacked, the rest succeeds. *)
Abbreviation run_promote response :=
  (with_removal (partial_name target bytes) (promote umask response target (partial_name target bytes)) t0).

Lemma promote_run response t1 :
  tryFetch umask response (partial_name target bytes) t0 = (Ok tt, t1) ->
  run_promote response = (Ok tt, promoted t1).
Proof.
  pose proof (partial_segments bytes Hb) as Hseg. pose proof tmp_dotdot as Hdd.
  pose proof (plain_not_dotdot _ Hdir) as Hdirdd.
  intros Hf. unfold with_removal, promote. unfold mbind, act_bind at 1. rewrite Hf.
  apply tryFetch_fresh in Hf as (Hp & Hr & _). rewrite Hseg.
  assert (real_dirs A t1) as HrA by by eapply real_dirs_app.
  unfold look, map_error, mbind, act_bind. rewrite target_segments, Lstat_child by done.
  assert (forall t2, t2 = prune T t1 -> Rename P T t2 = (Ok tt, promoted t1)) as Hren.
  { intros t2 ->. assert (real_dirs A (prune T t1)) by by apply real_dirs_prune.
    rewrite Rename_sibling; try done.
    - unfold promoted. f_equal. f_equal.
      + f_equal. apply map_eq. intros q. rewrite !lookup_sub, lookup_prune.
        rewrite decide_False; [done|]. intros HT. eapply outside_T; [exact HT|by eexists].
      + f_equal. apply map_eq. intros q. rewrite !lookup_prune. by case_decide.
    - apply tmp_name_ne.
    - rewrite lookup_prune, decide_False by (intros HT; by eapply outside_T).
      rewrite <-node_at_child. by apply real_dirs_self.
    - by rewrite lookup_prune, decide_True. }
  destruct (promoted_spec _ Hp) as (Hsub & Hout & Hgone).
  assert (real_dirs A (promoted t1)) as HrA'.
  { eapply real_dirs_agree; [|exact HrA]. intros q Hq.
    apply (f_equal (.!! q)) in Hout. rewrite !lookup_prune in Hout.
    rewrite !decide_False in Hout by by apply above_prefix. rewrite Hout. symmetry.
    apply outside_tmp; [done|by apply above_prefix]. }
  destruct (t1 !! T) as [n|] eqn:HT.
  - rewrite RemoveAll_child by done. rewrite (Hren (prune T t1)) by done.
    rewrite RemoveAll_child by done. simpl. by rewrite Hgone.
  - unfold mret, act_ret. rewrite (Hren t1); [by rewrite RemoveAll_child by done; simpl; rewrite Hgone|].
    symmetry. apply map_eq. intros q. rewrite lookup_prune. case_decide as HTq; [|done].
    rewrite (outside_tmp t1) by (done || by apply outside_T). destruct HTq as [r0 ->].
    symmetry. apply closed_missing; [done|by destruct A|].
    by rewrite <-(outside_tmp t1) by (done || by apply outside_T).
Qed.

Lemma promote_spec response r t' :
  run_promote response = (r, t') ->
  match r with Ok _ => installed t t' response | Err _ => t' = t end.
Proof.
  pose proof (partial_segments bytes Hb) as Hseg. intros Hrun.
  destruct (tryFetch umask response (partial_name target bytes) t0) as [[[]|e] t1] eqn:Hf.
  - rewrite (promote_run _ _ Hf) in Hrun. simplify_eq.
    apply tryFetch_fresh in Hf as (Hp & Hr & Hok). destruct (Hok eq_refl) as (body & -> & Hun).
    destruct (promoted_spec _ Hp) as (Hsub & Hout & _). exists body, (sub P t1). done.
  - unfold with_removal, promote, mbind, act_bind in Hrun. rewrite Hf in Hrun.
    apply tryFetch_fresh in Hf as (Hp & Hr & _). simplify_eq. rewrite Hseg, RemoveAll_child; [done| |].
    + by eapply real_dirs_app.
    + apply tmp_dotdot.
Qed.

(** A complete archive that unpacks makes the attempt succeed. *)
Lemma attempt_run draw body s :
  draw 0%nat = Some bytes -> unpack umask body {[ [] := NDir ]} = (Ok tt, s) ->
  exists t', tryFetchAndPromote umask (Status 200 body) draw target t = (Ok tt, t') /\
    sub T t' = s /\ prune T t' = prune T t.
Proof.
  intros Hdraw Hun. pose proof (partial_segments bytes Hb) as Hseg.
  destruct (chroot_untarInto umask (partial_name target bytes) tmp_clean body t0) as
    (r & t1 & Hu & Hun' & _ & _); [rewrite Hseg; apply jail_fresh|].
  rewrite Hseg, sub_fresh, Hun in Hun'. simplify_eq.
  assert (tryFetch umask (Status 200 body) (partial_name target bytes) t0 = (Ok tt, t1)) as Hf by done.
  exists (promoted t1). split.
  - unfold tryFetchAndPromote, mbind, act_bind. cbn [makePartialDir]. rewrite Hdraw, Hseg.
    rewrite Mkdir_child, Hfree by (done || apply tmp_dotdot). by apply promote_run.
  - apply tryFetch_fresh in Hf as (Hp & _ & _). by destruct (promoted_spec _ Hp) as (? & ? & _).
Qed.

(** A failure that is not final leaves everything as it was. *)
Lemma attempt_fail draw response err :
  draw 0%nat = Some bytes -> tryFetch umask response (partial_name target bytes) = fail err ->
  tryFetchAndPromote umask response draw target t = (Err err, t).
Proof.
  intros Hdraw Hf. pose proof (partial_segments bytes Hb) as Hseg. pose proof tmp_dotdot as Hdd.
  unfold tryFetchAndPromote, mbind, act_bind. cbn [makePartialDir]. rewrite Hdraw, Hseg.
  rewrite Mkdir_child, Hfree by done.
  unfold with_removal, promote, mbind, act_bind, fail in *. rewrite Hf, Hseg.
  rewrite RemoveAll_child by (done || by apply real_dirs_insert). simpl. by rewrite prune_fresh.
Qed.
End attempt.

Lemma attempt_spec response draw t r t' :
  byte_draws draw -> real_dirs A t -> closed t ->
  tryFetchAndPromote umask response draw target t = (r, t') ->
  match r with Ok _ => installed t t' response | Err _ => t' = t end.
Proof.
  intros Hdraw Hreal Hclosed. unfold tryFetchAndPromote, mbind, act_bind.
  destruct (makePartialDir draw target 0 5 t) as [[tmp|e] t1] eqn:Hm;
    apply makePartialDir_spec in Hm; try done; [|by intros [= <- <-]].
  destruct Hm as (bytes & Hb & -> & Hfree & ->). by apply promote_spec.
Qed.

Lemma attempts_spec e n more last t r t' :
  (forall k, byte_draws (drawn e k)) -> real_dirs A t -> closed t ->
  attempts umask e target n more last t = (r, t') ->
  match r with
  | Ok _ => exists k, (n <= k < n + more)%nat /\ installed t t' (answer e k)
  | Err _ => t' = t
  end.
Proof.
  intros Hdraw Hreal Hclosed. revert n last. induction more as [|more IH]; intros n last; cbn [attempts];
    [by intros [= <- <-]|].
  destruct (tryFetchAndPromote umask (answer e n) (drawn e n) target t) as [[[]|err] t1] eqn:Ha;
    apply attempt_spec in Ha; try done.
  - intros [= <- <-]. exists n. split; [lia|done].
  - subst t1. intros Hrest.
    assert ((r, t') = (Err FetchNotFound, t) \/ attempts umask e target (S n) more err t = (r, t'))
      as [Heq|Hr] by (destruct err; auto).
    + by simplify_eq.
    + apply IH in Hr. destruct r; [|done]. destruct Hr as (k & Hk & Hi). exists k. split; [lia|done].
Qed.

(** *** Progress *)

Definition transient (response : http_response) : Prop :=
  match response with NetError => True | Status code _ => code <> 200%Z /\ code <> 404%Z end.

Definition fresh_draw (e : fetch_env) (t : tree) (n : nat) : Prop :=
  exists bytes, drawn e n 0%nat = Some bytes /\ Forall (fun b => 0 <= b < 256)%Z bytes /\
    t !! (A ++ [tmp_name bytes]) = None.

Lemma transient_fails response tmp :
  transient response -> exists err, tryFetch umask response tmp = fail err /\ err <> FetchNotFound.
Proof.
  unfold tryFetch. destruct response as [|code body]; [by eexists|]. intros [H2 H4].
  rewrite decide_False, decide_False by done. by eexists.
Qed.

Lemma attempts_ok e k more n last t body s :
  real_dirs A t -> closed t -> (n <= k < n + more)%nat ->
  (forall m, (n <= m <= k)%nat -> fresh_draw e t m) ->
  (forall m, (n <= m < k)%nat -> transient (answer e m)) ->
  answer e k = Status 200 body -> unpack umask body {[ [] := NDir ]} = (Ok tt, s) ->
  exists t', attempts umask e target n more last t = (Ok tt, t') /\ sub T t' = s /\
    prune T t' = prune T t.
Proof.
  intros Hreal Hclosed. revert n last. induction more as [|more IH]; intros n last Hk Hfresh Htr Hans Hun;
    [lia|].
  cbn [attempts]. destruct (Hfresh n) as (bytes & Hdraw & Hb & Hfree); [lia|].
  destruct (decide (n = k)) as [->|Hne].
  - rewrite Hans.
    destruct (attempt_run bytes t Hb Hreal Hclosed Hfree (drawn e k) body s Hdraw Hun) as (t' & -> & ? & ?).
    by exists t'.
  - destruct (transient_fails (answer e n) (partial_name target bytes)) as (err & Hf & Hnf);
      [apply Htr; lia|].
    rewrite (attempt_fail bytes t Hb Hreal Hclosed Hfree (drawn e n) (answer e n) err Hdraw Hf).
    destruct (IH (S n) err) as (t' & Ha & Hs); [lia|intros m Hm; apply Hfresh; lia|
      intros m Hm; apply Htr; lia|done|done|].
    exists t'. split; [|done]. by destruct err.
Qed.
End fetch_spec.

(** C12: fetching an action is all or nothing.  Whatever the server answers to
    the at most three requests and whatever names are drawn: either one of the
    answers was a complete archive that unpacks without error, and then the
    action's directory is exactly its content and nothing else has changed; or
    the fetch fails and the file system is exactly as before, without a
    partial directory. *)
Theorem fetch_atomic umask e dir actionsDir t r t' :
  clean_abs actionsDir -> plain dir -> real_dirs (segments actionsDir) t -> closed t ->
  (forall n, byte_draws (drawn e n)) ->
  fetchAction umask e dir actionsDir t = (r, t') ->
  match r with
  | Ok _ => exists n, (1 <= n <= 3)%nat /\ installed umask actionsDir dir t t' (answer e n)
  | Err _ => t' = t
  end.
Proof.
  intros Hc Hd Hreal Hclosed Hdraw. unfold fetchAction, mbind, act_bind, map_error.
  rewrite MkdirAll_real by done. intros Ha. eapply attempts_spec in Ha; [|done..].
  destruct r; [|done]. destruct Ha as (n & Hn & Hi). exists n. split; [|done].
  unfold setupMaxAttempts in Hn. lia.
Qed.

(** ** Examples *)

Definition example_root : tree := {[ ["actions" : gostring] := NDir; ["etc" : gostring] := NDir ]}.

Definition file_entry (name data : gostring) : header * gostring :=
  ({| hName := name; hType := TypeReg; hLinkname := []; hMode := 420 |}, data).
Definition link_entry (name target : gostring) : header * gostring :=
  ({| hName := name; hType := TypeSymlink; hLinkname := target; hMode := 511 |}, []).

(** A link to a directory, written through, then one that leads outside. *)
Definition example_archive : stream := {|
  entries := [file_entry "lib/a" "1"; link_entry "l" "lib"; file_entry "l/b" "2";
              link_entry "out" "../etc"; file_entry "out/passwd" "x"];
  finish := TarEOF |}.

Example unpack_example :
  let '(r, t) := untarInto 18 example_archive "/actions" example_root in
  r = Err (UnsafeLink "out" "../etc") /\
  t !! (["actions"; "lib"; "b"] : path) = Some (NFile 420 "2") /\ size t = 6%nat.
Proof. by vm_compute. Qed.

Lemma untar_confined_witness :
  let t' := (untarInto 18 example_archive "/actions" example_root).2 in
  prune ["actions"] t' = prune ["actions"] example_root /\ jail ["actions"] t'.
Proof.
  destruct (untar_confined 18 "/actions" example_archive example_root
              (untarInto 18 example_archive "/actions" example_root).1
              (untarInto 18 example_archive "/actions" example_root).2) as (Hp & Hj & _).
  - split; [reflexivity|]. split; [discriminate|reflexivity].
  - decide_now.
  - by destruct (untarInto 18 example_archive "/actions" example_root).
  - by split.
Defined.

(** Two requests answered by errors, the third by an archive; or a broken
    archive, then nothing. *)
Definition retry_env (last : http_response) : fetch_env := {|
  answer n := match n with 1%nat => NetError | 2%nat => Status 502 {| entries := []; finish := TarEOF |}
              | _ => last end;
  drawn n k := Some (repeat (Z.of_nat (n + k) mod 256)%Z 8) |}.

Definition small_archive (e : ending) : http_response :=
  Status 200 {| entries := [file_entry "f" "data"]; finish := e |}.

Definition fetch_example (last : http_response) :=
  fetchAction 18 (retry_env last) "a-b" "/actions" example_root.

Example fetch_outcomes :
  (fetch_example (small_archive TarEOF)).2 !! (["actions"; "a-b"; "f"] : path) = Some (NFile 420 "data") /\
  (fetch_example (small_archive TarNextError)).1 = Err (AfterAttempts TarNext) /\
  (fetch_example (Status 404 {| entries := []; finish := TarEOF |})).1 = Err FetchNotFound.
Proof. by vm_compute. Qed.

Lemma retry_draws last n : byte_draws (drawn (retry_env last) n).
Proof.
  intros k bytes [= <-]. pose proof (Z.mod_pos_bound (Z.of_nat (n + k)) 256 ltac:(lia)).
  repeat (apply Forall_cons_2; [done|]). apply Forall_nil_2.
Qed.

Lemma fetch_atomic_witness :
  (exists n, (1 <= n <= 3)%nat /\
     installed 18 "/actions" "a-b" example_root (fetch_example (small_archive TarEOF)).2
       (answer (retry_env (small_archive TarEOF)) n)) /\
  (fetch_example (small_archive TarNextError)).2 = example_root.
Proof.
  assert (clean_abs "/actions" /\ plain "a-b" /\ real_dirs (segments "/actions") example_root /\
          closed example_root) as (Hc & Hp & Hr & Hcl).
  { split; [split; [reflexivity|split; [discriminate|reflexivity]]|]. split; [decide_now|].
    split; decide_now. }
  split.
  - apply (fetch_atomic 18 (retry_env (small_archive TarEOF)) "a-b" "/actions" example_root (Ok tt)
             (fetch_example (small_archive TarEOF)).2 Hc Hp Hr Hcl (retry_draws _)).
    apply pair_from_fst. vm_compute. reflexivity.
  - apply (fetch_atomic 18 (retry_env (small_archive TarNextError)) "a-b" "/actions" example_root
             (Err (AfterAttempts TarNext)) (fetch_example (small_archive TarNextError)).2
             Hc Hp Hr Hcl (retry_draws _)).
    apply pair_from_fst. vm_compute. reflexivity.
Defined.
