(* ===== verification/Delivery.v ===== *)
(** * Delivery of an action: from the controller's clone to the job's pod

    The cache server streams a clone with [tarDir], the setup step of the job
    unpacks it.  The two are inverse up to what the server leaves out and what
    permissions the process may give, and an archive cut short by an error of
    the walk is told from a complete one only if the error fell within the
    body of a file. *)
From Stdlib Require Import Ascii.
From S2P Require Import Prelude GoStrings Paths FileSystem ActionRef Tar Setup.
#[local] Open Scope go_scope.

(** What arrives of a node. *)
Definition received (umask : Z) (n : node) : node :=
  match n with
  | NFile m d => NFile (Z.land (Z.land m 511) (Z.lnot umask)) d
  | n => n
  end.

(** A tree whose part below [root], except what is excluded at the top, can be
    shipped: names that files have, and links the setup step accepts. *)
Definition excluded (excludes : list gostring) (r : path) : Prop := default [] (head r) ∈ excludes.
#[export] Instance excluded_dec excludes r : Decision (excluded excludes r).
Proof. unfold excluded. apply _. Defined.

Definition linkable (n : node) : Prop :=
  match n with NLink l => l <> [] /\ IsAbs l || contains dotdot l = false | _ => True end.
#[export] Instance linkable_dec n : Decision (linkable n).
Proof. destruct n; apply _. Defined.

Definition shippable (excludes : list gostring) (t : tree) (root : path) : Prop :=
  forall r n, t !! (root ++ r) = Some n -> r <> [] -> ~ excluded excludes r ->
    Forall plain r /\ linkable n.

Section roundtrip.
Context (umask : Z) (excludes : list gostring) (t : tree) (root : path).
Context (Hclosed : closed t) (Hship : shippable excludes t root).

(** What should arrive at a path below the target. *)
Definition image (r : path) : option node :=
  if decide (excluded excludes r) then None else received umask <$> t !! (root ++ r).

Abbreviation unpacks l u u' := (each_entry (unpack_entry umask) l TarEOF u = (Ok tt, u')).

Lemma each_entry_app l1 l2 e u u1 :
  unpacks l1 u u1 ->
  each_entry (unpack_entry umask) (l1 ++ l2) e u = each_entry (unpack_entry umask) l2 e u1.
Proof.
  revert u. induction l1 as [|[h d] l1 IH]; intros u; simpl; [by intros [= ->]|].
  unfold mbind, act_bind. destruct (unpack_entry umask h d u) as [[[]|err] u2]; [apply IH|done].
Qed.

(** *** One entry *)

Lemma entry_name r n :
  Forall plain r -> has_traversal (hName (entry_header r n)) = false /\
    segments (hName (entry_header r n)) = r.
Proof.
  intros Hr. destruct n; simpl; rewrite ?traversal_app, ?segments_app, traversal_names, segments_names
    by done; try done. by rewrite app_nil_r.
Qed.

Lemma parent_snoc p s : parent (p ++ [s]) = p.
Proof. unfold parent. rewrite length_app. simpl. by rewrite Nat.add_sub, take_app_length. Qed.

Lemma unpack_header p s n u :
  Forall plain (p ++ [s]) -> real_dirs p u -> u !! (p ++ [s]) = None ->
  linkable n ->
  unpack_entry umask (entry_header (p ++ [s]) n) (match n with NFile _ d => d | _ => [] end) u
    = (Ok tt, <[p ++ [s] := received umask n]> u).
Proof.
  intros Hr Hp Hu Hn. assert (s <> dotdot) as Hs.
  { apply Forall_app in Hr as [_ [Hs _]%Forall_cons]. by apply plain_not_dotdot. }
  destruct (entry_name (p ++ [s]) n Hr) as [Ht Hseg].
  unfold unpack_entry, map_error, mbind, act_bind. rewrite Ht, Hseg.
  destruct n as [|m d|l]; simpl.
  - by rewrite MkdirAll_child.
  - rewrite parent_snoc, MkdirAll_real by done. unfold write_nofollow, at_path.
    by rewrite namei_child, node_at_child, Hu by done.
  - destruct Hn as [Hl Hsafe]. rewrite parent_snoc, MkdirAll_real by done. rewrite Hsafe.
    unfold Symlink. rewrite decide_False by done. unfold at_path.
    by rewrite namei_child, node_at_child, Hu by done.
Qed.

(** *** A part of the tree *)

(** The archive of the part below [r] puts its image there and changes nothing
    else. *)
Definition copies (o : output) (r : path) : Prop :=
  forall u, real_dirs (parent r) u -> (forall q, r `prefix_of` q -> u !! q = None) ->
    o.2 = None /\ exists u', unpacks o.1 u u' /\
      forall q, u' !! q = if decide (r `prefix_of` q) then image q else u !! q.

Lemma copies_children f r ns u :
  (forall n, n ∈ ns -> copies (f n) (r ++ [n])) -> NoDup ns -> real_dirs r u ->
  (forall n q, n ∈ ns -> (r ++ [n]) `prefix_of` q -> u !! q = None) ->
  (out_all (map f ns)).2 = None /\ exists u', unpacks (out_all (map f ns)).1 u u' /\
    (forall n q, n ∈ ns -> (r ++ [n]) `prefix_of` q -> u' !! q = image q) /\
    (forall q, (forall n, n ∈ ns -> ~ (r ++ [n]) `prefix_of` q) -> u' !! q = u !! q).
Proof.
  intros Hf Hnd. revert u. induction Hnd as [|n ns Hn Hnd IH]; intros u Hr Hfree; simpl.
  { split; [done|]. exists u. split_and!; [done| |done]. intros n q Hn%elem_of_nil. done. }
  destruct (Hf n) with (u := u) as (Ho & u1 & Hu1 & Hl1);
    [left|by rewrite parent_snoc|intros q Hq; eapply Hfree; [left|done]|].
  assert (real_dirs r u1) as Hr1.
  { eapply real_dirs_agree; [|exact Hr]. intros q Hq. rewrite Hl1.
    by rewrite decide_False by by apply above_prefix. }
  destruct (IH (fun m Hm => Hf m (list_elem_of_further _ _ _ Hm)) u1 Hr1) as (Ho2 & u2 & Hu2 & Hin & Hout).
  { intros m q Hm Hq. rewrite Hl1, decide_False; [eapply Hfree; [by right|done]|].
    intros Hq'. eapply (sibling_prefix r n m); [by intros ->|done|done]. }
  destruct (f n) as [l o]. simpl in Ho. subst o. simpl. split; [done|]. exists u2.
  split; [by erewrite each_entry_app|]. split.
  - intros m q Hm Hq. apply elem_of_cons in Hm as [->|Hm]; [|by eapply Hin].
    rewrite Hout, Hl1, decide_True; [done..|].
    intros m Hm Hq'. eapply (sibling_prefix r n m); [by intros ->|done|done].
  - intros q Hq. rewrite Hout by (intros m Hm; apply Hq; by right).
    rewrite Hl1, decide_False; [done|]. apply Hq. left.
Qed.

(** What exists is in a directory that exists. *)
Lemma source_parent r s x :
  r <> [] -> t !! (root ++ r ++ s :: x) <> None -> t !! (root ++ r) = Some NDir.
Proof.
  intros Hr Hs. apply not_eq_None_Some in Hs. rewrite app_assoc in Hs.
  apply closed_above in Hs as [Hs _]; [|done]. unfold node_at in Hs. case_decide; [|done].
  by destruct root, r.
Qed.

Lemma source_depth r : is_Some (t !! (root ++ r)) -> (length r <= depth t)%nat.
Proof.
  intros Hs. unfold depth.
  assert (length (root ++ r) <= max_list (length <$> elements (dom t)))%nat as Hm.
  { apply max_list_elem_of_le. apply list_elem_of_fmap. exists (root ++ r). split; [done|].
    apply elem_of_elements. by apply elem_of_dom. }
  rewrite length_app in Hm. lia.
Qed.

Abbreviation tar_of fuel r := (tar_entry t root excludes (fun _ => None) fuel r).

Definition body_of (n : node) : gostring := match n with NFile _ d => d | _ => [] end.

Lemma image_below r q : r <> [] -> ~ excluded excludes r -> r `prefix_of` q ->
  image q = received umask <$> t !! (root ++ q).
Proof.
  intros Hr Hex [k ->]. unfold image. rewrite decide_False; [done|].
  unfold excluded in *. by destruct r.
Qed.

(** Nothing is below a file or a link. *)
Lemma image_leaf r n q :
  r <> [] -> t !! (root ++ r) = Some n -> n <> NDir -> q <> r -> r `prefix_of` q ->
  t !! (root ++ q) = None.
Proof.
  intros Hr Hn Hd Hq [[|k x] ->]; [by rewrite app_nil_r in Hq|].
  destruct (t !! (root ++ r ++ k :: x)) eqn:E; [|done].
  rewrite (source_parent r k x) in Hn by (done || by rewrite E). congruence.
Qed.

Lemma copies_excluded r : r <> [] -> excluded excludes r -> copies ([], None) r.
Proof.
  intros Hr Hex u _ Hfree. split; [done|]. exists u. split; [done|]. intros q.
  case_decide as Hq; [|done]. rewrite Hfree by done. unfold image. rewrite decide_True; [done|].
  destruct Hq as [k ->]. unfold excluded in *. by destruct r.
Qed.

Lemma snoc_nonempty (p : path) s : p ++ [s] <> [].
Proof. by destruct p. Qed.

Section entry.
Context (p : path) (s : gostring) (n : node).
Abbreviation r := (p ++ [s]).
Context (Hn : t !! (root ++ r) = Some n) (Hex : ~ excluded excludes r).

Lemma entry_header_ok u :
  real_dirs p u -> u !! r = None ->
  unpack_entry umask (entry_header r n) (body_of n) u = (Ok tt, <[r := received umask n]> u).
Proof.
  intros Hp Hu. destruct (Hship _ _ Hn (snoc_nonempty p s) Hex) as [Hplain Hlink].
  exact (unpack_header p s n u Hplain Hp Hu Hlink).
Qed.

Lemma copies_leaf : n <> NDir -> copies ([(entry_header r n, body_of n)], None) r.
Proof.
  intros Hd u Hp Hfree. rewrite parent_snoc in Hp. split; [done|].
  exists (<[r := received umask n]> u). split.
  - simpl. unfold mbind, act_bind. by rewrite entry_header_ok by (done || by apply Hfree).
  - intros q. case_decide as Hq; [|by rewrite lookup_insert_ne by by intros <-].
    rewrite (image_below r) by (done || apply snoc_nonempty).
    destruct (decide (q = r)) as [->|Hqr]; [by rewrite lookup_insert_eq, Hn|].
    rewrite lookup_insert_ne, Hfree by done.
    by rewrite (image_leaf r n q) by (done || apply snoc_nonempty).
Qed.

(** A directory: its header, then its children. *)
Lemma copies_dir f :
  n = NDir -> (forall m, m ∈ children t (root ++ r) -> copies (f m) (r ++ [m])) ->
  copies (out_seq ([(entry_header r NDir, [])], None) (out_all (map f (children t (root ++ r))))) r.
Proof.
  intros Hd Hf u Hp Hfree. rewrite parent_snoc in Hp. pose proof Hn as Hnd. rewrite Hd in Hnd. pose proof (snoc_nonempty p s) as Hne.
  set (u1 := <[r := NDir]> u).
  assert (s <> dotdot) as Hs.
  { destruct (Hship _ _ Hn Hne Hex) as [[_ [Hs _]%Forall_cons]%Forall_app _].
    by apply plain_not_dotdot. }
  destruct (copies_children f r (children t (root ++ r)) u1) as (Ho & u2 & Hu2 & Hin & Hout).
  { done. } { apply NoDup_children. }
  { apply real_dirs_snoc; [by apply real_dirs_insert|done|apply lookup_insert_eq]. }
  { intros m q _ Hq. unfold u1. rewrite lookup_insert_ne.
    - apply Hfree. destruct Hq as [k ->]. exists (m :: k). by rewrite <-!app_assoc.
    - intros <-. by apply (above_prefix r m r). }
  destruct (out_all _) as [l o]. simpl in Ho, Hu2 |- *. subst o. split; [done|]. exists u2. split.
  { unfold mbind, act_bind. pose proof (entry_header_ok u Hp (Hfree _ (reflexivity _))) as Hh.
    rewrite Hd in Hh. simpl in Hh. by rewrite Hh. }
  intros q. case_decide as Hq.
  - rewrite (image_below r) by done. destruct Hq as [[|k x] ->].
    { rewrite app_nil_r, Hout by (intros m _; by apply above_prefix).
      unfold u1. by rewrite lookup_insert_eq, Hnd. }
    assert (forall m, (r ++ [m]) `prefix_of` (r ++ k :: x) -> m = k) as Hmk.
    { intros m [x' Hx]. rewrite <-!app_assoc in Hx. apply app_inv_head in Hx. by simplify_eq/=. }
    rewrite <-(image_below r) by (done || by eexists).
    destruct (decide (k ∈ children t (root ++ r))) as [Hk|Hk].
    { apply (Hin k); [done|]. exists x. by rewrite <-!app_assoc. }
    rewrite Hout by (intros m Hm ->%Hmk; done). rewrite (image_below r) by (done || by eexists).
    unfold u1. rewrite lookup_insert_ne by
      (intros Heq%(f_equal length); rewrite !length_app in Heq; simpl in Heq; lia).
    rewrite Hfree by by eexists. symmetry. apply fmap_None, eq_None_not_Some. intros Hx.
    apply Hk, elem_of_children. rewrite <-app_assoc. destruct x as [|y x]; [done|].
    exists NDir. rewrite <-(source_parent (r ++ [k]) y x); rewrite <-!app_assoc; [done|by destruct p|].
    simpl. rewrite <-app_assoc in Hx. simpl in Hx. intros E. rewrite E in Hx. by destruct Hx.
  - rewrite Hout.
    + unfold u1. rewrite lookup_insert_ne; [done|]. by intros <-.
    + intros m _ [k ->]. apply Hq. exists (m :: k). by rewrite <-!app_assoc.
Qed.
End entry.

Lemma copies_entry fuel p s :
  is_Some (t !! (root ++ p ++ [s])) -> (depth t < length (p ++ [s]) + fuel)%nat ->
  copies (tar_of fuel (p ++ [s])) (p ++ [s]).
Proof.
  revert p s. induction fuel as [|fuel IH]; intros p s [n Hn] Hfuel.
  { pose proof (source_depth (p ++ [s]) (mk_is_Some _ _ Hn)). lia. }
  cbn [tar_entry]. destruct (decide (default [] (head (p ++ [s])) ∈ excludes)) as [Hex|Hex].
  { apply copies_excluded; [apply snoc_nonempty|done]. }
  rewrite decide_False, Hn by done. destruct n as [|m d|l].
  - rewrite decide_False by done. apply (copies_dir p s NDir); [done..|].
    intros m Hm%elem_of_children. rewrite <-!app_assoc in Hm.
    apply IH; [by rewrite <-app_assoc|]. rewrite length_app. simpl. lia.
  - by apply (copies_leaf p s (NFile m d)).
  - by apply (copies_leaf p s (NLink l)).
Qed.

(** *** The whole archive *)

Lemma copies_root u :
  node_at t root = Some NDir -> real_dirs [] u -> (forall q, q <> [] -> u !! q = None) ->
  finish (tarDir t root excludes (fun _ => None)) = TarEOF /\
  exists s, unpack umask (tarDir t root excludes (fun _ => None)) u = (Ok tt, s) /\
    s !! [] = u !! [] /\ forall q, q <> [] -> s !! q = image q.
Proof.
  intros Hroot Hu Hfree. unfold tarDir, unpack, tar_walk. rewrite Hroot, decide_False by done.
  destruct (copies_children (fun n => tar_of (S (depth t)) [n]) [] (children t root) u)
    as (Ho & s & Hs & Hin & Hout).
  - intros n Hn%elem_of_children. apply (copies_entry _ [] n); [done|simpl; lia].
  - apply NoDup_children.
  - done.
  - intros n q _ [k ->]. by apply Hfree.
  - cbn [finish entries]. rewrite Ho. split; [done|]. exists s. split_and!; [done| |].
    + apply Hout. intros n _ [k Hk]. done.
    + intros [|k x] Hq; [done|]. destruct (decide (k ∈ children t root)) as [Hk|Hk].
      * apply (Hin k); [done|]. by exists x.
      * rewrite Hout, Hfree by (done || intros n Hn [x' [= -> _]]; done).
        unfold image. case_decide; [done|]. symmetry. apply fmap_None, eq_None_not_Some. intros Hx.
        apply Hk, elem_of_children. destruct x as [|y x]; [done|].
        exists NDir. apply (source_parent [k] y x); [done|]. simpl. intros E. rewrite E in Hx. by destruct Hx.
Qed.
End roundtrip.

(** Unpacking into an empty directory anywhere in a tree: what the extraction
    does there is what the reference does with the directory as the root. *)
Definition empty_dir (d : path) (u : tree) : Prop :=
  real_dirs d u /\ forall q, q <> [] -> u !! (d ++ q) = None.

Lemma sub_empty d u : d <> [] -> empty_dir d u -> sub d u = {[ [] := NDir ]}.
Proof.
  intros Hd [Hr Hq]. apply map_eq. intros q. rewrite lookup_sub.
  destruct (decide (q = [])) as [->|Hne].
  - rewrite lookup_singleton_eq, app_nil_r. apply real_dirs_self in Hr. unfold node_at in Hr.
    by rewrite decide_False in Hr.
  - by rewrite lookup_singleton_ne, Hq.
Qed.

Lemma untar_agrees umask target s u r x :
  clean_abs target -> empty_dir (segments target) u ->
  unpack umask s {[ [] := NDir ]} = (r, x) ->
  exists u', untarInto umask s target u = (r, u') /\
    (forall q, u' !! (segments target ++ q) = x !! q) /\
    (forall q, ~ segments target `prefix_of` q -> u' !! q = u !! q).
Proof.
  intros Hc He Hun. pose proof Hc as (_ & Hne & _).
  assert (jail (segments target) u) as Hj.
  { destruct He as [Hr Hq]. split; [done|]. rewrite sub_empty by done.
    intros p l Hl. apply lookup_singleton_Some in Hl as [_ [=]]. }
  destruct (chroot_untarInto umask target Hc s u Hj) as (r1 & u' & E1 & E2 & Hp & _).
  rewrite sub_empty, Hun in E2 by done. injection E2 as <- ->. exists u'. split; [done|]. split.
  - intros q. by rewrite lookup_sub.
  - intros q Hq. pose proof (f_equal (.!! q) Hp) as Hq'. rewrite !lookup_prune in Hq'. by case_decide.
Qed.

Lemma copies_fresh umask excludes t root :
  closed t -> node_at t root = Some NDir -> shippable excludes t root ->
  finish (tarDir t root excludes (fun _ => None)) = TarEOF /\
  exists s, unpack umask (tarDir t root excludes (fun _ => None)) {[ [] := NDir ]} = (Ok tt, s) /\
    s !! [] = Some NDir /\ forall q, q <> [] -> s !! q = image umask excludes t root q.
Proof.
  intros Hc Hr Hs. destruct (copies_root umask excludes t root Hc Hs {[ [] := NDir ]} Hr)
    as (Hf & s & Hun & Hroot & Himg).
  3: { split; [done|]. exists s. split; [done|]. split; [by rewrite Hroot, lookup_singleton_eq|done]. }
  - split; [apply not_elem_of_nil|]. intros q Hq. unfold node_at. apply prefix_nil_inv in Hq as ->. done.
  - intros q Hq. by rewrite lookup_singleton_ne.
Qed.

(** C28: what is packed is what is unpacked.  For a directory whose links are
    relative without [..], the archive of it (without the excluded entries at
    its top) ends properly and, extracted by the setup step into an empty
    directory of any file system, succeeds and leaves there exactly the same
    names, kinds, contents and link targets, with the permissions the process
    may give; everything outside that directory is as it was. *)
Theorem archive_roundtrip umask excludes t root target u :
  closed t -> node_at t root = Some NDir -> shippable excludes t root ->
  clean_abs target -> empty_dir (segments target) u ->
  exists u', untarInto umask (tarDir t root excludes (fun _ => None)) target u = (Ok tt, u') /\
    u' !! segments target = Some NDir /\
    (forall q, q <> [] -> u' !! (segments target ++ q) = image umask excludes t root q) /\
    (forall q, ~ segments target `prefix_of` q -> u' !! q = u !! q).
Proof.
  intros Hc Hr Hs Hca He. destruct (copies_fresh umask excludes t root Hc Hr Hs) as (_ & s & Hun & Hroot & Himg).
  destruct (untar_agrees umask target _ u _ _ Hca He Hun) as (u' & Hu & Hin & Hout).
  exists u'. split_and!; [done| | |done].
  - by rewrite <-(app_nil_r (segments target)), Hin.
  - intros q Hq. by rewrite Hin, Himg.
Qed.

(** ** From the server's clone to the job's directory *)

Lemma safe_dir_plain dir : isSafeActionDir dir = true -> plain dir.
Proof.
  intros [Hne Hf]%isSafeActionDir_spec. assert (forall c, c ∈ dir -> safe_code (code c)) as Hc
    by by apply Forall_forall.
  assert ((slash ∉ dir) /\ ("."%char ∉ dir)) as [Hs Hd].
  { split; intros Hin%Hc; unfold safe_code in Hin; [change (code slash) with 47%Z in Hin|
      change (code ".") with 46%Z in Hin]; lia. }
  split_and!; [split; [done|]|done|]; intros ->; apply Hd; by left.
Qed.

(** What the server answers for a clone in a real directory. *)
Lemma serve_clone ts cacheDir dir fault :
  isSafeActionDir dir = true ->
  real_dirs (segments (Join [cacheDir; "actions-repo-cache"; dir])) ts ->
  serveAction ts cacheDir dir fault =
    Status 200 (tarDir ts (segments (Join [cacheDir; "actions-repo-cache"; dir])) [(".git" : gostring)] fault).
Proof.
  intros Hdir Hreal. unfold serveAction. rewrite Hdir. simpl negb.
  by rewrite Stat_real, namei_real by done.
Qed.

Section setup.
Context (umask : Z) (ts : tree) (cacheDir actionsDir : gostring).

Abbreviation A := (segments actionsDir).
Abbreviation clone dir := (segments (Join [cacheDir; "actions-repo-cache"; dir])).
Abbreviation hidden := [(".git" : gostring)].

(** A tree in which an action's directory is the clone the controller has. *)
Definition delivered (t : tree) (dir : gostring) : Prop :=
  t !! (A ++ [dir]) = Some NDir /\
  forall r, r <> [] -> t !! ((A ++ [dir]) ++ r) = image umask hidden ts (clone dir) r.

(** A clone that can be served, and a server that does so, after at most
    failures worth retrying, in one of the setup's three requests. *)
Definition servable (t : tree) (e : fetch_env) (dir : gostring) : Prop :=
  isSafeActionDir dir = true /\ real_dirs (clone dir) ts /\ shippable hidden ts (clone dir) /\
  exists k, (1 <= k <= 3)%nat /\ answer e k = serveAction ts cacheDir dir (fun _ => None) /\
    (forall m, (1 <= m < k)%nat -> transient (answer e m)) /\
    (forall m, (1 <= m <= k)%nat -> fresh_draw actionsDir dir e t m).

Context (Hca : clean_abs actionsDir) (Hcs : closed ts).

(** What arrives is again a tree in which only directories contain anything. *)
Lemma delivered_closed t t' dir :
  closed t -> real_dirs A t -> delivered t' dir -> prune (A ++ [dir]) t' = prune (A ++ [dir]) t ->
  closed t'.
Proof.
  intros Hct Hreal [Hroot Himg] Hout p s Hs.
  assert (forall q, ~ (A ++ [dir]) `prefix_of` q -> t' !! q = t !! q) as Hsame.
  { intros q Hq. pose proof (f_equal (.!! q) Hout) as Hq'. rewrite !lookup_prune in Hq'. by case_decide. }
  destruct (decide ((A ++ [dir]) `prefix_of` (p ++ [s]))) as [[r Hr]|Hn].
  - destruct r as [|s' r _] using rev_ind.
    + rewrite app_nil_r in Hr. apply app_inj_tail in Hr as [-> _].
      destruct (real_dirs_agree A t t') as [_ Hd]; [intros q Hq; apply Hsame, above_prefix, Hq|done|by apply Hd].
    + rewrite app_assoc in Hr. apply app_inj_tail in Hr as [-> ->].
      rewrite <-app_assoc, Himg in Hs by (by destruct r). unfold node_at. rewrite decide_False by (by destruct A).
      destruct r as [|x r]; [by rewrite app_nil_r|]. rewrite Himg by done. revert Hs. unfold image, excluded.
      change (head ((x :: r) ++ [s'])) with (Some x). change (head (x :: r)) with (Some x).
      case_decide; [by intros []|].
      rewrite decide_False by done. rewrite fmap_is_Some, app_assoc. intros Hs%Hcs. unfold node_at in Hs.
      case_decide as Hx; [by apply app_nil in Hx as [_ Hx]|]. by rewrite Hs.
  - rewrite Hsame in Hs by done. apply Hct in Hs. unfold node_at in *. case_decide; [done|].
    rewrite Hsame; [done|]. intros Hp. apply Hn. by apply prefix_app_r.
Qed.

(** One action: the fetch succeeds, the action is there, and nothing else has
    changed. *)
Lemma fetch_delivers e dir t :
  real_dirs A t -> closed t -> servable t e dir ->
  exists t', fetchAction umask e dir actionsDir t = (Ok tt, t') /\ closed t' /\ real_dirs A t' /\
    delivered t' dir /\ forall q, ~ (A ++ [dir]) `prefix_of` q -> t' !! q = t !! q.
Proof.
  intros Hreal Hct (Hdir & Hclone & Hship & k & Hk & Hans & Htr & Hfresh).
  pose proof (safe_dir_plain _ Hdir) as Hplain. rewrite serve_clone in Hans by done.
  destruct (copies_root umask _ ts (clone dir) Hcs Hship {[ [] := NDir ]} (real_dirs_self _ _ Hclone))
    as (_ & s & Hun & Hroot & Himg).
  { split; [apply not_elem_of_nil|]. by intros q ->%prefix_nil_inv. }
  { intros q Hq. by rewrite lookup_singleton_ne. }
  destruct (attempts_ok umask actionsDir dir Hca Hplain e k setupMaxAttempts 1 NetworkError t
              (tarDir ts (clone dir) hidden (fun _ => None)) s Hreal Hct)
    as (t' & Hrun & Hsub & Hout); [unfold setupMaxAttempts; lia|done..|].
  exists t'. unfold fetchAction, mbind, act_bind, map_error. rewrite MkdirAll_real by done.
  assert (delivered t' dir) as Hdel.
  { split.
    - apply (f_equal (.!! [])) in Hsub. by rewrite lookup_sub, app_nil_r, Hroot, lookup_singleton_eq in Hsub.
    - intros r Hr. rewrite <-Himg by done. by rewrite <-Hsub, lookup_sub. }
  assert (forall q, ~ (A ++ [dir]) `prefix_of` q -> t' !! q = t !! q) as Hsame.
  { intros q Hq. pose proof (f_equal (.!! q) Hout) as Hq'. rewrite !lookup_prune in Hq'. by case_decide. }
  split_and!; [done|by eapply delivered_closed| |done|done].
  apply (real_dirs_agree A t); [|done]. intros q Hq. by apply Hsame, above_prefix.
Qed.

(** The names drawn for partial directories are not names of actions. *)
Lemma tmp_name_unsafe dir dir' bytes : isSafeActionDir dir' = true -> tmp_name dir bytes <> dir'.
Proof.
  intros [_ Hf]%isSafeActionDir_spec <-. unfold tmp_name in Hf. apply Forall_app in Hf as [_ Hf].
  apply Forall_cons in Hf as [Hdot _]. unfold safe_code in Hdot. change (code ".") with 46%Z in Hdot. lia.
Qed.

Lemma servable_after t t' e dir dir' :
  isSafeActionDir dir' = true -> (forall q, ~ (A ++ [dir']) `prefix_of` q -> t' !! q = t !! q) ->
  servable t e dir -> servable t' e dir.
Proof.
  intros Hdir' Hsame (Hdir & Hclone & Hship & k & Hk & Hans & Htr & Hfresh).
  split_and!; [done..|]. exists k. split_and!; [lia..|done|done|]. intros m Hm.
  destruct (Hfresh m Hm) as (bytes & Hd & Hb & Hfree). exists bytes. split_and!; [done..|].
  rewrite Hsame; [done|]. eapply (sibling_prefix _ (tmp_name dir bytes)); [by apply tmp_name_unsafe|done].
Qed.

Lemma fetch_all_delivers envs i dirs t :
  real_dirs A t -> closed t ->
  (forall j dir, dirs !! j = Some dir -> servable t (envs (i + j)%nat) dir) ->
  exists t', fetch_all umask envs actionsDir i dirs t = (Ok tt, t') /\
    (forall dir, dir ∈ dirs -> delivered t' dir) /\
    (forall q, (forall dir, dir ∈ dirs -> ~ (A ++ [dir]) `prefix_of` q) -> t' !! q = t !! q).
Proof.
  revert i t. induction dirs as [|d dirs IH]; intros i t Hreal Hct Hserv.
  { exists t. split_and!; [done| |done]. by intros dir Hd%elem_of_nil. }
  cbn [fetch_all]. unfold mbind, act_bind. pose proof (Hserv 0%nat d eq_refl) as Hd.
  rewrite Nat.add_0_r in Hd. destruct (fetch_delivers (envs i) d t Hreal Hct Hd) as
    (t1 & -> & Hc1 & Hr1 & Hdel & Hsame).
  destruct (IH (S i) t1 Hr1 Hc1) as (t' & -> & Hall & Hrest).
  { intros j dir Hj. eapply servable_after; [by apply Hd|done|].
    replace (S i + j)%nat with (i + S j)%nat by lia. by apply (Hserv (S j)). }
  exists t'. split_and!; [done| |].
  - intros dir Hin. destruct (decide (dir ∈ dirs)) as [?|Hnot]; [by apply Hall|].
    apply elem_of_cons in Hin as [->|?]; [|done]. destruct Hdel as [Hroot Himg].
    assert (forall r, t' !! ((A ++ [d]) ++ r) = t1 !! ((A ++ [d]) ++ r)) as Hkeep.
    { intros r. apply Hrest. intros dir Hdir. eapply (sibling_prefix _ d); [by intros ->|by exists r]. }
    split; [by rewrite <-(app_nil_r (A ++ [d])), Hkeep, app_nil_r|].
    intros r Hr. by rewrite Hkeep, Himg.
  - intros q Hq. rewrite Hrest; [apply Hsame, Hq; left|]. intros dir Hdir. apply Hq. by right.
Qed.

(** *** The shim *)

Lemma WriteFile_new d n mode data t :
  real_dirs d t -> n <> dotdot -> t !! (d ++ [n]) = None ->
  WriteFile umask (d ++ [n]) mode data t = (Ok tt, <[d ++ [n] := NFile (Z.land mode (Z.lnot umask)) data]> t).
Proof.
  intros [Hd Hq] Hn Ht. unfold WriteFile, namei. rewrite resolve_real by done. simpl app.
  rewrite resolve_cons, decide_False by done. rewrite node_at_child, Ht, decide_True by done.
  by rewrite node_at_child, Ht.
Qed.

Lemma closed_insert_child d n x t :
  real_dirs d t -> closed t -> t !! (d ++ [n]) = None -> closed (<[d ++ [n] := x]> t).
Proof.
  intros Hd Hc Ht p s. rewrite lookup_insert_is_Some. intros Hs.
  assert (node_at t p = Some NDir) as Hp.
  { destruct Hs as [Heq|[_ Hs]]; [|by eapply Hc].
    apply app_inj_tail in Heq as [-> _]. by apply real_dirs_self. }
  unfold node_at in *. case_decide; [done|]. rewrite lookup_insert_ne; [done|]. intros <-. congruence.
Qed.

Section shim.
Context (shimDir : gostring) (Hsh : clean_abs shimDir).

Abbreviation shim := (segments shimDir ++ ["askpass.sh" : gostring]).

Lemma shim_path :
  segments (Join [shimDir; "askpass.sh"]) = shim /\
  segments (Dir (Join [shimDir; "askpass.sh"])) = segments shimDir.
Proof.
  assert (plain "askpass.sh") as Hp by decide_now.
  pose proof (target_segments shimDir "askpass.sh" Hsh Hp) as Ht. split; [exact Ht|].
  assert (clean_abs (Join [shimDir; "askpass.sh"])) as Hj.
  { rewrite target_under, under_render by (done || by apply Forall_singleton).
    apply clean_abs_render; [|by destruct (segments shimDir)].
    apply Forall_app. split; [by apply clean_abs_plain|by apply Forall_singleton]. }
  destruct (segments_Dir_snoc _ Hj) as [n Hn]. rewrite Ht in Hn. by apply app_inj_tail in Hn as [-> _].
Qed.

(** C10: the setup step provides a job with its actions.  If the clones of all
    the actions of the manifest are in real directories of the controller, with
    only relative links without [..], and each is served by one of its three
    requests after at most failures worth retrying, then the setup succeeds:
    every action's directory has exactly the files, directories and links of its
    clone but for [.git], with the permissions the process may give; the
    credential helper is there; and nothing else in the pod has changed. *)
Theorem setup_delivers envs dirs t :
  real_dirs A t -> real_dirs (segments shimDir) t -> closed t -> t !! shim = None ->
  (~ A `prefix_of` shim) -> ~ shim `prefix_of` A ->
  (forall j dir, dirs !! j = Some dir -> servable t (envs j) dir) ->
  exists t', runSetup umask envs dirs actionsDir shimDir t = (Ok tt, t') /\
    (forall dir, dir ∈ dirs ->
       t' !! (A ++ [dir]) = Some NDir /\
       forall r, r <> [] -> t' !! ((A ++ [dir]) ++ r) = image umask hidden ts (clone dir) r) /\
    t' !! shim = Some (NFile (Z.land 493 (Z.lnot umask)) askpass) /\
    (forall q, q <> shim -> (forall dir, dir ∈ dirs -> ~ (A ++ [dir]) `prefix_of` q) -> t' !! q = t !! q).
Proof.
  intros Hreal Hrs Hct Hfree Hap1 Hap2 Hserv. destruct shim_path as [Hp Hdir].
  set (t1 := <[shim := NFile (Z.land 493 (Z.lnot umask)) askpass]> t).
  assert (forall q, q `prefix_of` A -> t1 !! q = t !! q) as Habove.
  { intros q Hq. apply lookup_insert_ne. intros <-. by apply Hap2. }
  assert (real_dirs A t1) as Hreal1 by (by eapply real_dirs_agree).
  assert (forall dir, ~ (A ++ [dir]) `prefix_of` shim) as Hout.
  { intros dir Hd. apply Hap1. etransitivity; [by exists [dir]|done]. }
  destruct (fetch_all_delivers envs 0 dirs t1) as (t' & Hrun & Hall & Hrest);
    [done|by apply closed_insert_child| |].
  { intros j dir Hj. destruct (Hserv j dir Hj) as (Hd & Hclone & Hship & k & Hk & Hans & Htr & Hfresh).
    split_and!; [done..|]. exists k. split_and!; [lia..|done|done|]. intros m Hm.
    destruct (Hfresh m Hm) as (bytes & Hdr & Hb & Hf). exists bytes. split_and!; [done..|].
    unfold t1. rewrite lookup_insert_ne; [done|]. intros Heq. apply (Hout (tmp_name dir bytes)). by rewrite Heq. }
  exists t'. split_and!; [|done| |].
  - unfold runSetup, writeAskpassShim, mbind, act_bind, map_error. rewrite Hp, Hdir, MkdirAll_real by done.
    rewrite WriteFile_new by done. fold t1. by rewrite MkdirAll_real.
  - rewrite Hrest; [by apply lookup_insert_eq|done].
  - intros q Hq Hnot. rewrite Hrest by done. by apply lookup_insert_ne.
Qed.
End shim.
End setup.

(** ** Archives cut short *)

Definition ends_well (o : output) : Prop := o.2 = None \/ o.2 = Some TarEOF.

(** A walk that stops early has written an initial part of the archive. *)
Definition cut_short (o' o : output) : Prop := o' = o \/ (o'.2 <> None /\ o'.1 `prefix_of` o.1).

Lemma cut_short_seq o1' o1 o2' o2 :
  cut_short o1' o1 -> cut_short o2' o2 -> cut_short (out_seq o1' o2') (out_seq o1 o2).
Proof.
  destruct o1' as [l1' e1'], o1 as [l1 e1]. intros [[= -> ->]|[He Hl]] H2; simpl in *.
  - destruct e1 as [e1|]; [by left|]. destruct H2 as [->|[He Hl]]; [by left|right]. simpl.
    split; [done|]. by apply prefix_app.
  - destruct e1' as [e1'|]; [|done]. right. split; [done|]. simpl.
    destruct e1 as [e1|]; [done|]. simpl. by apply prefix_app_r.
Qed.

Lemma cut_short_all os' os : Forall2 cut_short os' os -> cut_short (out_all os') (out_all os).
Proof. induction 1; [by left|]. by apply cut_short_seq. Qed.

Lemma cut_short_children (f' f : gostring -> output) ns :
  (forall n, cut_short (f' n) (f n)) -> cut_short (out_all (map f' ns)) (out_all (map f ns)).
Proof. intros Hf. apply cut_short_all. induction ns as [|n ns IH]; constructor; auto. Qed.

Lemma tar_entry_cut t root excludes fault fuel r :
  cut_short (tar_entry t root excludes fault fuel r) (tar_entry t root excludes (fun _ => None) fuel r).
Proof.
  revert r. induction fuel as [|fuel IH]; intros r; [by left|]. cbn [tar_entry].
  destruct (decide (default [] (head r) ∈ excludes)); [by left|].
  rewrite (decide_False (P := None = Some FStat)) by done.
  destruct (decide (fault r = Some FStat)); [right; split; [done|apply prefix_nil]|].
  destruct (t !! (root ++ r)) as [[|m d|l]|]; [| |by left|by left].
  - rewrite (decide_False (P := None = Some FReadDir)) by done. apply cut_short_seq; [by left|].
    case_decide; [right; split; [done|apply prefix_nil]|].
    apply cut_short_children. intros x. apply IH.
  - destruct (fault r) as [[| | |k]|]; try (by left); unfold cut_body;
      (destruct (_ <? _)%nat; right; (split; [done|]); [apply prefix_nil|done]).
Qed.

Lemma tarDir_cut t root excludes fault :
  entries (tarDir t root excludes fault) `prefix_of` entries (tarDir t root excludes (fun _ => None)).
Proof.
  assert (cut_short (tar_walk t root excludes fault) (tar_walk t root excludes (fun _ => None)))
    as [He|[_ Hp]]; [|simpl; by rewrite He|done].
  unfold tar_walk. destruct (node_at t root) as [[| |]|]; try (by left).
  rewrite (decide_False (P := None = Some FReadDir)) by done.
  case_decide; [right; split; [done|apply prefix_nil]|].
  apply cut_short_children. intros n. apply tar_entry_cut.
Qed.

(** How a walk can end: the archive is cut within a file only by an error in
    reading that file's contents before their last byte. *)
Definition body_error (t : tree) (root : path) (fault : path -> option walk_fault) (e : ending) : Prop :=
  exists r m d k, t !! (root ++ r) = Some (NFile m d) /\ (k < length d)%nat /\
    (fault r = Some FOpen /\ k = 0%nat \/ fault r = Some (FCopy k)) /\
    e = TarBodyCut (entry_header r (NFile m d)) (take k d).

Definition ends_as (t : tree) (root : path) (fault : path -> option walk_fault) (o : output) : Prop :=
  ends_well o \/ exists e, o.2 = Some e /\ body_error t root fault e.

Lemma ends_as_seq t root fault o o' :
  ends_as t root fault o -> ends_as t root fault o' -> ends_as t root fault (out_seq o o').
Proof. unfold ends_as, ends_well. destruct o as [l [e|]]; simpl; [auto|]. by intros _. Qed.

Lemma ends_as_all t root fault os : Forall (ends_as t root fault) os -> ends_as t root fault (out_all os).
Proof. induction 1; [by left; left|]. by apply ends_as_seq. Qed.

Lemma tar_entry_ends t root excludes fault fuel r :
  ends_as t root fault (tar_entry t root excludes fault fuel r).
Proof.
  revert r. induction fuel as [|fuel IH]; intros r; [by left; left|]. cbn [tar_entry].
  destruct (decide _); [by left; left|]. destruct (decide _); [by left; right|].
  destruct (t !! (root ++ r)) as [[|m d|l]|] eqn:Hn; [| |by left; left|by left; right].
  - apply ends_as_seq; [by left; left|]. destruct (decide _); [by left; right|]. apply ends_as_all.
    apply Forall_forall. intros o (x & -> & _)%list_elem_of_fmap. apply IH.
  - destruct (fault r) as [[| | |k]|] eqn:Hf; try (by left; left); unfold cut_body;
      (destruct (_ <? _)%nat eqn:Hk; [apply Nat.ltb_lt in Hk|by left; right]);
      right; eexists; (split; [done|]).
    + exists r, m, d, 0%nat. split_and!; [done..|by left|done].
    + exists r, m, d, k. split_and!; [done..|by right|done].
Qed.

Lemma tarDir_ends t root excludes fault :
  finish (tarDir t root excludes fault) = TarEOF \/
  body_error t root fault (finish (tarDir t root excludes fault)).
Proof.
  assert (ends_as t root fault (tar_walk t root excludes fault)) as [[He|He]|(e & He & Hb)];
    [|by left; cbn [finish tarDir]; rewrite He..|by right; cbn [finish tarDir]; rewrite He].
  unfold tar_walk. destruct (node_at t root) as [[| |]|]; try (by left; left); [|by left; right].
  destruct (decide _); [by left; right|]. apply ends_as_all, Forall_forall.
  intros o (x & -> & _)%list_elem_of_fmap. apply tar_entry_ends.
Qed.

Lemma each_entry_cut f s h got t s' : each_entry f s (TarBodyCut h got) t <> (Ok tt, s').
Proof.
  revert t. induction s as [|[h' d] s IH]; intros t; simpl; unfold mbind, act_bind.
  - destruct (f h got t) as [[[]|err] t1]; [|done]. by destruct (hType h).
  - destruct (f h' d t) as [[[]|err] t1]; [apply IH|done].
Qed.

(** An initial part of what unpacks, unpacks. *)
Lemma each_entry_prefix f l1 l2 u u2 :
  each_entry f (l1 ++ l2) TarEOF u = (Ok tt, u2) -> exists u1, each_entry f l1 TarEOF u = (Ok tt, u1).
Proof.
  revert u. induction l1 as [|[h d] l1 IH]; intros u; simpl; [by eexists|].
  unfold mbind, act_bind. destruct (f h d u) as [[[]|err] u1]; [apply IH|done].
Qed.

Lemma unpack_part umask s' s u u2 :
  entries s' `prefix_of` entries s -> finish s' = TarEOF -> finish s = TarEOF ->
  unpack umask s u = (Ok tt, u2) -> exists u1, unpack umask s' u = (Ok tt, u1).
Proof. unfold unpack. intros [l ->] -> ->. apply each_entry_prefix. Qed.

(** C33: an archive the server broke off is accepted unless the error came
    within a file.  Whatever errors the walk of a clone (in real directories,
    with links the setup accepts) meets, the server answers 200 with an initial
    part of the complete archive; and fetching that answer into an empty
    directory succeeds exactly if the stream ends like a complete archive,
    which it does unless the walk stopped while reading a file whose last byte
    it had not sent.  So an entry that cannot be inspected, or a directory that
    cannot be listed, leaves the job with part of its action and no error. *)
Theorem broken_archive_accepted umask ts cacheDir dir fault target u :
  closed ts -> isSafeActionDir dir = true ->
  let clone := segments (Join [cacheDir; "actions-repo-cache"; dir]) in
  real_dirs clone ts -> shippable [(".git" : gostring)] ts clone ->
  clean_abs target -> empty_dir (segments target) u ->
  exists body, serveAction ts cacheDir dir fault = Status 200 body /\
    entries body `prefix_of` entries (tarDir ts clone [(".git" : gostring)] (fun _ => None)) /\
    ((exists u', tryFetch umask (serveAction ts cacheDir dir fault) target u = (Ok tt, u')) <->
       finish body = TarEOF) /\
    (finish body = TarEOF \/ body_error ts clone fault (finish body)).
Proof.
  intros Hc Hdir clone Hreal Hship Hca He. rewrite serve_clone by done. fold clone.
  exists (tarDir ts clone [(".git" : gostring)] fault). split; [done|].
  pose proof (tarDir_cut ts clone [(".git" : gostring)] fault) as Hpre.
  destruct (tarDir_ends ts clone [(".git" : gostring)] fault) as [Hend|Hend];
    (split; [done|]); (split; [|by auto]); cbn [tryFetch]; rewrite decide_True by done.
  - split; [done|intros _].
    destruct (copies_fresh umask [(".git" : gostring)] ts clone Hc (real_dirs_self _ _ Hreal) Hship)
      as (Hfin & s & Hun & _).
    destruct (unpack_part _ _ _ _ _ Hpre Hend Hfin Hun) as [x Hx].
    destruct (untar_agrees umask target _ u _ _ Hca He Hx) as (u' & Hu & _). by exists u'.
  - destruct Hend as (r & m & d & k & _ & _ & _ & Hend). rewrite Hend. split; [|done].
    intros [u' Hu]. unfold untarInto in Hu. rewrite Hend in Hu. by apply each_entry_cut in Hu.
Qed.

(** The condition at one path. *)
Definition ships (excludes : list gostring) (root p : path) (n : node) : Prop :=
  match strip root p with
  | Some r => r = [] \/ excluded excludes r \/ (Forall plain r /\ linkable n)
  | None => True
  end.
#[export] Instance ships_dec excludes root p n : Decision (ships excludes root p n).
Proof. unfold ships. destruct (strip root p); apply _. Defined.

#[export] Instance shippable_dec excludes t root : Decision (shippable excludes t root).
Proof.
  refine (cast_if (decide (map_Forall (ships excludes root) t))).
  - intros r n Hn Hr Hex. apply m in Hn. unfold ships in Hn. rewrite (proj2 (strip_Some root (root ++ r) r) eq_refl) in Hn.
    by destruct Hn as [?|[?|?]].
  - intros Hs. apply n. intros p x Hp. unfold ships. destruct (strip root p) as [r|] eqn:E; [|done].
    apply strip_Some in E as ->. destruct (decide (r = [])); [by left|].
    destruct (decide (excluded excludes r)); [by right; left|]. right. right. by apply Hs.
Defined.

(** ** Examples *)

Definition example_clone : tree :=
  list_to_map [
    (["srv"], NDir); (["srv"; "actions-repo-cache"], NDir);
    (["srv"; "actions-repo-cache"; "a-b"], NDir);
    (["srv"; "actions-repo-cache"; "a-b"; ".git"], NDir);
    (["srv"; "actions-repo-cache"; "a-b"; ".git"; "HEAD"], NFile 420 "ref");
    (["srv"; "actions-repo-cache"; "a-b"; "action.yml"], NFile 436 "runs");
    (["srv"; "actions-repo-cache"; "a-b"; "dist"], NDir);
    (["srv"; "actions-repo-cache"; "a-b"; "dist"; "index.js"], NFile 493 "js");
    (["srv"; "actions-repo-cache"; "a-b"; "main"], NLink "dist/index.js")].

Definition example_pod : tree := {[ ["actions" : gostring] := NDir ]}.

(** A server that is overloaded once, and names that are never taken. *)
Definition example_env (fault : path -> option walk_fault) : fetch_env := {|
  answer n := if decide (n = 1%nat) then Status 503 empty_body
              else serveAction example_clone "/srv" "a-b" fault;
  drawn n k := Some [Z.of_nat n; Z.of_nat k] |}.

Example delivered_files :
  let t' := (fetchAction 18 (example_env (fun _ => None)) "a-b" "/actions" example_pod).2 in
  t' !! (["actions"; "a-b"; "dist"; "index.js"] : path) = Some (NFile 493 "js") /\
  t' !! (["actions"; "a-b"; "action.yml"] : path) = Some (NFile 420 "runs") /\
  t' !! (["actions"; "a-b"; ".git"] : path) = None /\ size t' = 6%nat.
Proof. by vm_compute. Qed.

Abbreviation clone_path := (["srv"; "actions-repo-cache"; "a-b"] : path).

Lemma example_clone_ok :
  real_dirs clone_path example_clone /\ closed example_clone /\
  shippable [(".git" : gostring)] example_clone clone_path.
Proof. split_and!; decide_now. Qed.

Abbreviation action_dir := ("/actions" : gostring).

Lemma action_dir_empty : empty_dir (segments action_dir) example_pod.
Proof.
  split; [decide_now|]. intros q Hq. unfold example_pod. apply lookup_singleton_ne.
  intros Heq. apply Hq. destruct q as [|x q]; [done|]. vm_compute in Heq. discriminate.
Qed.

Lemma archive_roundtrip_witness :
  exists u', untarInto 18 (tarDir example_clone clone_path [(".git" : gostring)] (fun _ => None)) "/actions"
               example_pod = (Ok tt, u') /\
    u' !! (["actions"; "dist"; "index.js"] : path) = Some (NFile 493 "js").
Proof.
  destruct example_clone_ok as (Hr & Hc & Hs).
  assert (clean_abs "/actions") as Hca by (split; [reflexivity|split; [discriminate|reflexivity]]).
  destruct (archive_roundtrip 18 _ example_clone clone_path "/actions" example_pod Hc
              (real_dirs_self _ _ Hr) Hs Hca action_dir_empty) as (u' & Hun & _ & Himg & _).
  exists u'. split; [exact Hun|].
  etransitivity; [apply (Himg ["dist" : gostring; "index.js" : gostring]); discriminate|by vm_compute].
Defined.

Definition example_pod_shim : tree := {[ ["actions" : gostring] := NDir; ["shim" : gostring] := NDir ]}.

Lemma setup_delivers_witness :
  exists t', runSetup 18 (fun _ => example_env (fun _ => None)) ["a-b" : gostring] "/actions" "/shim"
               example_pod_shim = (Ok tt, t') /\
    t' !! (["actions"; "a-b"; "main"] : path) = Some (NLink "dist/index.js") /\
    t' !! (["shim"; "askpass.sh"] : path) = Some (NFile 493 askpass).
Proof.
  destruct example_clone_ok as (Hr & Hc & Hs).
  assert (clean_abs "/actions" /\ clean_abs "/shim") as [Hca Hcs]
    by (split; (split; [reflexivity|split; [discriminate|reflexivity]])).
  destruct (setup_delivers 18 example_clone "/srv" "/actions" Hca Hc "/shim" Hcs
              (fun _ => example_env (fun _ => None)) ["a-b" : gostring] example_pod_shim)
    as (t' & Hrun & Hall & Hshim & _).
  - decide_now.
  - decide_now.
  - decide_now.
  - by vm_compute.
  - decide_now.
  - decide_now.
  - intros j dir [-> <-]%list_lookup_singleton_Some. split_and!; [reflexivity|exact Hr|exact Hs|].
    exists 2%nat. split_and!; [lia|lia|reflexivity| |].
    + intros m Hm. assert (m = 1%nat) as -> by lia. split; discriminate.
    + intros m Hm. exists [Z.of_nat m; 0%Z]. split; [reflexivity|]. split.
      * apply Forall_cons_2; [lia|]. apply Forall_cons_2; [lia|apply Forall_nil_2].
      * assert (m = 1%nat \/ m = 2%nat) as [-> | ->] by lia; by vm_compute.
  - exists t'. split; [exact Hrun|]. split; [|etransitivity; [exact Hshim|by vm_compute]].
    destruct (Hall "a-b" ltac:(by left)) as [_ Himg].
    etransitivity; [apply (Himg ["main" : gostring]); discriminate|by vm_compute].
Defined.

(** One unreadable directory: the fetch succeeds without the script. *)
Definition dist_unreadable (r : path) : option walk_fault :=
  if decide (r = ["dist" : gostring]) then Some FReadDir else None.

Example dist_missing :
  let '(r, t') := fetchAction 18 (example_env dist_unreadable) "a-b" "/actions" example_pod in
  r = Ok tt /\ t' !! (["actions"; "a-b"; "dist"; "index.js"] : path) = None.
Proof. by vm_compute. Qed.

(** A file that cannot be read to its end. *)
Definition script_cut (r : path) : option walk_fault :=
  if decide (r = ["action.yml" : gostring]) then Some (FCopy 2) else None.

Lemma broken_archive_accepted_witness :
  (exists u', tryFetch 18 (serveAction example_clone "/srv" "a-b" dist_unreadable) "/actions" example_pod
                = (Ok tt, u')) /\
  ~ exists u', tryFetch 18 (serveAction example_clone "/srv" "a-b" script_cut) "/actions" example_pod
                = (Ok tt, u').
Proof.
  destruct example_clone_ok as (Hr & Hc & Hs).
  assert (clean_abs "/actions") as Hca by (split; [reflexivity|split; [discriminate|reflexivity]]).
  split.
  - destruct (broken_archive_accepted 18 example_clone "/srv" "a-b" dist_unreadable "/actions" example_pod
                Hc eq_refl Hr Hs Hca action_dir_empty) as (body & Hb & _ & Hok & _).
    apply Hok. injection (eq_sym Hb) as ->. vm_compute. reflexivity.
  - destruct (broken_archive_accepted 18 example_clone "/srv" "a-b" script_cut "/actions" example_pod
                Hc eq_refl Hr Hs Hca action_dir_empty) as (body & Hb & _ & Hok & _).
    rewrite Hok. injection (eq_sym Hb) as ->. vm_compute. discriminate.
Defined.
