(* ===== verification/K8sNames.v ===== *)
(** * Kubernetes names and label values ([pkg/k8s/labels.go], [pkg/k8s/builder.go])

    The sanitisers that turn workflow-controlled text into strings the API
    server accepts, and the service port parser. *)
From Stdlib Require Import Ascii.
From S2P Require Import Prelude GoStrings.
#[local] Open Scope Z_scope.

Definition isAlnum (c : ascii) : bool :=
  let z := code c in in_range 97 122 z || in_range 65 90 z || in_range 48 57 z.

Definition isLabelChar (c : ascii) : bool :=
  isAlnum c || bool_decide (c = chr 45) || bool_decide (c = chr 95) || bool_decide (c = chr 46).

(** The two loops that drop leading and trailing non-alphanumerics. *)
Definition trimNonAlnum (b : gostring) : gostring :=
  trim_right (fun c => negb (isAlnum c)) (trim_left (fun c => negb (isAlnum c)) b).

Definition SanitizeLabelValue (s : gostring) : gostring :=
  let b := map (fun c => if isLabelChar c then c else chr 45) s in
  let b := trimNonAlnum b in
  if (63 <? length b)%nat then trimNonAlnum (take 63 b) else b.

(** The label-value syntax of the API server: empty, or alphanumerics, dashes,
    underscores and dots that start and end with an alphanumeric; at most 63
    bytes. *)
Definition valid_label_value (s : gostring) : Prop :=
  Forall (fun c => isLabelChar c = true) s /\ (length s <= 63)%nat /\
  (forall c, head s = Some c -> isAlnum c = true) /\
  (forall c, last s = Some c -> isAlnum c = true).

Section trim.
Context (p : ascii -> bool).

Lemma trim_right_prefix s : exists suf, s = trim_right p s ++ suf.
Proof.
  unfold trim_right. destruct (trim_left_suffix p (reverse s)) as (pre & H & _).
  exists (reverse pre). rewrite <-reverse_app, <-H. by rewrite reverse_involutive.
Qed.

Lemma trim_left_is_suffix s : exists pre, s = pre ++ trim_left p s.
Proof. destruct (trim_left_suffix p s) as (pre & ? & _). eauto. Qed.

Lemma trim_right_last s c : last (trim_right p s) = Some c -> p c = false.
Proof.
  unfold trim_right. rewrite last_reverse. destruct (trim_left p (reverse s)) eqn:Ht; [done|].
  simpl. intros [= <-]. by eapply trim_left_hd.
Qed.

Lemma trim_right_id s : (forall c, last s = Some c -> p c = false) -> trim_right p s = s.
Proof.
  intros H. unfold trim_right. rewrite trim_left_id; [apply reverse_involutive|].
  destruct (reverse s) as [|x r] eqn:Hr; [done|]. apply H.
  rewrite <-(reverse_involutive s), last_reverse, Hr. done.
Qed.

Lemma trim_left_id_head s : (forall c, head s = Some c -> p c = false) -> trim_left p s = s.
Proof. intros H. apply trim_left_id. destruct s; [done|]. by apply H. Qed.

Lemma trim_right_head s c :
  (forall c, head s = Some c -> p c = false) -> head (trim_right p s) = Some c -> p c = false.
Proof.
  intros Hh H. apply Hh. destruct (trim_right_prefix s) as [suf Hs]. rewrite Hs.
  by destruct (trim_right p s).
Qed.
End trim.

Lemma trimNonAlnum_spec b :
  (forall P : ascii -> Prop, Forall P b -> Forall P (trimNonAlnum b)) /\
  (length (trimNonAlnum b) <= length b)%nat /\
  (forall c, head (trimNonAlnum b) = Some c -> isAlnum c = true) /\
  (forall c, last (trimNonAlnum b) = Some c -> isAlnum c = true).
Proof.
  unfold trimNonAlnum. set (p := fun c => negb (isAlnum c)).
  destruct (trim_left_is_suffix p b) as [pre Hpre].
  destruct (trim_right_prefix p (trim_left p b)) as [suf Hsuf].
  split; [|split; [|split]].
  - intros P HP. rewrite Hpre, Hsuf, !Forall_app in HP. tauto.
  - apply (f_equal length) in Hpre, Hsuf. rewrite length_app in Hpre, Hsuf. lia.
  - intros c Hc. apply negb_false_iff. eapply (trim_right_head p); [|exact Hc].
    intros d Hd. destruct (trim_left p b) eqn:Ht; [done|]. simplify_eq/=. by eapply trim_left_hd.
  - intros c Hc. apply negb_false_iff. by apply (trim_right_last p) in Hc.
Qed.

Lemma trimNonAlnum_id s :
  (forall c, head s = Some c -> isAlnum c = true) ->
  (forall c, last s = Some c -> isAlnum c = true) -> trimNonAlnum s = s.
Proof.
  intros Hh Hl. unfold trimNonAlnum. rewrite trim_left_id_head.
  - apply trim_right_id. intros c Hc. by rewrite (Hl c).
  - intros c Hc. by rewrite (Hh c).
Qed.

Lemma SanitizeLabelValue_valid t : valid_label_value (SanitizeLabelValue t).
Proof.
  unfold SanitizeLabelValue. set (b := map _ t).
  assert (Hb : Forall (fun c => isLabelChar c = true) b).
  { apply Forall_map, Forall_true. intros c. simpl. by destruct (isLabelChar c) eqn:Hc. }
  destruct (trimNonAlnum_spec b) as (Hf & Hlen & Hh & Hl).
  destruct (63 <? _)%nat eqn:Hlt; reflect_bools; [|split; [by apply Hf|done]].
  destruct (trimNonAlnum_spec (take 63 (trimNonAlnum b))) as (Hf' & Hlen' & Hh' & Hl').
  rewrite length_take in Hlen'. split; [|split; [lia|done]].
  apply Hf'. apply Forall_take. by apply Hf.
Qed.

(** Whatever the input, the sanitised value is one the API server
    accepts, and a value that is already acceptable is left unchanged; hence
    sanitising twice is sanitising once. *)
Theorem sanitize_label_value_valid s :
  valid_label_value (SanitizeLabelValue s) /\
  (valid_label_value s -> SanitizeLabelValue s = s) /\
  SanitizeLabelValue (SanitizeLabelValue s) = SanitizeLabelValue s.
Proof.
  assert (Hid : forall s, valid_label_value s -> SanitizeLabelValue s = s).
  { intros t (Hc & Hlen & Hh & Hl). unfold SanitizeLabelValue.
    assert (Hm : map (fun c => if isLabelChar c then c else chr 45) t = t).
    { clear -Hc. induction Hc as [|c t Hx Ht IH]; [done|]. simpl. by rewrite Hx, IH. }
    rewrite Hm, trimNonAlnum_id by done. by rewrite (proj2 (Nat.ltb_ge _ _)). }
  split; [apply SanitizeLabelValue_valid|]. split; [apply Hid|]. apply Hid, SanitizeLabelValue_valid.
Qed.

(** ** Object names *)

Section names.
Context `{UnicodeTables}.

(** The rune filter of [sanitizeK8sName]; a negative result drops the rune. *)
Definition name_rune (c : Z) : Z :=
  if in_range 97 122 c || in_range 48 57 c || (c =? 45) then c
  else if (c =? 32) || (c =? 95) then 45 else -1.

Definition sanitizeK8sName (name : gostring) : gostring :=
  let b := map_runes name_rune (to_lower name) in
  let dash c := bool_decide (c = chr 45) in
  trim_right dash (trim_left dash b).

(** A DNS-1123 label fragment: lower-case alphanumerics and inner dashes. *)
Definition dns_fragment (s : gostring) : Prop :=
  Forall (fun c => in_range 97 122 (code c) || in_range 48 57 (code c) || (code c =? 45) = true) s /\
  (forall c, head s = Some c -> c <> chr 45) /\ (forall c, last s = Some c -> c <> chr 45).

Lemma name_rune_cases r :
  name_rune r = -1 \/ 97 <= name_rune r <= 122 \/ 48 <= name_rune r <= 57 \/ name_rune r = 45.
Proof.
  unfold name_rune, in_range. destruct (_ || (r =? 45)) eqn:H1.
  - rewrite !orb_true_iff, !andb_true_iff, !Z.leb_le, !Z.eqb_eq in H1. lia.
  - clear H1. destruct (_ || (r =? 95)); lia.
Qed.

Lemma map_name_rune_chars s :
  Forall (fun c => in_range 97 122 (code c) || in_range 48 57 (code c) || (code c =? 45) = true)
    (map_runes name_rune s).
Proof.
  unfold map_runes, of_runes. induction (runes s) as [|r rs IH]; simpl; [constructor|].
  destruct (0 <=? name_rune r) eqn:Hr; [|done]. reflect_bools. simpl.
  apply Forall_app. split; [|done].
  pose proof (name_rune_cases r). rewrite encode_rune_ascii by lia. apply Forall_singleton.
  rewrite code_chr by lia. unfold in_range.
  rewrite !orb_true_iff, !andb_true_iff, !Z.leb_le, !Z.eqb_eq. lia.
Qed.

(** A sanitised container or volume name is a DNS-1123 label fragment
    for every input, including non-ASCII names, whatever the case tables. *)
Theorem sanitize_k8s_name_dns name : dns_fragment (sanitizeK8sName name).
Proof.
  unfold sanitizeK8sName. set (b := map_runes _ _). set (p := fun c : ascii => _).
  destruct (trim_left_is_suffix p b) as [pre Hpre].
  destruct (trim_right_prefix p (trim_left p b)) as [suf Hsuf].
  pose proof (map_name_rune_chars (to_lower name)) as Hc. fold b in Hc.
  split; [|split].
  - rewrite Hpre, Hsuf, !Forall_app in Hc. tauto.
  - intros c Hh. apply (bool_decide_eq_false (c = chr 45)).
    eapply (trim_right_head p); [|exact Hh]. intros d Hd.
    destruct (trim_left p b) eqn:Ht; [done|]. simplify_eq/=. by eapply trim_left_hd.
  - intros c Hl. apply (bool_decide_eq_false (c = chr 45)).
    by apply (trim_right_last p) in Hl.
Qed.
End names.

(** ** Service ports *)

(** [ParseContainerPort]: the container side of [host:container/protocol]. *)
Definition ParseContainerPort (portSpec : gostring) : result gostring Z :=
  let spec := split (chr 47) portSpec !!! 0%nat in
  let parts := split (chr 58) spec in
  match parse_int 32 (default ε (last parts)) with
  | Some port => Ok port
  | None => Err spec
  end.
