(* ===== verification/Loader.v ===== *)
(** * Actions ([pkg/actions/loader.go])

    Loading an action from the controller's cache of repositories, and
    expanding a step that uses it into the specifications of the steps to run,
    through nested composite actions.  The file system and [git] are the
    interface [ActionHost]. *)
From Stdlib Require Import Ascii QArith.
From S2P Require Import Prelude GoStrings Paths ActionRef.
#[local] Open Scope go_scope.

(** ** Data *)

(** [types.StepSpec]. *)
Record StepSpec := {
  ssID : gostring;
  ssName : gostring;
  ssShell : gostring;
  ssScript : gostring;
  ssArgs : list gostring;
  ssEnv : gmap gostring gostring;
  ssImage : gostring;
  ssCmd : list gostring;
  ssActionDir : gostring;
  ssContinueOnError : bool;
  ssIf : gostring;
  ssTimeoutMinutes : Q;
}.

(** A specification with only a name, an environment and one way to run. *)
Definition new_spec (name shell script : gostring) (args : list gostring)
    (env : gmap gostring gostring) : StepSpec :=
  {| ssID := []; ssName := name; ssShell := shell; ssScript := script; ssArgs := args;
     ssEnv := env; ssImage := []; ssCmd := []; ssActionDir := []; ssContinueOnError := false;
     ssIf := []; ssTimeoutMinutes := 0 |}.

Inductive ActionRunsUsing :=
  | Node12 | Node16 | Node20 | Node24 | Docker | Composite | GoAction
  | OtherUsing (name : gostring).

(** A step of a composite action, and what the code uses of [action.yml]. *)
Record CompositeStep := {
  csName : gostring;
  csRun : gostring;
  csUses : gostring;
  csShell : gostring;
  csWith : gmap gostring gostring;
  csEnv : gmap gostring gostring;
}.

Record Action := {
  Using : ActionRunsUsing;
  Main : gostring;
  Pre : gostring;
  Post : gostring;
  Image : gostring;
  ActEntrypoint : gostring;
  RunsArgs : list gostring;
  RunsEnv : gmap gostring gostring;
  RunsSteps : list CompositeStep;
  Inputs : gmap gostring gostring;
}.

Record ActionMeta := {
  mRef : ActionRef;
  mAction : Action;
  mDir : gostring;
  Magic : bool;
}.

Inductive action_error :=
  | MkdirFailed
  | CloneFailed (r : ActionRef)
  | NoActionYml (dir : gostring)
  | BadActionYml (dir : gostring)
  | UnsafeEntryPoint (value : gostring)
  | UnsupportedType (u : ActionRunsUsing)
  | NoMainEntry (r : ActionRef)
  | DockerfileBuild (r : ActionRef)
  | CircularAction (parent key : gostring).

(** ** Loading *)

Inductive read_outcome := ReadOk (a : Action) | NotExist | ReadError.

Class ActionHost (W : Type) := {
  mkdir_all : gostring -> W -> bool * W;
  path_exists : gostring -> W -> bool;
  remove_all : gostring -> W -> W;
  git_clone : gostring -> gostring -> gostring -> W -> bool * W;
  read_action : gostring -> W -> read_outcome;
}.

Definition magicActions : list gostring := ["drawbar/cache"].

Definition empty_action : Action :=
  {| Using := OtherUsing []; Main := []; Pre := []; Post := []; Image := []; ActEntrypoint := [];
     RunsArgs := []; RunsEnv := ∅; RunsSteps := []; Inputs := ∅ |}.

Definition loadMagicAction (r : ActionRef) : ActionMeta :=
  {| mRef := r; mAction := empty_action; mDir := ActionDir r; Magic := true |}.

(** The first of [action.yml] and [action.yaml] that exists. *)
Definition readActionYml {W} `{ActionHost W} (dir : gostring) (w : W) : result action_error Action :=
  let attempt name := read_action (Join [dir; name]) w in
  match attempt "action.yml" with
  | ReadOk a => Ok a
  | ReadError => Err (BadActionYml dir)
  | NotExist => match attempt "action.yaml" with
                | ReadOk a => Ok a
                | ReadError => Err (BadActionYml dir)
                | NotExist => Err (NoActionYml dir)
                end
  end.

(** [true] when the path is accepted. *)
Definition validatePath (value : gostring) : bool :=
  bool_decide (value = []) ||
  (negb (has_traversal value) && negb (has_prefix (Clean value) dotdot)).

Definition entry_points (a : Action) : list gostring := [Main a; Pre a; Post a; ActEntrypoint a].

(** The clone, unless the repository is there already. *)
Definition ensure_clone {W} `{ActionHost W} (r : ActionRef) (defaultActionsURL cachedPath : gostring)
    (w : W) : bool * W :=
  if path_exists (Join [cachedPath; ".git"]) w then (true, w)
  else
    let '(ok, w) := git_clone (CloneURL r defaultActionsURL) (Ref r) cachedPath (remove_all cachedPath w) in
    if ok then (true, w) else (false, remove_all cachedPath w).

(** [ActionCache.LoadAction] for a cache rooted at [c]. *)
Definition LoadAction {W} `{ActionHost W} (c : gostring) (r : ActionRef)
    (defaultActionsURL : gostring) (w : W) : result action_error ActionMeta * W :=
  if bool_decide (Org r ++ "/" ++ Repo r ∈ magicActions) then (Ok (loadMagicAction r), w)
  else
    let dir := ActionDir r in
    let cacheDir := Join [c; "actions-repo-cache"] in
    let '(ok, w) := mkdir_all cacheDir w in
    if negb ok then (Err MkdirFailed, w) else
    let cachedPath := Join [cacheDir; dir] in
    let '(ok, w) := ensure_clone r defaultActionsURL cachedPath w in
    if negb ok then (Err (CloneFailed r), w) else
    let actionDir := if decide (Path r = []) then cachedPath else Join [cachedPath; Path r] in
    match readActionYml actionDir w with
    | Err e => (Err e, w)
    | Ok a =>
        match list_find (fun v => validatePath v = false) (entry_points a) with
        | Some (_, v) => (Err (UnsafeEntryPoint v), w)
        | None => (Ok {| mRef := r; mAction := a; mDir := dir; Magic := false |}, w)
        end
    end.

(** ** Expansion *)

Definition actionPath (m : ActionMeta) : gostring :=
  if decide (Path (mRef m) = []) then mDir m else mDir m ++ "/" ++ Path (mRef m).

(** [/actions/<path>/<file>]. *)
Definition script_path (m : ActionMeta) (file : gostring) : gostring :=
  "/actions/" ++ actionPath m ++ "/" ++ file.

Definition nodeStepSpecs (m : ActionMeta) (env : gmap gostring gostring)
    : result action_error (list StepSpec) :=
  let a := mAction m in
  let name := ActionRef.String (mRef m) in
  let node prefix file := new_spec (prefix ++ name) [] [] ["node"; script_path m file] env in
  if decide (Main a = []) then Err (NoMainEntry (mRef m))
  else Ok ((if decide (Pre a = []) then [] else [node "Pre " (Pre a)]) ++
           [node [] (Main a)] ++
           (if decide (Post a = []) then [] else [node "Post " (Post a)])).

Definition dockerStepSpecs (m : ActionMeta) (env : gmap gostring gostring)
    : result action_error (list StepSpec) :=
  let a := mAction m in
  let is_ref := has_prefix (Image a) "docker://" in
  if negb is_ref && bool_decide (Image a = "Dockerfile") then Err (DockerfileBuild (mRef m))
  else Ok [{| ssID := []; ssName := ActionRef.String (mRef m); ssShell := []; ssScript := [];
              ssArgs := []; ssEnv := env; ssImage := trim_prefix (Image a) "docker://";
              ssCmd := if decide (ActEntrypoint a = []) then [] else ActEntrypoint a :: RunsArgs a;
              ssActionDir := []; ssContinueOnError := false; ssIf := [];
              ssTimeoutMinutes := 0 |}].

(** Cycle detection and the actions met on the way ([ExpandCtx]). *)
Record ExpandCtx := {
  visited : gset gostring;
  Nested : list ActionMeta;
}.

Definition NewExpandCtx : ExpandCtx := {| visited := ∅; Nested := [] |}.

Definition visit (k : gostring) (e : ExpandCtx) : ExpandCtx :=
  {| visited := {[k]} ∪ visited e; Nested := Nested e |}.
Definition leave (k : gostring) (e : ExpandCtx) : ExpandCtx :=
  {| visited := visited e ∖ {[k]}; Nested := Nested e |}.
Definition add_nested (m : ActionMeta) (e : ExpandCtx) : ExpandCtx :=
  {| visited := visited e; Nested := Nested e ++ [m] |}.

Section expansion.
Context `{UnicodeTables} {W : Type} `{ActionHost W} (c : gostring) (actionsURL : gostring).

(** [for k, v := range m { env["INPUT_"+ToUpper(k)] = v }]; the order in which
    a map is gone through only matters for names equal up to case. *)
Definition input_key (name : gostring) : gostring := "INPUT_" ++ to_upper name.

Definition set_inputs (m env : gmap gostring gostring) : gmap gostring gostring :=
  foldl (fun env p => <[input_key p.1 := p.2]> env) env (map_to_list m).

Definition overlay_env (env layer : gmap gostring gostring) : gmap gostring gostring := layer ∪ env.

Definition buildActionEnv (m : ActionMeta) (stepWith stepEnv : gmap gostring gostring)
    : gmap gostring gostring :=
  let env := overlay_env stepEnv (RunsEnv (mAction m)) in
  let env := set_inputs (filter (fun kv => kv.2 <> []) (Inputs (mAction m))) env in
  let env := set_inputs stepWith env in
  <[("GITHUB_ACTION_PATH" : gostring) := "/actions/" ++ actionPath m]> env.

(** The result of an expansion ([None]: out of fuel), the context, the host. *)
Abbreviation expansion := (option (result action_error (list StepSpec)) * option ExpandCtx * W)%type.

(** The loop of [compositeStepSpecs]; [expand] is [ToStepSpecs] on the nested
    actions, [specs] what the steps before gave.  Without a context, nested
    actions are skipped. *)
Fixpoint composite_steps
    (expand : ActionMeta -> gmap gostring gostring -> gmap gostring gostring ->
              option ExpandCtx -> W -> expansion)
    (m : ActionMeta) (stepEnv : gmap gostring gostring) (steps : list CompositeStep)
    (specs : list StepSpec) (ectx : option ExpandCtx) (w : W) : expansion :=
  match steps with
  | [] => (Some (Ok specs), ectx, w)
  | step :: steps =>
      if decide (csRun step <> []) then
        composite_steps expand m stepEnv steps
          (specs ++ [new_spec (csName step) (csShell step) (csRun step) []
                       (overlay_env stepEnv (csEnv step))]) ectx w
      else if decide (csUses step = []) then composite_steps expand m stepEnv steps specs ectx w
      else
        match ectx with
        | None => composite_steps expand m stepEnv steps specs ectx w
        | Some e =>
            match ParseActionRef (csUses step) with
            | Err _ => composite_steps expand m stepEnv steps specs ectx w
            | Ok r =>
                let refKey := ActionRef.String r in
                if decide (refKey ∈ visited e)
                then (Some (Err (CircularAction (ActionRef.String (mRef m)) refKey)), ectx, w)
                else
                  let e := visit refKey e in
                  match LoadAction c r actionsURL w with
                  | (Err err, w) => (Some (Err err), Some e, w)
                  | (Ok nested, w) =>
                      let '(o, ectx, w) := expand nested (csWith step) (csEnv step) (Some e) w in
                      let ectx := leave refKey <$> ectx in
                      match o with
                      | Some (Ok nestedSpecs) =>
                          composite_steps expand m stepEnv steps (specs ++ nestedSpecs)
                            (add_nested nested <$> ectx) w
                      | o => (o, ectx, w)
                      end
                  end
            end
        end
  end.

(** [ToStepSpecs]; the fuel bounds the depth of nesting. *)
Fixpoint ToStepSpecs (fuel : nat) (m : ActionMeta) (stepWith stepEnv : gmap gostring gostring)
    (ectx : option ExpandCtx) (w : W) : expansion :=
  match fuel with
  | O => (None, ectx, w)
  | S fuel =>
      let env := buildActionEnv m stepWith stepEnv in
      if Magic m then
        (Some (Ok [new_spec (ActionRef.String (mRef m)) "sh" ":" [] env]), ectx, w)
      else
        match Using (mAction m) with
        | Node12 | Node16 | Node20 | Node24 => (Some (nodeStepSpecs m env), ectx, w)
        | Docker => (Some (dockerStepSpecs m env), ectx, w)
        | Composite =>
            composite_steps (ToStepSpecs fuel) m stepEnv (RunsSteps (mAction m)) [] ectx w
        | GoAction =>
            (Some (Ok [new_spec (ActionRef.String (mRef m)) []
                         ("cd /actions/" ++ mDir m ++ " && go run .") [] env]), ectx, w)
        | OtherUsing _ => (Some (Err (UnsupportedType (Using (mAction m)))), ectx, w)
        end
  end.

(** *** Termination *)

(** The references the steps of composite actions name, as keys. *)
Fixpoint uses_keys (steps : list CompositeStep) : gset gostring :=
  match steps with
  | [] => ∅
  | s :: steps => match ParseActionRef (csUses s) with
                  | Ok r => {[ActionRef.String r]} ∪ uses_keys steps
                  | Err _ => uses_keys steps
                  end
  end.

(** All actions that can be loaded refer, in their composite steps, to
    actions with keys in [U] only. *)
Definition closed_world (U : gset gostring) : Prop :=
  forall r w m w', LoadAction c r actionsURL w = (Ok m, w') -> uses_keys (RunsSteps (mAction m)) ⊆ U.

(** What is left to visit bounds the depth. *)
Definition budget (U : gset gostring) (ectx : option ExpandCtx) : nat :=
  from_option (fun e => size (U ∖ visited e)) 0%nat ectx.

Lemma budget_visit U k e :
  k ∈ U -> k ∉ visited e -> (budget U (Some (visit k e)) < budget U (Some e))%nat.
Proof. intros Hk Hv. simpl. apply subset_size. set_solver. Qed.

(** An expansion that ends well leaves the visited set as it was. *)
Definition ends (x : expansion) (ectx : option ExpandCtx) : Prop :=
  exists r ectx' w', x = (Some r, ectx', w') /\
    (is_ok r = true -> visited <$> ectx' = visited <$> ectx).

Lemma composite_steps_end U expand m stepEnv steps specs ectx w :
  closed_world U -> uses_keys steps ⊆ U ->
  (forall m wth env ectx' w', uses_keys (RunsSteps (mAction m)) ⊆ U ->
     (budget U ectx' < budget U ectx)%nat -> ends (expand m wth env ectx' w') ectx') ->
  ends (composite_steps expand m stepEnv steps specs ectx w) ectx.
Proof.
  intros HU Hsub Hexp. revert specs ectx w Hsub Hexp.
  induction steps as [|step steps IH]; intros specs ectx w Hsub Hexp; [by repeat eexists|].
  cbn [composite_steps]. cbn [uses_keys] in Hsub.
  assert (uses_keys steps ⊆ U) as Hsub' by (destruct (ParseActionRef _); set_solver).
  destruct (decide (csRun step <> [])); [by apply IH|].
  destruct (decide (csUses step = [])); [by apply IH|].
  destruct ectx as [e|]; [|by apply IH].
  destruct (ParseActionRef (csUses step)) as [r|]; [|by apply IH].
  destruct (decide (ActionRef.String r ∈ visited e)) as [|Hv]; [by repeat eexists|].
  destruct (LoadAction c r actionsURL w) as [[nested|err] w1] eqn:Hl; [|by repeat eexists].
  destruct (Hexp nested (csWith step) (csEnv step) (Some (visit (ActionRef.String r) e)) w1)
    as (o & ectx1 & w2 & -> & Hrest); [by eapply HU|apply budget_visit; set_solver|].
  destruct o as [nestedSpecs|err]; [|by repeat eexists].
  specialize (Hrest eq_refl). destruct ectx1 as [e1|]; [|done]. simpl in Hrest.
  injection Hrest as He1. cbn [fmap option_fmap option_map].
  assert (visited (add_nested nested (leave (ActionRef.String r) e1)) = visited e) as Hback
    by (simpl; set_solver).
  destruct (IH (specs ++ nestedSpecs) (Some (add_nested nested (leave (ActionRef.String r) e1))) w2)
    as (r' & ectx' & w' & -> & Hr'); [done| |].
  { intros m' wth env ectx' w' Hm' Hb. apply Hexp; [done|].
    unfold budget in *. cbn [from_option] in *. by rewrite Hback in Hb. }
  repeat eexists. intros Hok. rewrite Hr' by done. cbn [fmap option_fmap option_map]. by rewrite Hback.
Qed.

Lemma expansion_ends U fuel m wth env ectx w :
  closed_world U -> uses_keys (RunsSteps (mAction m)) ⊆ U -> (budget U ectx < fuel)%nat ->
  ends (ToStepSpecs fuel m wth env ectx w) ectx.
Proof.
  intros HU. revert m wth env ectx w. induction fuel as [|fuel IH]; intros m wth env ectx w Hm Hf; [lia|].
  cbn [ToStepSpecs]. destruct (Magic m); [by repeat eexists|].
  destruct (Using (mAction m)); try by repeat eexists.
  apply composite_steps_end with U; [done|done|]. intros m' wth' env' ectx' w' Hm' Hb.
  apply IH; [done|lia].
Qed.

(** C20: expanding an action ends.  If the actions that can be loaded refer to
    finitely many others, [ToStepSpecs] with as much fuel as there are of these
    returns a list of steps or an error, whatever the action and however they
    refer to each other: a cycle is found by the visited set. *)
Theorem expansion_terminates U m wth env w :
  closed_world U -> uses_keys (RunsSteps (mAction m)) ⊆ U ->
  exists r ectx w', ToStepSpecs (S (size U)) m wth env (Some NewExpandCtx) w = (Some r, ectx, w').
Proof.
  intros HU Hm. destruct (expansion_ends U (S (size U)) m wth env (Some NewExpandCtx) w)
    as (r & ectx & w' & Hr & _); [done|done| |by eauto].
  simpl. apply Nat.lt_succ_r, subseteq_size. set_solver.
Qed.

(** *** What the steps execute *)

(** A reference as [ParseActionRef] returns it, and an action as [LoadAction]
    does: no [..] in the path or an entry point, and a safe directory name. *)
Definition good_ref (r : ActionRef) : Prop := Path r = [] \/ has_traversal (Path r) = false.

Definition good_meta (m : ActionMeta) : Prop :=
  good_ref (mRef m) /\ mDir m = ActionDir (mRef m) /\
  Forall (fun v => v = [] \/ has_traversal v = false) (entry_points (mAction m)).

Lemma has_dotdot_traversal p : has_dotdot p = has_traversal p.
Proof.
  unfold has_dotdot, has_traversal. apply eq_true_iff_eq.
  rewrite existsb_exists, bool_decide_eq_true. setoid_rewrite bool_decide_eq_true. split.
  - intros (x & Hx%list_elem_of_In & ->). done.
  - intros Hx. exists dotdot. by rewrite <-list_elem_of_In.
Qed.

Lemma parse_good u r : ParseActionRef u = Ok r -> good_ref r.
Proof.
  unfold ParseActionRef, parse_url_ref, parse_plain_ref, good_ref. rewrite <-has_dotdot_traversal.
  intros Hp. split_matches; by apply checked_Ok in Hp as [-> Hp].
Qed.

Lemma load_good r w m w' : good_ref r -> LoadAction c r actionsURL w = (Ok m, w') -> good_meta m.
Proof.
  intros Hr. unfold LoadAction. case_bool_decide.
  { intros [= <- _]. split; [done|]. split; [done|]. simpl. repeat constructor; by left. }
  destruct (mkdir_all _ w) as [ok1 w1]. destruct ok1; [|done]. cbn [negb].
  destruct (ensure_clone _ _ _ w1) as [ok2 w2]. destruct ok2; [|done]. cbn [negb].
  destruct (readActionYml _ w2) as [a|]; [|done].
  destruct (list_find _ _) as [[? ?]|] eqn:Hf; [done|]. intros [= <- _].
  split; [done|]. split; [done|]. apply list_find_None in Hf.
  eapply Forall_impl; [exact Hf|]. intros v Hv. apply not_false_is_true in Hv.
  unfold validatePath in Hv. apply orb_true_iff in Hv as [Hv|Hv]; reflect_bools; auto.
Qed.

(** The script of a direct command lies in the directory of one of [ms]. *)
Definition confined (ms : list ActionMeta) (sp : StepSpec) : Prop :=
  ssArgs sp = [] \/
  exists m rest, m ∈ ms /\ ssArgs sp = ["node"; "/actions/" ++ mDir m ++ "/" ++ rest] /\
    has_traversal rest = false /\ Magic m = false.

Lemma confined_mono ms ms' sp : ms ⊆ ms' -> confined ms sp -> confined ms' sp.
Proof. intros Hs [?|(m & rest & Hm & ?)]; [by left|right; exists m, rest; auto]. Qed.

Lemma script_path_spec m file :
  good_meta m -> has_traversal file = false ->
  exists rest, script_path m file = "/actions/" ++ mDir m ++ "/" ++ rest /\ has_traversal rest = false.
Proof.
  intros ([Hp|Hp] & _ & _) Hf; unfold script_path, actionPath.
  - rewrite decide_True by done. by exists file.
  - case_decide; [by exists file|]. exists (Path (mRef m) ++ slash :: file).
    split; [by rewrite <-!app_assoc|]. by rewrite traversal_app, Hp, Hf.
Qed.

Lemma node_confined m env specs :
  good_meta m -> Magic m = false -> nodeStepSpecs m env = Ok specs -> Forall (confined [m]) specs.
Proof.
  intros Hm Hmagic Hs.
  assert (forall v, v ∈ entry_points (mAction m) -> v <> [] -> has_traversal v = false) as Hep.
  { intros v Hv Hne. destruct Hm as (_ & _ & Hf).
    destruct (proj1 (Forall_forall _ _) Hf v Hv); done. }
  assert (forall v name, v ∈ entry_points (mAction m) -> v <> [] ->
            confined [m] (new_spec name [] [] ["node"; script_path m v] env)) as Hc.
  { intros v name Hv Hne. destruct (script_path_spec m v Hm) as (rest & Hr & Ht); [by apply Hep|].
    right. exists m, rest. split; [by apply list_elem_of_singleton|].
    split; [simpl; by rewrite Hr|done]. }
  unfold nodeStepSpecs in Hs. destruct (decide (Main _ = [])); [done|]. injection Hs as <-.
  apply Forall_app_2; [|apply Forall_cons_2].
  - destruct (decide (Pre _ = [])); [apply Forall_nil_2|]. apply Forall_singleton, Hc; [|done].
    right. left.
  - apply Hc; [left|done].
  - destruct (decide (Post _ = [])); [apply Forall_nil_2|]. apply Forall_singleton, Hc; [|done].
    right. right. left.
Qed.

(** The nested actions a context has gathered beyond those of another. *)
Definition gathers (ectx ectx' : option ExpandCtx) (new : list ActionMeta) : Prop :=
  match ectx, ectx' with
  | Some e, Some e' => Nested e' = Nested e ++ new
  | None, None => new = []
  | _, _ => False
  end.

Definition confined_result (m : ActionMeta) (ectx : option ExpandCtx) (x : expansion) : Prop :=
  forall specs ectx' w', x = (Some (Ok specs), ectx', w') ->
  exists new, gathers ectx ectx' new /\ Forall good_meta new /\ Forall (confined (m :: new)) specs.

Lemma composite_confined expand m stepEnv steps ectx0 ectx old specs w :
  (forall m wth env e w, good_meta m -> confined_result m (Some e) (expand m wth env (Some e) w)) ->
  gathers ectx0 ectx old -> Forall good_meta old -> Forall (confined (m :: old)) specs ->
  confined_result m ectx0 (composite_steps expand m stepEnv steps specs ectx w).
Proof.
  intros Hexp. revert ectx old specs w.
  induction steps as [|step steps IH]; intros ectx old specs w Hg Hold Hspecs; cbn [composite_steps].
  { intros ? ? ? [= <- <- <-]. by exists old. }
  destruct (decide (csRun step <> [])).
  { apply IH with old; [done|done|]. apply Forall_app_2; [done|]. apply Forall_singleton. by left. }
  destruct (decide (csUses step = [])); [by apply IH with old|].
  destruct ectx as [e|]; [|by apply IH with old].
  destruct (ParseActionRef (csUses step)) as [r|] eqn:Hr; [|by apply IH with old].
  destruct (decide (ActionRef.String r ∈ visited e)); [by intros ? ? ?|].
  destruct (LoadAction c r actionsURL w) as [[nested|err] w1] eqn:Hl; [|by intros ? ? ?].
  apply load_good in Hl; [|by eapply parse_good].
  destruct (expand _ _ _ _ _) as [[o ectx1] w2] eqn:Hx.
  destruct o as [[nestedSpecs|]|]; [|by intros ? ? ?|by intros ? ? ?].
  apply Hexp in Hx as (new & Hnew & Hgood & Hconf); [|done].
  destruct ectx1 as [e1|]; [|done]. destruct ectx0 as [e0|]; [|done]. simpl in Hg, Hnew.
  apply IH with (old ++ new ++ [nested]).
  - simpl. by rewrite Hnew, Hg, !app_assoc.
  - apply Forall_app_2; [done|]. apply Forall_app_2; [done|]. by apply Forall_singleton.
  - apply Forall_app. split.
    + eapply Forall_impl; [exact Hspecs|]. intros sp. apply confined_mono. set_solver.
    + eapply Forall_impl; [exact Hconf|]. intros sp. apply confined_mono. set_solver.
Qed.

Lemma expansion_confined fuel m wth env ectx w :
  good_meta m -> confined_result m ectx (ToStepSpecs fuel m wth env ectx w).
Proof.
  revert m wth env ectx w. induction fuel as [|fuel IH]; intros m wth env ectx w Hm;
    cbn [ToStepSpecs]; [by intros ? ? ?|].
  assert (gathers ectx ectx []) as Hg by (destruct ectx; simpl; by rewrite ?app_nil_r).
  assert (forall sp, ssArgs sp = [] -> confined_result m ectx (Some (Ok [sp]), ectx, w)) as Hplain.
  { intros sp Hsp ? ? ? [= <- <- <-]. exists []. split; [done|]. split; [done|].
    apply Forall_singleton. by left. }
  destruct (Magic m) eqn:Hmagic; [by apply Hplain|].
  destruct (Using (mAction m)) eqn:Hu; [| | | | | |by apply Hplain|by intros ? ? ?];
    try (intros specs ectx' w' [= Hs <- <-]; exists []; split; [done|]; split; [done|]).
  1-4: by eapply node_confined.
  - unfold dockerStepSpecs in Hs. case_match; [done|]. injection Hs as <-. apply Forall_singleton. by left.
  - apply composite_confined with []; try done. intros. by apply IH.
Qed.

(** The scripts of an action lie in fetched directories.  Expanding an
    action that was loaded for a parsed reference, every step that executes a
    file directly executes one with no [..] below [/actions/<dir>/], where
    [dir] is the directory name, safe for the cache server, of the action
    itself or of one of the nested actions reported in the context, which is
    what the setup step fetches. *)
Theorem scripts_in_fetched_dirs uses r w0 m w1 fuel wth env e w specs ectx' w' :
  ParseActionRef uses = Ok r -> LoadAction c r actionsURL w0 = (Ok m, w1) ->
  ToStepSpecs fuel m wth env (Some e) w = (Some (Ok specs), ectx', w') ->
  exists e' new, ectx' = Some e' /\ Nested e' = Nested e ++ new /\
    Forall (fun sp => ssArgs sp = [] \/
              exists m' rest, (m' = m \/ m' ∈ new) /\
                ssArgs sp = ["node"; "/actions/" ++ mDir m' ++ "/" ++ rest] /\
                has_traversal rest = false /\ isSafeActionDir (mDir m') = true) specs.
Proof.
  intros Hp Hl Hx. apply load_good in Hl; [|by eapply parse_good].
  apply expansion_confined in Hx as (new & Hg & Hgood & Hc); [|done].
  destruct ectx' as [e'|]; [|done]. exists e', new. split; [done|]. split; [done|].
  eapply Forall_impl; [exact Hc|]. intros sp [?|(m' & rest & Hm' & Ha & Ht & _)]; [by left|right].
  exists m', rest. apply elem_of_cons in Hm'. split; [done|]. split; [done|]. split; [done|].
  assert (good_meta m') as (_ & -> & _); [|apply ActionDir_safe].
  destruct Hm' as [->|Hin]; [done|]. by eapply Forall_forall in Hgood.
Qed.
End expansion.

(** ** Concrete repositories *)

Lemma load_action_source `{ActionHost W} c url r w m w' :
  LoadAction c r url w = (Ok m, w') ->
  mAction m = empty_action \/ exists dir w0, read_action dir w0 = ReadOk (mAction m).
Proof.
  unfold LoadAction, readActionYml. intros Hl. case_bool_decide.
  { injection Hl as <- _. by left. }
  right. destruct (mkdir_all _ w) as [[] ?]; [|done].
  destruct (ensure_clone _ _ _ _) as [[] ?]; [|done]. cbn [negb] in Hl.
  destruct (read_action _ _) as [a| |] eqn:Hr; [|destruct (read_action (Join [_; "action.yaml"]) _)
    as [a| |] eqn:Hr'; [|done..]|done]; destruct (list_find _ _) as [[? ?]|]; try done;
    injection Hl as <- _; by eauto.
Qed.

Definition uses_step (u : gostring) : CompositeStep :=
  {| csName := []; csRun := []; csUses := u; csShell := []; csWith := ∅; csEnv := ∅ |}.

Definition composite (steps : list CompositeStep) : Action :=
  {| Using := Composite; Main := []; Pre := []; Post := []; Image := []; ActEntrypoint := [];
     RunsArgs := []; RunsEnv := ∅; RunsSteps := steps; Inputs := ∅ |}.

Definition node_action : Action :=
  {| Using := Node20; Main := "dist/main.js"; Pre := []; Post := "dist/post.js"; Image := [];
     ActEntrypoint := []; RunsArgs := []; RunsEnv := ∅; RunsSteps := []; Inputs := ∅ |}.

Definition sample_ref (org : gostring) : ActionRef :=
  {| Org := org; Repo := "x"; Path := []; Ref := "v1"; URL := [] |}.

(** Two composite actions that use each other, one of them also a node
    action; everything can be cloned. *)
Definition sample_yml (org : gostring) : gostring :=
  Join [Join ["/cache/actions-repo-cache"; ActionDir (sample_ref org)]; "action.yml"].

#[local] Instance sample_host : ActionHost nat := {|
  mkdir_all _ w := (true, w);
  path_exists _ _ := false;
  remove_all _ w := w;
  git_clone _ _ _ w := (true, S w);
  read_action p _ :=
    if decide (p = sample_yml "a") then ReadOk (composite [uses_step "n/x@v1"; uses_step "b/x@v1"])
    else if decide (p = sample_yml "b") then ReadOk (composite [uses_step "a/x@v1"])
    else if decide (p = sample_yml "c") then ReadOk (composite [uses_step "n/x@v1"])
    else if decide (p = sample_yml "n") then ReadOk node_action
    else NotExist;
|}.

Definition sample_meta (org : gostring) (a : Action) : ActionMeta :=
  {| mRef := sample_ref org; mAction := a; mDir := ActionDir (sample_ref org); Magic := false |}.

Lemma expansion_terminates_witness :
  let U : gset gostring := {["n/x@v1"; "b/x@v1"; "a/x@v1"]} in
  exists r ectx w',
    @ToStepSpecs ascii_tables nat sample_host "/cache" "https://f" (S (size U))
      (sample_meta "a" (composite [uses_step "n/x@v1"; uses_step "b/x@v1"])) ∅ ∅
      (Some NewExpandCtx) 0%nat = (Some r, ectx, w') /\
    r = Err (CircularAction "a/x@v1" "b/x@v1").
Proof.
  intros U.
  destruct (@expansion_terminates ascii_tables nat sample_host "/cache" "https://f" U
    (sample_meta "a" (composite [uses_step "n/x@v1"; uses_step "b/x@v1"])) ∅ ∅ 0%nat)
    as (r & ectx & w' & Hr).
  - intros r w m w' Hl. apply load_action_source in Hl as [->|(dir & w0 & Hd)]; [done|].
    cbn [read_action sample_host] in Hd.
    repeat match type of Hd with context [decide ?P] => destruct (decide P) end;
      try discriminate; injection Hd as <-; decide_now.
  - decide_now.
  - exists r, ectx, w'. split; [exact Hr|]. vm_compute in Hr. by injection Hr as <- _ _.
Defined.

Lemma scripts_in_fetched_dirs_witness :
  exists e' new,
    Nested e' = new /\ length new = 1%nat /\
    Forall (fun sp => ssArgs sp = [] \/
              exists m' rest, (m' = sample_meta "c" (composite [uses_step "n/x@v1"]) \/ m' ∈ new) /\
                ssArgs sp = ["node"; "/actions/" ++ mDir m' ++ "/" ++ rest] /\
                has_traversal rest = false /\ isSafeActionDir (mDir m') = true)
      [new_spec "n/x@v1" [] [] ["node"; "/actions/" ++ ActionDir (sample_ref "n") ++ "/dist/main.js"]
         {["GITHUB_ACTION_PATH" := "/actions/" ++ ActionDir (sample_ref "n")]};
       new_spec "Post n/x@v1" [] [] ["node"; "/actions/" ++ ActionDir (sample_ref "n") ++ "/dist/post.js"]
         {["GITHUB_ACTION_PATH" := "/actions/" ++ ActionDir (sample_ref "n")]}].
Proof.
  destruct (@scripts_in_fetched_dirs ascii_tables nat sample_host "/cache" "https://f"
    "c/x@v1" (sample_ref "c") 0%nat (sample_meta "c" (composite [uses_step "n/x@v1"])) 1%nat 2%nat ∅ ∅
    NewExpandCtx 1%nat
    [new_spec "n/x@v1" [] [] ["node"; "/actions/" ++ ActionDir (sample_ref "n") ++ "/dist/main.js"]
         {["GITHUB_ACTION_PATH" := "/actions/" ++ ActionDir (sample_ref "n")]};
       new_spec "Post n/x@v1" [] [] ["node"; "/actions/" ++ ActionDir (sample_ref "n") ++ "/dist/post.js"]
         {["GITHUB_ACTION_PATH" := "/actions/" ++ ActionDir (sample_ref "n")]}]
    (Some {| visited := ∅; Nested := [sample_meta "n" node_action] |}) 2%nat)
    as (e' & new & He & Hn & Hf); [vm_compute; reflexivity..|].
  injection He as <-. simpl in Hn. subst new.
  exists {| visited := ∅; Nested := [sample_meta "n" node_action] |}, [sample_meta "n" node_action].
  split; [done|]. split; [done|]. exact Hf.
Defined.
