(* ===== verification/Masker.v ===== *)
(** * Secret masking ([pkg/reporter/reporter.go]: [logMasker])

    The masker replaces every secret by three asterisks with one
    [strings.Replacer] over all secrets. *)
From Stdlib Require Import Ascii.
From S2P Require Import Prelude GoStrings.

Definition star : ascii := chr 42.
Definition stars : gostring := [star; star; star].

(** The [(old, new)] pairs handed to [strings.NewReplacer], in argument order.
    The Go field [replacer] is nil exactly when there are no pairs. *)
Record logMasker := { pairs : list (gostring * gostring) }.

(** The pair used at a position: the first, in argument order, whose old
    string starts there. *)
Fixpoint find_pair (ps : list (gostring * gostring)) (s : gostring)
    : option (gostring * gostring) :=
  match ps with
  | [] => None
  | (old, new) :: ps' => if has_prefix s old then Some (old, new) else find_pair ps' s
  end.

(** [strings.Replacer.Replace]: left to right, without overlaps.  [skip]
    counts the bytes of the match just replaced. *)
Fixpoint replace_go (ps : list (gostring * gostring)) (skip : nat) (s : gostring) : gostring :=
  match s with
  | [] => []
  | c :: s' =>
      match skip with
      | S k => replace_go ps k s'
      | O => match find_pair ps s with
             | Some (old, new) => new ++ replace_go ps (length old - 1) s'
             | None => c :: replace_go ps 0 s'
             end
      end
  end.

Definition newLogMasker (secrets : list gostring) : logMasker :=
  {| pairs := omap (fun s => if (3 <? length s)%nat then Some (s, stars) else None) secrets |}.

Definition add (m : logMasker) (value : gostring) : logMasker :=
  {| pairs := pairs m ++ [(value, stars)] |}.

(** A nil masker, and one without a replacer, return the content unchanged. *)
Definition mask (m : option logMasker) (content : gostring) : gostring :=
  match m with
  | None => content
  | Some {| pairs := [] |} => content
  | Some {| pairs := ps |} => replace_go ps 0 content
  end.

(** ** Lemmas *)

Definition only_stars (ps : list (gostring * gostring)) : Prop :=
  Forall (fun p => p.2 = stars) ps.

Lemma replace_go_nil s : replace_go [] 0 s = s.
Proof. induction s as [|c s IH]; simpl; [done|]. by rewrite IH. Qed.

Lemma mask_replace m s : mask (Some m) s = replace_go (pairs m) 0 s.
Proof. destruct m as [[|p ps]]; simpl; [by rewrite replace_go_nil|done]. Qed.

Lemma newLogMasker_stars secrets : only_stars (pairs (newLogMasker secrets)).
Proof.
  unfold only_stars, newLogMasker. simpl. apply Forall_forall. intros p Hp.
  apply list_elem_of_omap in Hp as (s & _ & Hs). case_match; simplify_eq. done.
Qed.

Lemma add_stars m value : only_stars (pairs m) -> only_stars (pairs (add m value)).
Proof. intros H. unfold only_stars, add. simpl. by apply Forall_snoc. Qed.

Lemma newLogMasker_elem secrets s :
  s ∈ secrets -> 3 < length s -> s ∈ (pairs (newLogMasker secrets)).*1.
Proof.
  intros Hs Hl. unfold newLogMasker. simpl. apply list_elem_of_fmap. exists (s, stars).
  split; [done|]. apply list_elem_of_omap. exists s. split; [done|].
  by rewrite (proj2 (Nat.ltb_lt _ _)).
Qed.

Lemma find_pair_Some ps s p : find_pair ps s = Some p -> p ∈ ps /\ has_prefix s p.1 = true.
Proof.
  induction ps as [|[old new] ps IH]; simpl; [done|].
  destruct (has_prefix s old) eqn:Hp.
  - intros [= <-]. split; [left|done].
  - intros [? ?]%IH. split; [by right|done].
Qed.

Lemma find_pair_None ps s old : find_pair ps s = None -> old ∈ ps.*1 -> has_prefix s old = false.
Proof.
  induction ps as [|[o n] ps IH]; simpl; [by intros _ ?%elem_of_nil|].
  destruct (has_prefix s o) eqn:Hp; [done|].
  intros Hn [->|?]%elem_of_cons; auto.
Qed.

Section no_leak.
Context (ps : list (gostring * gostring)) (Hps : only_stars ps).
Context (secret : gostring) (Hin : secret ∈ ps.*1) (Hstar : star ∉ secret).

Lemma find_pair_stars s old new : find_pair ps s = Some (old, new) -> new = stars.
Proof.
  intros [Hp _]%find_pair_Some. by apply (proj1 (Forall_forall _ _) Hps) in Hp.
Qed.

(** A star-free string at the head of the output was at the head of the input. *)
Lemma prefix_of_output t s :
  star ∉ t -> t `prefix_of` replace_go ps 0 s -> t `prefix_of` s.
Proof.
  revert t. induction s as [|c s IH]; intros t Ht Hpre; [done|].
  destruct t as [|x t]; [apply prefix_nil|].
  apply not_elem_of_cons in Ht as [Hx Ht]. cbn [replace_go] in Hpre.
  destruct (find_pair ps (c :: s)) as [[old new]|] eqn:Hf.
  - apply find_pair_stars in Hf as ->. apply prefix_cons_inv_1 in Hpre. done.
  - pose proof (prefix_cons_inv_1 _ _ _ _ Hpre) as ->.
    apply prefix_cons. apply IH; [done|]. by eapply prefix_cons_inv_2.
Qed.

Lemma replace_no_leak k s a b : secret <> ε -> replace_go ps k s <> a ++ secret ++ b.
Proof.
  intros Hne. revert k a. induction s as [|c s IH]; intros k a Hout.
  - symmetry in Hout. apply app_eq_nil in Hout as [_ Hout].
    by apply app_eq_nil in Hout as [Hs _].
  - destruct k as [|k]; [|by eapply IH]. cbn [replace_go] in Hout.
    destruct (find_pair ps (c :: s)) as [[old new]|] eqn:Hf.
    + apply find_pair_stars in Hf as ->. destruct secret as [|x t]; [done|].
      apply not_elem_of_cons in Hstar as [Hx _].
      destruct a as [|a1 [|a2 [|a3 a]]]; simplify_eq/=. by eapply IH.
    + destruct a as [|a1 a]; [|simplify_eq/=; by eapply IH].
      assert (has_prefix (c :: s) secret = true) as Hp.
      { apply bool_decide_eq_true. apply prefix_of_output; [done|]. cbn [replace_go].
        rewrite Hf, Hout. by exists b. }
      by rewrite (find_pair_None _ _ _ Hf Hin) in Hp.
Qed.
End no_leak.

(** No secret the masker holds survives in masked text. *)
Lemma mask_no_leak m secret content :
  only_stars (pairs m) -> secret ∈ (pairs m).*1 -> secret <> ε -> star ∉ secret ->
  contains secret (mask (Some m) content) = false.
Proof.
  intros Hps Hin Hne Hst. rewrite mask_replace.
  destruct (contains _ _) eqn:Hc; [|done].
  apply contains_spec in Hc as (a & b & Hab).
  by apply (replace_no_leak _ Hps _ Hin Hst) in Hab.
Qed.

(** Text in which no secret occurs passes through unchanged. *)
Lemma replace_go_id ps s :
  (forall old, old ∈ ps.*1 -> contains old s = false) -> replace_go ps 0 s = s.
Proof.
  induction s as [|c s IH]; intros H; [done|]. cbn [replace_go].
  destruct (find_pair ps (c :: s)) as [[old new]|] eqn:Hf.
  - apply find_pair_Some in Hf as [Hin Hp]. simpl in Hp.
    assert (contains old (c :: s) = true) as Hc.
    { apply has_prefix_spec in Hp as [r Hr]. apply contains_spec. by exists [], r. }
    rewrite H in Hc; [done|]. by apply (list_elem_of_fmap_2 fst) in Hin.
  - rewrite IH; [done|]. intros old Hold. specialize (H old Hold).
    destruct (contains old s) eqn:Hc; [|done].
    apply contains_spec in Hc as (a & b & Hab). rewrite <-H. symmetry.
    apply contains_spec. exists (c :: a), b. by rewrite Hab.
Qed.
