(* ===== verification/Reporter.v ===== *)
(** * The reporter ([pkg/reporter/reporter.go])

    Per-task log batching and step state.  The RPC client is an interface
    ([RunnerClient], Go's [reporter.Client] plus the timer of [waitOrCancel]);
    every method that talks to it is written in a state monad over the
    reporter, the client's world and the list of calls made so far. *)
From Stdlib Require Import Ascii.
From S2P Require Import Prelude GoStrings Masker.
#[local] Open Scope Z_scope.

(** ** Data *)

Inductive Result :=
  | RESULT_UNSPECIFIED
  | RESULT_SUCCESS
  | RESULT_FAILURE
  | RESULT_CANCELLED
  | RESULT_SKIPPED.

#[export] Instance result_enum_eq_dec : EqDecision Result.
Proof. solve_decision. Defined.

Record StepState := {
  sId : Z;
  sResult : Result;
  LogIndex : Z;
  LogLength : Z;
  sStartedAt : option Z;
  sStoppedAt : option Z;
}.

Record TaskState := {
  tId : Z;
  tResult : Result;
  tStartedAt : option Z;
  tStoppedAt : option Z;
  Steps : list StepState;
}.

Record LogRow := { Time : Z; Content : gostring }.

#[export] Instance step_state_eq_dec : EqDecision StepState.
Proof. solve_decision. Defined.
#[export] Instance task_state_eq_dec : EqDecision TaskState.
Proof. solve_decision. Defined.
#[export] Instance log_row_eq_dec : EqDecision LogRow.
Proof. solve_decision. Defined.

Record UpdateLogRequest := {
  lTaskId : Z;
  Index : Z;
  Rows : list LogRow;
  NoMore : bool;
}.

(** The state of [Reporter].  [daemon] is the [cancel] function: [None] before
    [RunDaemon], then whether the periodic flush still runs. *)
Record Reporter := {
  taskID : Z;
  state : TaskState;
  logRows : list LogRow;
  logOffset : Z;
  currentStep : Z;
  masker : option logMasker;
  daemon : option bool;
}.

Definition set_state (st : TaskState) (r : Reporter) : Reporter :=
  {| taskID := taskID r; state := st; logRows := logRows r; logOffset := logOffset r;
     currentStep := currentStep r; masker := masker r; daemon := daemon r |}.
Definition set_steps (ss : list StepState) (t : TaskState) : TaskState :=
  {| tId := tId t; tResult := tResult t; tStartedAt := tStartedAt t;
     tStoppedAt := tStoppedAt t; Steps := ss |}.
Definition set_masker (m : option logMasker) (r : Reporter) : Reporter :=
  {| taskID := taskID r; state := state r; logRows := logRows r; logOffset := logOffset r;
     currentStep := currentStep r; masker := m; daemon := daemon r |}.
Definition set_daemon (d : option bool) (r : Reporter) : Reporter :=
  {| taskID := taskID r; state := state r; logRows := logRows r; logOffset := logOffset r;
     currentStep := currentStep r; masker := masker r; daemon := d |}.

(** ** Local operations *)

Definition New (taskID : Z) (numSteps : nat) : Reporter :=
  {| taskID := taskID;
     state := {| tId := taskID; tResult := RESULT_UNSPECIFIED; tStartedAt := None;
                 tStoppedAt := None;
                 Steps := map (fun i => {| sId := Z.of_nat i; sResult := RESULT_UNSPECIFIED;
                                           LogIndex := 0; LogLength := 0;
                                           sStartedAt := None; sStoppedAt := None |})
                              (seq 0 numSteps) |};
     logRows := []; logOffset := 0; currentStep := -1; masker := None; daemon := None |}.

Definition SetSecrets (secrets : list gostring) (r : Reporter) : Reporter :=
  set_masker (Some (newLogMasker secrets)) r.

Definition AddMask (value : gostring) (r : Reporter) : Reporter :=
  if (length value <=? 3)%nat then r
  else set_masker (Some (add (default {| pairs := [] |} (masker r)) value)) r.

(** The step a Go index addresses: [None] outside [0 <= i < len(steps)]. *)
Definition step_slot (r : Reporter) (i : Z) : option nat :=
  if (0 <=? i) && (i <? Z.of_nat (length (Steps (state r)))) then Some (Z.to_nat i) else None.

Definition update_step (r : Reporter) (i : nat) (f : StepState -> StepState) : Reporter :=
  set_state (set_steps (alter f i (Steps (state r))) (state r)) r.

(** [AddLog]: the row's absolute position is [logOffset + len(logRows) - 1]
    once it has been appended. *)
Definition AddLog (now : Z) (content : gostring) (r : Reporter) : Reporter :=
  let content := mask (masker r) content in
  let row := {| Time := now; Content := content |} in
  let r1 := {| taskID := taskID r; state := state r; logRows := logRows r ++ [row];
               logOffset := logOffset r; currentStep := currentStep r; masker := masker r;
               daemon := daemon r |} in
  match step_slot r1 (currentStep r1) with
  | None => r1
  | Some i =>
      update_step r1 i (fun step =>
        {| sId := sId step; sResult := sResult step;
           LogIndex := if LogLength step =? 0
                       then logOffset r1 + Z.of_nat (length (logRows r1)) - 1
                       else LogIndex step;
           LogLength := LogLength step + 1;
           sStartedAt := sStartedAt step; sStoppedAt := sStoppedAt step |})
  end.

Definition StartStep (now : Z) (stepIdx : Z) (r : Reporter) : Reporter :=
  match step_slot r stepIdx with
  | None => r
  | Some i =>
      let r1 := {| taskID := taskID r; state := state r; logRows := logRows r;
                   logOffset := logOffset r; currentStep := stepIdx; masker := masker r;
                   daemon := daemon r |} in
      let r2 := update_step r1 i (fun step =>
        {| sId := sId step; sResult := sResult step; LogIndex := LogIndex step;
           LogLength := LogLength step; sStartedAt := Some now;
           sStoppedAt := sStoppedAt step |}) in
      match tStartedAt (state r2) with
      | Some _ => r2
      | None => set_state {| tId := tId (state r2); tResult := tResult (state r2);
                             tStartedAt := Some now; tStoppedAt := tStoppedAt (state r2);
                             Steps := Steps (state r2) |} r2
      end
  end.

Definition FinishStep (now : Z) (stepIdx : Z) (result : Result) (r : Reporter) : Reporter :=
  match step_slot r stepIdx with
  | None => r
  | Some i =>
      update_step r i (fun step =>
        {| sId := sId step; sResult := result; LogIndex := LogIndex step;
           LogLength := LogLength step; sStartedAt := sStartedAt step;
           sStoppedAt := Some now |})
  end.

(** The two critical sections of [flushLogs], before and after the RPC. *)
Definition log_request (noMore : bool) (r : Reporter) : option UpdateLogRequest :=
  if (length (logRows r) =? 0)%nat && negb noMore then None
  else Some {| lTaskId := taskID r; Index := logOffset r; Rows := logRows r; NoMore := noMore |}.

Definition apply_ack (ack : Z) (r : Reporter) : Reporter :=
  if logOffset r <=? ack then
    let trimmed := ack - logOffset r in
    let trimmed := if Z.of_nat (length (logRows r)) <? trimmed
                   then Z.of_nat (length (logRows r)) else trimmed in
    {| taskID := taskID r; state := state r; logRows := drop (Z.to_nat trimmed) (logRows r);
       logOffset := ack; currentStep := currentStep r; masker := masker r; daemon := daemon r |}
  else r.

(** The payload [flushState] builds: a non-final one never carries a job result. *)
Definition outbound_state (final : bool) (r : Reporter) : TaskState :=
  let t := state r in
  {| tId := tId t;
     tResult := if final then tResult t else RESULT_UNSPECIFIED;
     tStartedAt := tStartedAt t; tStoppedAt := tStoppedAt t; Steps := Steps t |}.

(** The probe [readbackProbe] sends after the terminal update. *)
Definition probe_state (r : Reporter) : TaskState :=
  {| tId := taskID r; tResult := RESULT_UNSPECIFIED; tStartedAt := None;
     tStoppedAt := None; Steps := [] |}.

(** The locked section at the start of [Close]. *)
Definition close_step (jobResult : Result) (step : StepState) : StepState :=
  if decide (sResult step = RESULT_UNSPECIFIED) then
    {| sId := sId step;
       sResult := if decide (jobResult = RESULT_SKIPPED) then RESULT_SKIPPED
                  else RESULT_CANCELLED;
       LogIndex := LogIndex step; LogLength := LogLength step;
       sStartedAt := sStartedAt step; sStoppedAt := sStoppedAt step |}
  else step.

Definition close_prepare (now : Z) (jobResult : Result) (r : Reporter) : Reporter :=
  let r := set_daemon (match daemon r with Some _ => Some false | None => None end) r in
  let t := state r in
  set_state {| tId := tId t; tResult := jobResult; tStartedAt := tStartedAt t;
               tStoppedAt := Some now; Steps := map (close_step jobResult) (Steps t) |} r.

(** ** Operations that talk to the forge *)

(** Go's [reporter.Client], with the world the client and the clock live in.
    [UpdateLog] returns the acknowledged index, [UpdateTask] the task result
    the forge echoes, if any; [wait_or_cancel] is true when the timer fired
    and false when the context was cancelled first. *)
Class RunnerClient (W : Type) := {
  UpdateLog : UpdateLogRequest -> W -> result unit Z * W;
  UpdateTask : TaskState -> W -> result unit (option Result) * W;
  wait_or_cancel : Z -> W -> bool * W;
}.

Inductive call :=
  | CallLog (req : UpdateLogRequest)
  | CallTask (st : TaskState)
  | CallWait (d : Z).

Inductive flush_error := FlushingLogs | FlushingState.
Inductive close_error :=
  | CloseInterrupted
  | CloseExhausted (last : flush_error).

Section rpc.
Context {W : Type} `{RunnerClient W}.

Record St := { rep : Reporter; world : W; calls : list call }.

(** A step of a method: a value, and the reporter, world and trace after it. *)
Definition M (A : Type) : Type := St -> A * St.
#[global] Instance M_ret : MRet M := fun A a s => (a, s).
#[global] Instance M_bind : MBind M := fun A B k m s => let '(a, s') := m s in k a s'.

Definition modify (f : Reporter -> Reporter) : M unit :=
  fun s => (tt, {| rep := f (rep s); world := world s; calls := calls s |}).
Definition gets {A} (f : Reporter -> A) : M A := fun s => (f (rep s), s).

Definition rpc_log (req : UpdateLogRequest) : M (result unit Z) := fun s =>
  let '(r, w) := UpdateLog req (world s) in
  (r, {| rep := rep s; world := w; calls := calls s ++ [CallLog req] |}).
Definition rpc_task (st : TaskState) : M (result unit (option Result)) := fun s =>
  let '(r, w) := UpdateTask st (world s) in
  (r, {| rep := rep s; world := w; calls := calls s ++ [CallTask st] |}).
Definition waitOrCancel (d : Z) : M bool := fun s =>
  let '(b, w) := wait_or_cancel d (world s) in
  (b, {| rep := rep s; world := w; calls := calls s ++ [CallWait d] |}).

(** The result is whether the Go method returns a nil error. *)
Definition flushLogs (noMore : bool) : M bool :=
  oreq ← gets (log_request noMore);
  match oreq with
  | None => mret true
  | Some req =>
      resp ← rpc_log req;
      match resp with
      | Err _ => mret false
      | Ok ack => modify (apply_ack ack);; mret true
      end
  end.

Definition flushState (final : bool) : M bool :=
  st ← gets (outbound_state final);
  resp ← rpc_task st;
  match resp with
  | Err _ => mret false
  | Ok echoed =>
      (if decide (echoed = Some RESULT_CANCELLED)
       then modify (fun r => set_daemon (match daemon r with Some _ => Some false
                                                           | None => None end) r)
       else mret tt);;
      mret true
  end.

Definition Flush : M (option flush_error) :=
  ok ← flushLogs false;
  if negb ok then mret (Some FlushingLogs) else
  ok ← flushState false;
  if negb ok then mret (Some FlushingState) else mret None.

Definition readbackProbe : M bool :=
  st ← gets probe_state;
  resp ← rpc_task st;
  mret (is_ok resp).

(** The retry loop of [Close]: [n] attempts left, the current backoff in
    nanoseconds, the last error seen. *)
Fixpoint close_loop (n : nat) (backoff : Z) (lastErr : flush_error) : M (option close_error) :=
  match n with
  | O => mret (Some (CloseExhausted lastErr))
  | S n =>
      ok ← flushLogs true;
      if negb ok then
        fired ← waitOrCancel backoff;
        if negb fired then mret (Some CloseInterrupted)
        else close_loop n (backoff * 2) FlushingLogs
      else
        ok ← flushState true;
        if negb ok then
          fired ← waitOrCancel backoff;
          if negb fired then mret (Some CloseInterrupted)
          else close_loop n (backoff * 2) FlushingState
        else
          readbackProbe;;
          mret None
  end.

Definition initial_backoff : Z := 100 * 1000 * 1000.
Definition max_attempts : nat := 10.

Definition Close (now : Z) (jobResult : Result) : M (option close_error) :=
  modify (close_prepare now jobResult);;
  close_loop max_attempts initial_backoff FlushingLogs.
End rpc.
Arguments St W : clear implicits.
Arguments M W A : clear implicits.

(** ** Masking of log rows *)

(** Operations that change the masker or append rows, as one history. *)
Inductive local_op :=
  | OpLog (now : Z) (content : gostring)
  | OpMask (value : gostring)
  | OpStart (now i : Z)
  | OpFinish (now i : Z) (res : Result)
  | OpAck (ack : Z).

Definition run_op (o : local_op) (r : Reporter) : Reporter :=
  match o with
  | OpLog now c => AddLog now c r
  | OpMask v => AddMask v r
  | OpStart now i => StartStep now i r
  | OpFinish now i res => FinishStep now i res r
  | OpAck ack => apply_ack ack r
  end.

Definition run_ops (os : list local_op) (r : Reporter) : Reporter :=
  foldl (fun r o => run_op o r) r os.

Lemma update_step_fields r i f :
  logRows (update_step r i f) = logRows r /\ masker (update_step r i f) = masker r /\
  logOffset (update_step r i f) = logOffset r /\
  currentStep (update_step r i f) = currentStep r.
Proof. done. Qed.

Lemma AddLog_rows now c r :
  logRows (AddLog now c r) = logRows r ++ [{| Time := now; Content := mask (masker r) c |}] /\
  masker (AddLog now c r) = masker r /\ logOffset (AddLog now c r) = logOffset r.
Proof. unfold AddLog. by destruct (step_slot _ _). Qed.

Lemma StartStep_fields now i r :
  logRows (StartStep now i r) = logRows r /\ masker (StartStep now i r) = masker r /\
  logOffset (StartStep now i r) = logOffset r.
Proof.
  unfold StartStep. destruct (step_slot r i); [|done].
  by destruct (tStartedAt _).
Qed.

Lemma FinishStep_fields now i res r :
  logRows (FinishStep now i res r) = logRows r /\ masker (FinishStep now i res r) = masker r /\
  logOffset (FinishStep now i res r) = logOffset r /\
  currentStep (FinishStep now i res r) = currentStep r.
Proof. unfold FinishStep. by destruct (step_slot r i). Qed.

Lemma apply_ack_fields ack r :
  masker (apply_ack ack r) = masker r /\ state (apply_ack ack r) = state r /\
  currentStep (apply_ack ack r) = currentStep r /\
  exists n, logRows (apply_ack ack r) = drop n (logRows r).
Proof.
  unfold apply_ack. destruct (_ <=? _); simpl; [eauto|].
  repeat split; try done. by exists 0%nat.
Qed.

(** A secret the reporter protects: its masker holds it. *)
Definition protects (r : Reporter) (secret : gostring) : Prop :=
  exists m, masker r = Some m /\ only_stars (pairs m) /\ secret ∈ (pairs m).*1.

(** A masker, if any, replaces with asterisks only. *)
Definition masker_wf (r : Reporter) : Prop :=
  forall m, masker r = Some m -> only_stars (pairs m).

Definition hides (secret : gostring) (row : LogRow) : Prop :=
  contains secret (Content row) = false.

Lemma masker_same r r' : masker r' = masker r -> masker_wf r -> masker_wf r'.
Proof. intros He H m. rewrite He. apply H. Qed.

Lemma run_op_masker o r :
  masker (run_op o r) = masker r \/ exists v, (3 < length v)%nat /\ o = OpMask v.
Proof.
  destruct o as [now c|v|now i|now i res|ack]; simpl.
  - left. apply AddLog_rows.
  - unfold AddMask. destruct (_ <=? _)%nat eqn:Hv; [by left|right].
    reflect_bools. by exists v.
  - left. apply StartStep_fields.
  - left. apply FinishStep_fields.
  - left. apply apply_ack_fields.
Qed.

Lemma AddMask_wf v r : masker_wf r -> masker_wf (AddMask v r).
Proof.
  intros H m. unfold AddMask. destruct (_ <=? _)%nat; [apply H|]. simpl.
  intros [= <-]. apply add_stars. destruct (masker r) eqn:Hm; [by apply H|].
  apply Forall_nil_2.
Qed.

Lemma run_op_wf o r : masker_wf r -> masker_wf (run_op o r).
Proof.
  intros H. destruct (run_op_masker o r) as [He|(v & _ & ->)].
  - by apply (masker_same r).
  - by apply AddMask_wf.
Qed.

Lemma AddMask_protects v r s : protects r s -> protects (AddMask v r) s.
Proof.
  intros (m & Hm & Hst & Hin). unfold AddMask. destruct (_ <=? _)%nat; [by exists m|].
  exists (add m v). simpl. rewrite Hm. split; [done|]. split; [by apply add_stars|].
  unfold add. simpl. rewrite fmap_app. apply elem_of_app. by left.
Qed.

Lemma AddMask_new v r : masker_wf r -> (3 < length v)%nat -> protects (AddMask v r) v.
Proof.
  intros H Hv. pose proof (AddMask_wf v r H) as Hwf. unfold AddMask in *.
  rewrite (proj2 (Nat.leb_gt _ _) Hv) in *. simpl in *. eexists. split; [done|].
  split; [by apply Hwf|]. unfold add. simpl. rewrite fmap_app. apply elem_of_app. right.
  by left.
Qed.

Lemma run_op_protects o r s : protects r s -> protects (run_op o r) s.
Proof.
  intros H. destruct (run_op_masker o r) as [He|(v & _ & ->)].
  - destruct H as (m & Hm & ?). exists m. by rewrite He.
  - by apply AddMask_protects.
Qed.

Lemma run_ops_protects os r s : protects r s -> protects (run_ops os r) s.
Proof.
  unfold run_ops. revert r. induction os as [|o os IH]; intros r H; simpl; [done|].
  apply IH. by apply run_op_protects.
Qed.

Lemma run_ops_wf os r : masker_wf r -> masker_wf (run_ops os r).
Proof.
  unfold run_ops. revert r. induction os as [|o os IH]; intros r H; simpl; [done|].
  apply IH. by apply run_op_wf.
Qed.

Lemma protects_hides r s now c :
  protects r s -> s <> ε -> star ∉ s -> hides s {| Time := now; Content := mask (masker r) c |}.
Proof. intros (m & -> & ? & ?) ? ?. by apply mask_no_leak. Qed.

Lemma run_op_hides o r s :
  protects r s -> s <> ε -> star ∉ s -> Forall (hides s) (logRows r) ->
  Forall (hides s) (logRows (run_op o r)).
Proof.
  intros Hp Hne Hst Hr. destruct o as [now c|v|now i|now i res|ack]; simpl.
  - rewrite (proj1 (AddLog_rows now c r)). apply Forall_snoc. split; [done|].
    by apply protects_hides.
  - unfold AddMask. by destruct (_ <=? _)%nat.
  - by rewrite (proj1 (StartStep_fields now i r)).
  - by rewrite (proj1 (FinishStep_fields now i res r)).
  - destruct (apply_ack_fields ack r) as (_ & _ & _ & n & ->). by apply Forall_drop.
Qed.

Lemma run_ops_hides os r s :
  protects r s -> s <> ε -> star ∉ s -> Forall (hides s) (logRows r) ->
  Forall (hides s) (logRows (run_ops os r)).
Proof.
  unfold run_ops. revert r. induction os as [|o os IH]; intros r Hp ? ? H; simpl; [done|].
  apply IH; try done; [by apply run_op_protects|by apply run_op_hides].
Qed.

Lemma SetSecrets_protects secrets r s :
  s ∈ secrets -> (3 < length s)%nat -> protects (SetSecrets secrets r) s.
Proof.
  intros Hs Hl. exists (newLogMasker secrets). split; [done|].
  split; [apply newLogMasker_stars|by apply newLogMasker_elem].
Qed.

(** C4: no secret reaches the forge in a log row.  Whatever a reporter does
    after [SetSecrets] (rows, further masks, steps, acknowledgements), every
    row it holds is free of every secret that is longer than three bytes and
    has no asterisk; and from [AddMask v] on, for a [v] that is longer than
    three bytes and has no asterisk, every later row is free of [v] as well.
    Shorter values are not masked: the masker and [AddMask] drop them; and a
    value with asterisks may reappear in the replacement itself. *)
Theorem no_secret_in_rows taskID n secrets os1 v os2 :
  let r1 := run_ops os1 (SetSecrets secrets (New taskID n)) in
  let r2 := run_ops os2 (AddMask v r1) in
  (forall s, s ∈ secrets -> (3 < length s)%nat -> (star ∉ s) -> Forall (hides s) (logRows r2)) /\
  ((3 < length v)%nat -> (star ∉ v) -> forall now c,
     exists row, logRows (AddLog now c r2) = logRows r2 ++ [row] /\ hides v row).
Proof.
  intros r1 r2. assert (forall x : gostring, (3 < length x)%nat -> x <> ε) as Hne.
  { intros [|? ?]; simpl; [lia|done]. }
  split.
  - intros s Hs Hl Hst. assert (protects (SetSecrets secrets (New taskID n)) s) as Hp
      by by apply SetSecrets_protects.
    assert (Forall (hides s) (logRows r1)) as H1 by (apply run_ops_hides; auto).
    assert (protects r1 s) as Hp1 by by apply run_ops_protects.
    apply run_ops_hides; auto; [by apply AddMask_protects|].
    unfold AddMask. by destruct (_ <=? _)%nat.
  - intros Hl Hst now c. eexists. split; [apply AddLog_rows|].
    apply protects_hides; auto. apply run_ops_protects. apply AddMask_new; [|done].
    apply run_ops_wf. intros m [= <-]. apply newLogMasker_stars.
Qed.

Lemma no_secret_in_rows_witness :
  let r1 := run_ops [OpLog 1 "x hunter2 y"] (SetSecrets ["hunter2"; "no"] (New 7 1)) in
  let r2 := run_ops [OpLog 2 "no hunter2"; OpLog 3 "tok-123"] (AddMask "tok-123" r1) in
  map Content (logRows r2) = ["x *** y"; "no ***"; "***"] /\
  Forall (hides "hunter2") (logRows r2).
Proof.
  split; [vm_compute; reflexivity|].
  apply (proj1 (no_secret_in_rows 7 1 ["hunter2"; "no"] [OpLog 1 "x hunter2 y"] "tok-123"
    [OpLog 2 "no hunter2"; OpLog 3 "tok-123"])); [left|simpl; lia|decide_now].
Defined.

(** ** The final report *)

Definition finished (step : StepState) : Prop := sResult step <> RESULT_UNSPECIFIED.

(** The [n] waits of exponential backoff that start at [b]. *)
Fixpoint backoffs (b : Z) (n : nat) : list call :=
  match n with O => [] | S n => CallWait b :: backoffs (b * 2) n end.

Definition is_wait (c : call) : Prop := match c with CallWait _ => True | _ => False end.
#[export] Instance is_wait_dec c : Decision (is_wait c).
Proof. destruct c; simpl; apply _. Defined.

Definition is_log (c : call) : Prop := match c with CallLog _ => True | _ => False end.
#[export] Instance is_log_dec c : Decision (is_log c).
Proof. destruct c; simpl; apply _. Defined.

(** What the retry loop may send: final log requests for this task, and the
    terminal task state. *)
Definition final_call (id : Z) (terminal : TaskState) (c : call) : Prop :=
  match c with
  | CallLog req => lTaskId req = id /\ NoMore req = true
  | CallTask st => st = terminal
  | CallWait _ => True
  end.

Lemma close_step_finished jr step : jr <> RESULT_UNSPECIFIED -> finished (close_step jr step).
Proof. unfold finished, close_step. intros _. by repeat case_decide. Qed.

Lemma close_step_keeps jr step : finished step -> close_step jr step = step.
Proof. unfold finished, close_step. intros ?. by rewrite decide_False. Qed.

Lemma log_request_final r :
  log_request true r = Some {| lTaskId := taskID r; Index := logOffset r; Rows := logRows r;
                               NoMore := true |}.
Proof. unfold log_request. by rewrite andb_false_r. Qed.

(** Run a computation of the monad one step. *)
Ltac run_M := unfold mbind, M_bind, mret, M_ret, gets, modify; cbn beta iota zeta.

(** Each RPC method as a case analysis: what it returns, calls and leaves. *)
Section rpc_lemmas.
Context {W : Type} `{RunnerClient W}.
Implicit Types s : St W.

Lemma flushLogs_final s b s' :
  flushLogs true s = (b, s') ->
  exists req, lTaskId req = taskID (rep s) /\ NoMore req = true /\
    Rows req = logRows (rep s) /\ Index req = logOffset (rep s) /\
    calls s' = calls s ++ [CallLog req] /\
    taskID (rep s') = taskID (rep s) /\ state (rep s') = state (rep s).
Proof.
  unfold flushLogs. run_M. rewrite log_request_final.
  run_M. unfold rpc_log. destruct (UpdateLog _ _) as [[ack|e] w]; intros [= <- <-]; simpl;
    eexists; repeat split; try done; unfold apply_ack; by destruct (_ <=? _).
Qed.

Lemma flushState_spec final s b s' :
  flushState final s = (b, s') ->
  calls s' = calls s ++ [CallTask (outbound_state final (rep s))] /\
  taskID (rep s') = taskID (rep s) /\ state (rep s') = state (rep s) /\
  logRows (rep s') = logRows (rep s) /\ logOffset (rep s') = logOffset (rep s).
Proof.
  unfold flushState. run_M. unfold rpc_task.
  destruct (UpdateTask _ _) as [[ack|e] w]; [|by intros [= <- <-]].
  run_M. by case_decide; intros [= <- <-].
Qed.

Lemma waitOrCancel_spec d s b s' :
  waitOrCancel d s = (b, s') -> calls s' = calls s ++ [CallWait d] /\ rep s' = rep s.
Proof. unfold waitOrCancel. destruct (wait_or_cancel _ _). by intros [= <- <-]. Qed.

Lemma readbackProbe_spec s b s' :
  readbackProbe s = (b, s') -> calls s' = calls s ++ [CallTask (probe_state (rep s))].
Proof.
  unfold readbackProbe. run_M. unfold rpc_task.
  destruct (UpdateTask _ _). by intros [= <- <-].
Qed.

Definition loop_outcome (n : nat) (b : Z) (r0 : Reporter) (t : list call)
    (res : option close_error) : Prop :=
  let terminal := outbound_state true r0 in
  (res = None /\ exists t' req,
     t = t' ++ [CallLog req; CallTask terminal; CallTask (probe_state r0)] /\
     Forall (final_call (taskID r0) terminal) t' /\
     lTaskId req = taskID r0 /\ NoMore req = true /\
     exists k, (k < n)%nat /\ filter is_wait t' = backoffs b k) \/
  (exists e, res = Some e /\ Forall (final_call (taskID r0) terminal) t /\
     match e with
     | CloseExhausted _ => filter is_wait t = backoffs b n /\ length (filter is_log t) = n
     | CloseInterrupted => exists k, (k < n)%nat /\ filter is_wait t = backoffs b (S k)
     end).

Lemma loop_outcome_retry n b r0 r1 t1 t res :
  taskID r1 = taskID r0 -> state r1 = state r0 ->
  Forall (final_call (taskID r0) (outbound_state true r0)) t1 ->
  filter is_wait t1 = [CallWait b] -> length (filter is_log t1) = 1%nat ->
  loop_outcome n (b * 2) r1 t res -> loop_outcome (S n) b r0 (t1 ++ t) res.
Proof.
  intros Hid Hst Ht1 Hw Hl. unfold loop_outcome.
  assert (outbound_state true r1 = outbound_state true r0) as ->
    by (unfold outbound_state; by rewrite Hst).
  assert (probe_state r1 = probe_state r0) as -> by (unfold probe_state; by rewrite Hid).
  rewrite Hid. intros [(-> & t' & req & -> & Ht' & ? & ? & k & ? & Hk)|(e & -> & Ht & He)].
  - left. split; [done|]. exists (t1 ++ t'), req. rewrite <-app_assoc.
    split; [done|]. split; [by apply Forall_app|]. split; [done|]. split; [done|].
    exists (S k). split; [lia|]. by rewrite filter_app, Hw, Hk.
  - right. exists e. split; [done|]. split; [by apply Forall_app|].
    rewrite !filter_app, Hw. destruct e.
    + destruct He as (k & ? & ->). exists (S k). by split; [lia|].
    + destruct He as [-> <-]. by rewrite length_app, Hl.
Qed.
End rpc_lemmas.

Section close.
Context {W : Type} `{RunnerClient W}.
Implicit Types s : St W.

Lemma close_loop_spec n b e s res s' :
  close_loop n b e s = (res, s') ->
  exists t, calls s' = calls s ++ t /\ loop_outcome n b (rep s) t res.
Proof.
  revert b e s. induction n as [|n IH]; intros b e s; cbn [close_loop].
  { intros [= <- <-]. exists []. rewrite app_nil_r. split; [done|]. right. by eexists. }
  run_M. destruct (flushLogs true s) as [ok1 s1] eqn:H1.
  apply flushLogs_final in H1 as (req & Hid & Hno & _ & _ & Hc1 & Hid1 & Hst1).
  destruct ok1; cbn [negb].
  - destruct (flushState true s1) as [ok2 s2] eqn:H2.
    apply flushState_spec in H2 as (Hc2 & Hid2 & Hst2 & _).
    assert (outbound_state true (rep s1) = outbound_state true (rep s)) as Ht
      by (unfold outbound_state; by rewrite Hst1).
    destruct ok2; cbn [negb].
    + destruct (readbackProbe s2) as [ok3 s3] eqn:H3. intros [= <- <-].
      apply readbackProbe_spec in H3 as ->. eexists.
      rewrite Hc2, Hc1, Ht, <-!app_assoc. split; [done|]. left. split; [done|].
      exists [], req. unfold probe_state. rewrite Hid2, Hid1. simpl.
      split; [done|]. split; [done|]. split; [done|]. split; [done|].
      exists 0%nat. split; [lia|done].
    + destruct (waitOrCancel b s2) as [ok3 s3] eqn:H3.
      apply waitOrCancel_spec in H3 as [Hc3 Hr3].
      set (t1 := [CallLog req; CallTask (outbound_state true (rep s)); CallWait b]).
      assert (calls s3 = calls s ++ t1) as Hc
        by (rewrite Hc3, Hc2, Hc1, Ht, <-!app_assoc; done).
      assert (Forall (final_call (taskID (rep s)) (outbound_state true (rep s))) t1) as Hf
        by by repeat constructor.
      destruct ok3; cbn [negb].
      * intros (t & -> & Ho)%IH. exists (t1 ++ t). rewrite Hc, app_assoc. split; [done|].
        apply (loop_outcome_retry _ _ _ (rep s3)); try done; rewrite Hr3; congruence.
      * intros [= <- <-]. exists t1. split; [done|]. right. eexists. split; [done|].
        split; [done|]. exists 0%nat. split; [lia|done].
  - destruct (waitOrCancel b s1) as [ok3 s3] eqn:H3.
    apply waitOrCancel_spec in H3 as [Hc3 Hr3].
    set (t1 := [CallLog req; CallWait b]).
    assert (calls s3 = calls s ++ t1) as Hc by (rewrite Hc3, Hc1, <-!app_assoc; done).
    assert (Forall (final_call (taskID (rep s)) (outbound_state true (rep s))) t1) as Hf
      by by repeat constructor.
    destruct ok3; cbn [negb].
    + intros (t & -> & Ho)%IH. exists (t1 ++ t). rewrite Hc, app_assoc. split; [done|].
      apply (loop_outcome_retry _ _ _ (rep s3)); try done; rewrite Hr3; congruence.
    + intros [= <- <-]. exists t1. split; [done|]. right. eexists. split; [done|].
      split; [done|]. exists 0%nat. split; [lia|done].
Qed.

(** What [Close] reports about the job: the caller's result, every step
    finished, and each step that had a result still carrying it. *)
Definition terminal_ok (r : Reporter) (jr : Result) (st : TaskState) : Prop :=
  tId st = tId (state r) /\ tResult st = jr /\ Forall finished (Steps st) /\
  Forall2 (fun step step' => finished step -> step' = step) (Steps (state r)) (Steps st).

Lemma close_terminal now jr r :
  jr <> RESULT_UNSPECIFIED -> terminal_ok r jr (outbound_state true (close_prepare now jr r)).
Proof.
  intros Hjr. unfold terminal_ok, outbound_state, close_prepare. simpl.
  split; [done|]. split; [done|]. split.
  - apply Forall_map, Forall_true. intros step. by apply close_step_finished.
  - apply Forall2_fmap_r, Forall_Forall2_diag, Forall_true.
    intros step ?. by apply close_step_keeps.
Qed.

(** C5: the final report.  [Close] makes at most ten attempts with waits of
    100ms, 200ms, 400ms, ...; in them it sends only final log requests and
    one and the same terminal state: the caller's job result, no step left
    unspecified, and the result of every finished step untouched.  A nil
    error means that the last calls were a final log flush, the terminal
    state and the probe; the error that exhausts the retries comes after
    exactly ten attempts. *)
Theorem close_reports now jr s res s' :
  jr <> RESULT_UNSPECIFIED -> Close now jr s = (res, s') ->
  exists t terminal, calls s' = calls s ++ t /\ terminal_ok (rep s) jr terminal /\
    (res = None /\ (exists t' req k, (k < 10)%nat /\
       t = t' ++ [CallLog req; CallTask terminal; CallTask (probe_state (rep s))] /\
       NoMore req = true /\ Forall (final_call (taskID (rep s)) terminal) t' /\
       filter is_wait t' = backoffs (100 * 1000000) k)
     \/ res = Some CloseInterrupted /\ Forall (final_call (taskID (rep s)) terminal) t /\
        (exists k, (k < 10)%nat /\ filter is_wait t = backoffs (100 * 1000000) (S k))
     \/ (exists e, res = Some (CloseExhausted e)) /\
        Forall (final_call (taskID (rep s)) terminal) t /\
        filter is_wait t = backoffs (100 * 1000000) 10 /\
        length (filter is_log t) = 10%nat).
Proof.
  intros Hjr. unfold Close. run_M.
  intros (t & Hc & Ho)%close_loop_spec. simpl in Hc.
  exists t, (outbound_state true (close_prepare now jr (rep s))).
  split; [done|]. split; [by apply close_terminal|].
  destruct Ho as [(-> & t' & req & -> & Ht' & _ & Hno & k & Hk & Hw)|(e & -> & Ht & He)].
  - left. split; [done|]. exists t', req, k. done.
  - right. destruct e as [|e]; [left|right]; [done|]. split; [by eexists|done].
Qed.
End close.

(** A forge that fails the first [fuel] calls and accepts the others. *)
Definition flaky_client : RunnerClient nat := {|
  UpdateLog req w := match w with
                     | O => (Ok (Index req + Z.of_nat (length (Rows req))), O)
                     | S w => (Err tt, w)
                     end;
  UpdateTask st w := match w with O => (Ok (Some (tResult st)), O) | S w => (Err tt, w) end;
  wait_or_cancel _ w := (true, w);
|}.

Lemma close_reports_witness :
  let r := FinishStep 5 0 RESULT_SUCCESS (StartStep 1 0 (New 7 2)) in
  let s := {| rep := AddLog 2 "hello" r; world := 2%nat; calls := [] |} in
  let out := @Close _ flaky_client 9 RESULT_FAILURE s in
  out.1 = None /\ length (calls out.2) = 7%nat /\
  exists t terminal, calls out.2 = [] ++ t /\ terminal_ok (rep s) RESULT_FAILURE terminal.
Proof.
  intros r s out. split; [vm_compute; reflexivity|]. split; [vm_compute; reflexivity|].
  destruct (@close_reports _ flaky_client 9 RESULT_FAILURE s out.1 out.2)
    as (t & terminal & Hc & Ht & _); [discriminate|apply surjective_pairing|].
  exists t, terminal. split; [exact Hc|exact Ht].
Defined.
