(* ===== verification/LogDelivery.v ===== *)
(** * Delivery of log rows to the forge ([pkg/reporter/reporter.go])

    A step relation over one reporter, the forge's copy of the task's log and
    the requests and responses in flight: [AddLog], the step updates and any
    number of concurrent [flushLogs] calls (the daemon's and [Close]'s)
    interleave at the granularity of the reporter's critical sections, and
    any request or response may be lost. *)
From Stdlib Require Import Sorted.
From stdpp Require Import sorting.
From S2P Require Import Prelude GoStrings Masker Reporter.
#[local] Open Scope Z_scope.

(** ** The system *)

(** [hist] is a ghost: every row [AddLog] ever appended, with the value of
    [currentStep] at that moment. *)
Record Sys := {
  reporter : Reporter;
  hist : list (Z * LogRow);
  slog : list LogRow;
  reqs : list UpdateLogRequest;
  acks : list Z;
}.

Definition init (taskID : Z) (numSteps : nat) (m : option logMasker) : Sys :=
  {| reporter := set_masker m (New taskID numSteps); hist := []; slog := []; reqs := [];
     acks := [] |}.

Definition log_row (now : Z) (c : gostring) (r : Reporter) : Z * LogRow :=
  (currentStep r, {| Time := now; Content := mask (masker r) c |}).

(** The operations that neither append rows nor move the offset. *)
Inductive step_op :=
  | DoStart (now i : Z)
  | DoFinish (now i : Z) (res : Result)
  | DoMask (v : gostring).

Definition do_op (o : step_op) (r : Reporter) : Reporter :=
  match o with
  | DoStart now i => StartStep now i r
  | DoFinish now i res => FinishStep now i res r
  | DoMask v => AddMask v r
  end.

Section system.
(** The forge's handling of one [UpdateLog] request on its stored log: the
    log after it and the index it acknowledges. *)
Context (serve : list LogRow -> UpdateLogRequest -> list LogRow * Z).

Inductive step : Sys -> Sys -> Prop :=
  | step_log s now c :
      step s {| reporter := AddLog now c (reporter s);
                hist := hist s ++ [log_row now c (reporter s)];
                slog := slog s; reqs := reqs s; acks := acks s |}
  | step_local s o :
      step s {| reporter := do_op o (reporter s); hist := hist s; slog := slog s;
                reqs := reqs s; acks := acks s |}
  | step_begin s noMore req :
      log_request noMore (reporter s) = Some req ->
      step s {| reporter := reporter s; hist := hist s; slog := slog s;
                reqs := reqs s ++ [req]; acks := acks s |}
  | step_deliver s l1 req l2 slog' ack :
      reqs s = l1 ++ req :: l2 -> serve (slog s) req = (slog', ack) ->
      step s {| reporter := reporter s; hist := hist s; slog := slog';
                reqs := l1 ++ l2; acks := acks s ++ [ack] |}
  | step_lose_req s l1 req l2 :
      reqs s = l1 ++ req :: l2 ->
      step s {| reporter := reporter s; hist := hist s; slog := slog s;
                reqs := l1 ++ l2; acks := acks s |}
  | step_ack s l1 a l2 :
      acks s = l1 ++ a :: l2 ->
      step s {| reporter := apply_ack a (reporter s); hist := hist s; slog := slog s;
                reqs := reqs s; acks := l1 ++ l2 |}
  | step_lose_ack s l1 a l2 :
      acks s = l1 ++ a :: l2 ->
      step s {| reporter := reporter s; hist := hist s; slog := slog s;
                reqs := reqs s; acks := l1 ++ l2 |}.

Definition reachable (taskID : Z) (n : nat) (m : option logMasker) (s : Sys) : Prop :=
  rtc step (init taskID n m) s.

(** The forge's contract: of a request that starts within its log it stores
    the rows it does not have yet, and it acknowledges the length of its log. *)
Definition forge_appends : Prop :=
  forall sl req, 0 <= Index req <= Z.of_nat (length sl) ->
    let sl' := sl ++ drop (length sl - Z.to_nat (Index req)) (Rows req) in
    serve sl req = (sl', Z.of_nat (length sl')).
End system.

(** ** The invariant *)

Definition rows_inv (s : Sys) : Prop :=
  let r := reporter s in
  0 <= logOffset r <= Z.of_nat (length (slog s)) /\
  slog s `prefix_of` (hist s).*2 /\
  logRows r = drop (Z.to_nat (logOffset r)) (hist s).*2.

Definition req_inv (s : Sys) (req : UpdateLogRequest) : Prop :=
  0 <= Index req <= Z.of_nat (length (slog s)) /\
  Rows req `prefix_of` drop (Z.to_nat (Index req)) (hist s).*2.

Definition ack_inv (s : Sys) (a : Z) : Prop := 0 <= a <= Z.of_nat (length (slog s)).

Definition tagged (i : nat) (h : list (Z * LogRow)) : list (Z * LogRow) :=
  filter (fun p => p.1 = Z.of_nat i) h.

(** The log range of a step: as many rows as were logged while it was current,
    from the first of them. *)
Definition range_ok (h : list (Z * LogRow)) (i : nat) (st : StepState) : Prop :=
  LogLength st = Z.of_nat (length (tagged i h)) /\
  (tagged i h <> [] -> exists h1 row h2, h = h1 ++ (Z.of_nat i, row) :: h2 /\
     tagged i h1 = [] /\ LogIndex st = Z.of_nat (length h1)).

Definition ranges_inv (s : Sys) : Prop :=
  forall i st, Steps (state (reporter s)) !! i = Some st -> range_ok (hist s) i st.

Definition inv (s : Sys) : Prop :=
  rows_inv s /\ Forall (req_inv s) (reqs s) /\ Forall (ack_inv s) (acks s) /\ ranges_inv s.

Lemma tagged_app i h1 h2 : tagged i (h1 ++ h2) = tagged i h1 ++ tagged i h2.
Proof. apply filter_app. Qed.

Lemma tagged_snoc_other i h p : p.1 <> Z.of_nat i -> tagged i (h ++ [p]) = tagged i h.
Proof.
  intros Hp. rewrite tagged_app. unfold tagged at 2.
  rewrite filter_cons_False, filter_nil by done. by rewrite app_nil_r.
Qed.

Lemma range_ok_other h i st p : p.1 <> Z.of_nat i -> range_ok h i st -> range_ok (h ++ [p]) i st.
Proof.
  intros Hp [Hl Hi]. unfold range_ok. rewrite tagged_snoc_other by done. split; [done|].
  intros (h1 & row & h2 & -> & ? & ?)%Hi. exists h1, row, (h2 ++ [p]).
  split; [by rewrite <-app_assoc|done].
Qed.

Lemma range_ok_log h i st row st' :
  range_ok h i st -> LogLength st' = LogLength st + 1 ->
  LogIndex st' = (if LogLength st =? 0 then Z.of_nat (length h) else LogIndex st) ->
  range_ok (h ++ [(Z.of_nat i, row)]) i st'.
Proof.
  intros [Hl Hi] Hl' Hi'. split.
  - rewrite tagged_app, length_app, Hl', Hl. unfold tagged at 3.
    rewrite filter_cons_True, filter_nil by done. simpl. lia.
  - intros _. destruct (LogLength st =? 0) eqn:Hz; reflect_bools.
    + exists h, row, []. split; [done|]. split; [|done].
      apply length_zero_iff_nil. lia.
    + destruct Hi as (h1 & row' & h2 & -> & ? & ?).
      { intros Hn. rewrite Hn in Hl. simpl in Hl. lia. }
      exists h1, row', (h2 ++ [(Z.of_nat i, row)]). rewrite <-app_assoc.
      split; [done|]. split; [done|]. congruence.
Qed.

(** ** The step table under the local operations *)

Lemma step_slot_Some r i k :
  step_slot r i = Some k <-> i = Z.of_nat k /\ (k < length (Steps (state r)))%nat.
Proof.
  unfold step_slot. destruct (_ && _) eqn:Hb; [reflect_bools|apply andb_false_iff in Hb].
  - split; [intros [= <-]; lia|]. intros [-> ?]. by rewrite Nat2Z.id.
  - split; [done|]. intros [-> ?]. destruct Hb; reflect_bools; lia.
Qed.

Lemma step_slot_None r i k : step_slot r i = None -> (k < length (Steps (state r)))%nat ->
  i <> Z.of_nat k.
Proof.
  intros Hn Hk ->. assert (step_slot r (Z.of_nat k) = Some k) as Hs by by apply step_slot_Some.
  congruence.
Qed.

(** The steps keep their log range. *)
Definition same_ranges (r r' : Reporter) : Prop :=
  Forall2 (fun st st' => LogLength st' = LogLength st /\ LogIndex st' = LogIndex st)
    (Steps (state r)) (Steps (state r')).

Lemma same_ranges_refl r : same_ranges r r.
Proof. unfold same_ranges. by apply Forall_Forall2_diag, Forall_true. Qed.

Lemma same_ranges_alter r f i :
  (forall st, LogLength (f st) = LogLength st /\ LogIndex (f st) = LogIndex st) ->
  same_ranges r (update_step r i f).
Proof.
  intros Hf. unfold same_ranges. apply Forall2_lookup. intros j. simpl.
  destruct (decide (i = j)) as [->|Hne].
  - rewrite list_lookup_alter_eq. destruct (Steps (state r) !! j); simpl; by constructor.
  - rewrite list_lookup_alter_ne by done.
    destruct (Steps (state r) !! j); simpl; by constructor.
Qed.

Lemma do_op_same_ranges o r : same_ranges r (do_op o r).
Proof.
  destruct o as [now i|now i res|v]; simpl.
  - unfold StartStep. destruct (step_slot r i); [|apply same_ranges_refl].
    match goal with |- context [update_step ?r1 ?n ?f] =>
      assert (same_ranges r (update_step r1 n f)) as H
        by (by apply (same_ranges_alter r f n)) end.
    by destruct (tStartedAt _).
  - unfold FinishStep. destruct (step_slot r i); [|apply same_ranges_refl].
    by apply same_ranges_alter.
  - unfold AddMask. destruct (_ <=? _)%nat; apply (same_ranges_refl r).
Qed.

Lemma do_op_rows o r : logRows (do_op o r) = logRows r /\ logOffset (do_op o r) = logOffset r.
Proof.
  destruct o as [now i|now i res|v]; simpl.
  - by destruct (StartStep_fields now i r) as (? & _ & ?).
  - by destruct (FinishStep_fields now i res r) as (? & _ & ? & _).
  - unfold AddMask. by destruct (_ <=? _)%nat.
Qed.

Lemma ranges_inv_same s s' :
  hist s' = hist s -> same_ranges (reporter s) (reporter s') -> ranges_inv s -> ranges_inv s'.
Proof.
  intros Hh H2 H i st' Hst'. destruct (Forall2_lookup_r _ _ _ _ _ H2 Hst') as (st & Hst & HL & HI).
  unfold range_ok. rewrite Hh, HL, HI. by apply H.
Qed.

Lemma AddLog_ranges s now c :
  rows_inv s -> ranges_inv s ->
  forall i st, Steps (state (AddLog now c (reporter s))) !! i = Some st ->
    range_ok (hist s ++ [log_row now c (reporter s)]) i st.
Proof.
  intros (Hoff & [tl Hpre] & Hrows) Hr i st. unfold AddLog, log_row.
  set (row := {| Time := now; Content := mask (masker (reporter s)) c |}).
  match goal with |- context [step_slot ?r ?z] => set (r1 := r) end.
  destruct (step_slot r1 (currentStep r1)) as [k|] eqn:Hslot.
  - apply step_slot_Some in Hslot as [Hcur Hk]. simpl in Hcur. simpl.
    destruct (decide (k = i)) as [->|Hne].
    + rewrite list_lookup_alter_eq. intros (st0 & Hst0 & ->)%fmap_Some. rewrite Hcur.
      apply (range_ok_log _ _ st0); [by apply Hr|done|]. simpl.
      assert (logOffset (reporter s) + Z.of_nat (length (logRows (reporter s) ++ [row])) - 1
        = Z.of_nat (length (hist s))) as ->; [|done].
      rewrite length_app, Hrows, length_drop, length_fmap. simpl.
      apply (f_equal length) in Hpre. rewrite length_app, length_fmap in Hpre. lia.
    + rewrite list_lookup_alter_ne by done. intros Hst. apply range_ok_other; [|by apply Hr].
      simpl. rewrite Hcur. lia.
  - simpl. intros Hst. apply range_ok_other; [|by apply Hr]. simpl.
    eapply (step_slot_None r1); [done|]. by eapply lookup_lt_Some.
Qed.

Lemma init_inv id n m : inv (init id n m).
Proof.
  split; [|split; [|split]]; [|by constructor|by constructor|].
  - split; [simpl; lia|]. split; [done|]. done.
  - intros i st. simpl. rewrite list_lookup_fmap.
    intros (k & _ & ->)%fmap_Some. split; done.
Qed.

(** ** Preservation *)

(** What happens to the requests and responses in flight when the forge's log
    and the history only grow. *)
Definition grows (s s' : Sys) : Prop :=
  hist s `prefix_of` hist s' /\ (length (slog s) <= length (slog s'))%nat.

Lemma req_inv_grows s s' req : grows s s' -> req_inv s req -> req_inv s' req.
Proof.
  intros [[k Hh] Hl] [Hi Hr]. split; [lia|]. rewrite Hh, fmap_app, drop_app.
  etrans; [exact Hr|]. by eexists.
Qed.

Lemma ack_inv_grows s s' a : grows s s' -> ack_inv s a -> ack_inv s' a.
Proof. unfold ack_inv. intros [_ Hl] ?. lia. Qed.

Lemma flight_grows s s' :
  grows s s' -> Forall (req_inv s) (reqs s) -> Forall (ack_inv s) (acks s) ->
  Forall (req_inv s') (reqs s) /\ Forall (ack_inv s') (acks s).
Proof.
  intros Hg Hr Ha.
  split; [apply (Forall_impl _ _ _ Hr)|apply (Forall_impl _ _ _ Ha)]; intros ?;
    [by apply req_inv_grows|by apply ack_inv_grows].
Qed.

Lemma grows_refl s s' : hist s' = hist s -> slog s' = slog s -> grows s s'.
Proof. intros Hh Hs. unfold grows. by rewrite Hh, Hs. Qed.

Lemma rows_take (h : list LogRow) n idx rows :
  (idx <= n)%nat -> rows `prefix_of` drop idx h ->
  take n h ++ drop (n - idx) rows `prefix_of` h.
Proof.
  intros Hn [tl Htl]. destruct (decide (length h <= n)%nat) as [Hge|Hlt].
  - rewrite take_ge by done. rewrite drop_ge; [by rewrite app_nil_r|].
    apply (f_equal length) in Htl. rewrite length_drop, length_app in Htl. lia.
  - exists (drop (n - idx - length rows) tl). rewrite <-app_assoc, <-drop_app, <-Htl.
    rewrite drop_drop. replace (idx + (n - idx))%nat with n by lia. by rewrite take_drop.
Qed.

Lemma apply_ack_inv s a :
  rows_inv s -> ack_inv s a ->
  rows_inv {| reporter := apply_ack a (reporter s); hist := hist s; slog := slog s;
              reqs := reqs s; acks := acks s |}.
Proof.
  intros (Ho & Hp & Hr) Ha. unfold rows_inv, apply_ack, ack_inv in *. simpl.
  destruct (_ <=? a) eqn:Hle; reflect_bools; [|done]. simpl. split; [lia|]. split; [done|].
  rewrite Hr, drop_drop. apply prefix_length in Hp. f_equal. rewrite length_drop.
  case_match; reflect_bools; lia.
Qed.

Lemma log_request_rows noMore r req :
  log_request noMore r = Some req -> Index req = logOffset r /\ Rows req = logRows r.
Proof. unfold log_request. case_match; [done|]. by intros [= <-]. Qed.

Section preservation.
Context (serve : list LogRow -> UpdateLogRequest -> list LogRow * Z).
Context (Hserve : forge_appends serve).

(** One delivery: the forge's log stays a prefix of the history and grows. *)
Lemma serve_inv s req slog' ack :
  slog s `prefix_of` (hist s).*2 -> req_inv s req -> serve (slog s) req = (slog', ack) ->
  slog' `prefix_of` (hist s).*2 /\ slog s `prefix_of` slog' /\
  (Z.to_nat (Index req) + length (Rows req) <= length slog')%nat /\
  ack = Z.of_nat (length slog').
Proof.
  intros Hp [Hi Hr] Hs. rewrite Hserve in Hs by done. injection Hs as <- <-.
  split; [|split; [by eexists|split; [|done]]].
  - destruct Hp as [tl Htl].
    assert (slog s = take (length (slog s)) (hist s).*2) as Hsl
      by (by rewrite Htl, take_app_length).
    rewrite Hsl at 1. apply rows_take; [lia|done].
  - rewrite length_app, length_drop. lia.
Qed.

Lemma inv_same s s' :
  rows_inv s' -> hist s `prefix_of` hist s' -> slog s' = slog s -> ranges_inv s' ->
  (forall q, q ∈ reqs s' -> q ∈ reqs s \/ req_inv s' q) ->
  (forall a, a ∈ acks s' -> a ∈ acks s \/ ack_inv s' a) -> inv s -> inv s'.
Proof.
  intros H1 Hh Hs H4 Hq Ha (_ & Hqs & Has & _).
  destruct (flight_grows s s') as [Hqs' Has'];
    [by split; [|rewrite Hs]|done|done|].
  split; [done|]. split; [|split; [|done]]; apply Forall_forall.
  - intros q [?|?]%Hq; [|done]. by eapply Forall_forall in Hqs'.
  - intros a [?|?]%Ha; [|done]. by eapply Forall_forall in Has'.
Qed.

Lemma step_inv s s' : step serve s s' -> inv s -> inv s'.
Proof.
  intros Hstep Hinv. pose proof Hinv as ((Ho & Hp & Hr) & Hq & Ha & Hk).
  destruct Hstep as [s now c|s o|s noMore req Hreq|s l1 req l2 slog' ack Hl Hsv
                    |s l1 req l2 Hl|s l1 a l2 Hl|s l1 a l2 Hl].
  - eapply inv_same; try exact Hinv; simpl; eauto; [|by eexists|intros ? ?; by apply AddLog_ranges].
    destruct (AddLog_rows now c (reporter s)) as (Hrows & _ & Hoff).
    unfold rows_inv. simpl. rewrite Hrows, Hoff, Hr, fmap_app. split; [done|].
    split; [by apply prefix_app_r|]. apply prefix_length in Hp.
    by rewrite drop_app_le by lia.
  - eapply inv_same; try exact Hinv; simpl; eauto.
    + destruct (do_op_rows o (reporter s)) as [Hrows Hoff].
      unfold rows_inv. simpl. by rewrite Hrows, Hoff.
    + apply (ranges_inv_same s); [done|apply do_op_same_ranges|done].
  - eapply inv_same; try exact Hinv; simpl; eauto; [done|].
    intros q [?|Hqn]%elem_of_app; [by left|right].
    apply list_elem_of_singleton in Hqn as ->. apply log_request_rows in Hreq as [Hi Hrw].
    unfold req_inv. simpl. rewrite Hi, Hrw, Hr. done.
  - rewrite Hl in Hq. apply Forall_app in Hq as [Hq1 [Hq2 Hq3]%Forall_cons].
    destruct (serve_inv s req slog' ack) as (Hp' & Hg & _ & ->); [done..|].
    apply prefix_length in Hg as Hgl.
    match goal with |- inv ?s' => destruct (flight_grows s s') as [Hqs Has] end;
      [done|rewrite Hl; by apply Forall_app; rewrite Forall_cons|done|].
    rewrite Hl in Hqs. apply Forall_app in Hqs as [? [_ ?]%Forall_cons].
    split; [split; simpl; [lia|done]|]. split; [by apply Forall_app|].
    split; [|done]. apply Forall_snoc. split; [done|]. unfold ack_inv. simpl. lia.
  - eapply inv_same; try exact Hinv; simpl; eauto; [done|].
    intros q Hqn. left. rewrite Hl. by apply elem_of_mid_weaken.
  - assert (ack_inv s a) as Haa.
    { eapply Forall_forall; [exact Ha|]. rewrite Hl. apply elem_of_app. right. left. }
    eapply inv_same; try exact Hinv; simpl; eauto.
    + by apply (apply_ack_inv s).
    + destruct (apply_ack_fields a (reporter s)) as (_ & Hst & _).
      unfold ranges_inv. simpl. by rewrite Hst.
    + intros x Hx. left. rewrite Hl. by apply elem_of_mid_weaken.
  - eapply inv_same; try exact Hinv; simpl; eauto; [done|].
    intros x Hx. left. rewrite Hl. by apply elem_of_mid_weaken.
Qed.

Lemma reachable_inv id n m s : reachable serve id n m s -> inv s.
Proof.
  unfold reachable. intros H. assert (inv (init id n m)) as Hi by apply init_inv.
  induction H as [|x y z Hxy _ IH]; [done|]. apply IH. by eapply step_inv.
Qed.
End preservation.

(** ** What the forge has stored *)

Lemma tagged_sorted h1 h2 i row :
  StronglySorted Z.le (h1 ++ (Z.of_nat i, row) :: h2).*1 -> tagged i h1 = [] ->
  take (length (tagged i (h1 ++ (Z.of_nat i, row) :: h2)))
    (drop (length h1) (h1 ++ (Z.of_nat i, row) :: h2)) =
  tagged i (h1 ++ (Z.of_nat i, row) :: h2).
Proof.
  intros Hs H1. rewrite tagged_app, H1, drop_app_length. simpl.
  rewrite fmap_app in Hs. apply StronglySorted_app in Hs as (_ & _ & Hs). simpl in Hs.
  clear H1 h1. unfold tagged. rewrite filter_cons_True by done. simpl. f_equal.
  apply StronglySorted_inv in Hs as [Hs Hge].
  induction h2 as [|[t x] h2 IH]; [done|].
  simpl in Hs, Hge. apply StronglySorted_inv in Hs as [Hs Hx].
  apply Forall_cons in Hge as [Hge1 Hge].
  destruct (decide (t = Z.of_nat i)) as [->|Hne].
  - rewrite filter_cons_True by done. simpl. f_equal. by apply IH.
  - assert (filter (fun p : Z * LogRow => p.1 = Z.of_nat i) ((t, x) :: h2) = []) as ->; [|done].
    rewrite filter_cons_False by done. apply filter_all_nil. intros [t' x'] Hin Ht'. simpl in Ht'.
    eapply Forall_forall in Hx; [|apply list_elem_of_fmap_2; exact Hin]. simpl in *. lia.
Qed.

Section delivery.
Context (serve : list LogRow -> UpdateLogRequest -> list LogRow * Z).
Context (Hserve : forge_appends serve).

(** C3: no row is lost, duplicated or reordered.  However the log calls,
    the step updates, the concurrent flushes and the losses of requests and
    responses interleave, the forge's log is a prefix of the rows logged, in
    order, and the rows not yet acknowledged are all still in the reporter:
    what was trimmed followed by [logRows] is the whole history. *)
Theorem log_rows_exact id n m s :
  reachable serve id n m s ->
  exists acked, (hist s).*2 = acked ++ logRows (reporter s) /\
    Z.of_nat (length acked) = logOffset (reporter s) /\
    acked `prefix_of` slog s /\ slog s `prefix_of` (hist s).*2.
Proof.
  intros ((Ho & Hp & Hr) & _)%reachable_inv; [|done].
  exists (take (Z.to_nat (logOffset (reporter s))) (hist s).*2).
  pose proof (prefix_length _ _ Hp). rewrite Hr, take_drop, length_take.
  split; [done|]. split; [lia|]. split; [|done].
  destruct Hp as [tl ->]. rewrite take_app_le by lia. eexists. symmetry. apply take_drop.
Qed.

(** A flush taken after the last row completes the log.  When a request
    built after the last [AddLog] is delivered, at whatever later moment,
    the forge has every row; and once its response is applied the reporter
    holds none. *)
Theorem last_flush_completes id n m s l1 req l2 slog' ack :
  reachable serve id n m s -> reqs s = l1 ++ req :: l2 ->
  (Z.to_nat (Index req) + length (Rows req) = length (hist s))%nat ->
  serve (slog s) req = (slog', ack) ->
  slog' = (hist s).*2 /\ logRows (apply_ack ack (reporter s)) = [].
Proof.
  intros Hs%reachable_inv Hq Hlen Hsv; [|done]. destruct Hs as ((Ho & Hp & Hr) & Hqs & _).
  assert (req_inv s req) as Hreq.
  { eapply Forall_forall; [exact Hqs|]. rewrite Hq. apply elem_of_app. right. left. }
  destruct (serve_inv serve Hserve s req slog' ack) as ([tl Htl] & Hg & Hl & ->); [done..|].
  assert (tl = []) as ->.
  { apply length_zero_iff_nil. apply (f_equal length) in Htl.
    rewrite length_app, length_fmap in Htl. lia. }
  rewrite app_nil_r in Htl. split; [done|]. apply prefix_length in Hg.
  unfold apply_ack. destruct (_ <=? _) eqn:Hle; reflect_bools; [|lia]. simpl.
  rewrite Hr, Htl, length_drop. apply drop_ge. rewrite length_drop.
  case_match; reflect_bools; lia.
Qed.

(** C25: the log range of a step.  In every reachable state a step's
    [LogLength] counts the rows logged while it was the current step; if there
    are any, [LogIndex] is the position in the whole log of the first of them,
    in whatever order the steps ran; and when the steps ran in order, the range
    is exactly those rows.  Of the [LogIndex] of a step without rows nothing is
    said. *)
Theorem step_log_range id n m s i st :
  reachable serve id n m s -> Steps (state (reporter s)) !! i = Some st ->
  LogLength st = Z.of_nat (length (tagged i (hist s))) /\
  (0 < LogLength st ->
     (exists row, hist s !! Z.to_nat (LogIndex st) = Some (Z.of_nat i, row)) /\
     (forall j, (j < Z.to_nat (LogIndex st))%nat -> (hist s).*1 !! j <> Some (Z.of_nat i)) /\
     (StronglySorted Z.le (hist s).*1 ->
      take (Z.to_nat (LogLength st)) (drop (Z.to_nat (LogIndex st)) (hist s)) =
        tagged i (hist s))).
Proof.
  intros (_ & _ & _ & Hr)%reachable_inv Hst; [|done]. destruct (Hr i st Hst) as [HL HI].
  split; [done|]. intros Hpos. destruct HI as (h1 & row & h2 & Hh & H1 & Hidx).
  { intros Hn. rewrite HL, Hn in Hpos. done. }
  rewrite HL, Hidx, !Nat2Z.id. rewrite Hh in *. split_and!.
  - exists row. by rewrite lookup_app_r, Nat.sub_diag by lia.
  - intros j Hj Hin. rewrite fmap_app, lookup_app_l in Hin by (rewrite length_fmap; lia).
    apply list_lookup_fmap_Some in Hin as ([k x] & Hk & Hx). simpl in Hk. subst k.
    apply list_elem_of_lookup_2 in Hx.
    assert ((Z.of_nat i, x) ∈ tagged i h1) as Ht by (by apply list_elem_of_filter).
    rewrite H1 in Ht. by apply elem_of_nil in Ht.
  - intros Hsort. by apply tagged_sorted.
Qed.
End delivery.

(** ** An executable scheduler, for concrete runs *)

Inductive action :=
  | ALog (now : Z) (c : gostring)
  | ALocal (o : step_op)
  | ABegin (noMore : bool)
  | ADeliver (i : nat)
  | ALoseReq (i : nat)
  | AAck (i : nat)
  | ALoseAck (i : nat).

(** Take the [i]-th element out of a list. *)
Fixpoint pick {A} (i : nat) (l : list A) : option (list A * A * list A) :=
  match l, i with
  | [], _ => None
  | x :: l, O => Some ([], x, l)
  | x :: l, S i => '(l1, y, l2) ← pick i l; Some (x :: l1, y, l2)
  end.

Lemma pick_Some {A} i (l : list A) l1 x l2 : pick i l = Some (l1, x, l2) -> l = l1 ++ x :: l2.
Proof.
  revert i l1. induction l as [|y l IH]; intros [|i] l1 H; simplify_eq/=; [done|].
  destruct (pick i l) as [[[l1' y'] l2']|] eqn:Hp; simplify_eq/=. f_equal. by eapply IH.
Qed.

Definition exec (serve : list LogRow -> UpdateLogRequest -> list LogRow * Z)
    (a : action) (s : Sys) : option Sys :=
  match a with
  | ALog now c =>
      Some {| reporter := AddLog now c (reporter s);
              hist := hist s ++ [log_row now c (reporter s)];
              slog := slog s; reqs := reqs s; acks := acks s |}
  | ALocal o =>
      Some {| reporter := do_op o (reporter s); hist := hist s; slog := slog s;
              reqs := reqs s; acks := acks s |}
  | ABegin noMore =>
      req ← log_request noMore (reporter s);
      Some {| reporter := reporter s; hist := hist s; slog := slog s;
              reqs := reqs s ++ [req]; acks := acks s |}
  | ADeliver i =>
      '(l1, req, l2) ← pick i (reqs s);
      let '(slog', ack) := serve (slog s) req in
      Some {| reporter := reporter s; hist := hist s; slog := slog';
              reqs := l1 ++ l2; acks := acks s ++ [ack] |}
  | ALoseReq i =>
      '(l1, _, l2) ← pick i (reqs s);
      Some {| reporter := reporter s; hist := hist s; slog := slog s;
              reqs := l1 ++ l2; acks := acks s |}
  | AAck i =>
      '(l1, a, l2) ← pick i (acks s);
      Some {| reporter := apply_ack a (reporter s); hist := hist s; slog := slog s;
              reqs := reqs s; acks := l1 ++ l2 |}
  | ALoseAck i =>
      '(l1, _, l2) ← pick i (acks s);
      Some {| reporter := reporter s; hist := hist s; slog := slog s;
              reqs := reqs s; acks := l1 ++ l2 |}
  end.

Fixpoint exec_all serve (l : list action) (s : Sys) : option Sys :=
  match l with [] => Some s | a :: l => s' ← exec serve a s; exec_all serve l s' end.

Lemma exec_sound serve a s s' : exec serve a s = Some s' -> step serve s s'.
Proof.
  destruct a; simpl; intros He; try (injection He as <-; constructor).
  - destruct (log_request _ _) eqn:Hl; simplify_eq/=. by econstructor.
  - destruct (pick _ _) as [[[l1 x] l2]|] eqn:Hp; simplify_eq/=. apply pick_Some in Hp.
    destruct (serve _ _) eqn:Hs; simplify_eq. by econstructor.
  - destruct (pick _ _) as [[[l1 x] l2]|] eqn:Hp; simplify_eq/=. apply pick_Some in Hp.
    by econstructor.
  - destruct (pick _ _) as [[[l1 x] l2]|] eqn:Hp; simplify_eq/=. apply pick_Some in Hp.
    by eapply step_ack.
  - destruct (pick _ _) as [[[l1 x] l2]|] eqn:Hp; simplify_eq/=. apply pick_Some in Hp.
    by eapply step_lose_ack.
Qed.

Lemma exec_reachable serve id n m l s :
  exec_all serve l (init id n m) = Some s -> reachable serve id n m s.
Proof.
  unfold reachable. generalize (init id n m). induction l as [|a l IH]; simpl; intros s0 He.
  - by injection He as <-.
  - destruct (exec serve a s0) as [s1|] eqn:H1; [|done]. apply exec_sound in H1.
    eapply rtc_l; [exact H1|]. by apply IH.
Qed.

(** A forge that answers the way the runner protocol's servers do: requests
    with nothing new only learn the length of the log. *)
Definition forge_serve (sl : list LogRow) (req : UpdateLogRequest) : list LogRow * Z :=
  let n := Z.of_nat (length sl) in
  if (n <? Index req) || (Index req + Z.of_nat (length (Rows req)) <=? n) then (sl, n)
  else let sl' := sl ++ drop (length sl - Z.to_nat (Index req)) (Rows req) in
       (sl', Z.of_nat (length sl')).

Lemma forge_serve_appends : forge_appends forge_serve.
Proof.
  intros sl req Hi sl'. unfold forge_serve, sl'. destruct (_ || _) eqn:Hb; [|done].
  apply orb_true_iff in Hb as [Hb|Hb]; reflect_bools; [lia|].
  rewrite drop_ge by lia. by rewrite app_nil_r.
Qed.

(** Two overlapping flushes, the first response lost, the second request late. *)
Definition sample_run : list action :=
  [ALocal (DoStart 1 0); ALog 1 "a"; ALog 2 "b"; ABegin false; ALog 3 "c"; ABegin false;
   ADeliver 0; ALoseAck 0; ALocal (DoStart 4 1); ALog 4 "d"; ADeliver 0; AAck 0; ABegin true].

Definition sample : Sys :=
  default (init 7 2 None) (exec_all forge_serve sample_run (init 7 2 None)).

Lemma sample_reachable : reachable forge_serve 7 2 None sample.
Proof. apply (exec_reachable _ _ _ _ sample_run). vm_compute. reflexivity. Qed.

Lemma log_rows_exact_witness :
  map Content (slog sample) = ["a"; "b"; "c"] /\
  map Content (logRows (reporter sample)) = ["d"] /\
  exists acked, (hist sample).*2 = acked ++ logRows (reporter sample) /\
    Z.of_nat (length acked) = logOffset (reporter sample) /\
    acked `prefix_of` slog sample /\ slog sample `prefix_of` (hist sample).*2.
Proof.
  split; [vm_compute; reflexivity|]. split; [vm_compute; reflexivity|].
  exact (log_rows_exact forge_serve forge_serve_appends 7 2 None sample sample_reachable).
Defined.

Lemma last_flush_completes_witness :
  exists req slog' ack, reqs sample = [req] /\ forge_serve (slog sample) req = (slog', ack) /\
    slog' = (hist sample).*2 /\ logRows (apply_ack ack (reporter sample)) = [].
Proof.
  do 3 eexists. split; [vm_compute; reflexivity|]. split; [vm_compute; reflexivity|].
  eapply (last_flush_completes forge_serve forge_serve_appends 7 2 None sample [] _ []);
    [exact sample_reachable|vm_compute; reflexivity..].
Defined.

Lemma step_log_range_witness :
  exists st, Steps (state (reporter sample)) !! 1%nat = Some st /\
    LogLength st = 1 /\ LogIndex st = 3 /\
    LogLength st = Z.of_nat (length (tagged 1 (hist sample))).
Proof.
  eexists. split; [vm_compute; reflexivity|]. split; [reflexivity|]. split; [reflexivity|].
  eapply (step_log_range forge_serve forge_serve_appends 7 2 None sample 1);
    [exact sample_reachable|vm_compute; reflexivity].
Defined.
