(* ===== verification/Commands.v ===== *)
(** * Workflow commands in log lines ([pkg/reporter/commands.go])

    The regular expression [cmdRegex], as the matcher it denotes, and
    [CommandProcessor.ProcessLine], as a function of the processor and of the
    reporter it is wired to. *)
From Stdlib Require Import Ascii.
From S2P Require Import Prelude GoStrings Masker Reporter.

Definition colon : ascii := chr 58.
Definition space : ascii := chr 32.

(** ** [cmdRegex]

    Two colons at the start, a non-empty run of bytes that are neither a space
    nor a colon, optionally a space and any text, two colons, and the value;
    neither the text nor the value holds a newline.  Matching prefers long
    runs, so the command is the whole run and, after a space, the value
    starts after the last double colon. *)
Definition name_char (c : ascii) : bool := bool_decide (c <> space /\ c <> colon).

Fixpoint span (p : ascii -> bool) (s : gostring) : gostring * gostring :=
  match s with
  | [] => ([], [])
  | c :: s' => if p c then let '(a, b) := span p s' in (c :: a, b) else ([], s)
  end.

Fixpoint after_last (s : gostring) : option gostring :=
  match s with
  | [] => None
  | _ :: s' =>
      match after_last s' with
      | Some r => Some r
      | None => if has_prefix s "::" then Some (drop 2 s) else None
      end
  end.

Definition match_command (line : gostring) : option (gostring * gostring) :=
  if has_prefix line "::" then
    let '(cmd, rest) := span name_char (drop 2 line) in
    match cmd with
    | [] => None
    | _ =>
        if decide (nl ∈ rest) then None
        else if has_prefix rest " " then value ← after_last rest; Some (cmd, value)
        else if has_prefix rest "::" then Some (cmd, drop 2 rest)
        else None
    end
  else None.

(** ** [ProcessLine] *)

Record CommandProcessor := {
  stopToken : gostring;
  debugEnabled : bool;
}.

Definition NewCommandProcessor (debugEnabled : bool) : CommandProcessor :=
  {| stopToken := []; debugEnabled := debugEnabled |}.

Section processor.
Context `{UnicodeTables}.

Definition ProcessLine (line : gostring) (p : CommandProcessor) (r : Reporter) :
    option gostring * CommandProcessor * Reporter :=
  if decide (stopToken p <> []) then
    if decide (line = "::" ++ stopToken p ++ "::")
    then (None, {| stopToken := []; debugEnabled := debugEnabled p |}, r)
    else (Some line, p, r)
  else
    match match_command line with
    | None => (Some line, p, r)
    | Some (name, value) =>
        let command := to_lower name in
        if decide (command = "add-mask") then (None, p, AddMask value r)
        else if decide (command = "debug") then
          (if debugEnabled p then Some line else None, p, r)
        else if decide (command = "stop-commands") then
          (None, if decide (value <> [])
                 then {| stopToken := value; debugEnabled := debugEnabled p |} else p, r)
        else (Some line, p, r)
    end.

(** The lines a run of [ProcessLine] lets through, and the state it leaves. *)
Fixpoint process_lines (ls : list gostring) (p : CommandProcessor) (r : Reporter) :
    list gostring * CommandProcessor * Reporter :=
  match ls with
  | [] => ([], p, r)
  | l :: ls =>
      let '(out, p, r) := ProcessLine l p r in
      let '(rest, p, r) := process_lines ls p r in
      (match out with Some l' => l' :: rest | None => rest end, p, r)
  end.

(** ** Lemmas *)

Lemma span_run (p : ascii -> bool) a b :
  Forall (fun c => p c = true) a -> match b with [] => True | c :: _ => p c = false end ->
  span p (a ++ b) = (a, b).
Proof.
  intros Ha Hb. induction a as [|c a IH]; simpl.
  - destruct b as [|c b]; simpl; [done|]. by rewrite Hb.
  - apply Forall_cons in Ha as [Hc Ha]. by rewrite Hc, IH.
Qed.

Lemma span_app p s a b : span p s = (a, b) -> s = a ++ b.
Proof.
  revert a. induction s as [|c s IH]; intros a; simpl; [by intros [= <- <-]|].
  destruct (p c); [|by intros [= <- <-]].
  destruct (span p s) as [a' b']. intros [= <- <-]. simpl. f_equal. by apply IH.
Qed.

Lemma after_last_app s v :
  after_last (colon :: v) = None -> after_last (s ++ colon :: colon :: v) = Some v.
Proof.
  intros Hv. induction s as [|c s IH].
  - cbn [app]. cbn [after_last] in *. by rewrite Hv.
  - cbn [app after_last]. by rewrite IH.
Qed.

(** A command name: lower-case letters and dashes, as the code matches on. *)
Definition command_name (s : gostring) : Prop :=
  s <> [] /\ Forall (fun c => name_char c = true) s.

Lemma match_plain name value :
  command_name name -> nl ∉ value -> match_command ("::" ++ name ++ "::" ++ value) = Some (name, value).
Proof.
  intros [Hne Hn] Hv. unfold match_command.
  rewrite (proj2 (has_prefix_spec _ _)) by eauto.
  change (drop 2 ("::" ++ name ++ "::" ++ value)) with (name ++ "::" ++ value).
  rewrite span_run; [|done|reflexivity]. destruct name as [|c name]; [done|].
  rewrite decide_False.
  2: { intros [Hx|[Hx|Hx]%elem_of_cons]%elem_of_cons; [discriminate|discriminate|done]. }
  rewrite (proj2 (has_prefix_spec ("::" ++ value) "::")) by eauto.
  reflexivity.
Qed.

Lemma match_props name props value :
  command_name name -> nl ∉ props -> nl ∉ value -> after_last (colon :: value) = None ->
  match_command ("::" ++ name ++ " " ++ props ++ "::" ++ value) = Some (name, value).
Proof.
  intros [Hne Hn] Hp Hv Hl. unfold match_command.
  rewrite (proj2 (has_prefix_spec _ _)) by eauto.
  change (drop 2 ("::" ++ name ++ " " ++ props ++ "::" ++ value))
    with (name ++ " " ++ props ++ "::" ++ value).
  rewrite span_run; [|done|reflexivity]. destruct name as [|c name]; [done|].
  rewrite decide_False.
  2: { intros [Hx|[Hx|[Hx|[Hx|Hx]%elem_of_cons]%elem_of_cons]%elem_of_app]%elem_of_cons;
         [discriminate|done|discriminate|discriminate|done]. }
  rewrite (proj2 (has_prefix_spec (" " ++ props ++ "::" ++ value) " ")) by eauto.
  change (" " ++ props ++ "::" ++ value) with ((" " ++ props) ++ colon :: colon :: value).
  by rewrite after_last_app.
Qed.

Lemma ProcessLine_stopped line p r :
  stopToken p <> [] -> line <> "::" ++ stopToken p ++ "::" ->
  ProcessLine line p r = (Some line, p, r).
Proof. intros Ht Hl. unfold ProcessLine. by rewrite decide_True, decide_False. Qed.

Lemma process_lines_stopped ls p r :
  stopToken p <> [] -> Forall (fun l => l <> "::" ++ stopToken p ++ "::") ls ->
  process_lines ls p r = (ls, p, r).
Proof.
  intros Ht. induction ls as [|l ls IH]; intros Hl; [done|].
  apply Forall_cons in Hl as [Hl Hls]. cbn [process_lines].
  rewrite ProcessLine_stopped by done. by rewrite IH.
Qed.

Lemma process_lines_app ls1 ls2 p r :
  process_lines (ls1 ++ ls2) p r =
    let '(o1, p1, r1) := process_lines ls1 p r in
    let '(o2, p2, r2) := process_lines ls2 p1 r1 in (o1 ++ o2, p2, r2).
Proof.
  revert p r. induction ls1 as [|l ls1 IH]; intros p r; simpl.
  - by destruct (process_lines ls2 p r) as [[? ?] ?].
  - destruct (ProcessLine l p r) as [[out p1] r1]. rewrite IH.
    destruct (process_lines ls1 p1 r1) as [[o1 p2] r2].
    destruct (process_lines ls2 p2 r2) as [[o2 p3] r3]. by destruct out.
Qed.

Lemma to_lower_stop : to_lower "stop-commands" = "stop-commands".
Proof. vm_compute. reflexivity. Qed.

Lemma to_lower_mask : to_lower "add-mask" = "add-mask".
Proof. vm_compute. reflexivity. Qed.

(** [ProcessLine] on the two commands that change state. *)
Lemma ProcessLine_stop token p r :
  stopToken p = [] -> token <> [] -> nl ∉ token ->
  ProcessLine ("::stop-commands::" ++ token) p r =
    (None, {| stopToken := token; debugEnabled := debugEnabled p |}, r).
Proof.
  intros Hp Ht Hn. unfold ProcessLine. rewrite decide_False by (rewrite Hp; tauto).
  change ("::stop-commands::" ++ token) with ("::" ++ "stop-commands" ++ "::" ++ token).
  rewrite match_plain; [|by split; [|repeat constructor]|done].
  rewrite to_lower_stop. rewrite decide_False, decide_False, decide_True by done.
  by rewrite decide_True.
Qed.

Lemma ProcessLine_mask value p r :
  stopToken p = [] -> nl ∉ value ->
  ProcessLine ("::add-mask::" ++ value) p r = (None, p, AddMask value r).
Proof.
  intros Hp Hn. unfold ProcessLine. rewrite decide_False by (rewrite Hp; tauto).
  change ("::add-mask::" ++ value) with ("::" ++ "add-mask" ++ "::" ++ value).
  rewrite match_plain; [|by split; [|repeat constructor]|done].
  rewrite to_lower_mask. by rewrite decide_True.
Qed.

(** Every line is passed on unchanged or dropped; only the masker of the
    reporter can change. *)
Lemma ProcessLine_effect line p r out p' r' :
  ProcessLine line p r = (out, p', r') ->
  (out = None \/ out = Some line) /\ (r' = r \/ exists v, r' = AddMask v r) /\
  debugEnabled p' = debugEnabled p.
Proof.
  unfold ProcessLine. intros Hl. split_matches; eauto 6.
Qed.

(** C39: between a stop-commands line and its resume token, every line is
    logged verbatim and no command in it has any effect; the two marker lines
    themselves are dropped, and command parsing is active again afterwards. *)
Theorem stop_commands_verbatim token ls p r :
  stopToken p = [] -> token <> [] -> (nl ∉ token) ->
  Forall (fun l => l <> "::" ++ token ++ "::") ls ->
  process_lines (("::stop-commands::" ++ token) :: ls ++ ["::" ++ token ++ "::"]) p r =
    (ls, p, r).
Proof.
  intros Hp Ht Hn Hls. cbn [process_lines]. rewrite ProcessLine_stop by done.
  rewrite process_lines_app, process_lines_stopped by done.
  cbn [process_lines]. unfold ProcessLine. simpl. rewrite decide_True by done.
  rewrite decide_True by done. rewrite app_nil_r. destruct p; simpl in *. by subst.
Qed.

(** Printing a command and matching it.  A command with or without
    properties, as a step prints it, is recognised with its name and its
    value, the value unrestricted in the form without properties. *)
Theorem match_command_print name props value :
  command_name name -> (nl ∉ value) ->
  match_command ("::" ++ name ++ "::" ++ value) = Some (name, value) /\
  ((nl ∉ props) -> after_last (colon :: value) = None ->
   match_command ("::" ++ name ++ " " ++ props ++ "::" ++ value) = Some (name, value)).
Proof.
  intros Hn Hv. split; [by apply match_plain|]. intros. by apply match_props.
Qed.
End processor.

Lemma stop_commands_verbatim_witness :
  @process_lines ascii_tables
    ["::stop-commands::tok"; "::add-mask::hunter2"; "x::"; "::tok::"]
    (NewCommandProcessor false) (New 7 1) =
  (["::add-mask::hunter2"; "x::"], NewCommandProcessor false, New 7 1).
Proof.
  apply (@stop_commands_verbatim ascii_tables "tok" ["::add-mask::hunter2"; "x::"]
    (NewCommandProcessor false) (New 7 1)); [reflexivity|discriminate|decide_now|].
  repeat constructor; discriminate.
Defined.

Lemma match_command_print_witness :
  match_command "::error file=a.go,line=3::bad: x" = Some ("error", "bad: x").
Proof.
  apply (match_command_print "error" "file=a.go,line=3" "bad: x").
  - split; [discriminate|repeat constructor].
  - decide_now.
  - decide_now.
  - reflexivity.
Defined.
