(* ===== verification/Envfile.v ===== *)
(** * Step environment files ([cmd/entrypoint/envfile.go])

    [bufio.Scanner] over the file's bytes with its maximal token size, and the
    two parsers built on it: [parseEnvFile] for [GITHUB_ENV] and
    [GITHUB_OUTPUT], [parsePaths] for [GITHUB_PATH]. *)
From Stdlib Require Import Ascii.
From S2P Require Import Prelude GoStrings.
#[local] Open Scope Z_scope.

Definition equals : ascii := chr 61.

(** ** [bufio.Scanner] with [ScanLines]

    The tokens of a file, and whether the scanner stopped with an error.  A
    token is a line without its newline and without one trailing carriage
    return; the last line needs no newline, and an empty one at the end of the
    file is no token.  The buffer grows up to [max] bytes and must hold the
    line and its newline: a line whose newline is not among the first [max]
    bytes stops the scan with [ErrTooLong]. *)
Definition drop_cr (l : gostring) : gostring := trim_suffix l [cr].

Inductive scan_end := ScanEOF | ScanTooLong.

(** The lines a file splits into: those ended by a newline, and what is left. *)
Definition raw_lines (data : gostring) : list gostring * gostring :=
  let ps := split nl data in (removelast ps, List.last ps []).

Fixpoint scan_raw (max : Z) (ls : list gostring) (rest : gostring)
    : list gostring * scan_end :=
  match ls with
  | [] => if (length rest =? 0)%nat then ([], ScanEOF)
          else if max <=? Z.of_nat (length rest) then ([], ScanTooLong)
          else ([drop_cr rest], ScanEOF)
  | l :: ls => if max <=? Z.of_nat (length l) then ([], ScanTooLong)
               else let '(ts, e) := scan_raw max ls rest in (drop_cr l :: ts, e)
  end.

Definition scan (max : Z) (data : gostring) : list gostring * scan_end :=
  let '(ls, rest) := raw_lines data in scan_raw max ls rest.

Definition env_max : Z := 1024 * 1024.
Definition path_max : Z := 64 * 1024.

(** ** [parseEnvFile] *)

Inductive env_error :=
  | UnclosedHeredoc (key delim : gostring)
  | TooLong.

(** The inner loop over a heredoc: the value's builder so far, the lines left;
    [None] when the delimiter never comes. *)
Fixpoint heredoc (delim value : gostring) (ls : list gostring)
    : option (gostring * list gostring) :=
  match ls with
  | [] => None
  | l :: ls =>
      if decide (l = delim) then Some (value, ls)
      else heredoc delim ((if decide (value <> []) then value ++ [nl] else value) ++ l) ls
  end.

(** What one line of the outer loop is. *)
Inductive env_line :=
  | Heredoc (key delim : gostring)
  | KeyValue (key val : gostring)
  | Ignored.

Definition classify (line : gostring) : env_line :=
  let eqIdx := index_byte equals line in
  let simple :=
    match eqIdx with
    | Some i => if (0 <? i)%nat then KeyValue (take i line) (drop (i + 1) line) else Ignored
    | None => Ignored
    end in
  match index "<<" line with
  | Some h =>
      if (0 <? h)%nat && match eqIdx with None => true | Some e => (h <? e)%nat end
      then Heredoc (take h line) (drop (h + 2) line) else simple
  | None => simple
  end.

(** The outer loop.  [fuel] bounds the number of lines; a heredoc consumes its
    lines and its delimiter. *)
Fixpoint parse_env_lines (fuel : nat) (acc : gmap gostring gostring) (ls : list gostring)
    : result env_error (gmap gostring gostring) :=
  match ls, fuel with
  | [], _ => Ok acc
  | _, O => Ok acc
  | line :: ls, S fuel =>
      match classify line with
      | Heredoc key delim =>
          match heredoc delim [] ls with
          | None => Err (UnclosedHeredoc key delim)
          | Some (value, ls') => parse_env_lines fuel (<[key := value]> acc) ls'
          end
      | KeyValue key val => parse_env_lines fuel (<[key := val]> acc) ls
      | Ignored => parse_env_lines fuel acc ls
      end
  end.

(** The map and the error of [parseEnvFile]; [None] is the nil map.  A file
    that does not exist ([data = None]) is no error, and a scanner error comes
    with the map read so far. *)
Definition parseEnvFile (data : option gostring)
    : option (gmap gostring gostring) * option env_error :=
  match data with
  | None => (None, None)
  | Some data =>
      let '(ls, e) := scan env_max data in
      match parse_env_lines (length ls) ∅ ls with
      | Err err => (None, Some err)
      | Ok m => (Some m, match e with ScanEOF => None | ScanTooLong => Some TooLong end)
      end
  end.

(** ** [parsePaths] *)
Definition parsePaths (data : option gostring) : list gostring * option env_error :=
  match data with
  | None => ([], None)
  | Some data =>
      let '(ls, e) := scan path_max data in
      (List.filter (fun l => bool_decide (l <> [])) (map trim_space ls),
       match e with ScanEOF => None | ScanTooLong => Some TooLong end)
  end.

(** ** Writing such a file

    What a step appends: one assignment per variable, in the simple form or
    as a heredoc. *)
Inductive entry :=
  | Simple (key val : gostring)
  | Here (key delim : gostring) (lines : list gostring).

Definition entry_key (e : entry) : gostring :=
  match e with Simple k _ => k | Here k _ _ => k end.
Definition entry_val (e : entry) : gostring :=
  match e with Simple _ v => v | Here _ _ ls => join [nl] ls end.

(** The value as it is read back: the reader loses the empty lines a heredoc
    starts with, since it writes no newline while its builder is empty. *)
Fixpoint trim_blank (ls : list gostring) : list gostring :=
  match ls with [] :: ls => trim_blank ls | _ => ls end.
Definition entry_read (e : entry) : gostring :=
  match e with Simple _ v => v | Here _ _ ls => join [nl] (trim_blank ls) end.

Definition entry_lines (e : entry) : list gostring :=
  match e with
  | Simple k v => [k ++ equals :: v]
  | Here k d ls => (k ++ "<<" ++ d) :: ls ++ [d]
  end.

(** A line the scanner returns as it was written. *)
Definition plain_line (l : gostring) : Prop :=
  (nl ∉ l) /\ has_suffix l [cr] = false /\ Z.of_nat (length l) < env_max.

Definition good_key (k : gostring) : Prop := k <> [] /\ (equals ∉ k) /\ contains "<<" (k ++ "<") = false.

(** What the round trip needs of an entry: a proper key (not empty, without
    [=] and [<<]), lines the scanner keeps, and a delimiter that is not one of
    the value's lines. *)
Definition good_entry (e : entry) : Prop :=
  Forall plain_line (entry_lines e) /\
  match e with
  | Simple k _ => good_key k
  | Here k d ls => good_key k /\ (d ∉ ls)
  end.

Definition file_lines (es : list entry) : list gostring := concat (map entry_lines es).
Definition file_data (es : list entry) : gostring := concat (map (fun l => l ++ [nl]) (file_lines es)).
Definition env_of (es : list entry) : gmap gostring gostring :=
  foldl (fun m e => <[entry_key e := entry_read e]> m) ∅ es.

(** ** Lemmas *)

Lemma split_terminated ls :
  Forall (fun l => nl ∉ l) ls -> split nl (concat (map (fun l => l ++ [nl]) ls)) = ls ++ [[]].
Proof.
  induction ls as [|l ls IH]; intros Hl; [done|]. apply Forall_cons in Hl as [Hl Hls].
  simpl. rewrite <-app_assoc. simpl. rewrite split_cons by done. by rewrite IH.
Qed.

Lemma raw_lines_terminated ls :
  Forall (fun l => nl ∉ l) ls -> raw_lines (concat (map (fun l => l ++ [nl]) ls)) = (ls, []).
Proof.
  intros Hl. unfold raw_lines. rewrite split_terminated by done.
  by rewrite removelast_last, last_last.
Qed.

Lemma drop_cr_id l : has_suffix l [cr] = false -> drop_cr l = l.
Proof. intros H. unfold drop_cr, trim_suffix. by rewrite H. Qed.

Lemma scan_raw_plain max ls :
  Forall (fun l => has_suffix l [cr] = false /\ Z.of_nat (length l) < max) ls ->
  scan_raw max ls [] = (ls, ScanEOF).
Proof.
  induction ls as [|l ls IH]; intros Hl; [done|].
  apply Forall_cons in Hl as [[Hc Hm] Hls]. cbn [scan_raw].
  rewrite (proj2 (Z.leb_gt _ _)) by done. by rewrite IH, drop_cr_id.
Qed.

Lemma scan_plain ls :
  Forall plain_line ls -> scan env_max (concat (map (fun l => l ++ [nl]) ls)) = (ls, ScanEOF).
Proof.
  intros Hl. unfold scan. rewrite raw_lines_terminated.
  - apply scan_raw_plain. apply (Forall_impl _ _ _ Hl). by intros l (_ & ? & ?).
  - apply (Forall_impl _ _ _ Hl). by intros l (? & _).
Qed.

Lemma index_byte_first k r : equals ∉ k -> index_byte equals (k ++ equals :: r) = Some (length k).
Proof.
  intros Hk. apply index_byte_Some. exists r. rewrite take_app_length.
  split; [done|]. split; [done|]. rewrite length_app. simpl. lia.
Qed.

(** No occurrence starts in the first part, so the first is at its end. *)
Lemma index_none_prefix (k r : gostring) c i :
  contains "<<" (k ++ "<") = false -> c <> chr 60 ->
  index "<<" (k ++ c :: r) = Some i -> (length k < i)%nat.
Proof.
  revert i. induction k as [|x k IH]; intros i Hk Hc Hi; simpl in *.
  - destruct (has_prefix (c :: r) "<<") eqn:Hp.
    + apply has_prefix_spec in Hp as [z Hz]. injection Hz as -> _. done.
    + destruct (index "<<" r); simplify_eq/=. lia.
  - apply contains_cons_false in Hk as Hk'.
    destruct (has_prefix (x :: k ++ c :: r) "<<") eqn:Hp.
    + apply has_prefix_spec in Hp as [z Hz]. exfalso. destruct k as [|y k].
      * simpl in Hz. injection Hz as -> -> _. done.
      * simpl in Hz. injection Hz as -> -> _.
        assert (contains "<<" (chr 60 :: (chr 60 :: k) ++ "<") = true) as Ht.
        { apply contains_spec. by exists [], (k ++ "<"). }
        discriminate (eq_trans (eq_sym Ht) Hk).
    + destruct (index "<<" (k ++ c :: r)) as [j|] eqn:Hj; simplify_eq/=.
      specialize (IH j Hk' Hc eq_refl). lia.
Qed.

Lemma index_at_end (k r : gostring) :
  contains "<<" (k ++ "<") = false -> index "<<" (k ++ "<<" ++ r) = Some (length k).
Proof.
  induction k as [|x k IH]; intros Hk; cbn [app index length].
  - by rewrite (proj2 (has_prefix_spec _ _)) by eauto.
  - apply contains_cons_false in Hk as Hk'.
    match goal with |- context [if ?b then _ else _] => destruct b eqn:Hp end.
    + exfalso. apply has_prefix_spec in Hp as [z Hz]. destruct k as [|y k].
      * injection Hz as -> _. vm_compute in Hk. done.
      * injection Hz as -> -> _.
        assert (contains "<<" ((chr 60 :: chr 60 :: k) ++ "<") = true) as Ht.
        { apply contains_spec. by exists [], (k ++ "<"). }
        discriminate (eq_trans (eq_sym Ht) Hk).
    + specialize (IH Hk'). cbn [app] in IH. by rewrite IH.
Qed.

Lemma classify_simple k v : good_key k -> classify (k ++ equals :: v) = KeyValue k v.
Proof.
  intros (Hne & Heq & Hh). unfold classify. rewrite index_byte_first by done.
  assert ((0 <? length k)%nat = true) as Hpos.
  { apply Nat.ltb_lt. destruct k; simpl; [done|lia]. }
  rewrite Hpos. rewrite take_app_length.
  replace (drop (length k + 1) (k ++ equals :: v)) with v.
  2: { by rewrite <-drop_drop, drop_app_length. }
  destruct (index "<<" (k ++ equals :: v)) as [h|] eqn:Hi; [|done].
  apply index_none_prefix in Hi; [|done|discriminate].
  rewrite (proj2 (Nat.ltb_ge h _)) by lia. by rewrite andb_false_r.
Qed.

Lemma classify_heredoc k d : good_key k -> classify (k ++ "<<" ++ d) = Heredoc k d.
Proof.
  intros (Hne & Heq & Hh). unfold classify. rewrite index_at_end by done.
  assert ((0 <? length k)%nat = true) as Hpos.
  { apply Nat.ltb_lt. destruct k; simpl; [done|lia]. }
  rewrite Hpos, take_app_length.
  assert (match index_byte equals (k ++ "<<" ++ d) with
          | None => true | Some e => (length k <? e)%nat end = true) as ->.
  { destruct (index_byte equals _) as [e|] eqn:He; [|done].
    apply index_byte_Some in He as (b & Hb & _ & Hlen). apply Nat.ltb_lt.
    destruct (decide (length k < e)%nat) as [|Hge]; [done|exfalso].
    assert ((k ++ "<<" ++ d) !! e = Some equals) as Hl.
    { rewrite Hb. rewrite lookup_app_r; rewrite length_take_le; [|lia..].
      by rewrite Nat.sub_diag. }
    destruct (decide (e = length k)) as [->|Hn].
    - rewrite lookup_app_r in Hl by lia. rewrite Nat.sub_diag in Hl. discriminate.
    - rewrite lookup_app_l in Hl by lia. apply list_elem_of_lookup_2 in Hl. done. }
  simpl andb. f_equal.
  by rewrite <-drop_drop, drop_app_length.
Qed.

(** The builder's value: the lines joined, once it is not empty. *)
Lemma heredoc_from d v ls rest :
  v <> [] -> d ∉ ls -> heredoc d v (ls ++ d :: rest) = Some (join [nl] (v :: ls), rest).
Proof.
  revert v. induction ls as [|l ls IH]; intros v Hv Hd.
  - cbn [app heredoc]. by rewrite decide_True.
  - apply not_elem_of_cons in Hd as [Hdl Hd]. cbn [app heredoc].
    rewrite decide_False by done. rewrite decide_True by done.
    rewrite IH; [|by destruct v|done]. f_equal. f_equal.
    rewrite (join_byte nl v (l :: ls)) by done. destruct ls as [|l' ls].
    + simpl. by rewrite <-app_assoc.
    + rewrite !join_byte by done. by rewrite <-!app_assoc.
Qed.

Lemma heredoc_spec d ls rest :
  d ∉ ls -> heredoc d [] (ls ++ d :: rest) = Some (join [nl] (trim_blank ls), rest).
Proof.
  induction ls as [|l ls IH]; intros Hd.
  - cbn [app heredoc]. by rewrite decide_True.
  - apply not_elem_of_cons in Hd as [Hdl Hd]. cbn [app heredoc].
    rewrite decide_False by done. rewrite decide_False by tauto. cbn [app].
    destruct l as [|c l]; [by apply IH|]. by apply (heredoc_from d (c :: l)).
Qed.

Lemma trim_blank_id ls :
  has_prefix (join [nl] ls) [nl] = false -> join [nl] (trim_blank ls) = join [nl] ls.
Proof. destruct ls as [|[|c l] [|l' ls]]; done. Qed.

(** One entry is one round of the outer loop. *)
Lemma parse_entry fuel acc e rest :
  good_entry e ->
  parse_env_lines (S fuel) acc (entry_lines e ++ rest) =
  parse_env_lines fuel (<[entry_key e := entry_read e]> acc) rest.
Proof.
  intros [_ He]. destruct e as [k v|k d ls].
  - cbn [entry_lines app parse_env_lines]. by rewrite classify_simple.
  - destruct He as (Hk & Hd).
    change (entry_lines (Here k d ls) ++ rest) with ((k ++ "<<" ++ d) :: (ls ++ [d]) ++ rest).
    cbn [parse_env_lines]. rewrite classify_heredoc by done.
    rewrite <-app_assoc. change ([d] ++ rest) with (d :: rest).
    by rewrite heredoc_spec.
Qed.

Lemma parse_entries fuel acc es :
  Forall good_entry es -> (length es <= fuel)%nat ->
  parse_env_lines fuel acc (file_lines es) =
  Ok (foldl (fun m e => <[entry_key e := entry_read e]> m) acc es).
Proof.
  revert fuel acc. induction es as [|e es IH]; intros fuel acc Hes Hf.
  - by destruct fuel.
  - apply Forall_cons in Hes as [He Hes]. destruct fuel as [|fuel]; [simpl in Hf; lia|].
    change (file_lines (e :: es)) with (entry_lines e ++ file_lines es).
    rewrite parse_entry by done. apply IH; [done|simpl in Hf; lia].
Qed.

Lemma file_lines_length es : (length es <= length (file_lines es))%nat.
Proof.
  induction es as [|e es IH]; [done|]. unfold file_lines in *. simpl.
  rewrite length_app. destruct e; simpl; lia.
Qed.

(** The loop's fuel, the number of lines, is never what ends it: more fuel
    gives the same result. *)
Lemma heredoc_shorter d v ls w ls' : heredoc d v ls = Some (w, ls') -> (length ls' < length ls)%nat.
Proof.
  revert v. induction ls as [|l ls IH]; intros v; simpl; [done|].
  case_decide; [intros [= <- <-]; lia|]. intros ?%IH. lia.
Qed.

Lemma parse_env_fuel n m acc ls :
  (length ls <= n)%nat -> (length ls <= m)%nat ->
  parse_env_lines n acc ls = parse_env_lines m acc ls.
Proof.
  revert m acc ls. induction n as [|n IH]; intros m acc [|l ls] Hn Hm;
    try (simpl in *; lia); [by destruct m..|].
  destruct m as [|m]; [simpl in *; lia|]. simpl in Hn, Hm. cbn [parse_env_lines].
  destruct (classify l) as [k d|k v|]; [|apply IH; lia..].
  destruct (heredoc d [] ls) as [[w ls']|] eqn:Hh; [|done].
  apply heredoc_shorter in Hh. apply IH; lia.
Qed.

Lemma env_of_app es1 es2 : env_of (es1 ++ es2) = env_of es2 ∪ env_of es1.
Proof.
  unfold env_of. rewrite foldl_app. fold (env_of es1). generalize (env_of es1).
  intros m. induction es2 as [|e es2 IH] using rev_ind; [cbn [foldl]; by rewrite (left_id_L ∅ (∪))|].
  rewrite !foldl_app. cbn [foldl]. by rewrite IH, insert_union_l.
Qed.

Lemma env_of_last es k :
  env_of es !! k = entry_read <$> last (filter (fun e => entry_key e = k) es).
Proof.
  induction es as [|e es IH] using rev_ind; [apply lookup_empty|].
  unfold env_of. rewrite foldl_app, filter_app. cbn [foldl]. fold (env_of es).
  destruct (decide (entry_key e = k)) as [<-|Hne].
  - rewrite lookup_insert_eq, filter_cons_True by done.
    rewrite filter_nil. by rewrite last_snoc.
  - rewrite lookup_insert_ne, filter_cons_False by done. cbn. by rewrite app_nil_r.
Qed.

Lemma parse_file_data es :
  Forall good_entry es -> parseEnvFile (Some (file_data es)) = (Some (env_of es), None).
Proof.
  intros Hes. unfold parseEnvFile, file_data. rewrite scan_plain.
  - by rewrite parse_entries by (done || apply file_lines_length).
  - unfold file_lines. apply Forall_concat, Forall_map. apply (Forall_impl _ _ _ Hes).
    by intros e [? _].
Qed.

(** C29: reading back what a step wrote.  A file of assignments in the simple
    and the heredoc form parses without error to the map in which the last
    assignment of each name wins, with the value as it was written or, when
    that starts with empty lines, without those.  Values may hold any bytes
    (other assignments, equals signs and double angle brackets included),
    except that no line ends in a carriage return or is longer than the
    scanner's buffer, a value in the simple form is one line and no line of a
    heredoc is its delimiter; names are not empty and have no [=] and no [<<]. *)
Theorem env_file_roundtrip es :
  Forall good_entry es ->
  parseEnvFile (Some (file_data es)) = (Some (env_of es), None) /\
  (forall k, env_of es !! k = entry_read <$> last (filter (fun e => entry_key e = k) es)) /\
  (forall e, e ∈ es -> has_prefix (entry_val e) [nl] = false -> entry_read e = entry_val e).
Proof.
  intros Hes. split; [by apply parse_file_data|]. split; [intros k; apply env_of_last|].
  intros [k v|k d ls] _ Hv; [done|by apply trim_blank_id].
Qed.

Lemma env_file_roundtrip_witness :
  let es := [Simple "URL" "a=b<<c"; Here "NOTES" "EOF" ["x=1"; ""; "<<y"]; Simple "URL" "new"] in
  parseEnvFile (Some (file_data es)) = (Some (env_of es), None) /\
  env_of es !! ("URL" : gostring) = Some ("new" : gostring).
Proof.
  intros es. split; [|vm_compute; reflexivity].
  apply (env_file_roundtrip es). unfold good_entry, good_key, plain_line.
  repeat first [apply Forall_cons; split | apply Forall_nil_2 | split];
    try decide_now; try reflexivity; discriminate.
Defined.

(** A leading blank line is lost. *)
Example heredoc_drops_leading_blank :
  let e := Here "K" "EOF" [[]; "a"; "b"] in
  (parseEnvFile (Some (file_data [e]))).1 = Some {[("K" : gostring) := (["a"%char; nl; "b"%char] : gostring)]} /\
  entry_val e = [nl; "a"%char; nl; "b"%char].
Proof. split; [vm_compute; reflexivity|reflexivity]. Qed.
