(* ===== verification/Entrypoint.v ===== *)
(** * The step runner ([cmd/entrypoint/main.go], [pkg/types/step.go])

    [runEntrypoint]: the loop over a manifest's steps, with the state events
    it writes, the environment each step gets and what is carried from one
    step to the next.  Running a command, preparing the per-step files and
    mirroring the cache are operations of an interface ([StepRunner]); the
    expression evaluator is another ([StepEvaluator]). *)
From Stdlib Require Import Ascii QArith.
From S2P Require Import Prelude GoStrings Envfile.
#[local] Open Scope Z_scope.
#[local] Open Scope go_scope.

(** ** Data ([pkg/types/step.go]) *)

Record ManifestStep := {
  ID : gostring;
  Name : gostring;
  Command : gostring;
  Args : list gostring;
  Shell : gostring;
  Env : gmap gostring gostring;
  WorkDir : gostring;
  ContinueOnError : bool;
  If : gostring;
  TimeoutMinutes : Q;
}.

(** The manifest; [Context] is the serialised evaluation context, of a type
    the evaluator knows. *)
Record Manifest (C : Type) := {
  Steps : list ManifestStep;
  BaseEnv : gmap gostring gostring;
  Context : option C;
  CachePaths : list gostring;
}.
Arguments Steps {C} _.
Arguments BaseEnv {C} _.
Arguments Context {C} _.
Arguments CachePaths {C} _.

(** A line of [state.jsonl]: [Event] is "start", "end" or "skip".  The time
    stamp, which nothing reads, is left out. *)
Record StateEvent := {
  Event : gostring;
  Step : Z;
  EvName : gostring;
  ExitCode : Z;
}.

#[export] Instance state_event_eq_dec : EqDecision StateEvent.
Proof. solve_decision. Defined.

Record StepResult := {
  srExitCode : Z;
  srOutputs : gmap gostring gostring;
}.

(** ** The environment of a step ([buildStepEnv]) *)

Definition env_pair (e : gostring) : option (gostring * gostring) :=
  match index_byte equals e with
  | Some i => if (0 <? i)%nat then Some (take i e, drop (i + 1) e) else None
  | None => None
  end.

(** The process environment: a later assignment of a name wins. *)
Definition process_env (environ : list gostring) : gmap gostring gostring :=
  foldl (fun m e => match env_pair e with Some (k, v) => <[k := v]> m | None => m end)
    ∅ environ.

(** [for k, v := range layer { env[k] = v }]. *)
Definition overlay (env layer : gmap gostring gostring) : gmap gostring gostring := layer ∪ env.

Definition buildStepEnv (environ : list gostring) (base accumulated stepEnv : gmap gostring gostring)
    (extraPaths : list gostring) : gmap gostring gostring :=
  let env := overlay (overlay (overlay (process_env environ) base) accumulated) stepEnv in
  if (0 <? length extraPaths)%nat then
    <[("PATH" : gostring) := join ":" extraPaths ++ ":" ++ default [] (env !! ("PATH" : gostring))]> env
  else env.

(** The per-step files: [filepath.Join] of the work directory and a name. *)
Definition step_file (workDir kind : gostring) (i : nat) : gostring :=
  workDir ++ "/" ++ kind ++ "-" ++ itoa (Z.of_nat i).

(** The assignments [runEntrypoint] makes on top, in its order. *)
Definition step_vars (workDir : gostring) (i : nat) : list (gostring * gostring) :=
  [("GITHUB_OUTPUT", step_file workDir "output" i);
   ("FORGEJO_OUTPUT", step_file workDir "output" i);
   ("GITHUB_ENV", step_file workDir "env" i);
   ("FORGEJO_ENV", step_file workDir "env" i);
   ("GITHUB_PATH", step_file workDir "path" i);
   ("FORGEJO_PATH", step_file workDir "path" i);
   ("GITHUB_STATE", step_file workDir "state" i);
   ("FORGEJO_STATE", step_file workDir "state" i);
   ("GITHUB_STEP_SUMMARY", step_file workDir "summary" i);
   ("FORGEJO_STEP_SUMMARY", step_file workDir "summary" i);
   ("GITHUB_WORKSPACE", "/workspace");
   ("FORGEJO_WORKSPACE", "/workspace");
   ("RUNNER_TEMP", "/tmp")].

Definition set_vars (vars : list (gostring * gostring)) (env : gmap gostring gostring)
    : gmap gostring gostring :=
  foldl (fun m p => <[p.1 := p.2]> m) env vars.

(** ** Running one step ([executeStep]) *)

(** The command line: direct, or through the step's shell. *)
Definition step_argv (s : ManifestStep) : list gostring :=
  match Args s with
  | _ :: _ => Args s
  | [] =>
      let shell := if decide (Shell s = []) then ("sh" : gostring) else Shell s in
      if decide (shell = "bash") then
        ["/bin/bash"; "--noprofile"; "--norc"; "-eo"; "pipefail"; "-c"; Command s]
      else if decide (shell = "python") then ["python3"; "-c"; Command s]
      else ["/bin/sh"; "-e"; "-c"; Command s]
  end.

Definition step_dir (s : ManifestStep) : gostring :=
  if decide (WorkDir s = []) then "/workspace" else WorkDir s.

(** What [runCommand] and the context tell: success, the step's deadline
    passed, an exit with a code, or another failure to run. *)
Inductive exec_outcome :=
  | RanOk
  | TimedOut
  | Exited (code : Z)
  | ExecError.

Definition exit_code (o : exec_outcome) : Z :=
  match o with RanOk => 0 | TimedOut => 1 | Exited c => c | ExecError => 1 end.

(** The contents of the step's output, environment and path files once it has
    ended; [None] for a file it removed. *)
Record step_files := {
  output_data : option gostring;
  env_data : option gostring;
  path_data : option gostring;
}.

(** The world steps run in.  [run_cmd] gets the argument vector, directory,
    environment and, for a step with a timeout, its minutes. *)
Class StepRunner (W : Type) := {
  run_cmd : nat -> list gostring -> gostring -> gmap gostring gostring -> option Q -> W ->
            exec_outcome * step_files * W;
  create_files : nat -> W -> bool * W;
  mirror_cache : list gostring -> W -> bool * W;
}.

(** The evaluator of [if:] conditions ([expressions.Evaluator]). *)
Class StepEvaluator (C E : Type) := {
  NewEvaluator : C -> E;
  EvalCondition : gostring -> E -> result unit bool;
  SetJobStatus : gostring -> E -> E;
  SetStepResult : gostring -> gostring -> bool -> gmap gostring gostring -> E -> E;
}.

(** ** The loop *)

Section runner.
Context {W C E : Type} `{StepRunner W} `{StepEvaluator C E}.
Context (environ : list gostring) (workDir : gostring).

Record LoopState := {
  accumulatedEnv : gmap gostring gostring;
  accumulatedPaths : list gostring;
  stepResults : gmap gostring StepResult;
  overallSuccess : bool;
  hadFailure : bool;
  evaluator : option E;
  events : list StateEvent;
  lworld : W;
}.

(** How a round ends: with the next step, leaving the loop ([break]),
    returning false, or exiting the process. *)
Inductive round_end := Continue | Break | ReturnFalse | Exit1.

Definition writeState (ev : StateEvent) (s : LoopState) : LoopState :=
  {| accumulatedEnv := accumulatedEnv s; accumulatedPaths := accumulatedPaths s;
     stepResults := stepResults s; overallSuccess := overallSuccess s;
     hadFailure := hadFailure s; evaluator := evaluator s; events := events s ++ [ev];
     lworld := lworld s |}.

Definition set_world (w : W) (s : LoopState) : LoopState :=
  {| accumulatedEnv := accumulatedEnv s; accumulatedPaths := accumulatedPaths s;
     stepResults := stepResults s; overallSuccess := overallSuccess s;
     hadFailure := hadFailure s; evaluator := evaluator s; events := events s; lworld := w |}.

Definition start_event (i : nat) (step : ManifestStep) : StateEvent :=
  {| Event := "start"; Step := Z.of_nat i; EvName := Name step; ExitCode := 0 |}.
Definition skip_event (i : nat) (step : ManifestStep) : StateEvent :=
  {| Event := "skip"; Step := Z.of_nat i; EvName := Name step; ExitCode := 0 |}.
Definition end_event (i : nat) (step : ManifestStep) (code : Z) : StateEvent :=
  {| Event := "end"; Step := Z.of_nat i; EvName := Name step; ExitCode := code |}.

(** The two tests before a step runs: its own condition, when there is an
    evaluator (an error counts as false), and the implicit success(). *)
Definition condition_false (step : ManifestStep) (s : LoopState) : bool :=
  match evaluator s with
  | Some e => bool_decide (If step <> []) &&
              match EvalCondition (If step) e with Ok b => negb b | Err _ => true end
  | None => false
  end.

Definition skips (step : ManifestStep) (s : LoopState) : bool :=
  condition_false step s || (hadFailure s && bool_decide (If step = [])).

Definition step_env (base : gmap gostring gostring) (i : nat) (step : ManifestStep)
    (s : LoopState) : gmap gostring gostring :=
  set_vars (step_vars workDir i)
    (buildStepEnv environ base (accumulatedEnv s) (Env step) (accumulatedPaths s)).

Definition executeStep (i : nat) (step : ManifestStep) (env : gmap gostring gostring) (w : W)
    : Z * step_files * W :=
  let timeout := if Qlt_le_dec 0 (TimeoutMinutes step) then Some (TimeoutMinutes step) else None in
  let '(o, fs, w) := run_cmd i (step_argv step) (step_dir step) env timeout w in
  (exit_code o, fs, w).

(** What the loop keeps of a step that ran: its results, environment, paths,
    the evaluator's view and the end event. *)
Definition record_step (i : nat) (step : ManifestStep) (code : Z) (fs : step_files)
    (s : LoopState) : LoopState :=
  let outputs := default ∅ (parseEnvFile (output_data fs)).1 in
  let newEnv := default ∅ (parseEnvFile (env_data fs)).1 in
  let newPaths := (parsePaths (path_data fs)).1 in
  let failed := bool_decide (code <> 0) in
  writeState (end_event i step code)
    {| accumulatedEnv := overlay (accumulatedEnv s) newEnv;
       accumulatedPaths := accumulatedPaths s ++ newPaths;
       stepResults := <[ID step := {| srExitCode := code; srOutputs := outputs |}]> (stepResults s);
       overallSuccess := overallSuccess s && negb (failed && negb (ContinueOnError step));
       hadFailure := hadFailure s || (failed && negb (ContinueOnError step));
       evaluator :=
         (fun e =>
            let e := if failed && negb (ContinueOnError step)
                     then SetJobStatus "failure" e else e in
            SetStepResult (ID step) (if failed then "failure" else "success")
              (ContinueOnError step) outputs e) <$> evaluator s;
       events := events s; lworld := lworld s |}.

Definition run_step (m : Manifest C) (hasRuntimeConditions : bool) (i : nat)
    (step : ManifestStep) (s : LoopState) : LoopState * round_end :=
  let '(mirrored, s) :=
    if (0 <? length (CachePaths m))%nat
    then let '(b, w) := mirror_cache (CachePaths m) (lworld s) in (b, set_world w s)
    else (true, s) in
  if negb mirrored then (s, Exit1) else
  if skips step s then (writeState (skip_event i step) s, Continue) else
  let s := writeState (start_event i step) s in
  let '(created, w) := create_files i (lworld s) in
  let s := set_world w s in
  if negb created then (s, ReturnFalse) else
  let '(code, fs, w) := executeStep i step (step_env (BaseEnv m) i step s) (lworld s) in
  let s := record_step i step code fs (set_world w s) in
  (s, if bool_decide (code <> 0) && negb (ContinueOnError step) && negb hasRuntimeConditions
      then Break else Continue).

Fixpoint run_steps (m : Manifest C) (hrc : bool) (i : nat) (steps : list ManifestStep)
    (s : LoopState) : LoopState * round_end :=
  match steps with
  | [] => (s, Continue)
  | step :: steps =>
      match run_step m hrc i step s with
      | (s, Continue) => run_steps m hrc (S i) steps s
      | (s, e) => (s, e)
      end
  end.

Definition has_runtime_conditions (steps : list ManifestStep) : bool :=
  existsb (fun step => bool_decide (If step <> [])) steps.

Definition init_loop (m : Manifest C) (w : W) : LoopState :=
  {| accumulatedEnv := ∅; accumulatedPaths := []; stepResults := ∅; overallSuccess := true;
     hadFailure := false; evaluator := NewEvaluator <$> Context m; events := []; lworld := w |}.

(** [runEntrypoint] on a manifest that was read: its result ([None] when the
    process exits), the results it writes, if it gets there, and the events. *)
Definition runEntrypoint (m : Manifest C) (w : W)
    : option bool * option (gmap gostring StepResult) * LoopState :=
  let '(s, e) := run_steps m (has_runtime_conditions (Steps m)) 0 (Steps m) (init_loop m w) in
  match e with
  | Exit1 => (None, None, s)
  | ReturnFalse => (Some false, None, s)
  | Continue | Break => (Some (overallSuccess s), Some (stepResults s), s)
  end.
End runner.

(** ** What the events say *)

(** The outcome of a round that completed: skipped, or run with an exit code. *)
Definition block (i : nat) (step : ManifestStep) (o : option Z) : list StateEvent :=
  match o with
  | None => [skip_event i step]
  | Some code => [start_event i step; end_event i step code]
  end.

Fixpoint blocks (i : nat) (steps : list ManifestStep) (os : list (option Z)) : list StateEvent :=
  match steps, os with
  | step :: steps, o :: os => block i step o ++ blocks (S i) steps os
  | _, _ => []
  end.

(** A failure that is not swallowed by continue-on-error. *)
Definition hard (step : ManifestStep) (o : option Z) : bool :=
  match o with
  | None => false
  | Some code => bool_decide (code <> 0) && negb (ContinueOnError step)
  end.

Fixpoint any_hard (steps : list ManifestStep) (os : list (option Z)) : bool :=
  match steps, os with
  | step :: steps, o :: os => hard step o || any_hard steps os
  | _, _ => false
  end.

(** Once a step has failed hard, every later step without a condition of its
    own is skipped. *)
Fixpoint implicit_success (failed : bool) (steps : list ManifestStep) (os : list (option Z)) : Prop :=
  match steps, os with
  | step :: steps, o :: os =>
      (failed = true -> If step = [] -> o = None) /\
      implicit_success (failed || hard step o) steps os
  | _, _ => True
  end.

Section runner_spec.
Context {W C E : Type} `{StepRunner W} `{StepEvaluator C E}.
Context (environ : list gostring) (workDir : gostring).
Implicit Types s : @LoopState W E.

Definition advanced (i : nat) (step : ManifestStep) (o : option Z) s s' : Prop :=
  events s' = events s ++ block i step o /\
  hadFailure s' = hadFailure s || hard step o /\
  overallSuccess s' = overallSuccess s && negb (hard step o) /\
  (hadFailure s = true -> If step = [] -> o = None).

Lemma run_step_spec (m : Manifest C) hrc i step s s' e :
  run_step environ workDir m hrc i step s = (s', e) ->
  match e with
  | Exit1 => events s' = events s
  | ReturnFalse => events s' = events s ++ [start_event i step]
  | Continue => exists o, advanced i step o s s' /\ (hard step o = true -> hrc = true)
  | Break => exists o, advanced i step o s s' /\ hard step o = true /\ hrc = false
  end.
Proof.
  unfold run_step.
  destruct (if (0 <? _)%nat then _ else _) as [mirrored s1] eqn:Hm.
  assert (events s1 = events s /\ hadFailure s1 = hadFailure s /\
          overallSuccess s1 = overallSuccess s) as (He1 & Hf1 & Ho1).
  { destruct (0 <? _)%nat; [|by injection Hm as <- <-].
    destruct (mirror_cache _ _) as [b w]. by injection Hm as <- <-. }
  destruct mirrored; cbn [negb]; [|by intros [= <- <-]].
  destruct (skips step s1) eqn:Hsk.
  { intros [= <- <-]. exists None. split; [|done]. unfold advanced. simpl.
    by rewrite He1, Hf1, Ho1, orb_false_r, andb_true_r. }
  destruct (create_files i _) as [created w1].
  destruct created; cbn [negb]; [|intros [= <- <-]; simpl; by rewrite He1].
  destruct (executeStep _ _ _ _) as [[code fs] w2].
  set (o := Some code).
  match goal with |- (?x, _) = _ -> _ => set (s3 := x) end.
  assert (advanced i step o s s3) as Ha.
  { unfold advanced. subst s3. simpl. rewrite He1, Hf1, Ho1, <-app_assoc.
    split; [done|]. split; [done|]. split; [done|]. intros Hf Hif.
    unfold skips in Hsk. rewrite Hf1, Hf, bool_decide_true in Hsk by done.
    by rewrite orb_true_r in Hsk. }
  intros Heq. destruct (hard step o) eqn:Hh; unfold o, hard in Hh; rewrite Hh in Heq;
    destruct hrc; simpl in Heq; injection Heq as <- <-; exists o;
    (split; [exact Ha|]); unfold o, hard; rewrite Hh; auto.
Qed.

Lemma run_steps_spec (m : Manifest C) hrc i steps s s' e :
  run_steps environ workDir m hrc i steps s = (s', e) ->
  exists os tail, events s' = events s ++ blocks i steps os ++ tail /\
    (length os <= length steps)%nat /\ implicit_success (hadFailure s) steps os /\
    match e with
    | Continue =>
        length os = length steps /\ tail = [] /\ (any_hard steps os = true -> hrc = true) /\
        overallSuccess s' = overallSuccess s && negb (any_hard steps os)
    | Break =>
        tail = [] /\ hrc = false /\ any_hard steps os = true /\
        any_hard steps (removelast os) = false /\ overallSuccess s' = false
    | ReturnFalse => exists step, steps !! length os = Some step /\
        tail = [start_event (i + length os) step]
    | Exit1 => (length os < length steps)%nat /\ tail = []
    end.
Proof.
  revert i s. induction steps as [|step steps IH]; intros i s; cbn [run_steps].
  { intros [= <- <-]. exists [], []. simpl. by rewrite app_nil_r, andb_true_r. }
  destruct (run_step _ _ _ _ _ _ _) as [s1 e1] eqn:Hr. apply run_step_spec in Hr.
  destruct e1.
  - destruct Hr as (o & (He & Hf & Ho & Hsk) & Hhrc).
    intros (os & tail & He' & Hlen & Himp & Hend)%IH.
    exists (o :: os), tail. split; [rewrite He', He; cbn [blocks]; by rewrite <-!app_assoc|].
    split; [simpl; lia|]. split; [simpl; split; [done|by rewrite <-Hf]|].
    destruct e; cbn [any_hard length].
    + destruct Hend as (-> & -> & Hah & ->). split; [done|]. split; [done|]. split.
      * intros [?|?]%orb_true_iff; auto.
      * by rewrite Ho, negb_orb, andb_assoc.
    + destruct Hend as (-> & Hrc & Hah & Hrm & ?). split; [done|]. split; [done|].
      rewrite Hah, orb_true_r. split; [done|]. split; [|done].
      assert (hard step o = false) as Hno by (destruct (hard step o); [by rewrite Hhrc in Hrc|done]).
      destruct os as [|o' os]; [by destruct steps|]. cbn [removelast any_hard].
      by rewrite Hno.
    + destruct Hend as (st & Hst & ->). exists st. split; [done|].
      by rewrite <-Nat.add_succ_comm.
    + destruct Hend as (? & ->). split; [lia|done].
  - destruct Hr as (o & (He & Hf & Ho & Hsk) & Hhard & Hrc). intros [= <- <-].
    exists [o], []. rewrite He. cbn [blocks any_hard removelast implicit_success length].
    rewrite Hhard, Ho, Hhard, !app_nil_r, andb_false_r.
    split; [by destruct steps; rewrite ?app_nil_r|]. split; [lia|].
    split; [split; [done|by destruct steps]|]. done.
  - intros [= <- <-]. exists [], [start_event i step]. rewrite Hr. simpl.
    split; [done|]. split; [lia|]. split; [done|]. exists step. by rewrite Nat.add_0_r.
  - intros [= <- <-]. exists [], []. rewrite Hr. simpl. rewrite app_nil_r.
    split; [done|]. split; [lia|]. split; [done|]. split; [lia|done].
Qed.

(** The shape of the events, as the step results need it. *)
Lemma run_events_shape (m : Manifest C) w r res s :
  runEntrypoint environ workDir m w = (r, res, s) ->
  exists os tail, events s = blocks 0 (Steps m) os ++ tail /\
    (length os <= length (Steps m))%nat /\
    (tail = [] \/ exists step, tail = [start_event (length os) step]) /\
    (r = Some true -> length os = length (Steps m) /\ any_hard (Steps m) os = false).
Proof.
  unfold runEntrypoint. destruct (run_steps _ _ _ _ _ _ _) as [s1 e] eqn:Hr.
  apply run_steps_spec in Hr as (os & tail & He & Hlen & _ & Hend). simpl in He.
  intros Hres. exists os, tail. destruct e; injection Hres as <- <- <-.
  - destruct Hend as (Hl & -> & _ & ->). split; [done|]. split; [done|]. split; [by left|].
    simpl. intros [= Hn]. split; [done|]. by apply negb_true_iff in Hn.
  - destruct Hend as (-> & _ & _ & _ & ->). split; [done|]. split; [done|]. by split; [left|].
  - destruct Hend as (step & _ & ->). split; [done|]. split; [done|].
    split; [right; by exists step|done].
  - destruct Hend as (_ & ->). split; [done|]. split; [done|]. by split; [left|].
Qed.

(** C2: the state events of a run.  They are, for an initial segment of the
    steps in order, either one skip event or a start event followed by the end
    event with the step's exit code; a hard failure makes every later step
    without a condition skipped.  The run succeeds exactly when the whole
    list was gone through without a failure that continue-on-error does not
    swallow; it ends early only at a hard failure in a manifest without
    conditions (and that step is the last), or when the step's files (after
    its start event) or the cache links could not be made. *)
Theorem run_events (m : Manifest C) w r res s :
  runEntrypoint environ workDir m w = (r, res, s) ->
  exists os tail, events s = blocks 0 (Steps m) os ++ tail /\
    (length os <= length (Steps m))%nat /\ implicit_success false (Steps m) os /\
    match r with
    | Some true => length os = length (Steps m) /\ tail = [] /\ any_hard (Steps m) os = false
    | Some false =>
        (tail = [] /\ any_hard (Steps m) os = true /\
           (length os = length (Steps m) \/
            has_runtime_conditions (Steps m) = false /\
            any_hard (Steps m) (removelast os) = false)) \/
        (exists step, Steps m !! length os = Some step /\ tail = [start_event (length os) step])
    | None => (length os < length (Steps m))%nat /\ tail = []
    end.
Proof.
  unfold runEntrypoint. destruct (run_steps _ _ _ _ _ _ _) as [s1 e] eqn:Hr.
  apply run_steps_spec in Hr as (os & tail & He & Hlen & Himp & Hend). simpl in He, Himp.
  intros Hres. exists os, tail. destruct e; injection Hres as <- <- <-.
  - split; [done|]. split; [done|]. split; [done|].
    destruct Hend as (Hl & -> & _ & ->). simpl. destruct (any_hard _ os); simpl; [|done].
    left. split; [done|]. split; [done|]. by left.
  - split; [done|]. split; [done|]. split; [done|].
    destruct Hend as (-> & Hrc & Hah & Hrm & ->). left. split; [done|]. split; [done|]. by right.
  - split; [done|]. split; [done|]. split; [done|]. by right.
  - split; [done|]. split; [done|]. split; [done|]. done.
Qed.
End runner_spec.

(** ** The environment a step sees *)

Lemma overlay_lookup env layer k :
  overlay env layer !! k = match layer !! k with Some v => Some v | None => env !! k end.
Proof. unfold overlay. rewrite lookup_union. by destruct (layer !! k), (env !! k). Qed.

Lemma set_vars_other vars env k : k ∉ vars.*1 -> set_vars vars env !! k = env !! k.
Proof.
  unfold set_vars. revert env. induction vars as [|[k' v'] vars IH]; intros env Hk; [done|].
  apply not_elem_of_cons in Hk as [Hne Hk]. simpl. rewrite IH by done.
  by rewrite lookup_insert_ne.
Qed.

(** The names [runEntrypoint] sets itself, whatever the step. *)
Definition reserved : list gostring := (step_vars [] 0).*1.

Lemma reserved_spec workDir i : (step_vars workDir i).*1 = reserved.
Proof. done. Qed.

Lemma buildStepEnv_lookup environ base acc stepEnv paths k :
  k <> "PATH" ->
  buildStepEnv environ base acc stepEnv paths !! k =
    match stepEnv !! k with Some v => Some v | None =>
    match acc !! k with Some v => Some v | None =>
    match base !! k with Some v => Some v | None => process_env environ !! k end end end.
Proof.
  intros Hk. unfold buildStepEnv.
  destruct (0 <? length paths)%nat; rewrite ?lookup_insert_ne by done; by rewrite !overlay_lookup.
Qed.

(** Any world of steps, with a record of the steps it ran: their position,
    the environment each was given, and the files it left. *)
Definition ran : Type := nat * gmap gostring gostring * step_files.

#[local] Instance logged {W} `{StepRunner W} : StepRunner (W * list ran) := {|
  run_cmd i argv dir env t w :=
    let '(o, fs, w') := run_cmd i argv dir env t w.1 in (o, fs, (w', w.2 ++ [(i, env, fs)]));
  create_files i w := let '(b, w') := create_files i w.1 in (b, (w', w.2));
  mirror_cache ps w := let '(b, w') := mirror_cache ps w.1 in (b, (w', w.2));
|}.

(** What a step's environment file adds: its assignments, or nothing when the
    file is gone. *)
Definition wrote (data : option gostring) (es : list entry) : Prop :=
  match data with
  | Some data => data = file_data es /\ Forall good_entry es
  | None => es = []
  end.

Section env_spec.
Context {W C E : Type} `{StepRunner W} `{StepEvaluator C E}.
Context (environ : list gostring) (workDir : gostring).
Implicit Types s : @LoopState (W * list ran) E.

Definition exports (l : list ran) : gmap gostring gostring :=
  foldl (fun m r => overlay m (default ∅ (parseEnvFile (env_data r.2)).1)) ∅ l.

Definition env_files (l : list ran) : list (option gostring) := map (fun r => env_data r.2) l.

Lemma exports_wrote l ess : Forall2 wrote (env_files l) ess -> exports l = env_of (concat ess).
Proof.
  revert ess. induction l as [|r l IH] using rev_ind; intros ess Hl.
  { by apply Forall2_nil_inv_l in Hl as ->. }
  unfold env_files in Hl. rewrite map_app in Hl.
  apply Forall2_app_inv_l in Hl as (ess1 & ess2 & Hl & Hr & ->).
  apply Forall2_cons_inv_l in Hr as (es & ess3 & Hw & Hn & ->).
  apply Forall2_nil_inv_l in Hn as ->.
  unfold exports. rewrite foldl_app. fold (exports l). cbn [foldl].
  rewrite concat_app, env_of_app, (IH ess1) by done. simpl. rewrite app_nil_r. unfold overlay. f_equal.
  destruct (env_data r.2) as [data|]; [|by rewrite Hw].
  destruct Hw as [-> Hes]. by rewrite parse_file_data.
Qed.

(** The environment step [step] was given, after the runs [l]. *)
Definition given (m : Manifest C) (l : list ran) (r : ran) : Prop :=
  exists step, Steps m !! r.1.1 = Some step /\
    forall k, (k ∉ reserved) -> k <> "PATH" -> r.1.2 !! k =
      match Env step !! k with Some v => Some v | None =>
      match exports l !! k with Some v => Some v | None =>
      match BaseEnv m !! k with Some v => Some v | None => process_env environ !! k end end end.

Fixpoint all_given (m : Manifest C) (l l' : list ran) : Prop :=
  match l' with [] => True | r :: l' => given m l r /\ all_given m (l ++ [r]) l' end.

Lemma all_given_snoc m l l' r : all_given m l (l' ++ [r]) <-> all_given m l l' /\ given m (l ++ l') r.
Proof.
  revert l. induction l' as [|x l' IH]; intros l; cbn [app all_given].
  - rewrite app_nil_r. tauto.
  - rewrite IH, <-app_assoc. cbn [app]. tauto.
Qed.

Lemma all_given_at m l pre r post : all_given m l (pre ++ r :: post) -> given m (l ++ pre) r.
Proof.
  revert l. induction pre as [|x pre IH]; intros l; cbn [app all_given].
  - rewrite app_nil_r. by intros [? _].
  - intros [_ Hp%IH]. by rewrite <-app_assoc in Hp.
Qed.

Definition env_inv (m : Manifest C) s : Prop :=
  accumulatedEnv s = exports (lworld s).2 /\ all_given m [] (lworld s).2.

Lemma run_step_env m hrc i step s :
  Steps m !! i = Some step -> env_inv m s ->
  env_inv m (run_step environ workDir m hrc i step s).1.
Proof.
  intros Hi Hs. unfold run_step.
  destruct (if (0 <? _)%nat then _ else _) as [mirrored s1] eqn:Hm.
  assert (env_inv m s1) as Hs1.
  { destruct (0 <? _)%nat; [|by injection Hm as <- <-]. simpl in Hm.
    destruct (mirror_cache _ _). by injection Hm as <- <-. }
  destruct mirrored; cbn [negb]; [|done]. destruct (skips step s1); [done|].
  destruct (create_files i _) as [created w1] eqn:Hc. simpl in Hc.
  destruct (create_files i _) as [b w1'] in Hc. injection Hc as <- <-.
  destruct b; cbn [negb]; [|done].
  unfold executeStep. cbn [run_cmd logged set_world lworld fst snd].
  destruct (run_cmd _ _ _ _ _ _) as [[o fs] w2]. destruct Hs1 as [Ha Hg].
  unfold env_inv, record_step. cbn -[step_env exports]. split.
  - unfold exports. rewrite foldl_app. fold (exports (lworld s1).2). cbn. by rewrite Ha.
  - apply all_given_snoc. split; [done|]. exists step. split; [done|]. intros k Hk Hp.
    cbn [fst snd]. unfold step_env. rewrite set_vars_other by by rewrite reserved_spec.
    rewrite buildStepEnv_lookup by done. cbn [accumulatedEnv writeState set_world]. by rewrite Ha.
Qed.

Lemma run_steps_env m hrc i steps s :
  (forall j step, steps !! j = Some step -> Steps m !! (i + j)%nat = Some step) ->
  env_inv m s -> env_inv m (run_steps environ workDir m hrc i steps s).1.
Proof.
  revert i s. induction steps as [|step steps IH]; intros i s Hst Hs; [done|]. cbn [run_steps].
  assert (env_inv m (run_step environ workDir m hrc i step s).1) as Hs1.
  { apply run_step_env; [|done]. by rewrite <-(Hst 0%nat step), Nat.add_0_r. }
  destruct (run_step _ _ _ _ _ _ _) as [s1 []]; [|done..].
  apply IH; [|done]. intros j st Hj. rewrite Nat.add_succ_comm. by apply Hst.
Qed.

(** C30: variables exported through the environment file reach the later
    steps, all of them.  Over a whole run, whatever the steps do: a step that
    runs is one of the manifest's, and if the environment files of the steps
    that ran before it were well formed (in the sense of the round trip) or
    removed, then the environment it is given has, for every name but [PATH]
    and the ones the runner sets itself, the step's own [env:], else the last
    value any of those steps exported, however many steps ago, else the
    manifest's base environment, else the process environment. *)
Theorem exported_env_visible (m : Manifest C) w r res s pre i env fs post ess k :
  runEntrypoint environ workDir m (w, []) = (r, res, s) ->
  (lworld s).2 = pre ++ (i, env, fs) :: post -> Forall2 wrote (env_files pre) ess ->
  (k ∉ reserved) -> k <> "PATH" ->
  exists step, Steps m !! i = Some step /\
    env !! k =
      match Env step !! k with Some v => Some v | None =>
      match env_of (concat ess) !! k with Some v => Some v | None =>
      match BaseEnv m !! k with Some v => Some v | None => process_env environ !! k end end end.
Proof.
  intros Hr Hl Hess Hk Hp.
  assert (env_inv m (run_steps environ workDir m (has_runtime_conditions (Steps m)) 0 (Steps m)
    (init_loop m (w, []))).1) as Hinv by by apply run_steps_env.
  assert (env_inv m s) as [_ Hg].
  { unfold runEntrypoint in Hr. destruct (run_steps _ _ _ _ _ _ _) as [s1 []];
      by injection Hr as <- <- <-. }
  rewrite Hl in Hg. apply all_given_at in Hg as (step & Hi & Henv).
  exists step. split; [done|]. rewrite <-(exports_wrote _ _ Hess). by apply Henv.
Qed.
End env_spec.

(** ** A concrete run *)

(** Commands whose exit codes are given in advance; no step writes files. *)
Definition scripted : StepRunner (list Z) := {|
  run_cmd i argv dir env t w :=
    (match w with [] => RanOk | 0 :: _ => RanOk | c :: _ => Exited c end,
     {| output_data := Some []; env_data := Some []; path_data := Some [] |}, drop 1 w);
  create_files i w := (true, w);
  mirror_cache ps w := (true, w);
|}.

(** An evaluator that knows the job status and the condition [always()]. *)
Definition status_eval : StepEvaluator unit bool := {|
  NewEvaluator _ := true;
  EvalCondition c e := Ok (if decide (c = "always()") then true else e);
  SetJobStatus st _ := bool_decide (st = "success");
  SetStepResult _ _ _ _ e := e;
|}.

Definition sample_step (id cond : gostring) (coe : bool) : ManifestStep :=
  {| ID := id; Name := id; Command := "true"; Args := []; Shell := []; Env := ∅; WorkDir := [];
     ContinueOnError := coe; If := cond; TimeoutMinutes := 0 |}.

Definition sample_manifest : Manifest unit :=
  {| Steps := [sample_step "a" [] true; sample_step "b" [] false; sample_step "c" [] false;
               sample_step "d" "always()" false];
     BaseEnv := ∅; Context := Some tt; CachePaths := [] |}.

Definition sample_result : option bool * option (gmap gostring StepResult) * @LoopState (list Z) bool :=
  @runEntrypoint _ _ _ scripted status_eval [] "/shim" sample_manifest [1; 2; 0].

Lemma run_events_witness :
  events sample_result.2 =
    [start_event 0 (sample_step "a" [] true); end_event 0 (sample_step "a" [] true) 1;
     start_event 1 (sample_step "b" [] false); end_event 1 (sample_step "b" [] false) 2;
     skip_event 2 (sample_step "c" [] false);
     start_event 3 (sample_step "d" "always()" false);
     end_event 3 (sample_step "d" "always()" false) 0] /\
  sample_result.1.1 = Some false /\
  exists os tail, events sample_result.2 = blocks 0 (Steps sample_manifest) os ++ tail /\
    implicit_success false (Steps sample_manifest) os.
Proof.
  split; [vm_compute; reflexivity|]. split; [vm_compute; reflexivity|].
  destruct (@run_events _ _ _ scripted status_eval [] "/shim" sample_manifest [1; 2; 0]
    sample_result.1.1 sample_result.1.2 sample_result.2) as (os & tail & He & _ & Hi & _).
  - unfold sample_result. by destruct (runEntrypoint _ _ _ _) as [[? ?] ?].
  - exists os, tail. split; [exact He|exact Hi].
Defined.

(** Commands that leave the given environment files. *)
Definition writing : StepRunner (list (list entry)) := {|
  run_cmd i argv dir env t w :=
    (RanOk, {| output_data := Some []; env_data := Some (file_data (default [] (head w)));
               path_data := Some [] |}, drop 1 w);
  create_files i w := (true, w);
  mirror_cache ps w := (true, w);
|}.

(** Exported by the first step, still there in the third. *)
Definition export_entries : list (list entry) :=
  [[Simple "VERSION" "1.2"; Here "NOTES" "EOF" ["a"; "b"]]; [Simple "OTHER" "x"]].

Definition export_manifest : Manifest unit :=
  {| Steps := [sample_step "a" [] false; sample_step "b" [] false; sample_step "c" [] false];
     BaseEnv := ∅; Context := Some tt; CachePaths := [] |}.

Definition export_result :=
  @runEntrypoint _ _ _ (@logged _ writing) status_eval [] "/shim" export_manifest (export_entries, []).

Definition third_run : ran := default (0%nat, ∅, {| output_data := None; env_data := None; path_data := None |})
  ((lworld export_result.2).2 !! 2%nat).

Lemma exported_env_visible_witness :
  third_run.1.2 !! ("NOTES" : gostring) = Some (["a"%char; nl; "b"%char] : gostring).
Proof.
  assert (is_Some ((lworld export_result.2).2 !! 2%nat)) as [x Hx].
  { apply lookup_lt_is_Some_2.
    assert (length (lworld export_result.2).2 = 3%nat) as -> by (vm_compute; reflexivity). lia. }
  assert (third_run = x) as Ht by exact (f_equal (default _) Hx).
  assert (third_run.1.1 = 2%nat) as Hi by (vm_compute; reflexivity).
  destruct (@exported_env_visible _ unit bool writing status_eval [] "/shim" export_manifest
    export_entries export_result.1.1 export_result.1.2 export_result.2
    (take 2 (lworld export_result.2).2) 2%nat third_run.1.2 third_run.2
    (drop 3 (lworld export_result.2).2) export_entries "NOTES")
    as (step & Hs & He).
  - unfold export_result. by destruct (runEntrypoint _ _ _ _) as [[? ?] ?].
  - rewrite <-(take_drop 2 (lworld export_result.2).2) at 1. apply (f_equal (app _)).
    rewrite (drop_S _ x 2%nat Hx), <-Ht, <-Hi. by destruct third_run as [[? ?] ?].
  - assert (env_files (take 2 (lworld export_result.2).2) = map (Some ∘ file_data) export_entries)
      as -> by (vm_compute; reflexivity).
    unfold export_entries, wrote, compose, good_entry, good_key, plain_line. cbn [map].
    repeat first [apply Forall2_cons; split | apply Forall2_nil_2
                 | apply Forall_cons; split | apply Forall_nil_2 | split];
      try decide_now; try reflexivity; discriminate.
  - decide_now.
  - discriminate.
  - rewrite He. injection Hs as <-. vm_compute. reflexivity.
Defined.
