(* ===== verification/Expressions.v ===== *)
(** * Expressions ([pkg/expressions/])

    [rewriteSubExpression] turns a template with embedded expressions into one
    call of [format], [Evaluator] hands it to the expression interpreter of
    nektos/act and keeps the evaluation environment, and [BuildEnvironment]
    makes that environment from a task.  The interpreter is not part of the
    repository: it is the interface [Interp]. *)
From Stdlib Require Import Ascii QArith.
From S2P Require Import Prelude GoStrings Entrypoint.
#[local] Open Scope Z_scope.
#[local] Open Scope go_scope.

Definition quote : ascii := chr 39.
Definition lbrace : ascii := chr 123.
Definition rbrace : ascii := chr 125.
Definition open_expr : gostring := "${{".
Definition close_expr : gostring := "}}".

(** [strings.ReplaceAll] of a one-byte string. *)
Definition replace_byte (c : ascii) (r s : gostring) : gostring :=
  concat (map (fun x => if decide (x = c) then r else [x]) s).

(** ** Rewriting a template ([rewrite.go]) *)

Definition escapeFormatString (s : gostring) : gostring :=
  replace_byte rbrace [rbrace; rbrace] (replace_byte lbrace [lbrace; lbrace] s).

(** The end of the leftmost-first match of [(?:''|[^'])*'] at the start of
    [s]: pairs of quotes are consumed greedily and given back only when no
    single quote follows. *)
Fixpoint str_end (s : gostring) : option nat :=
  match s with
  | [] => None
  | c :: s1 =>
      if decide (c = quote) then
        match s1 with
        | d :: s2 =>
            if decide (d = quote) then
              match str_end s2 with Some n => Some (S (S n)) | None => Some 1%nat end
            else Some 1%nat
        | [] => Some 1%nat
        end
      else S <$> str_end s1
  end.

(** The variables of the loop: [exprStart] and [strStart] are [-1] or not. *)
Record rewriting := {
  pos : nat;
  exprStart : option nat;
  inString : bool;
  results : list gostring;
  formatOut : gostring;
}.

(** One round; [None] is a [return in]. *)
Definition rewrite_round (inp : gostring) (s : rewriting) : option rewriting :=
  let rest := drop (pos s) inp in
  if inString s then
    (fun n => {| pos := pos s + n; exprStart := exprStart s; inString := false;
                 results := results s; formatOut := formatOut s |}) <$> str_end rest
  else
    match exprStart s with
    | Some b =>
        let exprEnd := index close_expr rest in
        let strStart := index [quote] rest in
        let closes := match exprEnd, strStart with
                      | Some e, Some q => (e <? q)%nat
                      | Some _, None => true
                      | None, _ => false
                      end in
        match closes, exprEnd, strStart with
        | true, Some e, _ =>
            Some {| pos := pos s + e + 2; exprStart := None; inString := false;
                    results := results s ++ [trim_space (drop b (take (pos s + e) inp))];
                    formatOut := formatOut s ++ [lbrace] ++ itoa (Z.of_nat (length (results s)))
                                 ++ [rbrace] |}
        | _, _, Some q =>
            Some {| pos := pos s + q + 1; exprStart := Some b; inString := true;
                    results := results s; formatOut := formatOut s |}
        | _, _, None => None
        end
    | None =>
        match index open_expr rest with
        | Some e =>
            Some {| pos := pos s + e + 3; exprStart := Some (pos s + e + 3)%nat; inString := false;
                    results := results s;
                    formatOut := formatOut s ++ escapeFormatString (take e rest) |}
        | None =>
            Some {| pos := length inp; exprStart := None; inString := false;
                    results := results s;
                    formatOut := formatOut s ++ escapeFormatString rest |}
        end
    end.

Inductive rewrite_end := Finished (s : rewriting) | ReturnInput | OutOfFuel.

Fixpoint rewrite_loop (fuel : nat) (inp : gostring) (s : rewriting) : rewrite_end :=
  if (pos s <? length inp)%nat then
    match fuel with
    | O => OutOfFuel
    | S fuel => match rewrite_round inp s with
                | Some s => rewrite_loop fuel inp s
                | None => ReturnInput
                end
    end
  else Finished s.

Definition rewrite_init : rewriting :=
  {| pos := 0; exprStart := None; inString := false; results := []; formatOut := [] |}.

(** The call of [format] with the given format string and arguments. *)
Definition format_call (fmt : gostring) (args : list gostring) : gostring :=
  "format('" ++ replace_byte quote [quote; quote] fmt ++ "', " ++ join ", " args ++ ")".

Definition rewriteSubExpression (inp : gostring) (forceFormat : bool) : gostring :=
  if negb (contains open_expr inp) || negb (contains close_expr inp) then inp
  else
    match rewrite_loop (length inp) inp rewrite_init with
    | Finished s =>
        if bool_decide (length (results s) = 1%nat) && bool_decide (formatOut s = "{0}")
           && negb forceFormat then inp
        else format_call (formatOut s) (results s)
    | _ => inp
    end.

Example rewrite_mixed :
  rewriteSubExpression "Hello ${{ vars.world }}, {x}!" true =
    "format('Hello {0}, {{x}}!', vars.world)".
Proof. reflexivity. Qed.
Example rewrite_quoted :
  rewriteSubExpression "it's ${{ f('}}''') }}" false = "format('it''s {0}', f('}}'''))".
Proof. reflexivity. Qed.
Example rewrite_pure : rewriteSubExpression "${{ github.sha }}" false = "${{ github.sha }}".
Proof. reflexivity. Qed.
Example rewrite_unclosed : rewriteSubExpression "}} ${{ a" true = "}} ${{ a".
Proof. reflexivity. Qed.
(** An unclosed expression is dropped, not returned as is, when the input ends
    with a string literal of it. *)
Example unclosed_tail_dropped :
  rewriteSubExpression "${{ a }} ${{ 'x'" true = "format('{0} ', a)".
Proof. reflexivity. Qed.

(** *** Termination *)

Lemma str_end_other c s : c <> quote -> str_end (c :: s) = S <$> str_end s.
Proof. intros Hc. cbn [str_end]. by rewrite decide_False. Qed.

Lemma str_end_pair s :
  str_end (quote :: quote :: s) =
    match str_end s with Some n => Some (S (S n)) | None => Some 1%nat end.
Proof. done. Qed.

Lemma str_end_last s : head s <> Some quote -> str_end (quote :: s) = Some 1%nat.
Proof. intros Hs. destruct s as [|d s]; [done|]. simpl in *. rewrite decide_False; congruence. Qed.

Lemma str_end_bounds k s n : (length s <= k)%nat -> str_end s = Some n -> (0 < n <= length s)%nat.
Proof.
  revert s n. induction k as [|k IH]; intros [|c s] n Hk; simpl in Hk; try done; try lia.
  destruct (decide (c = quote)) as [->|Hc].
  - destruct (decide (head s = Some quote)) as [Hs|Hs].
    + destruct s as [|d s]; [done|]. injection Hs as ->. rewrite str_end_pair. simpl in Hk |- *.
      destruct (str_end s) as [m|] eqn:Hm; intros ?; simplify_eq; [|lia].
      apply IH in Hm; lia.
    + rewrite str_end_last by done. intros ?. simplify_eq. simpl. lia.
  - rewrite str_end_other by done. intros (m & Hm & ->)%fmap_Some. apply IH in Hm; simpl; lia.
Qed.

Lemma index_bounds sub s i : index sub s = Some i -> (i + length sub <= length s)%nat.
Proof.
  intros [[k Hk] Hi]%index_Some. apply (f_equal length) in Hk.
  rewrite length_drop, length_app in Hk. lia.
Qed.

(** Every round moves on, and never past the end of the input. *)
Lemma rewrite_round_progress inp s s' :
  (pos s < length inp)%nat -> rewrite_round inp s = Some s' ->
  (pos s < pos s' <= length inp)%nat.
Proof.
  intros Hpos. unfold rewrite_round. set (rest := drop (pos s) inp).
  assert (length rest = length inp - pos s)%nat as Hrest by (apply length_drop).
  destruct (inString s).
  { intros (n & Hn & ->)%fmap_Some. apply str_end_bounds with (k := length rest) in Hn; simpl; lia. }
  destruct (exprStart s) as [b|].
  - destruct (index close_expr rest) as [e|] eqn:He;
      destruct (index [quote] rest) as [q|] eqn:Hq;
      try apply index_bounds in He; try apply index_bounds in Hq; simpl in *.
    + destruct (e <? q)%nat; intros ?; simplify_eq/=; lia.
    + intros ?; simplify_eq/=; lia.
    + intros ?; simplify_eq/=; lia.
    + done.
  - destruct (index open_expr rest) as [e|] eqn:He; intros ?; simplify_eq/=; [|lia].
    apply index_bounds in He. simpl in He. lia.
Qed.

(** So the loop ends within as many rounds as the input has bytes. *)
Lemma rewrite_loop_total fuel inp s :
  (length inp - pos s <= fuel)%nat -> rewrite_loop fuel inp s <> OutOfFuel.
Proof.
  revert s. induction fuel as [|fuel IH]; intros s Hf; simpl;
    destruct (Nat.ltb_spec (pos s) (length inp)); try done; [lia|].
  destruct (rewrite_round inp s) as [s'|] eqn:Hr; [|done].
  apply rewrite_round_progress in Hr; [|done]. apply IH. lia.
Qed.

Definition round (inp : gostring) (s s' : rewriting) : Prop :=
  (pos s < length inp)%nat /\ rewrite_round inp s = Some s'.

Lemma rewrite_loop_rounds fuel inp s s' :
  (length inp - pos s <= fuel)%nat -> rtc (round inp) s s' -> (length inp <= pos s')%nat ->
  rewrite_loop fuel inp s = Finished s'.
Proof.
  intros Hf Hr Hend. revert fuel Hf. induction Hr as [s|s s1 s' [Hp Hs] _ IH]; intros fuel Hf.
  - destruct fuel; simpl; by rewrite (proj2 (Nat.ltb_ge _ _)) by lia.
  - pose proof (rewrite_round_progress _ _ _ Hp Hs). destruct fuel as [|fuel]; [lia|].
    simpl. rewrite (proj2 (Nat.ltb_lt _ _)) by lia. rewrite Hs. apply IH; [done|lia].
Qed.

(** *** Templates *)

(** An expression as it may stand between the brackets: its string literals
    are closed, and outside of them there is no [}}], not even together with
    the brackets that follow. *)
Fixpoint expr_ok (inside : bool) (e : gostring) : bool :=
  match e with
  | [] => negb inside
  | c :: e' =>
      if decide (c = quote) then expr_ok (negb inside) e'
      else if inside then expr_ok true e'
      else if decide (c = rbrace) then
        match e' with [] => false | d :: _ => bool_decide (d <> rbrace) && expr_ok false e' end
      else expr_ok false e'
  end.

(** Literal text and expression, alternating, and the text at the end. *)
Abbreviation part := (gostring * gostring)%type.

Definition part_ok (p : part) : bool := negb (contains open_expr p.1) && expr_ok false p.2.

Definition template (parts : list part) (last : gostring) : gostring :=
  concat (map (fun p : part => p.1 ++ open_expr ++ p.2 ++ close_expr) parts) ++ last.

(** The format string the parts give, numbering the arguments from [i]. *)
Fixpoint format_string (i : nat) (parts : list part) (last : gostring) : gostring :=
  match parts with
  | [] => escapeFormatString last
  | p :: ps => escapeFormatString p.1 ++ [lbrace] ++ itoa (Z.of_nat i) ++ [rbrace] ++
               format_string (S i) ps last
  end.

Lemma contains_false sub s : contains sub s = false <-> forall a b, s <> a ++ sub ++ b.
Proof.
  rewrite <-not_true_iff_false, contains_spec. split.
  - intros H a b ->. apply H. eauto.
  - intros H (a & b & ->). by apply (H a b).
Qed.

(** The first occurrence is where it is put, when none starts earlier. *)
Lemma index_first sub l r :
  (forall a b, l = a ++ b -> b <> [] -> has_prefix (b ++ sub ++ r) sub = false) ->
  index sub (l ++ sub ++ r) = Some (length l).
Proof.
  induction l as [|c l IH]; intros Hl.
  - simpl. destruct sub; simpl; [by destruct r|].
    by rewrite (proj2 (has_prefix_spec _ _)) by eauto.
  - pose proof (Hl [] (c :: l) eq_refl ltac:(done)) as Hp. cbn [app index] in Hp |- *. rewrite Hp.
    rewrite IH; [done|]. intros a b -> Hb. by apply (Hl (c :: a) b).
Qed.

Lemma index_open l r : contains open_expr l = false -> index open_expr (l ++ open_expr ++ r) = Some (length l).
Proof.
  intros Hl. apply index_first. intros a b -> Hb. apply not_true_iff_false.
  intros [k Hk]%has_prefix_spec. rewrite contains_false in Hl.
  destruct b as [|b1 [|b2 [|b3 b]]]; try done; simplify_eq/=.
  by apply (Hl a b).
Qed.

Lemma index_close e r :
  contains close_expr (e ++ [rbrace]) = false -> index close_expr (e ++ close_expr ++ r) = Some (length e).
Proof.
  intros He. apply index_first. intros a b -> Hb. apply not_true_iff_false.
  intros [k Hk]%has_prefix_spec. rewrite contains_false in He.
  destruct b as [|b1 [|b2 b]]; try done; simplify_eq/=.
  - apply (He a []). by rewrite <-app_assoc.
  - apply (He a (b ++ [rbrace])). by rewrite <-app_assoc.
Qed.

Lemma index_quote p r : (quote ∉ p) -> index [quote] (p ++ quote :: r) = Some (length p).
Proof.
  intros Hp. apply (index_first [quote]). intros a b -> Hb. apply not_true_iff_false.
  intros [k Hk]%has_prefix_spec. destruct b as [|b1 b]; [done|]. simplify_eq/=.
  apply Hp, elem_of_app. right. left.
Qed.

(** *** Correctness of the rewriting *)

(** A string literal of the expression is skipped as a whole. *)
Lemma expr_ok_string k e :
  (length e <= k)%nat -> expr_ok true e = true ->
  exists s t, e = s ++ quote :: t /\ expr_ok false t = true /\
    forall r, head r <> Some quote -> str_end (e ++ r) = Some (length s + 1)%nat.
Proof.
  revert e. induction k as [|k IH]; intros [|c e] Hk He; simpl in Hk; try done; try lia.
  destruct (decide (c = quote)) as [->|Hc].
  - destruct (decide (head e = Some quote)) as [Hh|Hh].
    + destruct e as [|d e]; [done|]. injection Hh as ->. simpl in Hk, He.
      destruct (IH e) as (s & t & -> & Ht & Hend); [lia|done|].
      exists (quote :: quote :: s), t. split; [done|]. split; [done|]. intros r Hr.
      change ((quote :: quote :: s ++ quote :: t) ++ r)
        with (quote :: quote :: (s ++ quote :: t) ++ r).
      rewrite str_end_pair, Hend by done. done.
    + exists [], e. split; [done|]. split; [done|]. intros r Hr.
      change ((quote :: e) ++ r) with (quote :: (e ++ r)). rewrite str_end_last; [done|].
      by destruct e.
  - simpl in He. rewrite decide_False in He by done.
    destruct (IH e) as (s & t & -> & Ht & Hend); [lia|done|].
    exists (c :: s), t. split; [done|]. split; [done|]. intros r Hr.
    change ((c :: s ++ quote :: t) ++ r) with (c :: (s ++ quote :: t) ++ r).
    rewrite str_end_other, Hend by done. done.
Qed.

(** Outside of string literals an expression runs to its end or to a quote. *)
Lemma expr_ok_plain e :
  expr_ok false e = true ->
  ((quote ∉ e) /\ contains close_expr (e ++ [rbrace]) = false) \/
  exists p e', e = p ++ quote :: e' /\ (quote ∉ p) /\ contains close_expr p = false /\
               expr_ok true e' = true.
Proof.
  induction e as [|c e IH]; intros He.
  { left. split; [apply not_elem_of_nil|done]. }
  simpl in He. destruct (decide (c = quote)) as [->|Hc].
  { right. exists [], e. split; [done|]. split; [apply not_elem_of_nil|done]. }
  assert (expr_ok false e = true /\ (c = rbrace -> head e <> None /\ head e <> Some rbrace))
    as [He' Hr].
  { case_decide; [|by split]. destruct e as [|d e]; [done|]. reflect_bools. split; [done|].
    intros _. split; [done|]. simpl; congruence. }
  assert (forall x, contains close_expr x = false -> head x <> None -> (c = rbrace -> head x <> Some rbrace) ->
          contains close_expr (c :: x) = false) as Hcons.
  { intros x Hx Hn Hh. rewrite contains_false in Hx |- *. intros a b Hab.
    destruct a as [|a0 a]; simplify_eq/=; [by apply Hh|]. by apply (Hx a b). }
  destruct (IH He') as [[Hq Hcl]|(p & e' & -> & Hq & Hcl & Hin)].
  - left. split; [by apply not_elem_of_cons|]. change ((c :: e) ++ [rbrace]) with (c :: e ++ [rbrace]).
    apply Hcons; [done|by destruct e|]. intros Hx. destruct (Hr Hx) as [? ?]. by destruct e.
  - right. exists (c :: p), e'. split; [done|]. split; [by apply not_elem_of_cons|].
    split; [|done]. destruct p as [|d p]; [|apply Hcons; [done|done|intros Hx; by apply Hr]].
    apply contains_false. by intros [|a0 [|? ?]] b Hab; simplify_eq/=.
Qed.

Lemma drop_at {A} (pre l : list A) n : n = length pre -> drop n (pre ++ l) = l.
Proof. intros ->. apply drop_app_length. Qed.

Lemma slice_at {A} (pre l r : list A) n m :
  n = length pre -> m = (length pre + length l)%nat -> drop n (take m (pre ++ l ++ r)) = l.
Proof.
  intros -> ->. rewrite app_assoc, <-length_app, take_app_length. apply drop_app_length.
Qed.

Definition in_expr (b p : nat) (res : list gostring) (out : gostring) : rewriting :=
  {| pos := p; exprStart := Some b; inString := false; results := res; formatOut := out |}.
Definition outside (p : nat) (res : list gostring) (out : gostring) : rewriting :=
  {| pos := p; exprStart := None; inString := false; results := res; formatOut := out |}.

Lemma index_skip c e r : (c ∉ e) -> index [c] (e ++ r) = (Nat.add (length e)) <$> index [c] r.
Proof.
  induction e as [|d e IH]; intros Hc; simpl; [by destruct (index [c] r)|].
  apply not_elem_of_cons in Hc as [Hne Hc].
  assert (has_prefix (d :: e ++ r) [c] = false) as ->.
  { apply not_true_iff_false. intros [x Hx]%has_prefix_spec. simpl in Hx. congruence. }
  rewrite IH by done. by destruct (index [c] r).
Qed.

(** Closing brackets that come after a quote are found behind it. *)
Lemma index_close_late p x n :
  contains close_expr p = false -> index close_expr (p ++ quote :: x) = Some n -> (length p < n)%nat.
Proof.
  intros Hp Hi. apply index_Some in Hi as [[t Ht] _].
  destruct (decide (length p < n)%nat) as [|Hn]; [done|exfalso].
  rewrite drop_app_le in Ht by lia. rewrite contains_false in Hp.
  pose proof (take_drop n p) as Hsplit. destruct (drop n p) as [|d1 [|d2 d]]; try done.
  injection Ht as -> -> _. by apply (Hp (take n p) d).
Qed.

(** Two rounds skip the text up to a string literal and the literal. *)
Lemma rounds_string p s t pre a r res out :
  (quote ∉ p) -> contains close_expr p = false ->
  (forall x, head x <> Some quote -> str_end ((s ++ quote :: t) ++ x) = Some (length s + 1)%nat) ->
  let e := p ++ quote :: s ++ [quote] in
  rtc (round (pre ++ ((a ++ e) ++ t) ++ close_expr ++ r))
    (in_expr (length pre) (length pre + length a) res out)
    (in_expr (length pre) (length pre + length (a ++ e)) res out).
Proof.
  intros Hq Hcl Hend e. set (inp := pre ++ ((a ++ e) ++ t) ++ close_expr ++ r).
  assert (length e = length p + length s + 2)%nat as He
    by (unfold e; rewrite length_app; simpl; rewrite length_app; simpl; lia).
  assert (length inp = length pre + length a + length e + length t + 2 + length r)%nat as Hlen
    by (unfold inp; rewrite !length_app; simpl; lia).
  apply rtc_l with {| pos := length pre + length a + length p + 1; exprStart := Some (length pre);
                      inString := true; results := res; formatOut := out |}.
  - split; [simpl; lia|]. unfold rewrite_round.
    cbn [in_expr pos inString exprStart results formatOut].
    assert (inp = (pre ++ a) ++ p ++ quote :: s ++ quote :: t ++ close_expr ++ r) as ->
      by (unfold inp, e; by simplify_list_eq).
    rewrite drop_at by by rewrite length_app. rewrite index_quote by done.
    destruct (index close_expr _) as [n|] eqn:Hn; [|done].
    apply index_close_late in Hn; [|done]. by rewrite (proj2 (Nat.ltb_ge _ _)) by lia.
  - apply rtc_once. split; [simpl; lia|]. unfold rewrite_round.
    cbn [pos inString exprStart results formatOut].
    assert (inp = (pre ++ a ++ p ++ [quote]) ++ (s ++ quote :: t) ++ close_expr ++ r) as ->
      by (unfold inp, e; by simplify_list_eq).
    rewrite drop_at by (rewrite !length_app; simpl; lia).
    rewrite Hend by done. simpl. f_equal. unfold in_expr. f_equal. rewrite length_app. lia.
Qed.

(** From inside a well-formed expression, [a] of which is read, the rounds
    reach the text after its closing brackets. *)
Lemma rounds_expr k e pre a r res out :
  (length e <= k)%nat -> expr_ok false e = true ->
  rtc (round (pre ++ (a ++ e) ++ close_expr ++ r))
    (in_expr (length pre) (length pre + length a) res out)
    (outside (length pre + length a + length e + 2) (res ++ [trim_space (a ++ e)])
       (out ++ [lbrace] ++ itoa (Z.of_nat (length res)) ++ [rbrace])).
Proof.
  revert e a. induction k as [k IH] using lt_wf_ind. intros e a Hk He.
  destruct (expr_ok_plain e He) as [[Hq Hcl]|(p & e' & -> & Hq & Hcl & Hin)].
  - set (inp := pre ++ (a ++ e) ++ close_expr ++ r).
    apply rtc_once. split; [unfold inp; rewrite !length_app; simpl; lia|]. unfold rewrite_round.
    cbn [in_expr pos inString exprStart results formatOut].
    assert (drop (length pre) (take (length pre + length a + length e) inp) = a ++ e) as Hslice
      by (apply slice_at; [done|]; rewrite length_app; lia).
    assert (drop (length pre + length a) inp = e ++ close_expr ++ r) as ->.
    { unfold inp. rewrite <-app_assoc, app_assoc. apply drop_at. by rewrite length_app. }
    rewrite index_close, index_skip, index_skip
      by (done || by apply (bool_decide_unpack _)).
    rewrite Hslice. destruct (index [quote] r) as [q|]; simpl; [|done].
    rewrite (proj2 (Nat.ltb_lt _ _)) by lia. done.
  - destruct (expr_ok_string _ e' ltac:(done) Hin) as (s & t & -> & Ht & Hend).
    set (e2 := p ++ quote :: s ++ [quote]).
    assert (p ++ quote :: s ++ quote :: t = e2 ++ t) as Heq by (unfold e2; by simplify_list_eq).
    assert (length p + length s + 2 = length e2)%nat as He2
      by (unfold e2; rewrite length_app; simpl; rewrite length_app; simpl; lia).
    rewrite Heq in Hk |- *. rewrite (app_assoc a).
    etrans; [by apply rounds_string|]. fold e2.
    rewrite length_app in Hk.
    replace (length pre + length a + length (e2 ++ t) + 2)%nat
      with (length pre + length (a ++ e2) + length t + 2)%nat by (rewrite !length_app; lia).
    apply (IH (length t)); [lia|lia|done].
Qed.

(** From the text outside of expressions, the rounds consume the parts. *)
Lemma rounds_template parts last pre res out :
  forallb part_ok parts = true -> contains open_expr last = false ->
  exists p, (length (pre ++ template parts last) <= p)%nat /\
    rtc (round (pre ++ template parts last)) (outside (length pre) res out)
      (outside p (res ++ map (fun p : part => trim_space p.2) parts)
         (out ++ format_string (length res) parts last)).
Proof.
  revert pre res out. induction parts as [|[l e] parts IH]; intros pre res out Hparts Hlast.
  - unfold template. simpl. rewrite app_nil_r. destruct last as [|c last].
    { exists (length pre). unfold escapeFormatString, replace_byte. simpl. rewrite !app_nil_r. done. }
    exists (length (pre ++ c :: last)). split; [done|]. apply rtc_once.
    split; [rewrite length_app; simpl; lia|]. unfold rewrite_round.
    cbn [outside pos inString exprStart results formatOut].
    rewrite drop_app_length. unfold contains in Hlast. by destruct (index open_expr _).
  - apply andb_true_iff in Hparts as [Hp Hparts]. unfold part_ok in Hp. reflect_bools. simpl in *.
    assert (pre ++ template ((l, e) :: parts) last =
            (pre ++ l ++ open_expr) ++ ([] ++ e) ++ close_expr ++ template parts last) as Heq
      by (unfold template; by simplify_list_eq).
    destruct (IH (pre ++ l ++ open_expr ++ e ++ close_expr) (res ++ [trim_space e])
      (out ++ escapeFormatString l ++ [lbrace] ++ itoa (Z.of_nat (length res)) ++ [rbrace]))
      as (p & Hend & Hr); [done|done|].
    replace ((pre ++ l ++ open_expr ++ e ++ close_expr) ++ template parts last)
      with (pre ++ template ((l, e) :: parts) last) in Hend, Hr
      by (rewrite Heq; by simplify_list_eq).
    exists p. split; [exact Hend|]. rewrite (length_app res), Nat.add_1_r in Hr.
    repeat (rewrite <-!app_assoc in Hr; cbn [app] in Hr).
    etrans; [|exact Hr]. clear Hr Hend IH. rewrite Heq.
    apply rtc_l with (in_expr (length (pre ++ l ++ open_expr)) (length (pre ++ l ++ open_expr) + 0)
                        res (out ++ escapeFormatString l)).
    { split; [rewrite !length_app; simpl; lia|]. unfold rewrite_round.
      cbn [outside pos inString exprStart results formatOut]. rewrite <-!app_assoc.
      rewrite drop_app_length, index_open, take_app_length by done.
      unfold in_expr. f_equal. f_equal; [|f_equal]; rewrite !length_app; simpl; lia. }
    etrans; [by apply (rounds_expr (length e) e _ [])|].
    assert (length (pre ++ l ++ open_expr ++ e ++ close_expr) =
            length (pre ++ l ++ open_expr) + length ([] : gostring) + length e + 2)%nat as ->
      by (rewrite !length_app; simpl; lia).
    by simplify_list_eq.
Qed.

Lemma template_brackets parts last :
  parts <> [] ->
  contains open_expr (template parts last) = true /\ contains close_expr (template parts last) = true.
Proof.
  destruct parts as [|[l e] parts]; [done|]. intros _. unfold template. simpl map. simpl concat.
  split; apply contains_spec; [exists l|exists (l ++ open_expr ++ e)]; eexists; by simplify_list_eq.
Qed.

Lemma rewrite_template_run parts last :
  forallb part_ok parts = true -> contains open_expr last = false ->
  exists p, rewrite_loop (length (template parts last)) (template parts last) rewrite_init =
    Finished (outside p (map (fun p : part => trim_space p.2) parts) (format_string 0 parts last)).
Proof.
  intros Hparts Hlast.
  destruct (rounds_template parts last [] [] []) as (p & Hp & Hr); [done..|].
  simpl in Hp, Hr. exists p.
  erewrite rewrite_loop_rounds; [done|cbn [rewrite_init pos]; lia|exact Hr|exact Hp].
Qed.

(** Rewriting a template.  For literal texts without opening brackets and
    well-formed expressions, [rewriteSubExpression] gives one call of [format]
    whose format string is the texts, escaped, with the numbered holes between
    them, and whose arguments are the trimmed expressions in order; only a
    template that is a single expression and nothing else is returned as it is
    unless the call is forced. *)
Theorem rewrite_template parts last force :
  parts <> [] -> forallb part_ok parts = true -> contains open_expr last = false ->
  rewriteSubExpression (template parts last) force =
    if bool_decide (length parts = 1%nat) && bool_decide (format_string 0 parts last = "{0}")
       && negb force
    then template parts last
    else format_call (format_string 0 parts last) (map (fun p : part => trim_space p.2) parts).
Proof.
  intros Hne Hparts Hlast. unfold rewriteSubExpression.
  destruct (template_brackets parts last Hne) as [-> ->].
  destruct (rewrite_template_run parts last) as [p ->]; [done..|].
  cbn [outside results formatOut]. by rewrite length_map.
Qed.

(** ** The environment of an evaluation ([context.go], [pkg/types/step.go]) *)

(** A protobuf [Value], as far as the code looks into it. *)
#[warnings="-register-all"]
Inductive Value :=
  | StringValue (s : gostring)
  | StructValue (fields : list (gostring * Value))
  | OtherValue.

Definition GetStringValue (v : option Value) : gostring :=
  match v with Some (StringValue s) => s | _ => [] end.

(** The task the forge sends ([runnerv1.Task]); a need is its outputs and its
    result, by name. *)
Record Task := {
  GetId : Z;
  WorkflowPayload : gostring;
  TaskContext : option (gmap gostring Value);
  TaskSecrets : gmap gostring gostring;
  TaskVars : gmap gostring gostring;
  TaskNeeds : gmap gostring (gmap gostring gostring * gostring);
}.

(** [task.GetContext().GetFields()], nil-safe. *)
Definition GetFields (t : Task) : gmap gostring Value := default ∅ (TaskContext t).

Record GithubContext := {
  RunID : gostring; RunNumber : gostring; RunAttempt : gostring; Actor : gostring;
  Repository : gostring; EventName : gostring; Sha : gostring; Ref : gostring;
  RefName : gostring; RefType : gostring; HeadRef : gostring; BaseRef : gostring;
  Token : gostring; RepositoryOwner : gostring; RetentionDays : gostring;
  ServerURL : gostring; APIURL : gostring; Workspace : gostring;
  GhEvent : option (list (gostring * Value));
}.

Definition empty_github : GithubContext := {|
  RunID := []; RunNumber := []; RunAttempt := []; Actor := []; Repository := []; EventName := [];
  Sha := []; Ref := []; RefName := []; RefType := []; HeadRef := []; BaseRef := []; Token := [];
  RepositoryOwner := []; RetentionDays := []; ServerURL := []; APIURL := []; Workspace := [];
  GhEvent := None |}.

(** The token: the first non-empty one of three secrets, or the context's. *)
Definition github_token (t : Task) (fromContext : gostring) : gostring :=
  let secret k rest := match TaskSecrets t !! k with
                       | Some v => if decide (v = []) then rest else v
                       | None => rest
                       end in
  secret ("FORGEJO_TOKEN" : gostring)
    (secret ("GITEA_TOKEN" : gostring) (secret ("GITHUB_TOKEN" : gostring) fromContext)).

Definition BuildGithubContext (t : Task) : GithubContext :=
  match TaskContext t with
  | None => empty_github
  | Some f =>
      let get k := GetStringValue (f !! (k : gostring)) in
      {| RunID := get "run_id"; RunNumber := get "run_number"; RunAttempt := get "run_attempt";
         Actor := get "actor"; Repository := get "repository"; EventName := get "event_name";
         Sha := get "sha"; Ref := get "ref"; RefName := get "ref_name"; RefType := get "ref_type";
         HeadRef := get "head_ref"; BaseRef := get "base_ref";
         Token := github_token t (get "token");
         RepositoryOwner := get "repository_owner"; RetentionDays := get "retention_days";
         ServerURL := trim_right (fun c => bool_decide (c = "/"%char)) (get "server_url");
         APIURL := get "api_url"; Workspace := "/workspace";
         GhEvent := match f !! ("event" : gostring) with
                    | Some (StructValue l) => Some l
                    | _ => None
                    end |}
  end.

Inductive StepStatus := StepStatusSuccess | StepStatusFailure.

(** [model.StepResult]: what [steps.<id>] refers to. *)
Record StepOutcome := {
  Outcome : StepStatus;
  Conclusion : StepStatus;
  Outputs : gmap gostring gostring;
}.

(** [exprparser.EvaluationEnvironment]; the constant runner context is left
    out. *)
Record EvaluationEnvironment := {
  eGithub : GithubContext;
  eEnv : gmap gostring gostring;
  eJob : gostring;
  eSecrets : gmap gostring gostring;
  eVars : gmap gostring gostring;
  eNeeds : gmap gostring (gmap gostring gostring * gostring);
  eSteps : gmap gostring StepOutcome;
}.

Section needs.
Context `{UnicodeTables}.

(** A need's result: [RESULT_SUCCESS] becomes [success]. *)
Definition needs_of (t : Task) : gmap gostring (gmap gostring gostring * gostring) :=
  (fun n : gmap gostring gostring * gostring => (n.1, to_lower (trim_prefix n.2 "RESULT_"))) <$> TaskNeeds t.

Definition BuildEnvironment (t : Task) (jobEnv : gmap gostring gostring) : EvaluationEnvironment :=
  {| eGithub := BuildGithubContext t; eEnv := jobEnv; eJob := "success";
     eSecrets := TaskSecrets t; eVars := TaskVars t; eNeeds := needs_of t; eSteps := ∅ |}.

(** What the manifest carries to the runner ([types.EvalContext]). *)
Record EvalContext := {
  cGitHub : GithubContext;
  cEnv : gmap gostring gostring;
  cSecrets : gmap gostring gostring;
  cVars : gmap gostring gostring;
  cNeeds : gmap gostring (gmap gostring gostring * gostring);
}.

Definition buildEvalContext (t : Task) (jobEnv : gmap gostring gostring) : EvalContext :=
  {| cGitHub := BuildGithubContext t; cEnv := jobEnv; cSecrets := TaskSecrets t;
     cVars := TaskVars t; cNeeds := needs_of t |}.
End needs.

Definition BuildEvalEnv (c : EvalContext) : EvaluationEnvironment :=
  {| eGithub := cGitHub c; eEnv := cEnv c; eJob := "success"; eSecrets := cSecrets c;
     eVars := cVars c; eNeeds := cNeeds c; eSteps := ∅ |}.

(** ** The evaluator ([eval.go]) *)

Inductive status_check := DefaultStatusCheckNone | DefaultStatusCheckSuccess.

(** The interpreter of nektos/act ([exprparser]): a value is shown by [%v],
    may be a string, and is true or false as a condition. *)
Class Interp := {
  value : Type;
  Evaluate : gostring -> EvaluationEnvironment -> status_check -> result unit value;
  as_string : value -> option gostring;
  sprint : value -> gostring;
  IsTruthy : value -> bool;
}.

Section evaluator.
Context `{Interp}.

Definition Interpolate (e : EvaluationEnvironment) (input : gostring) : gostring :=
  if negb (contains open_expr input) || negb (contains close_expr input) then input
  else match Evaluate (rewriteSubExpression input true) e DefaultStatusCheckNone with
       | Err _ => input
       | Ok v => match as_string v with Some s => s | None => sprint v end
       end.

Definition InterpolateMap (e : EvaluationEnvironment) (m : gmap gostring gostring) : gmap gostring gostring :=
  Interpolate e <$> m.

(** A condition without its brackets, if it has them. *)
Definition strip_condition (expr : gostring) : gostring :=
  let expr := trim_space expr in
  if has_prefix expr open_expr && has_suffix expr close_expr
  then trim_space (trim_suffix (trim_prefix expr open_expr) close_expr)
  else expr.

(** [Evaluator.EvalCondition]. *)
Definition eval_condition (e : EvaluationEnvironment) (expr : gostring) : result unit bool :=
  let expr := if decide (expr = []) then ("success()" : gostring) else expr in
  let rewritten := rewriteSubExpression (strip_condition expr) false in
  result_bind (Evaluate rewritten e DefaultStatusCheckSuccess) (fun v => Ok (IsTruthy v)).

(** [Evaluator.SetStepResult] / [SetJobStatus] / [UpdateEnv]. *)
Definition set_step_result (e : EvaluationEnvironment) (stepID outcome : gostring)
    (continueOnError : bool) (outputs : gmap gostring gostring) : EvaluationEnvironment :=
  let '(o, c) :=
    if decide (outcome = "success") then (StepStatusSuccess, StepStatusSuccess)
    else if decide (outcome = "failure") then
      (StepStatusFailure, if continueOnError then StepStatusSuccess else StepStatusFailure)
    else (StepStatusSuccess, StepStatusSuccess) in
  {| eGithub := eGithub e; eEnv := eEnv e; eJob := eJob e; eSecrets := eSecrets e;
     eVars := eVars e; eNeeds := eNeeds e;
     eSteps := <[stepID := {| Outcome := o; Conclusion := c; Outputs := outputs |}]> (eSteps e) |}.

Definition set_job_status (e : EvaluationEnvironment) (status : gostring) : EvaluationEnvironment :=
  {| eGithub := eGithub e; eEnv := eEnv e; eJob := status; eSecrets := eSecrets e;
     eVars := eVars e; eNeeds := eNeeds e; eSteps := eSteps e |}.

Definition UpdateEnv (e : EvaluationEnvironment) (env : gmap gostring gostring) : EvaluationEnvironment :=
  {| eGithub := eGithub e; eEnv := overlay (eEnv e) env; eJob := eJob e; eSecrets := eSecrets e;
     eVars := eVars e; eNeeds := eNeeds e; eSteps := eSteps e |}.

(** The evaluator the step runner uses. *)
#[export] Instance runner_evaluator : StepEvaluator EvalContext EvaluationEnvironment := {|
  NewEvaluator := BuildEvalEnv;
  EvalCondition c e := eval_condition e c;
  SetJobStatus st e := set_job_status e st;
  SetStepResult id o coe outs e := set_step_result e id o coe outs;
|}.
End evaluator.

(** *** The [format] function *)

(** What GitHub documents of [format]: [{N}] is replaced by the N-th argument,
    a doubled brace stands for one brace; [hole] is the number being read. *)
Fixpoint format_go (args : list gostring) (hole : option gostring) (s : gostring) : option gostring :=
  match s, hole with
  | [], None => Some []
  | [], Some _ => None
  | c :: s1, Some ds =>
      if decide (c = rbrace) then
        match parse_uint 10 ds ≫= (fun n => args !! Z.to_nat n) with
        | Some v => app v <$> format_go args None s1
        | None => None
        end
      else format_go args (Some (ds ++ [c])) s1
  | c :: s1, None =>
      if decide (c = lbrace) then
        match s1 with
        | d :: s2 => if decide (d = lbrace) then cons lbrace <$> format_go args None s2
                     else format_go args (Some []) s1
        | [] => None
        end
      else if decide (c = rbrace) then
        match s1 with
        | d :: s2 => if decide (d = rbrace) then cons rbrace <$> format_go args None s2 else None
        | [] => None
        end
      else cons c <$> format_go args None s1
  end.

Definition format_fn (fmt : gostring) (args : list gostring) : option gostring := format_go args None fmt.

(** The template with the values of its expressions in their places. *)
Fixpoint fill (parts : list part) (vs : list gostring) (last : gostring) : gostring :=
  match parts, vs with
  | p :: parts, v :: vs => p.1 ++ v ++ fill parts vs last
  | _, _ => last
  end.

Lemma replace_byte_app c r s t : replace_byte c r (s ++ t) = replace_byte c r s ++ replace_byte c r t.
Proof. unfold replace_byte. by rewrite map_app, concat_app. Qed.

Lemma replace_byte_other c r x : x <> c -> replace_byte c r [x] = [x].
Proof. intros Hx. unfold replace_byte. simpl. by rewrite decide_False. Qed.

Lemma escape_app s t : escapeFormatString (s ++ t) = escapeFormatString s ++ escapeFormatString t.
Proof. unfold escapeFormatString. by rewrite !replace_byte_app. Qed.

Lemma format_escaped args l r :
  format_go args None (escapeFormatString l ++ r) = app l <$> format_go args None r.
Proof.
  induction l as [|c l IH].
  { change (escapeFormatString [] ++ r) with r. by destruct (format_go args None r). }
  change (c :: l) with ([c] ++ l). rewrite escape_app, <-app_assoc.
  destruct (decide (c = lbrace)) as [->|Hl]; [|destruct (decide (c = rbrace)) as [->|Hr]].
  - change (escapeFormatString [lbrace]) with [lbrace; lbrace]. simpl. rewrite IH.
    by destruct (format_go args None r).
  - change (escapeFormatString [rbrace]) with [rbrace; rbrace]. simpl. rewrite IH.
    by destruct (format_go args None r).
  - assert (escapeFormatString [c] = [c]) as ->
      by (unfold escapeFormatString; rewrite replace_byte_other by done; by apply replace_byte_other).
    simpl. rewrite !decide_False by done. rewrite IH. by destruct (format_go args None r).
Qed.

Lemma format_digits args ds ds' r :
  (rbrace ∉ ds') ->
  format_go args (Some ds) (ds' ++ rbrace :: r) =
    match parse_uint 10 (ds ++ ds') ≫= (fun n => args !! Z.to_nat n) with
    | Some v => app v <$> format_go args None r
    | None => None
    end.
Proof.
  revert ds. induction ds' as [|c ds' IH]; intros ds Hr; simpl; [by rewrite app_nil_r|].
  apply not_elem_of_cons in Hr as [Hc Hr]. rewrite decide_False by done.
  rewrite IH by done. by rewrite <-app_assoc.
Qed.

Lemma itoa_nat_parse n : parse_uint 10 (itoa (Z.of_nat n)) = Some (Z.of_nat n).
Proof.
  unfold itoa. rewrite (proj2 (Z.ltb_ge _ _)) by lia. apply parse_uint_fmt; lia.
Qed.

Lemma format_hole args i r v :
  args !! i = Some v ->
  format_go args None ([lbrace] ++ itoa (Z.of_nat i) ++ [rbrace] ++ r) =
    app v <$> format_go args None r.
Proof.
  intros Hv. assert (lbrace ∉ itoa (Z.of_nat i)) as Hl by (apply itoa_no; [done|right; vm_compute; done]).
  assert (rbrace ∉ itoa (Z.of_nat i)) as Hr by (apply itoa_no; [done|right; vm_compute; done]).
  pose proof (itoa_nat_parse i) as Hp.
  destruct (itoa (Z.of_nat i)) as [|d ds]; [done|].
  apply not_elem_of_cons in Hl as [Hl _].
  change (format_go args None ([lbrace] ++ (d :: ds) ++ [rbrace] ++ r))
    with (if decide (d = lbrace) then cons lbrace <$> format_go args None (ds ++ [rbrace] ++ r)
          else format_go args (Some []) ((d :: ds) ++ rbrace :: r)).
  rewrite decide_False by done. rewrite format_digits by done. cbn [app]. rewrite Hp. simpl.
  by rewrite Nat2Z.id, Hv.
Qed.

(** The format string of a template, applied to values, is the template with
    the values in place of the expressions. *)
Lemma format_string_fill args parts last i :
  length args = (i + length parts)%nat ->
  format_fn (format_string i parts last) args = Some (fill parts (drop i args) last).
Proof.
  unfold format_fn. revert i. induction parts as [|[l e] parts IH]; intros i Hlen; simpl in Hlen.
  - cbn [format_string fill]. rewrite <-(app_nil_r (escapeFormatString last)), format_escaped. simpl.
    by rewrite app_nil_r.
  - destruct (lookup_lt_is_Some_2 args i) as [v Hv]; [lia|].
    cbn [format_string]. rewrite format_escaped, (format_hole _ _ _ v) by done.
    rewrite IH by lia. simpl. by rewrite (drop_S args v i).
Qed.

Section evaluation.
Context `{Interp}.

(** C21: interpolation replaces each embedded expression by its value.  If the
    interpreter computes calls of [format] on the template's expressions as
    documented, [vs] being the values of these as strings, then interpolating
    a template of literal texts and well-formed expressions gives the texts
    with the values between them: braces and quotes in the texts come out
    unchanged, and a string literal may contain brackets. *)
Theorem interpolate_template env parts last vs :
  parts <> [] -> forallb part_ok parts = true -> contains open_expr last = false ->
  length vs = length parts ->
  (forall fmt, exists r,
     Evaluate (format_call fmt (map (fun p : part => trim_space p.2) parts)) env
       DefaultStatusCheckNone = r /\
     match format_fn fmt vs with
     | Some s => exists v, r = Ok v /\ as_string v = Some s
     | None => r = Err tt
     end) ->
  Interpolate env (template parts last) = fill parts vs last.
Proof.
  intros Hne Hparts Hlast Hvs Hformat. unfold Interpolate, rewriteSubExpression.
  destruct (template_brackets parts last Hne) as [-> ->].
  destruct (rewrite_template_run parts last) as [p ->]; [done..|].
  cbn [negb orb outside results formatOut]. rewrite andb_false_r.
  destruct (Hformat (format_string 0 parts last)) as (r & -> & Hr).
  rewrite format_string_fill in Hr by done. destruct Hr as (v & -> & Hv). by rewrite Hv.
Qed.

Lemma brackets_no_edge x : no_edge_space (open_expr ++ x ++ close_expr).
Proof.
  split.
  - reflexivity.
  - rewrite app_assoc, reverse_app. reflexivity.
Qed.

(** The brackets around a condition are optional: a condition written
    between them, with any blanks, is evaluated like its trimmed body, unless
    the body is empty or is itself something between brackets; and an empty
    condition means [success()]. *)
Theorem condition_brackets_optional env x :
  trim_space x <> [] ->
  has_prefix (trim_space x) open_expr && has_suffix (trim_space x) close_expr = false ->
  eval_condition env (open_expr ++ x ++ close_expr) = eval_condition env (trim_space x) /\
  eval_condition env [] = eval_condition env "success()".
Proof.
  intros Hne Hplain. split; [|done]. unfold eval_condition.
  rewrite decide_False by done. rewrite decide_False by done. unfold strip_condition.
  rewrite trim_space_idemp, Hplain. rewrite trim_space_id by apply brackets_no_edge.
  rewrite (proj2 (has_prefix_spec _ _)) by eauto.
  rewrite (proj2 (has_suffix_spec _ _)) by (exists (open_expr ++ x); by simplify_list_eq).
  cbn [andb]. rewrite trim_prefix_app. unfold trim_suffix.
  rewrite (proj2 (has_suffix_spec _ _)) by eauto.
  by rewrite length_app, Nat.add_sub, take_app_length.
Qed.
End evaluation.

(** ** The evaluator over a run *)

(** An invariant of the loop state kept by the writes, by the world and by
    recording a step holds at the end of a run. *)
Lemma run_steps_inv {W C E} `{StepRunner W} `{StepEvaluator C E} environ workDir
    (P : @LoopState W E -> Prop) (m : Manifest C) hrc i steps s :
  (forall w s, P s -> P (set_world w s)) -> (forall ev s, P s -> P (writeState ev s)) ->
  (forall i step code fs s, step ∈ steps -> P s -> P (record_step i step code fs s)) ->
  P s -> P (run_steps environ workDir m hrc i steps s).1.
Proof.
  intros Hw He. revert i s. induction steps as [|step steps IH]; intros i s Hr Hs; [done|].
  cbn [run_steps].
  assert (P (run_step environ workDir m hrc i step s).1) as Hstep.
  { unfold run_step.
    destruct (if (0 <? _)%nat then _ else _) as [mirrored s1] eqn:Hm.
    assert (P s1) as Hs1.
    { destruct (0 <? _)%nat; [|by injection Hm as <- <-].
      destruct (mirror_cache _ _). injection Hm as <- <-. by apply Hw. }
    destruct mirrored; [|done]. cbn [negb]. destruct (skips step s1); [by apply He|].
    destruct (create_files i _) as [created w1]. destruct created; cbn [negb]; [|by apply Hw, He].
    destruct (executeStep _ _ _ _) as [[code fs] w2]. apply Hr; [left|].
    by apply Hw, Hw, He. }
  destruct (run_step _ _ _ _ _ _ _) as [s1 []]; [|done..].
  apply IH; [|done]. intros j st code fs s2 Hin. apply Hr. by right.
Qed.

Section runner_evaluation.
Context `{Interp} {W : Type} `{StepRunner W} (environ : list gostring) (workDir : gostring).

Definition status_of (failed : bool) : StepStatus := if failed then StepStatusFailure else StepStatusSuccess.

(** What [steps.<id>] says of the recorded result of a step: its outputs, the
    outcome by its exit code, and a conclusion that is the outcome unless the
    step may fail, in which case it is a success. *)
Definition outcome_of (step : ManifestStep) (sr : StepResult) (o : StepOutcome) : Prop :=
  Outputs o = srOutputs sr /\
  Outcome o = status_of (bool_decide (srExitCode sr <> 0)) /\
  Conclusion o = status_of (bool_decide (srExitCode sr <> 0) && negb (ContinueOnError step)).

Definition evaluator_tracks (steps : list ManifestStep) (c : EvalContext)
    (s : @LoopState W EvaluationEnvironment) : Prop :=
  exists e, evaluator s = Some e /\
    eJob e = (if hadFailure s then "failure" else "success" : gostring) /\
    (eGithub e, eEnv e, eSecrets e, eVars e, eNeeds e) = (cGitHub c, cEnv c, cSecrets c, cVars c, cNeeds c) /\
    (forall id, option_Forall2 (fun sr o => exists step, step ∈ steps /\ ID step = id /\ outcome_of step sr o)
                  (stepResults s !! id) (eSteps e !! id)) /\
    (forall id o, eSteps e !! id = Some o -> Conclusion o = StepStatusFailure -> hadFailure s = true).

Lemma set_step_result_spec e id failed coe outs :
  set_step_result e id (if failed : bool then "failure" else "success") coe outs =
    {| eGithub := eGithub e; eEnv := eEnv e; eJob := eJob e; eSecrets := eSecrets e;
       eVars := eVars e; eNeeds := eNeeds e;
       eSteps := <[id := {| Outcome := status_of failed;
                            Conclusion := status_of (failed && negb coe);
                            Outputs := outs |}]> (eSteps e) |}.
Proof. by destruct failed, coe. Qed.

Lemma record_step_tracks steps c i step code fs s :
  step ∈ steps -> evaluator_tracks steps c s ->
  evaluator_tracks steps c (record_step (C := EvalContext) i step code fs s).
Proof.
  intros Hin (e & He & Hjob & Hctx & Hsteps & Hfail). unfold evaluator_tracks, record_step. cbn.
  rewrite He. cbn [fmap option_fmap option_map]. rewrite set_step_result_spec.
  eexists. split; [reflexivity|]. cbn. set (failed := bool_decide (code <> 0)).
  set (b := failed && negb (ContinueOnError step)).
  assert (eSteps (if b then set_job_status e "failure" else e) = eSteps e) as -> by by destruct b.
  split; [destruct b; cbn; by rewrite ?orb_true_r, ?orb_false_r|].
  split; [by destruct b|]. split.
  - intros id. destruct (decide (id = ID step)) as [->|Hne].
    + rewrite !lookup_insert_eq. constructor. by exists step.
    + by rewrite !lookup_insert_ne.
  - intros id o. destruct (decide (id = ID step)) as [->|Hne].
    + rewrite lookup_insert_eq. intros [= <-]. cbn. destruct b; [by rewrite orb_true_r|done].
    + rewrite lookup_insert_ne by done. intros Ho Hc. by rewrite (Hfail _ _ Ho Hc).
Qed.

(** C22: the runner's evaluator follows the run.  With the manifest's context
    loaded, at the end of a run the job status seen by conditions is "failure"
    exactly when a step failed without continue-on-error; the context
    ([github], [env], [secrets], [vars], [needs]) is the one of the manifest,
    so variables exported by steps are not in it; and [steps.<id>] is recorded
    exactly for the steps with a result, with that result's outputs, the
    outcome failure for a non-zero exit code and success for zero, and a
    conclusion that is failure exactly for a non-zero exit code of a step
    without continue-on-error (which made the job fail), and success
    otherwise. *)
Theorem runner_evaluator_tracks (m : Manifest EvalContext) w c r res s :
  Context m = Some c -> runEntrypoint environ workDir m w = (r, res, s) ->
  evaluator_tracks (Steps m) c s.
Proof.
  intros Hc Hr.
  assert (evaluator_tracks (Steps m) c
    (run_steps environ workDir m (has_runtime_conditions (Steps m)) 0 (Steps m) (init_loop m w)).1)
    as Hinv.
  { apply run_steps_inv; [done|done|intros i step code fs s'; apply record_step_tracks|].
    exists (BuildEvalEnv c). unfold init_loop. cbn. rewrite Hc.
    split; [done|]. split; [done|]. split; [done|]. split.
    - intros id. rewrite !lookup_empty. constructor.
    - intros id o. by rewrite lookup_empty. }
  unfold runEntrypoint in Hr. destruct (run_steps _ _ _ _ _ _ _) as [s1 []];
    by injection Hr as <- <- <-.
Qed.
End runner_evaluation.

(** ** Concrete evaluations *)

Fixpoint unquote (s : gostring) : gostring :=
  match s with
  | [] => []
  | c :: s1 =>
      match s1 with
      | d :: s2 => if decide (c = quote) then if decide (d = quote) then quote :: unquote s2
                                              else c :: unquote s1
                   else c :: unquote s1
      | [] => [c]
      end
  end.

Lemma unquote_replace s : unquote (replace_byte quote [quote; quote] s) = s.
Proof.
  induction s as [|c s IH]; [done|].
  change (replace_byte quote [quote; quote] (c :: s))
    with ((if decide (c = quote) then [quote; quote] else [c]) ++ replace_byte quote [quote; quote] s).
  destruct (decide (c = quote)) as [->|Hc]; [by cbn [app unquote]; rewrite IH|].
  cbn [app]. destruct (replace_byte _ _ s) as [|d x] eqn:Hx; [by rewrite <-IH|].
  cbn [unquote]. rewrite decide_False by done. by rewrite <-IH.
Qed.

(** An interpreter that knows one variable, status functions and calls of
    [format] on that variable. *)
Definition call_tail : gostring := "', vars.name)".

#[local] Instance toy_interp : Interp := {|
  value := gostring;
  Evaluate s e _ :=
    if decide (s = "success()") then Ok (if decide (eJob e = "success") then "true" else [])
    else if decide (s = "always()") then Ok ("true" : gostring)
    else
      let body := trim_prefix s "format('" in
      if has_suffix body call_tail then
        match format_fn (unquote (trim_suffix body call_tail)) ["Ada"] with
        | Some v => Ok v
        | None => Err tt
        end
      else Err tt;
  as_string v := Some v;
  sprint v := v;
  IsTruthy v := bool_decide (v <> []);
|}.

Lemma rewrite_template_witness :
  rewriteSubExpression (template [("it's {", " f('}}''', x) "); ("}", "a")] "!") true =
    format_call "it's {{{0}}}{1}!" ["f('}}''', x)"; "a"].
Proof. apply (rewrite_template [("it's {", " f('}}''', x) "); ("}", "a")] "!" true);
  [discriminate|vm_compute; reflexivity|vm_compute; reflexivity]. Defined.

Lemma toy_format env fmt :
  exists r, Evaluate (format_call fmt (map (fun p : part => trim_space p.2) [("Hi '{", "vars.name")])) env
      DefaultStatusCheckNone = r /\
    match format_fn fmt ["Ada"] with
    | Some s => exists v, r = Ok v /\ as_string v = Some s
    | None => r = Err tt
    end.
Proof.
  eexists. split; [reflexivity|].
  assert (format_call fmt (map (fun p : part => trim_space p.2) [("Hi '{", "vars.name")]) =
          "format('" ++ (replace_byte quote [quote; quote] fmt ++ call_tail)) as ->.
  { unfold format_call. change (join ", " _) with ("vars.name" : gostring). done. }
  cbn [Evaluate toy_interp]. rewrite !decide_False by discriminate.
  rewrite trim_prefix_app. unfold trim_suffix.
  rewrite (proj2 (has_suffix_spec _ _)) by eauto.
  rewrite length_app, Nat.add_sub, take_app_length, unquote_replace.
  destruct (format_fn fmt ["Ada"]); [by eexists|done].
Qed.

Definition toy_env : EvaluationEnvironment :=
  {| eGithub := empty_github; eEnv := ∅; eJob := "success"; eSecrets := ∅; eVars := ∅;
     eNeeds := ∅; eSteps := ∅ |}.

Lemma interpolate_template_witness :
  Interpolate toy_env "Hi '{${{ vars.name }}}'" = "Hi '{Ada}'".
Proof.
  change ("Hi '{${{ vars.name }}}'" : gostring) with (template [("Hi '{", " vars.name ")] "}'").
  apply (interpolate_template toy_env [("Hi '{", " vars.name ")] "}'" ["Ada"]);
    [discriminate|vm_compute; reflexivity|vm_compute; reflexivity|reflexivity|].
  exact (toy_format toy_env).
Defined.

Lemma condition_brackets_optional_witness :
  eval_condition toy_env "${{  always() }}" = Ok true /\
  eval_condition (set_job_status toy_env "failure") [] = Ok false.
Proof.
  destruct (condition_brackets_optional toy_env "  always() ") as [H1 _];
    [discriminate|reflexivity|].
  split; [|reflexivity].
  change ("${{  always() }}" : gostring) with (open_expr ++ "  always() " ++ close_expr).
  rewrite H1. reflexivity.
Defined.

Definition toy_context : EvalContext :=
  {| cGitHub := empty_github; cEnv := ∅; cSecrets := ∅; cVars := ∅; cNeeds := ∅ |}.

Definition toy_manifest : Manifest EvalContext :=
  {| Steps := [sample_step "a" [] true; sample_step "b" [] false; sample_step "d" "always()" false];
     BaseEnv := ∅; Context := Some toy_context; CachePaths := [] |}.

Lemma runner_evaluator_tracks_witness :
  let r := @runEntrypoint _ _ _ scripted runner_evaluator [] "/shim" toy_manifest [1; 2; 0] in
  evaluator_tracks (Steps toy_manifest) toy_context r.2 /\
  (fun e => (eJob e, Conclusion <$> eSteps e !! ("a" : gostring),
             Conclusion <$> eSteps e !! ("b" : gostring),
             Outcome <$> eSteps e !! ("a" : gostring))) <$> evaluator r.2 =
    Some ("failure", Some StepStatusSuccess, Some StepStatusFailure, Some StepStatusFailure).
Proof.
  intros r. split; [|vm_compute; reflexivity].
  apply (runner_evaluator_tracks (H0 := scripted) [] "/shim" toy_manifest [1; 2; 0] toy_context
    r.1.1 r.1.2); [reflexivity|]. unfold r. by destruct (runEntrypoint _ _ _ _) as [[? ?] ?].
Defined.
