(* ===== verification/Builder.v ===== *)
(** * The Kubernetes job of a task ([pkg/k8s/builder.go])

    [BuildJob]: the pod that runs a task, as data, with the manifest and the
    shell command that writes it, the service containers and the wait script,
    the mounts and the security settings.  The JSON encoder is the parameter
    [marshal]. *)
From Stdlib Require Import Ascii QArith.
From S2P Require Import Prelude GoStrings K8sNames Loader Expressions.
From S2P Require Entrypoint.
#[local] Open Scope Z_scope.
#[local] Open Scope go_scope.

(** ** Kubernetes objects, as far as the builder fills them *)

Record SecurityContext := {
  AllowPrivilegeEscalation : bool;
  CapDrop : list gostring;
  CapAdd : list gostring;
  SeccompUnconfined : bool;
}.

Record VolumeMount := { mountVolume : gostring; MountPath : gostring; ReadOnly : bool }.

Record Container := {
  cName : gostring;
  cImage : gostring;
  cCommand : list gostring;
  cArgs : list gostring;
  cEnv : list (gostring * gostring);
  cPorts : list Z;
  cRestartAlways : bool;
  cSecurity : SecurityContext;
  cMounts : list VolumeMount;
  cEnvFrom : list gostring;
  cWorkingDir : gostring;
}.

Inductive VolumeSource := EmptyDir | ClaimVolume (claim : gostring) | SecretVolume (secret : gostring).

Record Volume := { volName : gostring; volSource : VolumeSource }.

Record Job := {
  jobName : gostring;
  jobNamespace : gostring;
  jobLabels : gmap gostring gostring;
  HostUsers : bool;
  BackoffLimit : Z;
  InitContainers : list Container;
  RunnerContainer : Container;
  Volumes : list Volume;
  ActiveDeadlineSeconds : option Z;
}.

(** ** Input *)

Record ServiceSpec := {
  svcName : gostring;
  svcImage : gostring;
  svcEnv : gmap gostring gostring;
  svcPorts : list Z;
  svcCmd : list gostring;
  svcArgs : list gostring;
  svcSecurity : option SecurityContext;
}.

Record JobSecretMount := { secName : gostring; secMountPath : gostring }.

Record ActionFetch := { fetchDir : gostring; fetchURL : gostring }.

Record JobConfig := {
  TaskID : Z;
  cfgRunID : gostring;
  Namespace : gostring;
  cfgImage : gostring;
  ControllerImage : gostring;
  cfgSteps : list StepSpec;
  cfgBaseEnv : gmap gostring gostring;
  Services : list ServiceSpec;
  Timeout : Z;
  Actions : list ActionFetch;
  JobSecrets : list JobSecretMount;
  cfgEvalContext : option EvalContext;
  SnapshotPVCName : gostring;
  SnapshotPaths : list gostring;
}.

(** ** The manifest ([buildManifest]) *)

Definition manifest_step (s : StepSpec) : Entrypoint.ManifestStep :=
  {| Entrypoint.ID := ssID s; Entrypoint.Name := ssName s; Entrypoint.Command := ssScript s;
     Entrypoint.Args := ssArgs s; Entrypoint.Shell := ssShell s; Entrypoint.Env := ssEnv s;
     Entrypoint.WorkDir := "/workspace"; Entrypoint.ContinueOnError := ssContinueOnError s;
     Entrypoint.If := ssIf s; Entrypoint.TimeoutMinutes := ssTimeoutMinutes s |}.

(** The manifest of the step runner, and the actions the setup fetches. *)
Definition full_manifest : Type := Entrypoint.Manifest EvalContext * list ActionFetch.

Definition buildManifest (cfg : JobConfig) : full_manifest :=
  ({| Entrypoint.Steps := map manifest_step (cfgSteps cfg);
      Entrypoint.BaseEnv := cfgBaseEnv cfg;
      Entrypoint.Context := cfgEvalContext cfg;
      Entrypoint.CachePaths := if decide (SnapshotPVCName cfg = []) then [] else SnapshotPaths cfg |},
   Actions cfg).

(** ** Services ([generateWaitScript]) *)

(** Text with back quotes for double quotes. *)
Definition text (s : gostring) : gostring := map (fun c => if decide (c = chr 96) then chr 34 else c) s.

Definition wait_script_1 : gostring := text "#!/bin/sh
set -e
echo `Waiting for services on ports: ".

Definition wait_script_2 : gostring := text "`

check_port() {
  if command -v node >/dev/null 2>&1; then
    node -e `const s=require('net').connect($1,'localhost',()=>{s.end();process.exit(0)});s.on('error',()=>process.exit(1));setTimeout(()=>process.exit(1),1000)` 2>/dev/null
  elif command -v nc >/dev/null 2>&1; then
    nc -z localhost $1 2>/dev/null
  elif command -v bash >/dev/null 2>&1; then
    bash -c `echo > /dev/tcp/localhost/$1` 2>/dev/null
  else
    python3 -c `import socket; s=socket.socket(); s.settimeout(1); s.connect(('localhost',$1)); s.close()` 2>/dev/null
  fi
}

for i in $(seq 1 60); do
  all_ready=true
  for port in ".

Definition wait_script_3 : gostring := text "; do
    if ! check_port $port; then
      all_ready=false
      break
    fi
  done
  if $all_ready; then
    echo `All services ready`
    exit 0
  fi
  echo `Waiting... ($i/60)`
  sleep 1
done
echo `Services failed to start within 60s`
exit 1".

Definition generateWaitScript (services : list ServiceSpec) : gostring :=
  let ports := concat (map svcPorts services) in
  match ports with
  | [] => []
  | _ => let portsStr := join " " (map itoa ports) in
         wait_script_1 ++ portsStr ++ wait_script_2 ++ portsStr ++ wait_script_3
  end.

(** ** The job *)

Definition containerSecurity : SecurityContext :=
  {| AllowPrivilegeEscalation := false; CapDrop := ["ALL"];
     CapAdd := ["SETUID"; "SETGID"; "CHOWN"; "FOWNER"; "DAC_OVERRIDE"];
     SeccompUnconfined := false |}.

(** [hex.EncodeToString]. *)
Definition hex (bs : list Z) : gostring := concat (map (fmt_hex_pad 2) bs).

(** The shell command of setup-shim: copy the binary, write the manifest
    through a here-document with a random delimiter, and run setup. *)
Definition heredoc (delimiter body : gostring) : gostring :=
  "<< '" ++ delimiter ++ "'" ++ [nl] ++ body ++ [nl] ++ delimiter ++ [nl].

Definition setupCmd (delimiter manifestJSON : gostring) : gostring :=
  "cp /entrypoint /shim/entrypoint && chmod +x /shim/entrypoint && " ++
  "touch /shim/state.jsonl && " ++
  "cat > /shim/manifest.json " ++ heredoc delimiter manifestJSON ++
  "exec /shim/entrypoint setup /shim/manifest.json".

Section build.
Context `{UnicodeTables} (marshal : full_manifest -> option gostring).

Definition uses_snapshot (cfg : JobConfig) : bool :=
  bool_decide (SnapshotPVCName cfg <> []) && (0 <? length (SnapshotPaths cfg))%nat.

Definition secret_volume_name (s : JobSecretMount) : gostring := "secret-" ++ sanitizeK8sName (secName s).

Definition build_volumes (cfg : JobConfig) : list Volume :=
  map (fun n => {| volName := n; volSource := EmptyDir |}) ["workspace"; "shim"; "actions"] ++
  (if uses_snapshot cfg
   then [{| volName := "snapshot-cache"; volSource := ClaimVolume (SnapshotPVCName cfg) |}] else []) ++
  omap (fun s => if decide (secMountPath s = []) then None
                 else Some {| volName := secret_volume_name s; volSource := SecretVolume (secName s) |})
    (JobSecrets cfg).

Definition service_container (svc : ServiceSpec) : Container :=
  {| cName := "svc-" ++ sanitizeK8sName (svcName svc); cImage := svcImage svc;
     cCommand := svcCmd svc; cArgs := svcArgs svc; cEnv := map_to_list (svcEnv svc);
     cPorts := svcPorts svc; cRestartAlways := true;
     cSecurity := default containerSecurity (svcSecurity svc);
     cMounts := []; cEnvFrom := []; cWorkingDir := [] |}.

(** A container of the pod's own machinery. *)
Definition shim_container (name image : gostring) (command args : list gostring) (always : bool)
    (mounts : list VolumeMount) : Container :=
  {| cName := name; cImage := image; cCommand := command; cArgs := args; cEnv := []; cPorts := [];
     cRestartAlways := always; cSecurity := containerSecurity; cMounts := mounts; cEnvFrom := [];
     cWorkingDir := [] |}.

Definition rw (volume path : gostring) : VolumeMount :=
  {| mountVolume := volume; MountPath := path; ReadOnly := false |}.
Definition ro (volume path : gostring) : VolumeMount :=
  {| mountVolume := volume; MountPath := path; ReadOnly := true |}.

Definition controller_image (cfg : JobConfig) : gostring :=
  if decide (ControllerImage cfg = []) then "ghcr.io/myers/drawbar:latest" else ControllerImage cfg.

Definition build_init_containers (cfg : JobConfig) (setup : gostring) : list Container :=
  map service_container (Services cfg) ++
  (if decide (generateWaitScript (Services cfg) = []) then [] else
   [shim_container "wait-for-services" (cfgImage cfg) ["/bin/sh"; "-e"; "-c"]
      [generateWaitScript (Services cfg)] false []]) ++
  [shim_container "setup-shim" (controller_image cfg) ["/bin/sh"; "-c"] [setup] false
     [rw "shim" "/shim"; rw "actions" "/actions"];
   shim_container "state-agent" (controller_image cfg)
     ["/shim/entrypoint"; "tail"; "/shim/state.jsonl"] [] true [rw "shim" "/shim"]].

Definition runner_mounts (cfg : JobConfig) : list VolumeMount :=
  [rw "workspace" "/workspace"; rw "shim" "/shim"; ro "actions" "/actions"] ++
  (if uses_snapshot cfg then [rw "snapshot-cache" "/cache"] else []) ++
  omap (fun s => if decide (secMountPath s = []) then None
                 else Some (ro (secret_volume_name s) (secMountPath s))) (JobSecrets cfg).

Definition build_runner (cfg : JobConfig) : Container :=
  {| cName := "runner"; cImage := cfgImage cfg;
     cCommand := ["/shim/entrypoint"; "run"; "/shim/manifest.json"]; cArgs := [];
     cEnv := []; cPorts := []; cRestartAlways := false; cSecurity := containerSecurity;
     cMounts := runner_mounts cfg;
     cEnvFrom := omap (fun s => if decide (secMountPath s = []) then Some (secName s) else None)
                   (JobSecrets cfg);
     cWorkingDir := "/workspace" |}.

Definition build_labels (cfg : JobConfig) : gmap gostring gostring :=
  let base : gmap gostring gostring :=
    {["app.kubernetes.io/managed-by" := "drawbar"; "drawbar.dev/task-id" := itoa (TaskID cfg)]} in
  let runID := SanitizeLabelValue (cfgRunID cfg) in
  if decide (runID = []) then base else <[("drawbar.dev/run-id" : gostring) := runID]> base.

Inductive build_error := MarshalFailed | RandFailed.

(** [BuildJob]; [rnd] is what [rand.Read] gives for the 16 bytes. *)
Definition BuildJob (cfg : JobConfig) (rnd : option (list Z)) : result build_error Job :=
  match marshal (buildManifest cfg) with
  | None => Err MarshalFailed
  | Some manifestJSON =>
      match rnd with
      | None => Err RandFailed
      | Some bytes =>
          Ok {| jobName := "drawbar-run-" ++ itoa (TaskID cfg);
                jobNamespace := Namespace cfg;
                jobLabels := build_labels cfg;
                HostUsers := false;
                BackoffLimit := 0;
                InitContainers :=
                  build_init_containers cfg (setupCmd ("MANIFEST_" ++ hex bytes) manifestJSON);
                RunnerContainer := build_runner cfg;
                Volumes := build_volumes cfg;
                ActiveDeadlineSeconds := if 0 <? Timeout cfg then Some (Timeout cfg) else None |}
      end
  end.
End build.

(** ** Well-formedness *)

Definition hardened (c : Container) : Prop :=
  AllowPrivilegeEscalation (cSecurity c) = false /\ CapDrop (cSecurity c) = ["ALL"] /\
  SeccompUnconfined (cSecurity c) = false.

Section build_spec.
Context `{UnicodeTables} (marshal : full_manifest -> option gostring).

Lemma mounts_declared cfg m :
  m ∈ runner_mounts cfg -> mountVolume m ∈ map volName (build_volumes cfg).
Proof.
  unfold runner_mounts, build_volumes. rewrite !map_app, !elem_of_app.
  intros [Hm|[Hm|Hm]].
  - left. rewrite !elem_of_cons, elem_of_nil in Hm.
    destruct Hm as [->|[->|[->|[]]]]; simpl; rewrite !elem_of_cons; tauto.
  - right. left. destruct (uses_snapshot cfg); [|by apply elem_of_nil in Hm].
    apply list_elem_of_singleton in Hm as ->. by apply list_elem_of_singleton.
  - right. right. apply list_elem_of_omap in Hm as (s & Hs & Heq).
    apply list_elem_of_fmap. case_decide; [done|]. injection Heq as <-.
    exists {| volName := secret_volume_name s; volSource := SecretVolume (secName s) |}.
    split; [done|]. apply list_elem_of_omap. exists s. by rewrite decide_False.
Qed.

Lemma itoa_label z : 0 <= z <= int64_max -> valid_label_value (itoa z).
Proof.
  intros Hz. unfold itoa. rewrite (proj2 (Z.ltb_ge _ _)) by lia.
  destruct (fmt_uint_spec 10 z) as (Hne & _ & Hf); [lia|lia|].
  assert (Forall (fun c => isAlnum c = true) (fmt_uint 10 z)) as Ha.
  { eapply Forall_impl; [exact Hf|]. intros c (d & Hd & ->). unfold digit_char.
    rewrite (proj2 (Z.ltb_lt _ _)) by lia. unfold isAlnum, in_range. rewrite code_chr by lia. lia. }
  assert (forall c, c ∈ fmt_uint 10 z -> isAlnum c = true) as Hin by by apply Forall_forall.
  split; [|split; [|split]].
  - eapply Forall_impl; [exact Ha|]. intros c Hc. unfold isLabelChar. by rewrite Hc.
  - assert (length (fmt_uint 10 z) <= 19)%nat; [|lia].
    apply fmt_uint_length; unfold int64_max in Hz; lia.
  - intros c Hc. apply Hin. destruct (fmt_uint 10 z); [done|]. injection Hc as ->. left.
  - intros c Hc. apply Hin. by apply last_Some_elem_of.
Qed.

Lemma init_container_cases cfg setup c :
  c ∈ build_init_containers cfg setup ->
  (exists svc, svc ∈ Services cfg /\ c = service_container svc) \/
  (cSecurity c = containerSecurity /\
   forall m, m ∈ cMounts c -> mountVolume m ∈ (["workspace"; "shim"; "actions"] : list gostring)).
Proof.
  unfold build_init_containers. rewrite !elem_of_app. intros [Hc|[Hc|Hc]].
  - left. apply list_elem_of_fmap in Hc as (svc & -> & Hs). by exists svc.
  - right. case_decide; [by apply elem_of_nil in Hc|]. apply list_elem_of_singleton in Hc as ->.
    split; [done|]. by intros m Hm%elem_of_nil.
  - right. rewrite !elem_of_cons, elem_of_nil in Hc. destruct Hc as [->|[->|[]]];
      (split; [done|]); intros m Hm; cbn [cMounts shim_container] in Hm;
      rewrite !elem_of_cons, elem_of_nil in Hm; destruct_or?; subst; try done; decide_now.
Qed.

Lemma label_values_valid cfg :
  0 <= TaskID cfg <= int64_max -> map_Forall (fun _ v => valid_label_value v) (build_labels cfg).
Proof.
  intros Hid. unfold build_labels.
  assert (map_Forall (fun _ v => valid_label_value v)
    ({["app.kubernetes.io/managed-by" := "drawbar"; "drawbar.dev/task-id" := itoa (TaskID cfg)]}
       : gmap gostring gostring)) as Hbase.
  { apply map_Forall_insert_2; [by vm_compute; repeat split; repeat constructor; intros ? [= <-]|].
    apply map_Forall_singleton. by apply itoa_label. }
  case_decide; [done|]. apply map_Forall_insert_2; [apply SanitizeLabelValue_valid|done].
Qed.

(** C17: the job is well formed and confined.  In the job of a task, every
    mount of a container names a volume of the pod; every container, except a
    service that brings its own security context, drops all capabilities and
    cannot escalate; the pod runs in a user namespace and is not restarted;
    the runner sees the actions read-only; and every label value is valid,
    whatever the run id the forge sent. *)
Theorem build_job_wellformed cfg rnd j :
  BuildJob marshal cfg rnd = Ok j -> 0 <= TaskID cfg <= int64_max ->
  (forall c m, c ∈ RunnerContainer j :: InitContainers j -> m ∈ cMounts c ->
     mountVolume m ∈ map volName (Volumes j)) /\
  (forall c, c ∈ RunnerContainer j :: InitContainers j ->
     hardened c \/ exists svc sc, svc ∈ Services cfg /\ svcSecurity svc = Some sc /\ cSecurity c = sc) /\
  HostUsers j = false /\ BackoffLimit j = 0 /\
  (forall m, m ∈ cMounts (RunnerContainer j) -> mountVolume m = "actions" -> ReadOnly m = true) /\
  map_Forall (fun _ v => valid_label_value v) (jobLabels j).
Proof.
  unfold BuildJob. intros Hj Hid. destruct (marshal _) as [json|]; [|done].
  destruct rnd as [bytes|]; [|done]. injection Hj as <-.
  cbn [RunnerContainer InitContainers Volumes HostUsers BackoffLimit jobLabels].
  split; [|split; [|split; [done|split; [done|split; [|by apply label_values_valid]]]]].
  - intros c m Hc Hm. apply elem_of_cons in Hc as [->|Hc]; [by apply mounts_declared|].
    apply init_container_cases in Hc as [(svc & _ & ->)|[_ Hv]]; [by apply elem_of_nil in Hm|].
    apply Hv in Hm. unfold build_volumes. rewrite map_app, elem_of_app. left. exact Hm.
  - intros c Hc. apply elem_of_cons in Hc as [->|Hc]; [by left|].
    apply init_container_cases in Hc as [(svc & Hsvc & ->)|[Hs _]]; [|left; unfold hardened; by rewrite Hs].
    unfold hardened. cbn [service_container cSecurity].
    destruct (svcSecurity svc) as [sc|] eqn:Hsc; [right; by exists svc, sc|by left].
  - intros m Hm Ha. cbn [build_runner cMounts] in Hm. unfold runner_mounts in Hm.
    rewrite !elem_of_app in Hm. destruct Hm as [Hm|[Hm|Hm]].
    + rewrite !elem_of_cons, elem_of_nil in Hm. by destruct Hm as [->|[->|[->|[]]]].
    + destruct (uses_snapshot cfg); [|by apply elem_of_nil in Hm].
      by apply list_elem_of_singleton in Hm as ->.
    + apply list_elem_of_omap in Hm as (s & _ & Heq). case_decide; [done|]. by injection Heq as <-.
Qed.

(** ** The manifest reaches the pod *)

(** A here-document in the shell: the lines up to the one that equals the
    delimiter, and what follows. *)
Fixpoint here_lines (delimiter : gostring) (lines : list gostring)
    : option (list gostring * list gostring) :=
  match lines with
  | [] => None
  | l :: lines => if decide (l = delimiter) then Some ([], lines)
                  else (fun p => (l :: p.1, p.2)) <$> here_lines delimiter lines
  end.

Lemma hex_chars bs c :
  Forall (fun b => 0 <= b < 256) bs -> c ∈ hex bs -> 48 <= code c <= 57 \/ 97 <= code c <= 102.
Proof.
  induction 1 as [|b bs Hb _ IH]; [by intros ?%elem_of_nil|]. unfold hex in *. cbn [map concat].
  rewrite elem_of_app. intros [Hin|Hin]; [|by apply IH].
  pose proof (fmt_hex_pad_chars 2 b ltac:(lia)) as Hf. eapply Forall_forall in Hf; [|exact Hin]. done.
Qed.

Lemma hex_no_nl bs : Forall (fun b => 0 <= b < 256) bs -> nl ∉ hex bs.
Proof. intros Hb Hin%hex_chars; [|done]. change (code nl) with 10 in Hin. lia. Qed.

(** The setup command, line by line. *)
Definition setup_line (d : gostring) : gostring :=
  "cp /entrypoint /shim/entrypoint && chmod +x /shim/entrypoint && " ++
  "touch /shim/state.jsonl && " ++ "cat > /shim/manifest.json " ++ "<< '" ++ d ++ "'".

Lemma setup_command_lines d json :
  (nl ∉ d) -> (nl ∉ json) ->
  split nl (setupCmd d json) = [setup_line d; json; d; "exec /shim/entrypoint setup /shim/manifest.json"].
Proof.
  intros Hd Hnl.
  assert (setupCmd d json = setup_line d ++ nl :: json ++ nl :: d ++ nl ::
    "exec /shim/entrypoint setup /shim/manifest.json") as ->
    by (unfold setupCmd, heredoc, setup_line; by simplify_list_eq).
  rewrite split_cons, split_cons, split_cons by
    (done || (unfold setup_line; rewrite !elem_of_app;
              intros Hin; destruct_or? Hin; try done; revert Hin; decide_now)).
  by rewrite split_nosep by decide_now.
Qed.

Lemma delimiter_no_nl bytes :
  Forall (fun b => 0 <= b < 256) bytes -> nl ∉ "MANIFEST_" ++ hex bytes.
Proof.
  intros Hb. rewrite elem_of_app. intros [Hin|Hin]; [|by apply hex_no_nl in Hin].
  revert Hin. decide_now.
Qed.

(** The here-document is the manifest's line, whatever the delimiter. *)
Lemma here_lines_manifest d json exec_line :
  head json = Some lbrace -> head d <> Some lbrace ->
  here_lines d [json; d; exec_line] = Some ([json], [exec_line]).
Proof. intros Hj Hd. cbn [here_lines]. rewrite decide_False by congruence. by rewrite decide_True. Qed.

(** C16: the manifest is delivered unchanged and nothing in it is run.  As long
    as the JSON encoder writes one line that begins with a brace, the shell
    takes exactly that line as the here-document, whatever the manifest holds
    and whatever the random delimiter is, and the only command after it is the
    setup. *)
Theorem manifest_delivered cfg bytes j json :
  BuildJob marshal cfg (Some bytes) = Ok j -> Forall (fun b => 0 <= b < 256) bytes ->
  marshal (buildManifest cfg) = Some json -> (nl ∉ json) -> head json = Some lbrace ->
  exists c command first rest,
    c ∈ InitContainers j /\ cName c = "setup-shim" /\ cCommand c = ["/bin/sh"; "-c"] /\
    cArgs c = [command] /\ split nl command = first :: rest /\
    has_suffix first ("<< '" ++ ("MANIFEST_" ++ hex bytes) ++ "'") = true /\
    here_lines ("MANIFEST_" ++ hex bytes) rest =
      Some ([json], ["exec /shim/entrypoint setup /shim/manifest.json"]).
Proof.
  unfold BuildJob. intros Hj Hb Hjson Hnl Hhead. rewrite Hjson in Hj. injection Hj as <-.
  set (d := "MANIFEST_" ++ hex bytes).
  exists (shim_container "setup-shim" (controller_image cfg) ["/bin/sh"; "-c"] [setupCmd d json] false
     [rw "shim" "/shim"; rw "actions" "/actions"]), (setupCmd d json), (setup_line d),
    [json; d; "exec /shim/entrypoint setup /shim/manifest.json"].
  cbn [InitContainers]. split_and!; try done.
  - unfold build_init_containers. rewrite !elem_of_app. right. right. left.
  - apply setup_command_lines; [by apply delimiter_no_nl|done].
  - apply has_suffix_spec. exists ("cp /entrypoint /shim/entrypoint && chmod +x /shim/entrypoint && " ++
      "touch /shim/state.jsonl && " ++ "cat > /shim/manifest.json "). unfold setup_line. by simplify_list_eq.
  - by apply here_lines_manifest.
Qed.
End build_spec.

(** ** A concrete job *)

Definition sample_config : JobConfig := {|
  TaskID := 42; cfgRunID := " 17/x "; Namespace := "ci"; cfgImage := "node:22"; ControllerImage := [];
  cfgSteps := [new_spec "hello" "sh" "echo hi" [] ∅]; cfgBaseEnv := ∅;
  Services := [{| svcName := "My DB"; svcImage := "postgres"; svcEnv := ∅; svcPorts := [5432];
                  svcCmd := []; svcArgs := []; svcSecurity := None |}];
  Timeout := 600; Actions := []; JobSecrets := [{| secName := "npm"; secMountPath := "/run/npm" |}];
  cfgEvalContext := None; SnapshotPVCName := "cache-42"; SnapshotPaths := ["target"] |}.

(** An encoder that writes the number of steps. *)
Definition count_steps (m : full_manifest) : option gostring :=
  Some ([lbrace] ++ itoa (Z.of_nat (length (Entrypoint.Steps m.1))) ++ [rbrace]).

Definition sample_job : result build_error Job :=
  @BuildJob ascii_tables count_steps sample_config (Some [0; 171]).

Lemma build_job_wellformed_witness :
  exists j, sample_job = Ok j /\
    map cName (InitContainers j) = ["svc-my-db"; "wait-for-services"; "setup-shim"; "state-agent"] /\
    jobLabels j !! ("drawbar.dev/run-id" : gostring) = Some ("17-x" : gostring) /\
    forall c m, c ∈ RunnerContainer j :: InitContainers j -> m ∈ cMounts c ->
      mountVolume m ∈ map volName (Volumes j).
Proof.
  eexists. split; [reflexivity|]. split; [vm_compute; reflexivity|]. split; [vm_compute; reflexivity|].
  refine (proj1 (@build_job_wellformed ascii_tables count_steps sample_config (Some [0; 171]) _ eq_refl _)).
  vm_compute. by split.
Defined.

Lemma manifest_delivered_witness :
  exists j c command first rest, sample_job = Ok j /\
    c ∈ InitContainers j /\ cName c = "setup-shim" /\ cArgs c = [command] /\
    split nl command = first :: rest /\
    here_lines "MANIFEST_00ab" rest =
      Some (["{1}"], ["exec /shim/entrypoint setup /shim/manifest.json"]).
Proof.
  destruct sample_job as [j|e] eqn:Hj; [|discriminate].
  destruct (@manifest_delivered ascii_tables count_steps sample_config [0; 171] j "{1}")
    as (c & command & first & rest & H1 & H2 & _ & H4 & H5 & _ & H7).
  - exact Hj.
  - repeat constructor; lia.
  - reflexivity.
  - decide_now.
  - reflexivity.
  - exists j, c, command, first, rest. auto 10.
Defined.
