(* ===== verification/TaskHandler.v ===== *)
(** * The controller's task handler ([cmd/controller/main.go], [pkg/workflow/parser.go])

    From a fetched task to its job: parsing the workflow, building the steps
    and the job's environment, the snapshot-cache volume, creating and watching
    the job, and the one final report.  The calls that leave the controller are
    the interface [Cluster] and are recorded in a trace of events.  A run without
    a result is one that is out of fuel (see [Loader]) or that panicked over a
    snapshot size that is not a quantity. *)
From Stdlib Require Import Ascii QArith.
From S2P Require Import Prelude GoStrings Paths Labels ActionRef K8sNames Masker Reporter Loader.
From S2P Require Import Expressions Builder.
From S2P Require Entrypoint.
#[local] Open Scope Z_scope.
#[local] Open Scope go_scope.

(** ** The workflow ([pkg/workflow/parser.go]) *)

(** What is used of [model.Step], [model.ContainerSpec] and [model.Job]. *)
Record WorkflowStep := {
  wID : gostring;
  wName : gostring;
  wIf : gostring;
  wRun : gostring;
  wUses : gostring;
  wShell : gostring;
  wWith : gmap gostring gostring;
  wEnv : gmap gostring gostring;
  wTimeoutMinutes : gostring;
  RawContinueOnError : gostring;
}.

Record ContainerSpec := {
  csImage : gostring;
  csSpecEnv : gmap gostring gostring;
  csCmd : list gostring;
  csPorts : list gostring;
}.

Record WorkflowJob := {
  jRunsOn : list gostring;
  jSteps : list WorkflowStep;
  jEnv : gmap gostring gostring;
  jContainer : option ContainerSpec;
  jServices : list (gostring * option ContainerSpec);
}.

Record ParsedJob := {
  JobID : gostring;
  RunsOn : list gostring;
  pSteps : list WorkflowStep;
  pEnv : gmap gostring gostring;
  pContainer : option ContainerSpec;
  pServices : list (gostring * option ContainerSpec);
}.

Inductive parse_error := EmptyPayload | BadWorkflow | NoJobs | ManyJobs (n : nat) | JobNotFound.

(** [model.ReadWorkflow]: the jobs by id, in the order the map is gone through. *)
Class WorkflowReader := {
  ReadWorkflow : gostring -> option (list (gostring * option WorkflowJob));
  ParseFloat : gostring -> option Q;
}.

Definition ParseTask `{WorkflowReader} (t : Task) : result parse_error ParsedJob :=
  if decide (WorkflowPayload t = []) then Err EmptyPayload
  else match ReadWorkflow (WorkflowPayload t) with
       | None => Err BadWorkflow
       | Some [] => Err NoJobs
       | Some [(jobID, Some job)] =>
           Ok {| JobID := jobID; RunsOn := jRunsOn job; pSteps := jSteps job; pEnv := jEnv job;
                 pContainer := jContainer job; pServices := jServices job |}
       | Some [(_, None)] => Err JobNotFound
       | Some jobs => Err (ManyJobs (length jobs))
       end.

(** ** Small helpers *)

Definition resolveNamespace (explicit fallback : gostring) : gostring :=
  if decide (explicit <> []) then explicit else fallback.

Definition resolveJobImage `{UnicodeTables} (l : LabelSet.Labels) (runsOn : list gostring)
    (container : option ContainerSpec) : gostring :=
  let image := LabelSet.PickPlatform l runsOn in
  match container with
  | Some c => if decide (csImage c <> []) then csImage c else image
  | None => image
  end.

(** The values the log masker gets, in the order the map is gone through. *)
Definition collectSecrets (t : Task) : list gostring :=
  let get k := GetStringValue (GetFields t !! (k : gostring)) in
  let opt v := if decide (v = []) then [] else [v] in
  (map_to_list (TaskSecrets t)).*2 ++ opt (get "token") ++ opt (get "gitea_runtime_token").

(** [truncate]: at most [n] runes. *)
Definition truncate (s : gostring) (n : nat) : gostring :=
  let rs := runes s in
  if (length rs <=? n)%nat then s else of_runes (take n rs) ++ "...".

(** [strings.EqualFold(s, "true")]: no rune outside ASCII folds to these letters. *)
Definition lower_ascii (c : ascii) : ascii := if in_range 65 90 (code c) then chr (code c + 32) else c.
Definition is_true_fold (s : gostring) : bool := bool_decide (map lower_ascii s = "true").

Definition parseTimeoutMinutes `{WorkflowReader} (s : gostring) : Q :=
  if decide (s = []) then 0
  else match ParseFloat s with
       | Some v => if Qlt_le_dec 0 v then v else 0
       | None => 0
       end.

(** ** Services *)

Definition isBuildKitImage (image : gostring) : bool := contains "moby/buildkit" image.

Definition has_flag (f : gostring) (args : list gostring) : bool :=
  existsb (fun arg => bool_decide (arg = f) || has_prefix arg (f ++ "=")) args.

Definition buildkit_security : SecurityContext :=
  {| AllowPrivilegeEscalation := true; CapDrop := ["ALL"]; CapAdd := ["SETUID"; "SETGID"];
     SeccompUnconfined := true |}.

Definition applyBuildKitDefaults (svc : ServiceSpec) : ServiceSpec :=
  let sandbox : gostring := "--oci-worker-no-process-sandbox" in
  let args := if has_flag sandbox (svcArgs svc) then svcArgs svc else svcArgs svc ++ [sandbox] in
  let args := if has_flag "--addr" args then args
              else args ++ map (fun p => "--addr=tcp://0.0.0.0:" ++ itoa p) (svcPorts svc) in
  {| svcName := svcName svc; svcImage := svcImage svc; svcEnv := svcEnv svc;
     svcPorts := svcPorts svc; svcCmd := svcCmd svc; svcArgs := args;
     svcSecurity := Some buildkit_security |}.

Definition convert_service (name : gostring) (spec : ContainerSpec) : ServiceSpec :=
  let svc := {| svcName := name; svcImage := csImage spec; svcEnv := csSpecEnv spec;
                svcPorts := omap (fun p => match ParseContainerPort p with
                                           | Ok z => Some z | Err _ => None end) (csPorts spec);
                svcCmd := csCmd spec; svcArgs := []; svcSecurity := None |} in
  if isBuildKitImage (csImage spec) then applyBuildKitDefaults svc else svc.

Definition convertServices (services : list (gostring * option ContainerSpec)) : list ServiceSpec :=
  omap (fun s => match s.2 with
                 | Some spec => if decide (csImage spec = []) then None
                                else Some (convert_service s.1 spec)
                 | None => None
                 end) services.

(** ** The base environment *)

Definition github_vars : list (gostring * gostring) :=
  [("GITHUB_SERVER_URL", "server_url"); ("GITHUB_REPOSITORY", "repository");
   ("GITHUB_REPOSITORY_OWNER", "repository_owner"); ("GITHUB_RUN_ID", "run_id");
   ("GITHUB_RUN_NUMBER", "run_number"); ("GITHUB_RUN_ATTEMPT", "run_attempt");
   ("GITHUB_ACTOR", "actor"); ("GITHUB_EVENT_NAME", "event_name"); ("GITHUB_SHA", "sha");
   ("GITHUB_REF", "ref"); ("GITHUB_REF_NAME", "ref_name"); ("GITHUB_REF_TYPE", "ref_type");
   ("GITHUB_HEAD_REF", "head_ref"); ("GITHUB_BASE_REF", "base_ref");
   ("GITHUB_RETENTION_DAYS", "retention_days"); ("GITHUB_TOKEN", "token");
   ("GITHUB_ACTION", "action"); ("GITHUB_JOB", "job"); ("GITHUB_WORKFLOW", "workflow");
   ("ACTIONS_ID_TOKEN_REQUEST_TOKEN", "forgejo_actions_id_token_request_token");
   ("ACTIONS_ID_TOKEN_REQUEST_URL", "forgejo_actions_id_token_request_url")].

Definition buildGitHubEnv (env : gmap gostring gostring) (taskCtx : gmap gostring Value)
    : gmap gostring gostring :=
  foldl (fun env v => let s := GetStringValue (taskCtx !! v.2) in
                      if decide (s = []) then env else <[v.1 := s]> env) env github_vars.

Definition buildArtifactEnv (env : gmap gostring gostring) (serverURL gitCloneURL : gostring)
    : gmap gostring gostring :=
  let forgejoURL := trim_suffix (if decide (gitCloneURL <> []) then gitCloneURL else serverURL) "/" in
  <[("ACTIONS_RESULTS_URL" : gostring) := forgejoURL ++ "/"]>
    (<[("ACTIONS_RUNTIME_URL" : gostring) := forgejoURL ++ "/api/actions_pipeline/"]> env).

Definition no_proxy : gostring :=
  "localhost,127.0.0.1,.svc,.cluster.local,.github.com,.githubusercontent.com,.monoloco.net,.docker.io,.docker.com,.ghcr.io,.crates.io".

Definition buildAptProxyEnv (env : gmap gostring gostring) (aptProxyURL : gostring)
    : gmap gostring gostring :=
  if decide (aptProxyURL = []) then env
  else <[("NO_PROXY" : gostring) := no_proxy]> (<[("no_proxy" : gostring) := no_proxy]>
         (<[("HTTP_PROXY" : gostring) := aptProxyURL]> (<[("http_proxy" : gostring) := aptProxyURL]> env))).

(** ** The snapshot cache's declaration ([extractCacheInfo]) *)

Definition trimmed_lines (s : gostring) : list gostring :=
  filter (fun e => e <> []) (map trim_space (split nl s)).

(** [hasTraversal] is [has_traversal]: [ToSlash] is the identity on Unix. *)
Record cache_info := { ciKey : gostring; ciPaths : list gostring; ciRestore : list gostring }.

(** The lines of one step's paths; [Err] is the entry with a traversal. *)
Fixpoint add_paths (entries paths : list gostring) : result gostring (list gostring) :=
  match entries with
  | [] => Ok paths
  | e :: entries =>
      if has_traversal e then Err e
      else add_paths entries (if decide (e ∈ paths) then paths else paths ++ [e])
  end.

Fixpoint extract_from (steps : list StepSpec) (ci : cache_info) : result gostring cache_info :=
  match steps with
  | [] => Ok ci
  | step :: steps =>
      let get k := default [] (ssEnv step !! (k : gostring)) in
      let k := get "INPUT_KEY" in
      if decide (k = []) then extract_from steps ci
      else
        let key := if decide (ciKey ci = []) then k else ciKey ci in
        match add_paths (trimmed_lines (get "INPUT_PATH")) (ciPaths ci) with
        | Err e => Err e
        | Ok paths =>
            extract_from steps
              {| ciKey := key; ciPaths := paths;
                 ciRestore := ciRestore ci ++ trimmed_lines (get "INPUT_RESTORE-KEYS") |}
        end
  end.

Definition extractCacheInfo (steps : list StepSpec) : result gostring cache_info :=
  extract_from steps {| ciKey := []; ciPaths := []; ciRestore := [] |}.

(** Every path accepted is not empty, free of [..] and listed once. *)
Definition safe_path (p : gostring) : Prop := p <> [] /\ has_traversal p = false.

Lemma add_paths_safe entries paths paths' :
  (forall e, e ∈ entries -> e <> []) -> add_paths entries paths = Ok paths' ->
  Forall safe_path paths -> NoDup paths -> Forall safe_path paths' /\ NoDup paths'.
Proof.
  revert paths. induction entries as [|e entries IH]; intros paths Hne; simpl; [by intros [= ->]|].
  destruct (has_traversal e) eqn:He; [done|]. intros Hadd Hf Hnd.
  eapply IH in Hadd; [done|intros; apply Hne; by right|..].
  - case_decide; [done|]. apply Forall_app_2; [done|]. apply Forall_singleton. split; [apply Hne; left|done].
  - case_decide; [done|]. apply NoDup_app. split_and!; [done| |apply NoDup_singleton].
    intros x Hx ->%list_elem_of_singleton. done.
Qed.

Lemma extract_paths_safe steps ci :
  extractCacheInfo steps = Ok ci -> Forall safe_path (ciPaths ci) /\ NoDup (ciPaths ci).
Proof.
  unfold extractCacheInfo.
  assert (forall ci0, Forall safe_path (ciPaths ci0) -> NoDup (ciPaths ci0) ->
            extract_from steps ci0 = Ok ci -> Forall safe_path (ciPaths ci) /\ NoDup (ciPaths ci)) as H.
  { induction steps as [|step steps IH]; intros ci0 Hf Hnd; simpl; [by intros [= ->]|].
    case_decide; [by apply IH|]. destruct (add_paths _ _) as [paths|] eqn:Ha; [|done].
    apply add_paths_safe in Ha as [? ?]; [by apply IH| |done|done].
    intros e He. by apply list_elem_of_filter in He as [? _]. }
  apply H; [apply Forall_nil_2|apply NoDup_nil_2].
Qed.

(** ** Building the steps *)

Inductive step_error :=
  | LoadFailed (r : ActionRef) (e : action_error)
  | BuildFailed (r : ActionRef) (e : action_error).

Section build_steps.
Context `{UnicodeTables} `{WorkflowReader} `{Interp} {W : Type} `{ActionHost W}.
Context (cacheDir actionsURL : gostring) (fuel : nat) (env : EvaluationEnvironment).

Definition step_id (workflowIdx : nat) (step : WorkflowStep) : gostring :=
  if decide (wID step = []) then "step-" ++ itoa (Z.of_nat workflowIdx) else wID step.

Definition set_env (e : gmap gostring gostring) (s : StepSpec) : StepSpec :=
  {| ssID := ssID s; ssName := ssName s; ssShell := ssShell s; ssScript := ssScript s;
     ssArgs := ssArgs s; ssEnv := e; ssImage := ssImage s; ssCmd := ssCmd s;
     ssActionDir := ssActionDir s; ssContinueOnError := ssContinueOnError s; ssIf := ssIf s;
     ssTimeoutMinutes := ssTimeoutMinutes s |}.

(** The step of a [run:]. *)
Definition run_spec (workflowIdx : nat) (step : WorkflowStep) : StepSpec :=
  {| ssID := step_id workflowIdx step;
     ssName := if decide (wName step = []) then "Run " ++ truncate (wRun step) 40 else wName step;
     ssShell := wShell step; ssScript := Interpolate env (wRun step); ssArgs := [];
     ssEnv := InterpolateMap env (wEnv step); ssImage := []; ssCmd := []; ssActionDir := [];
     ssContinueOnError := is_true_fold (RawContinueOnError step); ssIf := wIf step;
     ssTimeoutMinutes := parseTimeoutMinutes (wTimeoutMinutes step) |}.

(** The [j]-th step of an action used by a workflow step: only these fields
    are taken over. *)
Definition uses_spec (workflowIdx : nat) (step : WorkflowStep) (dir : gostring) (j : nat)
    (as_ : StepSpec) : StepSpec :=
  {| ssID := step_id workflowIdx step ++ (if decide (j = 0%nat) then [] else "-" ++ itoa (Z.of_nat j));
     ssName := ssName as_; ssShell := ssShell as_; ssScript := ssScript as_; ssArgs := ssArgs as_;
     ssEnv := ssEnv as_; ssImage := []; ssCmd := []; ssActionDir := dir;
     ssContinueOnError := is_true_fold (RawContinueOnError step);
     ssIf := if decide (j = 0%nat) then wIf step else [];
     ssTimeoutMinutes := parseTimeoutMinutes (wTimeoutMinutes step) |}.

(** What one step of the workflow adds: specifications and actions to fetch;
    the middle [None] is an expansion that ran out of fuel. *)
Abbreviation built A := (option (result step_error A)).

Definition build_step (workflowIdx : nat) (step : WorkflowStep) (ectx : ExpandCtx) (w : W)
    : built (list StepSpec * list ActionMeta) * ExpandCtx * W :=
  if decide (wRun step <> []) then (Some (Ok ([run_spec workflowIdx step], [])), ectx, w)
  else if decide (wUses step = []) then (Some (Ok ([], [])), ectx, w)
  else
    match ParseActionRef (wUses step) with
    | Err _ => (Some (Ok ([], [])), ectx, w)
    | Ok r =>
        match LoadAction cacheDir r actionsURL w with
        | (Err e, w) => (Some (Err (LoadFailed r e)), ectx, w)
        | (Ok meta, w) =>
            let '(o, ectx', w) :=
              ToStepSpecs cacheDir actionsURL fuel meta (InterpolateMap env (wWith step))
                (InterpolateMap env (wEnv step)) (Some ectx) w in
            let ectx := default ectx ectx' in
            match o with
            | None => (None, ectx, w)
            | Some (Err e) => (Some (Err (BuildFailed r e)), ectx, w)
            | Some (Ok actionSpecs) =>
                let specs := map (fun s => set_env (InterpolateMap env (ssEnv s)) s) actionSpecs in
                (Some (Ok (imap (uses_spec workflowIdx step (mDir meta)) specs,
                           meta :: Nested ectx)),
                 {| visited := visited ectx; Nested := [] |}, w)
            end
        end
    end.

Fixpoint build_steps (workflowIdx : nat) (steps : list WorkflowStep) (ectx : ExpandCtx) (w : W)
    : built (list StepSpec * list ActionMeta) * W :=
  match steps with
  | [] => (Some (Ok ([], [])), w)
  | step :: steps =>
      match build_step workflowIdx step ectx w with
      | (Some (Ok (specs, metas)), ectx, w) =>
          match build_steps (S workflowIdx) steps ectx w with
          | (Some (Ok (specs', metas')), w) => (Some (Ok (specs ++ specs', metas ++ metas')), w)
          | (o, w) => (o, w)
          end
      | (o, _, w) => (o, w)
      end
  end.
End build_steps.

(** ** The handler *)

Inductive task_event :=
  | EvActive (delta : Z)
  | EvReportFailure
  | EvStartReporter (r : Reporter)
  | EvLog
  | EvClose (r : Result)
  | EvCreatePVC (name : gostring) (ok : bool)
  | EvDeletePVC (name : gostring)
  | EvCreateJob (cfg : JobConfig) (j : Job) (ok : bool)
  | EvWatch (name : gostring) (answer : option Result)
  | EvDeleteJob (name : gostring)
  | EvSnapshot (pvc name : gostring).

(** The calls whose answers the handler uses; the others only leave their
    event.  [cancelled] is the error of the handler's context.  Creating a
    volume first parses the configured size with [resource.MustParse]: [None]
    is its panic, which ends the process. *)
Class Cluster (W : Type) := {
  find_snapshot : gostring -> gostring -> list gostring -> W -> option gostring * W;
  create_pvc : option gostring -> gostring -> W -> option bool * W;
  random_bytes : W -> option (list Z) * W;
  create_job : Job -> W -> bool * W;
  watch_job : gostring -> W -> option Result * W;
  cancelled : W -> bool;
}.

Record TaskHandlerConfig := {
  hLabels : LabelSet.Labels;
  hNamespace : gostring;
  hTimeoutSeconds : Z;
  hGitCloneURL : gostring;
  hActionsURL : gostring;
  hControllerImage : gostring;
  hCacheURL : option gostring;
  hJobSecrets : list JobSecretMount;
  hCacheDir : gostring;
  hSnapshots : bool;
  hCountsJobs : bool;
  hAptProxyURL : gostring;
}.

Section handler.
Context `{UnicodeTables} `{WorkflowReader} `{Interp} {W : Type} `{ActionHost W} `{Cluster W}.
Context (marshal : full_manifest -> option gostring) (cfg : TaskHandlerConfig) (fuel : nat).

Record handler_state := { trace : list task_event; hworld : W }.

Definition emit (e : task_event) (s : handler_state) : handler_state :=
  {| trace := trace s ++ [e]; hworld := hworld s |}.

(** A call: its answer, and the event it leaves. *)
Definition perform {A} (f : W -> A * W) (ev : A -> list task_event) (s : handler_state)
    : A * handler_state :=
  let '(a, w) := f (hworld s) in (a, {| trace := trace s ++ ev a; hworld := w |}).

Definition resolved_actions_url (t : Task) : gostring :=
  if decide (hActionsURL cfg <> []) then hActionsURL cfg
  else let u := GetStringValue (GetFields t !! ("gitea_default_actions_url" : gostring)) in
       if decide (u <> []) then u else "https://github.com".

Definition base_env (t : Task) (parsed : ParsedJob) : gmap gostring gostring :=
  let ctx k := GetStringValue (GetFields t !! (k : gostring)) in
  let env := pEnv parsed in
  let env := match hCacheURL cfg with
             | Some u =>
                 let env := <[("ACTIONS_CACHE_URL" : gostring) := u]> env in
                 if decide (ctx "gitea_runtime_token" = []) then env
                 else <[("ACTIONS_RUNTIME_TOKEN" : gostring) := ctx "gitea_runtime_token"]> env
             | None => env
             end in
  buildArtifactEnv (buildGitHubEnv (buildAptProxyEnv env (hAptProxyURL cfg)) (GetFields t))
    (ctx "server_url") (hGitCloneURL cfg).

(** The tarballs to fetch: each directory once, magic actions not at all. *)
Fixpoint fetches (base : gostring) (seen : list gostring) (metas : list ActionMeta) : list ActionFetch :=
  match metas with
  | [] => []
  | m :: metas =>
      if decide (mDir m = [] \/ Magic m = true \/ mDir m ∈ seen) then fetches base seen metas
      else {| fetchDir := mDir m;
              fetchURL := trim_right (fun c => bool_decide (c = slash)) base
                          ++ "/_apis/actions/" ++ mDir m ++ "/tar" |}
           :: fetches base (mDir m :: seen) metas
  end.

Definition actionFetches (metas : list ActionMeta) : list ActionFetch :=
  match hCacheURL cfg with Some base => fetches base [] metas | None => [] end.

(** The snapshot-cache volume: its name ([] if there is none), key and paths;
    a refused path ends the task, a size that is no quantity the process. *)
Inductive cache_outcome :=
  | CacheReady (pvc key : gostring) (paths : list gostring)
  | CacheRefused
  | CachePanic.

Definition prepare_cache (t : Task) (steps : list StepSpec) (s : handler_state)
    : cache_outcome * handler_state :=
  if negb (hSnapshots cfg) then (CacheReady [] [] [], s)
  else match extractCacheInfo steps with
       | Err _ => (CacheRefused, emit EvReportFailure s)
       | Ok ci =>
           if decide (ciKey ci = [] \/ ciPaths ci = []) then (CacheReady [] (ciKey ci) (ciPaths ci), s)
           else
             let repository := GetStringValue (GetFields t !! ("repository" : gostring)) in
             let pvcName := "cache-" ++ itoa (GetId t) in
             let '(snap, s) := perform (find_snapshot repository (ciKey ci) (ciRestore ci))
                                 (fun _ => []) s in
             let '(ok, s) := perform (create_pvc snap pvcName)
                               (fun ok => match ok with Some ok => [EvCreatePVC pvcName ok] | None => [] end) s in
             (match ok with
              | Some ok => CacheReady (if ok then pvcName else []) (ciKey ci) (ciPaths ci)
              | None => CachePanic
              end, s)
       end.

Definition job_config (t : Task) (parsed : ParsedJob) (steps : list StepSpec)
    (metas : list ActionMeta) (pvc : gostring) (paths : list gostring) : JobConfig :=
  {| TaskID := GetId t;
     cfgRunID := GetStringValue (GetFields t !! ("run_id" : gostring));
     Namespace := hNamespace cfg;
     cfgImage := resolveJobImage (hLabels cfg) (RunsOn parsed) (pContainer parsed);
     ControllerImage := hControllerImage cfg;
     cfgSteps := steps;
     cfgBaseEnv := base_env t parsed;
     Services := convertServices (pServices parsed);
     Timeout := if 0 <? hTimeoutSeconds cfg then hTimeoutSeconds cfg else 0;
     Actions := actionFetches metas;
     JobSecrets := hJobSecrets cfg;
     cfgEvalContext := Some (buildEvalContext t (pEnv parsed));
     SnapshotPVCName := pvc;
     SnapshotPaths := paths |}.

(** [runShutdownRecovery]. *)
Definition shutdown_recovery (jobName pvc : gostring) (s : handler_state) : handler_state :=
  let s := emit (EvDeleteJob jobName) (emit (EvClose RESULT_FAILURE) (emit EvLog s)) in
  if decide (pvc <> []) then if hSnapshots cfg then emit (EvDeletePVC pvc) s else s else s.

(** After the watch: the report, then the snapshot and the volume. *)
Definition finish_job (t : Task) (jobName pvc key : gostring) (answer : option Result)
    (s : handler_state) : handler_state :=
  let s := match answer with None => emit EvLog s | Some _ => s end in
  let result := default RESULT_FAILURE answer in
  if cancelled (hworld s) then shutdown_recovery jobName pvc s
  else
    let s := emit (EvClose result) s in
    if decide (pvc <> []) then
      if hSnapshots cfg then
        let s := if bool_decide (result = RESULT_SUCCESS) && bool_decide (key <> [])
                 then emit (EvSnapshot pvc ("snap-" ++ itoa (GetId t))) s else s in
        emit (EvDeletePVC pvc) s
      else s
    else s.

(** From the steps to the end of the job; [None]: the process has ended. *)
Definition run_job (t : Task) (parsed : ParsedJob) (steps : list StepSpec) (metas : list ActionMeta)
    (s : handler_state) : option handler_state :=
  let rep := SetSecrets (collectSecrets t) (New (GetId t) (length steps)) in
  let s := emit (EvStartReporter rep) s in
  match prepare_cache t steps s with
  | (CachePanic, _) => None
  | (CacheRefused, s) => Some s
  | (CacheReady pvc key paths, s) =>
      let jc := job_config t parsed steps metas pvc paths in
      let '(rnd, s) := perform random_bytes (fun _ => []) s in
      match BuildJob marshal jc rnd with
      | Err _ => Some (emit (EvClose RESULT_FAILURE) (emit EvLog s))
      | Ok j =>
          let '(ok, s) := perform (create_job j) (fun ok => [EvCreateJob jc j ok]) s in
          if negb ok then Some (emit (EvClose RESULT_FAILURE) (emit EvLog s))
          else
            let '(answer, s) := perform (watch_job (jobName j)) (fun a => [EvWatch (jobName j) a]) s in
            Some (finish_job t (jobName j) pvc key answer s)
      end
  end.

(** The body of the handler; [None]: an expansion ran out of fuel, or the
    process has ended. *)
Definition handle_body (t : Task) (s : handler_state) : option handler_state :=
  match ParseTask t with
  | Err _ => Some (emit EvReportFailure s)
  | Ok parsed =>
      let env := BuildEnvironment t (pEnv parsed) in
      match build_steps (hCacheDir cfg) (resolved_actions_url t) fuel env 0 (pSteps parsed)
              NewExpandCtx (hworld s) with
      | (None, _) => None
      | (Some (Err _), w) => Some (emit EvReportFailure {| trace := trace s; hworld := w |})
      | (Some (Ok (steps, metas)), w) =>
          let s := {| trace := trace s; hworld := w |} in
          match steps with
          | [] => Some (emit EvReportFailure s)
          | _ => run_job t parsed steps metas s
          end
      end
  end.

(** [makeTaskHandler]'s function: counted while it runs. *)
Definition handle_task (t : Task) (w : W) : option handler_state :=
  let s := {| trace := []; hworld := w |} in
  let s := if hCountsJobs cfg then emit (EvActive 1) s else s in
  (fun s => if hCountsJobs cfg then emit (EvActive (-1)) s else s) <$> handle_body t s.
End handler.

(** ** The shape of a trace *)

Definition terminal (e : task_event) : Prop :=
  match e with EvReportFailure | EvClose _ => True | _ => False end.
#[export] Instance terminal_dec e : Decision (terminal e).
Proof. destruct e; simpl; apply _. Defined.

(** The volume's events, and the name the job then uses. *)
Inductive volume_trace : list task_event -> gostring -> Prop :=
  | vt_none : volume_trace [] []
  | vt_failed n : volume_trace [EvCreatePVC n false] []
  | vt_ok n : n <> [] -> volume_trace [EvCreatePVC n true] n.

(** The end of a job that was created, after its watch. *)
Inductive job_end (name pvc : gostring) : option Result -> list task_event -> Prop :=
  | je_shutdown a :
      job_end name pvc a ([EvLog; EvClose RESULT_FAILURE; EvDeleteJob name] ++
                          (if decide (pvc = []) then [] else [EvDeletePVC pvc]))
  | je_closed a snap :
      snap = [] \/ (exists n, snap = [EvSnapshot pvc n]) /\ a = Some RESULT_SUCCESS ->
      job_end name pvc a ([EvClose (default RESULT_FAILURE a)] ++
                          (if decide (pvc = []) then [] else snap ++ [EvDeletePVC pvc])).

(** What a handler that got its steps does, after starting the reporter;
    [jc] is the job's configuration for a volume. *)
Inductive job_trace (jc : gostring -> list gostring -> JobConfig) : list task_event -> Prop :=
  | jt_bad_path : job_trace jc [EvReportFailure]
  | jt_unbuilt vt pvc :
      volume_trace vt pvc -> job_trace jc (vt ++ [EvLog; EvClose RESULT_FAILURE])
  | jt_uncreated vt pvc paths j :
      volume_trace vt pvc ->
      job_trace jc (vt ++ [EvCreateJob (jc pvc paths) j false; EvLog; EvClose RESULT_FAILURE])
  | jt_run vt pvc paths j a ending :
      volume_trace vt pvc -> job_end (jobName j) pvc a ending ->
      job_trace jc (vt ++ [EvCreateJob (jc pvc paths) j true; EvWatch (jobName j) a] ++
                    (match a with None => [EvLog] | Some _ => [] end) ++ ending).

Section handler_spec.
Context `{UnicodeTables} `{WorkflowReader} `{Interp} {W : Type} `{ActionHost W} `{Cluster W}.
Context (marshal : full_manifest -> option gostring) (cfg : TaskHandlerConfig) (fuel : nat).
Implicit Types s : @handler_state W.

Definition start_event (t : Task) (steps : list StepSpec) : task_event :=
  EvStartReporter (SetSecrets (collectSecrets t) (New (GetId t) (length steps))).

Lemma prepare_cache_trace t steps s o s' :
  prepare_cache cfg t steps s = (o, s') ->
  match o with
  | CachePanic => exists snap n w, (create_pvc snap n w).1 = None
  | CacheRefused => trace s' = trace s ++ [EvReportFailure]
  | CacheReady pvc key paths =>
      exists vt, trace s' = trace s ++ vt /\ volume_trace vt pvc /\ (pvc <> [] -> hSnapshots cfg = true)
  end.
Proof.
  unfold prepare_cache. destruct (hSnapshots cfg) eqn:Hs; cbn [negb].
  - destruct (extractCacheInfo steps) as [ci|]; [|by intros [= <- <-]].
    case_decide. { intros [= <- <-]. exists []. rewrite app_nil_r. split; [done|]. by split; [constructor|]. }
    unfold perform. destruct (find_snapshot _ _ _ _) as [snap w1]. cbn [hworld trace].
    destruct (create_pvc _ _ _) as [[ok|] w2] eqn:Hc; intros [= <- <-].
    + cbn [trace]. rewrite app_nil_r.
      eexists. split; [done|]. split; [|done]. destruct ok; constructor. done.
    + eexists _, _, _. by rewrite Hc.
  - intros [= <- <-]. exists []. rewrite app_nil_r. split; [done|]. by split; [constructor|].
Qed.

Lemma finish_job_trace t name pvc key a s :
  (pvc <> [] -> hSnapshots cfg = true) ->
  exists ending, job_end name pvc a ending /\
    trace (finish_job cfg t name pvc key a s) =
      trace s ++ (match a with None => [EvLog] | Some _ => [] end) ++ ending.
Proof.
  intros Hp. unfold finish_job. set (s1 := match a with None => _ | Some _ => _ end).
  assert (trace s1 = trace s ++ match a with None => [EvLog] | Some _ => [] end) as Hs1
    by (subst s1; destruct a; cbn; by rewrite ?app_nil_r).
  destruct (cancelled (hworld s1)).
  - eexists. split; [apply je_shutdown|]. unfold shutdown_recovery.
    destruct (decide (pvc = [])) as [->|Hne].
    { rewrite decide_False by tauto. cbn. rewrite Hs1. by simplify_list_eq. }
    rewrite decide_True, Hp by done. cbn. rewrite Hs1. by simplify_list_eq.
  - set (snap := if bool_decide (default RESULT_FAILURE a = RESULT_SUCCESS) && bool_decide (key <> [])
                 then [EvSnapshot pvc ("snap-" ++ itoa (GetId t))] else []).
    exists ([EvClose (default RESULT_FAILURE a)] ++
            (if decide (pvc = []) then [] else snap ++ [EvDeletePVC pvc])).
    split.
    + apply je_closed. subst snap. destruct (bool_decide_reflect (default RESULT_FAILURE a = RESULT_SUCCESS));
        [|by left]. case_bool_decide; [right|by left]. split; [by eexists|].
      destruct a; simpl in *; congruence.
    + subst snap. destruct (decide (pvc = [])) as [->|Hne].
      { rewrite decide_False by tauto. cbn. rewrite Hs1. by simplify_list_eq. }
      rewrite decide_True, Hp by done.
      destruct (_ && _); cbn; rewrite Hs1; by simplify_list_eq.
Qed.

Lemma run_job_trace t parsed steps metas s s' :
  run_job marshal cfg t parsed steps metas s = Some s' ->
  exists l, trace s' = trace s ++ start_event t steps :: l /\
            job_trace (job_config cfg t parsed steps metas) l.
Proof.
  unfold run_job. set (s1 := emit _ s).
  assert (trace s1 = trace s ++ [start_event t steps]) as Hs1 by done.
  destruct (prepare_cache cfg t steps s1) as [[pvc key paths| |] s2] eqn:Hc;
    apply prepare_cache_trace in Hc; [| |done].
  - destruct Hc as (vt & Hs2 & Hvt & Hp). unfold perform at 1.
    destruct (random_bytes _) as [rnd w1]. cbn [trace].
    destruct (BuildJob _ _ _) as [j|].
    + unfold perform. cbn [hworld trace]. destruct (create_job j w1) as [ok w2].
      destruct ok; cbn [negb].
      * destruct (watch_job _ _) as [a w3].
        match goal with |- context [finish_job _ _ _ _ _ _ ?x] => set (s3 := x) end.
        intros [= <-].
        destruct (finish_job_trace t (jobName j) pvc key a s3 Hp) as (ending & He & ->).
        eexists. split; [|by eapply jt_run]. subst s3. cbn. rewrite Hs2, Hs1. by simplify_list_eq.
      * intros [= <-]. eexists. split; [|by eapply jt_uncreated]. cbn. rewrite Hs2, Hs1. by simplify_list_eq.
    + intros [= <-]. eexists. split; [|by eapply jt_unbuilt]. cbn. rewrite Hs2, Hs1. by simplify_list_eq.
  - intros [= <-]. eexists. split; [|apply jt_bad_path]. rewrite Hc, Hs1. by simplify_list_eq.
Qed.

(** The process only ends in the middle of a task when a volume is created
    with a size that is no quantity. *)
Lemma run_job_returns t parsed steps metas s :
  (forall snap n w, (create_pvc snap n w).1 <> None) ->
  is_Some (run_job marshal cfg t parsed steps metas s).
Proof.
  intros Hpvc. unfold run_job.
  destruct (prepare_cache cfg t steps _) as [[pvc key paths| |] s2] eqn:Hc;
    [|by eexists|apply prepare_cache_trace in Hc as (snap & n & w & Hn); by destruct (Hpvc snap n w)].
  unfold perform at 1. destruct (random_bytes _) as [rnd w1].
  destruct (BuildJob _ _ _) as [j|]; [|by eexists].
  unfold perform. cbn [hworld trace]. destruct (create_job j w1) as [[] w2]; [|by eexists].
  cbn [negb]. destruct (watch_job _ _) as [a w3]. by eexists.
Qed.

(** How a handler's trace looks: counted or not, one failure report before
    the steps are there, or a started reporter and a job trace. *)
Lemma handle_task_trace t w s :
  handle_task marshal cfg fuel t w = Some s ->
  exists l, trace s = (if hCountsJobs cfg then [EvActive 1] else []) ++ l ++
                      (if hCountsJobs cfg then [EvActive (-1)] else []) /\
    (l = [EvReportFailure] \/
     exists parsed steps metas w1 w2 l',
       ParseTask t = Ok parsed /\
       build_steps (hCacheDir cfg) (resolved_actions_url cfg t) fuel
         (BuildEnvironment t (pEnv parsed)) 0 (pSteps parsed) NewExpandCtx w1 =
         (Some (Ok (steps, metas)), w2) /\
       l = start_event t steps :: l' /\ job_trace (job_config cfg t parsed steps metas) l').
Proof.
  unfold handle_task. set (s0 := if hCountsJobs cfg then _ else _).
  assert (trace s0 = if hCountsJobs cfg then [EvActive 1] else []) as Hs0
    by (subst s0; by destruct (hCountsJobs cfg)).
  intros (s1 & Hb & ->)%fmap_Some.
  assert (forall l, trace s1 = trace s0 ++ l ->
    trace (if hCountsJobs cfg then emit (EvActive (-1)) s1 else s1) =
      (if hCountsJobs cfg then [EvActive 1] else []) ++ l ++
      (if hCountsJobs cfg then [EvActive (-1)] else [])) as Htr.
  { intros l Hl. destruct (hCountsJobs cfg); cbn; rewrite Hl, Hs0; by simplify_list_eq. }
  unfold handle_body in Hb. destruct (ParseTask t) as [parsed|] eqn:Hp.
  - destruct (build_steps _ _ _ _ _ _ _ _) as [[[[steps metas]|]|] w2] eqn:Hbs; [|..|done].
    + destruct steps as [|sp steps].
      * injection Hb as <-. exists [EvReportFailure]. split; [by apply Htr|by left].
      * apply run_job_trace in Hb as (l & Hl & Hjt).
        eexists. split; [apply Htr; rewrite Hl; done|]. right. by repeat eexists.
    + injection Hb as <-. exists [EvReportFailure]. split; [by apply Htr|by left].
  - injection Hb as <-. exists [EvReportFailure]. split; [by apply Htr|by left].
Qed.
End handler_spec.

(** ** What the trace guarantees *)

Definition is_active (e : task_event) : Prop := match e with EvActive _ => True | _ => False end.
#[export] Instance is_active_dec e : Decision (is_active e).
Proof. destruct e; simpl; apply _. Defined.

Lemma volume_trace_quiet vt pvc :
  volume_trace vt pvc -> count terminal vt = 0 /\ count is_active vt = 0.
Proof. by intros []; vm_compute. Qed.

Lemma job_end_counts name pvc a ending :
  job_end name pvc a ending -> count terminal ending = 1 /\ count is_active ending = 0.
Proof.
  intros [|? snap [->|[[n ->] _]]]; case_decide; by rewrite ?count_app.
Qed.

Lemma job_trace_counts jc l :
  job_trace jc l -> count terminal l = 1 /\ count is_active l = 0.
Proof.
  intros [|vt pvc Hv|vt pvc paths j Hv|vt pvc paths j a ending Hv He]; [done|..];
    apply volume_trace_quiet in Hv as [Ht Ha].
  - by rewrite !count_app, Ht, Ha.
  - by rewrite !count_app, Ht, Ha.
  - apply job_end_counts in He as [Ht' Ha']. rewrite !count_app, Ht, Ha, Ht', Ha'.
    by destruct a.
Qed.

(** The events that the volume's part and the closing part can hold. *)
Lemma volume_trace_elem vt pvc e :
  volume_trace vt pvc -> e ∈ vt ->
  exists n, e = EvCreatePVC n false \/ (e = EvCreatePVC n true /\ pvc = n).
Proof. intros [|n|n Hn] He; elem_inv He; exists n; auto. Qed.

Lemma job_end_elem name pvc a ending e :
  job_end name pvc a ending -> e ∈ ending ->
  e = EvLog \/ e = EvClose RESULT_FAILURE \/ e = EvClose (default RESULT_FAILURE a) \/
  e = EvDeleteJob name \/ (exists n, e = EvSnapshot pvc n) \/ (e = EvDeletePVC pvc /\ pvc <> []).
Proof.
  intros [|? snap Hsnap] He; elem_inv He; subst; eauto 10; case_decide; elem_inv He; subst; eauto 10.
  destruct Hsnap as [->|[[n ->] _]]; elem_inv He; subst; eauto 10.
Qed.

Lemma job_end_success name pvc a ending :
  job_end name pvc a ending -> EvClose RESULT_SUCCESS ∈ ending -> a = Some RESULT_SUCCESS.
Proof.
  intros Hend He. inversion Hend; subst.
  - elem_inv He. case_decide; elem_inv He.
  - elem_inv He; [injection He as He; destruct a; simpl in He; congruence|].
    case_decide; elem_inv He.
    match goal with Hs : _ = [] \/ _ |- _ => destruct Hs as [->|[[n ->] _]] end; elem_inv He.
Qed.

Lemma close_success jc l :
  job_trace jc l -> EvClose RESULT_SUCCESS ∈ l ->
  exists pvc paths j, EvCreateJob (jc pvc paths) j true ∈ l /\
    EvWatch (jobName j) (Some RESULT_SUCCESS) ∈ l.
Proof.
  intros [|vt pvc Hv|vt pvc paths j Hv|vt pvc paths j a ending Hv He] Hin; elem_inv Hin;
    try (apply (volume_trace_elem _ _ _ Hv) in Hin as [? [?|[? _]]]; discriminate).
  - destruct a; elem_inv Hin.
  - exists pvc, paths, j. apply job_end_success with (1 := He) in Hin as ->.
    rewrite !elem_of_app, !elem_of_cons. tauto.
Qed.

Lemma volume_trace_created vt pvc n :
  volume_trace vt pvc -> EvCreatePVC n true ∈ vt -> pvc = n /\ n <> [].
Proof. intros [|m|m Hm] He; elem_inv He. by injection He as ->. Qed.

Lemma volume_fate jc l n :
  job_trace jc l -> EvCreatePVC n true ∈ l ->
  (EvDeletePVC n ∈ l <-> exists c j, EvCreateJob c j true ∈ l).
Proof.
  intros [|vt pvc Hv|vt pvc paths j Hv|vt pvc paths j a ending Hv He] Hin; elem_inv Hin.
  - split; [intros Hd|intros (c & j & Hd)]; elem_inv Hd;
      apply (volume_trace_elem _ _ _ Hv) in Hd as [? [?|[? _]]]; discriminate.
  - split; [intros Hd|intros (c & j' & Hd)]; elem_inv Hd;
      apply (volume_trace_elem _ _ _ Hv) in Hd as [? [?|[? _]]]; discriminate.
  - split; [intros _; exists (jc pvc paths), j; rewrite !elem_of_app, !elem_of_cons; tauto|intros _].
    apply (volume_trace_created _ _ _ Hv) in Hin as [-> Hne].
    rewrite !elem_of_app. right. right. right.
    destruct He; rewrite decide_False by done; rewrite !elem_of_app, !elem_of_cons; tauto.
  - destruct a; elem_inv Hin.
  - apply (job_end_elem _ _ _ _ _ He) in Hin.
    destruct Hin as [?|[?|[?|[?|[[? ?]|[? _]]]]]]; discriminate.
Qed.

Section handler_theorems.
Context `{UnicodeTables} `{WorkflowReader} `{Interp} {W : Type} `{ActionHost W} `{Cluster W}.
Context (marshal : full_manifest -> option gostring) (cfg : TaskHandlerConfig) (fuel : nat).
Implicit Types s : @handler_state W.

Lemma counted_elem (b : bool) (l : list task_event) e :
  ~ is_active e ->
  e ∈ (if b then [EvActive 1] else []) ++ l ++ (if b then [EvActive (-1)] else []) <-> e ∈ l.
Proof.
  intros He. split; [|rewrite !elem_of_app; tauto].
  intros Hin. rewrite !elem_of_app in Hin. destruct b, Hin as [Hin|[Hin|Hin]]; elem_inv Hin;
    try done; subst; by destruct He.
Qed.

(** C6: every task is reported exactly once.  Whatever fails, the handler ends
    with exactly one final report, a failure sent by a fresh reporter or the
    closing of the task's reporter; it reports success only for a job it
    created and whose watch answered success; and the count of active jobs is
    raised first, lowered last and not touched in between. *)
Theorem task_reported_once t w s :
  handle_task marshal cfg fuel t w = Some s ->
  count terminal (trace s) = 1 /\
  (EvClose RESULT_SUCCESS ∈ trace s ->
     exists jc j, EvCreateJob jc j true ∈ trace s /\
                  EvWatch (jobName j) (Some RESULT_SUCCESS) ∈ trace s) /\
  (if hCountsJobs cfg
   then exists mid, trace s = [EvActive 1] ++ mid ++ [EvActive (-1)] /\ count is_active mid = 0
   else count is_active (trace s) = 0).
Proof.
  intros Hs. apply handle_task_trace in Hs as (l & -> & Hl).
  assert (count terminal l = 1 /\ count is_active l = 0 /\
    (EvClose RESULT_SUCCESS ∈ l -> exists jc j, EvCreateJob jc j true ∈ l /\
       EvWatch (jobName j) (Some RESULT_SUCCESS) ∈ l)) as (Ht & Ha & Hc).
  { destruct Hl as [->|(parsed & steps & metas & w1 & w2 & l' & _ & _ & -> & Hj)].
    - split; [done|]. split; [done|]. intros Hin. elem_inv Hin.
    - pose proof (job_trace_counts _ _ Hj) as [Ht Ha].
      rewrite !count_cons, Ht, Ha. split; [done|]. split; [done|]. intros Hin. elem_inv Hin.
      destruct (close_success _ _ Hj Hin) as (pvc & paths & j & Hcr & Hw).
      exists (job_config cfg t parsed steps metas pvc paths), j. rewrite !elem_of_cons. tauto. }
  split; [|split].
  - rewrite !count_app, Ht. by destruct (hCountsJobs cfg).
  - intros Hin. apply counted_elem in Hin; [|simpl; tauto].
    destruct (Hc Hin) as (jc & j & Hcr & Hw). exists jc, j.
    split; apply counted_elem; simpl; tauto.
  - destruct (hCountsJobs cfg); [by exists l|]. simpl. by rewrite app_nil_r.
Qed.

(** C32: the fate of the snapshot-cache volume.  A volume the handler created
    is deleted again exactly when the job was created: after every watched
    job, however it ended, but not when building or creating the job fails,
    where it is left to the sweep of orphans. *)
Theorem volume_deleted_with_job t w s n :
  handle_task marshal cfg fuel t w = Some s -> EvCreatePVC n true ∈ trace s ->
  (EvDeletePVC n ∈ trace s <-> exists jc j, EvCreateJob jc j true ∈ trace s).
Proof.
  intros Hs Hin. apply handle_task_trace in Hs as (l & Heq & Hl). rewrite Heq in Hin |- *.
  apply counted_elem in Hin; [|simpl; tauto]. rewrite counted_elem by (simpl; tauto).
  setoid_rewrite counted_elem; [|simpl; tauto].
  destruct Hl as [->|(parsed & steps & metas & w1 & w2 & l' & _ & _ & -> & Hj)]; elem_inv Hin.
  pose proof (volume_fate _ _ n Hj Hin) as Hf. rewrite elem_of_cons, Hf. split.
  - intros [?|(c & j & Hc)]; [discriminate|]. exists c, j. by right.
  - intros (c & j & Hc). right. exists c, j. elem_inv Hc. done.
Qed.
End handler_theorems.

(** ** The job and its report agree *)




Section steps_spec.
Context `{UnicodeTables} `{WorkflowReader} `{Interp} {W : Type} `{ActionHost W}.
Context (cacheDir actionsURL : gostring) (fuel : nat) (env : EvaluationEnvironment).


End steps_spec.



Section agreement.
Context `{UnicodeTables} `{WorkflowReader} `{Interp} {W : Type} `{ActionHost W} `{Cluster W}.
Context (marshal : full_manifest -> option gostring) (cfg : TaskHandlerConfig) (fuel : nat).
Implicit Types s : @handler_state W.

End agreement.

(** ** The sweep at start-up ([cleanupOrphanedJobs]) *)

(** A managed job: its number of active pods and its task label. *)
Record OrphanJob := { ojName : gostring; ojActive : Z; ojTaskID : gostring }.

Inductive sweep_request := SweepJob (name : gostring) | SweepPVC (name : gostring).

(** The requests sent, which are the same when some of them fail; a listing
    that fails is [None].  [list_pvcs] gives the managed volumes of a task. *)
Definition cleanupOrphanedCachePVCs (list_pvcs : gostring -> option (list gostring))
    (taskID : gostring) : list sweep_request :=
  match list_pvcs taskID with Some pvcs => map SweepPVC pvcs | None => [] end.

Definition cleanupOrphanedJobs (jobs : option (list OrphanJob))
    (list_pvcs : gostring -> option (list gostring)) : list sweep_request :=
  concat (map (fun j =>
    if decide (ojActive j = 0) then []
    else SweepJob (ojName j) ::
         (if decide (ojTaskID j = []) then [] else cleanupOrphanedCachePVCs list_pvcs (ojTaskID j)))
    (default [] jobs)).

(** A volume is only swept together with an active job of its task: one whose
    job was never created, or has ended, stays. *)
Lemma swept_volume_has_job jobs list_pvcs n :
  SweepPVC n ∈ cleanupOrphanedJobs jobs list_pvcs <->
  exists js j pvcs, jobs = Some js /\ j ∈ js /\ ojActive j <> 0 /\ ojTaskID j <> [] /\
    list_pvcs (ojTaskID j) = Some pvcs /\ n ∈ pvcs.
Proof.
  unfold cleanupOrphanedJobs. split.
  - intros Hn. destruct jobs as [js|]; [|by apply elem_of_nil in Hn].
    apply list_elem_of_In, in_concat in Hn as (l & Hl%list_elem_of_In & Hn%list_elem_of_In).
    apply list_elem_of_fmap in Hl as (j & -> & Hj). case_decide; elem_inv Hn. case_decide; elem_inv Hn.
    unfold cleanupOrphanedCachePVCs in Hn. destruct (list_pvcs _) as [pvcs|] eqn:Hp; elem_inv Hn.
    apply list_elem_of_fmap in Hn as (m & [= ->] & Hm). exists js, j, pvcs. auto 10.
  - intros (js & j & pvcs & -> & Hj & Ha & Ht & Hp & Hn). apply list_elem_of_In, in_concat.
    eexists. split; [apply list_elem_of_In, list_elem_of_fmap_2, Hj|]. apply list_elem_of_In.
    rewrite !decide_False by done. right. unfold cleanupOrphanedCachePVCs. rewrite Hp.
    by apply list_elem_of_fmap_2.
Qed.

(** ** What the translation to manifest steps loses *)

(** The step a docker action becomes runs an empty shell script: image,
    command and arguments do not reach the manifest. *)
Lemma docker_action_runs_nothing `{WorkflowReader} m env specs sp i step dir j :
  dockerStepSpecs m env = Ok specs -> sp ∈ specs ->
  Entrypoint.step_argv (manifest_step (uses_spec i step dir j sp)) =
    ["/bin/sh"; "-e"; "-c"; []].
Proof.
  unfold dockerStepSpecs. case_match; [done|]. intros [= <-] ->%list_elem_of_singleton. done.
Qed.

(** ** Concrete tasks *)

Section example.
#[local] Instance example_tables : UnicodeTables := ascii_tables.

Definition plain_step (id run uses : gostring) (with_ : gmap gostring gostring) : WorkflowStep :=
  {| wID := id; wName := []; wIf := []; wRun := run; wUses := uses; wShell := []; wWith := with_;
     wEnv := ∅; wTimeoutMinutes := []; RawContinueOnError := "True" |}.

Definition example_job : WorkflowJob :=
  {| jRunsOn := ["ubuntu-latest"];
     jSteps := [plain_step [] "echo hi" [] ∅;
                plain_step [] [] "drawbar/cache@v1"
                  {["key" := "${{ github.title }}"; "path" := "target"]};
                plain_step "build" [] "c/x@v1" ∅];
     jEnv := ∅; jContainer := None; jServices := [] |}.

Definition example_reader : WorkflowReader :=
  {| ReadWorkflow _ := Some [("job1", Some example_job)]; ParseFloat _ := None |}.

(** A pull request's title that contains an expression. *)
Definition example_interp : Interp := {|
  value := gostring;
  Evaluate s _ _ :=
    if decide (s = "format('{0}', github.title)") then Ok ("${{ secrets.DEPLOY }}" : gostring)
    else if decide (s = "format('{0}', secrets.DEPLOY)") then Ok ("hunter2" : gostring)
    else Err tt;
  as_string v := Some v;
  sprint v := v;
  IsTruthy _ := true;
|}.

(** Everything works, except creating the job in a world that starts at 100. *)
Definition example_cluster : Cluster nat := {|
  find_snapshot _ _ _ w := (None, w);
  create_pvc _ _ w := (Some true, w);
  random_bytes w := (Some [1; 2], w);
  create_job _ w := (bool_decide (w < 100)%nat, w);
  watch_job _ w := (Some RESULT_SUCCESS, w);
  cancelled _ := false;
|}.

Definition example_config : TaskHandlerConfig :=
  {| hLabels := []; hNamespace := "ci"; hTimeoutSeconds := 3600; hGitCloneURL := [];
     hActionsURL := "https://f"; hControllerImage := []; hCacheURL := Some "http://cache:9300/";
     hJobSecrets := []; hCacheDir := "/cache"; hSnapshots := true; hCountsJobs := true;
     hAptProxyURL := [] |}.

Definition example_task : Task :=
  {| GetId := 7; WorkflowPayload := "on: push"; TaskContext := Some ∅;
     TaskSecrets := {["DEPLOY" := "hunter2"]}; TaskVars := ∅; TaskNeeds := ∅ |}.

Definition example_run (w : nat) : option (@handler_state nat) :=
  @handle_task example_tables example_reader example_interp nat sample_host example_cluster
    count_steps example_config 5 example_task w.

(** The inputs of an action are interpolated twice: an expression that the
    first evaluation brings in, here from a title, is evaluated too. *)
Example inputs_interpolated_twice :
  (fun o => match o with
            | (Some (Ok ([sp], _)), _, _) => ssEnv sp !! ("INPUT_KEY" : gostring)
            | _ => None
            end)
    (@build_step example_tables example_reader example_interp nat sample_host "/cache" "https://f" 5
       toy_env 0 (plain_step [] [] "drawbar/cache@v1" {["key" := "${{ github.title }}"]})
       NewExpandCtx 0%nat) = Some ("hunter2" : gostring).
Proof. vm_compute. reflexivity. Qed.

Definition event_kind (e : task_event) : nat :=
  match e with
  | EvActive _ => 0 | EvReportFailure => 1 | EvStartReporter _ => 2 | EvLog => 3 | EvClose _ => 4
  | EvCreatePVC _ _ => 5 | EvDeletePVC _ => 6 | EvCreateJob _ _ _ => 7 | EvWatch _ _ => 8
  | EvDeleteJob _ => 9 | EvSnapshot _ _ => 10
  end%nat.

Lemma task_reported_once_witness :
  exists s, example_run 0 = Some s /\ map event_kind (trace s) = [0; 2; 5; 7; 8; 4; 10; 6; 0]%nat /\
    count terminal (trace s) = 1.
Proof.
  destruct (example_run 0) as [s|] eqn:Hs; [|vm_compute in Hs; discriminate].
  exists s. split; [reflexivity|]. split.
  - assert (Some (map event_kind (trace s)) = (fun s => map event_kind (trace s)) <$> example_run 0)
      as He by by rewrite Hs.
    vm_compute in He. by injection He.
  - exact (proj1 (@task_reported_once example_tables example_reader example_interp nat sample_host
      example_cluster count_steps example_config 5 example_task 0%nat s Hs)).
Defined.

(** The outcome of creating a job. *)
Definition created_ok (e : task_event) : option bool :=
  match e with EvCreateJob _ _ ok => Some ok | _ => None end.

Definition run_events (w : nat) : option (list (option bool)) :=
  (fun s => map created_ok (trace s)) <$> example_run w.

Definition third_event (w : nat) : option task_event := example_run w ≫= (fun s => trace s !! 2%nat).

Lemma volume_deleted_with_job_witness :
  exists s, example_run 100 = Some s /\ EvCreatePVC "cache-7" true ∈ trace s /\
    ~ EvDeletePVC "cache-7" ∈ trace s.
Proof.
  assert (run_events 100 = Some [None; None; None; Some false; None; None; None]) as Hjobs
    by (vm_compute; reflexivity).
  assert (third_event 100 = Some (EvCreatePVC "cache-7" true)) as Hpvc by (vm_compute; reflexivity).
  unfold run_events, third_event in *. destruct (example_run 100) as [s|] eqn:Hs; [|discriminate].
  injection Hjobs as Hjobs. cbn [mbind option_bind] in Hpvc.
  exists s. split; [reflexivity|]. split; [exact (list_elem_of_lookup_2 _ _ _ Hpvc)|].
  rewrite (@volume_deleted_with_job example_tables example_reader example_interp nat sample_host
    example_cluster count_steps example_config 5 example_task 100%nat s "cache-7" Hs
    (list_elem_of_lookup_2 _ _ _ Hpvc)).
  intros (jc & j & Hc). apply (list_elem_of_fmap_2 created_ok) in Hc.
  change (created_ok <$> trace s) with (map created_ok (trace s)) in Hc.
  rewrite Hjobs in Hc. revert Hc. decide_now.
Defined.

End example.
