(* ===== verification/CacheMirror.v ===== *)
(** * The cache mirror ([cmd/entrypoint/cache_mirror.go])

    Before every step each declared cache path is made a symbolic link into the
    volume at [/cache]; a directory that is there already is first merged into
    the cache.  Recursion over directories has the depth of the tree as fuel,
    which is enough unless a path is an ancestor of its own place in the
    cache. *)
From Stdlib Require Import Ascii.
From S2P Require Import Prelude GoStrings Paths Loader TaskHandler FileSystem Tar.
#[local] Open Scope go_scope.

Inductive mirror_error :=
  | EmptyPath
  | HomeRequired
  | MirrorOs (e : errno)
  | OutOfFuel.

#[export] Instance mirror_error_eq_dec : EqDecision mirror_error.
Proof. solve_decision. Defined.

Definition is_tilde (rel : gostring) : bool := bool_decide (rel = "~") || has_prefix rel "~/".

(** Where the link lives and where it points. *)
Definition resolvePath (workspace cache home rel : gostring) : result mirror_error (gostring * gostring) :=
  if is_tilde rel then
    if decide (home = []) then Err HomeRequired
    else let rest := trim_prefix (trim_prefix rel "~") [slash] in
         Ok (Join [home; rest], Join [cache; trim_prefix home [slash]; rest])
  else if IsAbs rel then Ok (rel, Join [cache; trim_prefix rel [slash]])
  else Ok (Join [workspace; rel], Join [cache; rel]).

Section mirror.
Context (umask : Z).

(** [os.Open] and reading. *)
Definition read_file (t : tree) (p : path) : result errno gostring :=
  match namei true t p with
  | Ok q => match node_at t q with
            | Some (NFile _ d) => Ok d
            | Some NDir => Err EISDIR
            | Some (NLink _) => Err ELOOP
            | None => Err ENOENT
            end
  | Err e => Err e
  end.

(** [openNoFollowForWrite], and the copy: a link in the way is removed and the
    file is opened once more. *)
Definition copyFile (src dst : path) (mode : Z) : act errno unit := fun t =>
  match read_file t src with
  | Err e => (Err e, t)
  | Ok d =>
      match write_nofollow umask dst mode d t with
      | (Err ELOOP, t) =>
          match Remove dst t with
          | (Ok _, t) => write_nofollow umask dst mode d t
          | (Err e, t) => (Err e, t)
          end
      | r => r
      end
  end.

(** One entry of [mergeDir]; [recurse] merges a directory. *)
Definition merge_entry (recurse : path -> path -> act mirror_error unit) (src dst : path)
    : act mirror_error unit := fun t =>
  match Lstat t src with
  | Err e => (Err (MirrorOs e), t)
  | Ok (NLink l) => map_error MirrorOs (Symlink l dst) (Remove dst t).2
  | Ok NDir => (map_error MirrorOs (MkdirAll dst) ≫= fun _ => recurse src dst) t
  | Ok (NFile m _) => map_error MirrorOs (copyFile src dst m) t
  end.

Fixpoint merge_entries (f : gostring -> act mirror_error unit) (names : list gostring)
    : act mirror_error unit :=
  match names with
  | [] => mret tt
  | n :: names => f n ≫= fun _ => merge_entries f names
  end.

Fixpoint mergeDir (fuel : nat) (src dst : path) : act mirror_error unit :=
  match fuel with
  | O => fail OutOfFuel
  | S fuel => fun t =>
      match ReadDir t src with
      | Err e => (Err (MirrorOs e), t)
      | Ok names =>
          merge_entries (fun n => merge_entry (mergeDir fuel) (src ++ [n]) (dst ++ [n])) names t
      end
  end.

(** An absolute path is used as it was declared.  One that ends in a slash or
    in [/.] means what is there as a directory: a link at its end is followed,
    none can be created there, and [os.RemoveAll] refuses the latter. *)
Definition as_directory (p : gostring) : bool := has_suffix p [slash] || has_suffix p "/.".

Definition lstat_as (t : tree) (p : gostring) : result errno node :=
  if as_directory p then
    match Stat t (segments p) with Ok NDir => Ok NDir | Ok _ => Err ENOTDIR | Err e => Err e end
  else Lstat t (segments p).

Definition symlink_as (oldname p : gostring) : act errno unit := fun t =>
  if as_directory p then
    match Stat t (segments p) with Ok _ => (Err EEXIST, t) | Err e => (Err e, t) end
  else Symlink oldname (segments p) t.

Definition remove_all_as (p : gostring) : act errno unit :=
  if has_suffix p "/." then fail EINVAL else RemoveAll (segments p).

(** [mirrorOne] once the places are known. *)
Definition mirror_at (wsPath cachePath : gostring) : act mirror_error unit := fun t =>
  match lstat_as t wsPath with
  | Err ENOENT => map_error MirrorOs (symlink_as cachePath wsPath) t
  | Err e => (Err (MirrorOs e), t)
  | Ok (NLink target) =>
      if decide (target = cachePath) then (Ok tt, t)
      else map_error MirrorOs (Remove (segments wsPath) ≫= fun _ => symlink_as cachePath wsPath) t
  | Ok (NFile _ _) => (Ok tt, t)
  | Ok NDir =>
      (mergeDir (S (depth t)) (segments wsPath) (segments cachePath) ≫= fun _ =>
       map_error MirrorOs (remove_all_as wsPath ≫= fun _ => symlink_as cachePath wsPath)) t
  end.

Definition mirrorOne (workspace cache home rel : gostring) : act mirror_error unit :=
  if decide (rel = []) then fail EmptyPath
  else
    match resolvePath workspace cache home rel with
    | Err e => fail e
    | Ok (wsPath, cachePath) =>
        map_error MirrorOs (MkdirAll (segments (Dir cachePath)) ≫= fun _ =>
                            MkdirAll (segments cachePath) ≫= fun _ =>
                            MkdirAll (segments (Dir wsPath))) ≫= fun _ =>
        mirror_at wsPath cachePath
    end.

(** Every path is tried; only a missing home directory is fatal. *)
Fixpoint mirrorCachePaths (workspace cache home : gostring) (paths : list gostring)
    : act mirror_error unit := fun t =>
  match paths with
  | [] => (Ok tt, t)
  | p :: paths =>
      match mirrorOne workspace cache home p t with
      | (Err HomeRequired, t) => (Err HomeRequired, t)
      | (_, t) => mirrorCachePaths workspace cache home paths t
      end
  end.
End mirror.

(** ** Merging *)

(** The node merging leaves at a place: the workspace wins, and a file copied
    over a file keeps the permissions of the latter. *)
Definition merged (umask : Z) (w c : option node) : option node :=
  match w, c with
  | None, _ => c
  | Some (NFile _ d), Some (NFile m _) => Some (NFile m d)
  | Some (NFile m d), _ => Some (NFile (Z.land (Z.land m 511) (Z.lnot umask)) d)
  | Some n, _ => Some n
  end.

Definition apart (p q : path) : Prop := ~ p `prefix_of` q /\ ~ q `prefix_of` p.

Lemma apart_sym p q : apart p q -> apart q p.
Proof. by intros [? ?]. Qed.

Lemma apart_prefix p q x : apart p q -> ~ (p ++ x) `prefix_of` q.
Proof. intros [H _] [k ->]. apply H. exists (x ++ k). by rewrite app_assoc. Qed.

Lemma apart_below p q x y : apart p q -> ~ (p ++ x) `prefix_of` (q ++ y).
Proof.
  intros [H1 H2] Hp.
  destruct (prefix_weak_total p q (q ++ y)) as [?|?]; [|by eexists|done|done].
  etransitivity; [by eexists|done].
Qed.

Lemma apart_app p q x y : apart p q -> apart (p ++ x) (q ++ y).
Proof. intros H. split; apply apart_below; [done|by apply apart_sym]. Qed.

Section merge.
Context (umask : Z) (t : tree) (Hclosed : closed t).

Abbreviation blend x y := (merged umask x y).

(** [m] merges [src] into [dst]: in a tree that has below the two what [t]
    has, nothing changes outside [dst], and if there is no error what is below
    [dst] is the merger. *)
Definition below_agree (p : path) (u : tree) : Prop := forall x, x <> [] -> u !! (p ++ x) = t !! (p ++ x).

Definition merges (m : act mirror_error unit) (src dst : path) : Prop :=
  forall u r u', real_dirs src u -> real_dirs dst u -> below_agree src u -> below_agree dst u ->
    m u = (r, u') ->
    r <> Err OutOfFuel /\
    (forall q, ~ dst `prefix_of` q \/ q = dst -> u' !! q = u !! q) /\
    (r = Ok tt -> forall x, x <> [] -> u' !! (dst ++ x) = blend (t !! (src ++ x)) (t !! (dst ++ x))).

(** One entry; [f] is its place in the cache, [e] in the workspace. *)
Section entry.
Context (src dst : path) (n : gostring) (Hapart : apart src dst) (Hn : n <> dotdot).
Abbreviation e := (src ++ [n]).
Abbreviation f := (dst ++ [n]).
Context (u : tree) (Hsrc : real_dirs src u) (Hdst : real_dirs dst u).
Context (He : forall x, u !! (e ++ x) = t !! (e ++ x)) (Hf : forall x, u !! (f ++ x) = t !! (f ++ x)).

Definition entry_done (r : result mirror_error unit) (u' : tree) : Prop :=
  r <> Err OutOfFuel /\ (forall q, ~ f `prefix_of` q -> u' !! q = u !! q) /\
  (r = Ok tt -> forall x, u' !! (f ++ x) = blend (t !! (e ++ x)) (t !! (f ++ x))).

Lemma at_e : u !! e = t !! e.
Proof. specialize (He []). by rewrite app_nil_r in He. Qed.
Lemma at_f : u !! f = t !! f.
Proof. specialize (Hf []). by rewrite app_nil_r in Hf. Qed.

Lemma entry_failed err u' :
  (forall q, ~ f `prefix_of` q -> u' !! q = u !! q) -> entry_done (Err (MirrorOs err)) u'.
Proof. by intros Hout. Qed.

Lemma unchanged_outside u' : u' = u \/ u' = delete f u -> forall q, ~ f `prefix_of` q -> u' !! q = u !! q.
Proof. intros [-> | ->] q Hq; [done|]. apply lookup_delete_ne. by intros <-. Qed.

(** A leaf put at the place, below which there is nothing on either side. *)
Lemma entry_put nd :
  (forall x, x <> [] -> t !! (e ++ x) = None) -> (forall x, x <> [] -> t !! (f ++ x) = None) ->
  Some nd = blend (t !! e) (t !! f) -> entry_done (Ok tt) (<[f := nd]> u).
Proof.
  intros Hbe Hbf Hnd. split_and!; [done| |].
  - intros q Hq. apply lookup_insert_ne. by intros <-.
  - intros _ x. destruct (decide (x = [])) as [->|Hx].
    + by rewrite !app_nil_r, lookup_insert_eq.
    + rewrite Hbe, Hbf by done. rewrite lookup_insert_ne, Hf by
        (intros Heq%(f_equal length); rewrite !length_app in Heq; destruct x; simpl in *; [done|lia]).
      by apply Hbf.
Qed.

Lemma leaf_below p : p <> [] -> t !! p <> Some NDir -> forall x, x <> [] -> t !! (p ++ x) = None.
Proof. intros. by apply closed_leaf. Qed.

(** Removing what is in the way, and what the next operation finds. *)
Lemma Remove_f :
  exists b u', Remove f u = (b, u') /\ (u' = u \/ u' = delete f u) /\
    (u' !! f = None -> t !! f = Some NDir -> forall s, t !! (f ++ [s]) = None).
Proof.
  unfold Remove, at_path. rewrite namei_child, node_at_child, at_f by done.
  destruct (t !! f) as [[| |]|] eqn:E.
  - destruct (decide (children u f = [])) as [Hc|Hc]; eexists _, _; (split; [done|]).
    + split; [by right|]. intros _ _ s. rewrite <-Hf. apply eq_None_not_Some. intros Hs.
      apply elem_of_children in Hs. rewrite Hc in Hs. by apply elem_of_nil in Hs.
    + split; [by left|]. rewrite at_f, E. done.
  - eexists _, _. split; [done|]. split; [by right|done].
  - eexists _, _. split; [done|]. split; [by right|done].
  - eexists _, _. split; [done|]. split; [by left|done].
Qed.

Lemma after_removal u' x : (u' = u \/ u' = delete f u) -> u' !! f = None -> <[f := x]> u' = <[f := x]> u.
Proof. intros [-> | ->] _; [done|]. apply insert_delete_eq. Qed.

Lemma real_after_removal u' : (u' = u \/ u' = delete f u) -> real_dirs dst u'.
Proof.
  intros [-> | ->]; [done|]. eapply real_dirs_agree; [|exact Hdst]. intros q Hq.
  apply lookup_delete_ne. intros <-. by apply (above_prefix dst n f).
Qed.

Lemma e_nonempty : e <> [].
Proof. by destruct src. Qed.
Lemma f_nonempty : f <> [].
Proof. by destruct dst. Qed.

(** A symbolic link of the workspace replaces what is in the cache, except a
    directory that is not empty. *)
Lemma entry_link l r u' :
  t !! e = Some (NLink l) ->
  map_error MirrorOs (Symlink l f) (Remove f u).2 = (r, u') -> entry_done r u'.
Proof.
  intros Hl. destruct Remove_f as (b & u1 & -> & Hu1 & Hempty).
  unfold map_error. cbn [snd]. rewrite Symlink_child by (done || by apply real_after_removal).
  case_decide as Hnil; [by intros [= <- <-]; apply entry_failed, unchanged_outside|].
  destruct (u1 !! f) eqn:Hu; [by intros [= <- <-]; apply entry_failed, unchanged_outside|].
  intros [= <- <-]. rewrite after_removal by done. apply entry_put.
  - apply leaf_below; [apply e_nonempty|by rewrite Hl].
  - intros x Hx. destruct (decide (t !! f = Some NDir)) as [Hd|Hd].
    + apply closed_empty; [done|by apply Hempty|done].
    + apply leaf_below; [apply f_nonempty|done|done].
  - rewrite Hl. by destruct (t !! f) as [[]|].
Qed.

(** A file of the workspace is written over a file, a link or nothing. *)
Lemma entry_file m d r u' :
  t !! e = Some (NFile m d) ->
  map_error MirrorOs (copyFile umask e f m) u = (r, u') -> entry_done r u'.
Proof.
  intros Hfile. unfold map_error, copyFile, read_file.
  assert (namei true u e = Ok e) as ->.
  { unfold namei. destruct Hsrc as [Hd Hq]. rewrite resolve_real by done. simpl app.
    by rewrite resolve_cons, decide_False, node_at_child, at_e, Hfile by done. }
  rewrite node_at_child, at_e, Hfile. rewrite write_child, at_f by done.
  assert (forall x, x <> [] -> t !! (e ++ x) = None) as Hbe
    by (apply leaf_below; [apply e_nonempty|by rewrite Hfile]).
  destruct (t !! f) as [[|m' d'|l]|] eqn:Ht.
  - intros [= <- <-]. by apply entry_failed.
  - intros [= <- <-]. apply entry_put; [done|apply leaf_below; [apply f_nonempty|by rewrite Ht]|].
    by rewrite Hfile, Ht.
  - unfold Remove, at_path. rewrite namei_child, node_at_child, at_f, Ht by done. cbn.
    rewrite write_child by (done || (apply real_after_removal; by right)).
    rewrite lookup_delete_eq. intros [= <- <-]. rewrite insert_delete_eq.
    apply entry_put; [done|apply leaf_below; [apply f_nonempty|by rewrite Ht]|]. by rewrite Hfile, Ht.
  - intros [= <- <-]. apply entry_put; [done|apply leaf_below; [apply f_nonempty|by rewrite Ht]|].
    by rewrite Hfile, Ht.
Qed.

(** A directory is merged into a directory, made if there is nothing. *)
Lemma entry_dir recurse r u' :
  t !! e = Some NDir -> (forall l, t !! f <> Some (NLink l)) -> merges (recurse e f) e f ->
  (map_error MirrorOs (MkdirAll f) ≫= fun _ => recurse e f) u = (r, u') -> entry_done r u'.
Proof.
  intros Hdir Hnolink Hrec. unfold mbind, act_bind, map_error.
  assert (forall u1, (u1 = u /\ t !! f = Some NDir) \/ (u1 = <[f := NDir]> u /\ t !! f = None) ->
            recurse e f u1 = (r, u') -> entry_done r u') as Hgo.
  { intros u1 Hu1 Hrun.
    assert (forall q, q <> f -> u1 !! q = u !! q) as Hsame
      by (intros q Hq; destruct Hu1 as [[-> _]|[-> _]]; [done|by apply lookup_insert_ne]).
    assert (u1 !! f = Some NDir) as Huf
      by (destruct Hu1 as [[-> Ht]|[-> _]]; [by rewrite at_f|apply lookup_insert_eq]).
    apply Hrec in Hrun as (Hfuel & Hout & Hin).
    - split_and!; [done| |].
      + intros q Hq. rewrite Hout by by left. apply Hsame. by intros ->.
      + intros -> x. destruct (decide (x = [])) as [->|Hx].
        * rewrite !app_nil_r, Hout, Huf by by right. by rewrite Hdir.
        * by apply Hin.
    - apply real_dirs_snoc; [|done|].
      + eapply real_dirs_agree; [|exact Hsrc]. intros q Hq. apply Hsame. intros ->.
        by apply (apart_prefix dst src [n]); [apply apart_sym|].
      + rewrite Hsame, at_e; [done|]. intros Heq. apply (apart_below src dst [n] [n] Hapart). by rewrite Heq.
    - apply real_dirs_snoc; [|done|done].
      eapply real_dirs_agree; [|exact Hdst]. intros q Hq. apply Hsame. intros ->.
      by apply (above_prefix dst n f).
    - intros x Hx. rewrite Hsame, He; [done|]. intros Heq.
      apply (apart_below dst src [n] ([n] ++ x) (apart_sym _ _ Hapart)).
      by rewrite app_assoc, Heq.
    - intros x Hx. rewrite Hsame, Hf; [done|].
      intros Heq%(f_equal length). rewrite !length_app in Heq. destruct x; simpl in *; [done|lia]. }
  destruct (t !! f) as [[|m' d'|l]|] eqn:Ht.
  - rewrite MkdirAll_real by (apply real_dirs_snoc; [done..|by rewrite at_f]).
    apply Hgo. by left.
  - assert (exists err, MkdirAll f u = (Err err, u)) as [err ->].
    { exists ENOTDIR. unfold MkdirAll. rewrite reverse_snoc. cbn [mkdir_all].
      rewrite reverse_cons, reverse_involutive. unfold Stat, stat_with, namei.
      destruct Hdst as [Hd Hq]. rewrite resolve_real by done. simpl app.
      rewrite resolve_cons, decide_False, node_at_child, at_f, Ht by done. simpl.
      by rewrite node_at_child, at_f, Ht. }
    intros [= <- <-]. by apply entry_failed.
  - by destruct (Hnolink l).
  - rewrite MkdirAll_child by (done || by rewrite at_f). apply Hgo. by right.
Qed.

Lemma entry_spec recurse r u' :
  is_Some (t !! e) -> (t !! e = Some NDir -> forall l, t !! f <> Some (NLink l)) ->
  (t !! e = Some NDir -> merges (recurse e f) e f) ->
  merge_entry umask recurse e f u = (r, u') -> entry_done r u'.
Proof.
  intros [nd He'] Hnolink Hrec. unfold merge_entry. rewrite Lstat_child, at_e, He' by done.
  destruct nd as [|m d|l].
  - apply entry_dir; auto.
  - by eapply entry_file.
  - by eapply entry_link.
Qed.
End entry.

(** *** All entries of a directory *)

Section entries.
Context (src dst : path) (Hapart : apart src dst) (recurse : path -> path -> act mirror_error unit).
Context (Hnames : forall n, is_Some (t !! (src ++ [n])) -> n <> dotdot).
Context (Hnolink : forall n l, t !! (src ++ [n]) = Some NDir -> t !! (dst ++ [n]) <> Some (NLink l)).
Context (Hrec : forall n, t !! (src ++ [n]) = Some NDir ->
                  merges (recurse (src ++ [n]) (dst ++ [n])) (src ++ [n]) (dst ++ [n])).

Lemma entries_spec ns u r u' :
  (forall n, n ∈ ns -> is_Some (t !! (src ++ [n]))) -> NoDup ns ->
  real_dirs src u -> real_dirs dst u -> below_agree src u ->
  (forall n x, n ∈ ns -> u !! (dst ++ n :: x) = t !! (dst ++ n :: x)) ->
  merge_entries (fun n => merge_entry umask recurse (src ++ [n]) (dst ++ [n])) ns u = (r, u') ->
  r <> Err OutOfFuel /\
  (forall q, (forall n, n ∈ ns -> ~ (dst ++ [n]) `prefix_of` q) -> u' !! q = u !! q) /\
  (r = Ok tt -> forall n x, n ∈ ns -> u' !! (dst ++ n :: x) = blend (t !! (src ++ n :: x)) (t !! (dst ++ n :: x))).
Proof.
  intros Hns Hnd. revert u. induction Hnd as [|n ns Hn Hnd IH]; intros u Hsrc Hdst Has Had.
  { intros [= <- <-]. split_and!; [done|done|]. by intros _ n x ?%elem_of_nil. }
  assert (is_Some (t !! (src ++ [n]))) as Hs by (apply Hns; left).
  cbn [merge_entries]. unfold mbind, act_bind at 1.
  destruct (merge_entry umask recurse (src ++ [n]) (dst ++ [n]) u) as [r1 u1] eqn:He.
  apply (entry_spec src dst n Hapart (Hnames _ Hs) u Hsrc Hdst) in He as (Hfuel & Hout & Hin);
    [|intros x; rewrite <-app_assoc; by apply Has|intros x; rewrite <-app_assoc; apply Had; left
     |done|by intros ? ?; apply Hnolink|apply Hrec].
  destruct r1 as [[]|err1].
  2: { intros [= <- <-]. split_and!; [done| |done]. intros q Hq. apply Hout, Hq. left. }
  intros Hrest. destruct (IH (fun m Hm => Hns m (list_elem_of_further _ _ _ Hm)) u1) as (Hf2 & Ho2 & Hi2).
  - eapply real_dirs_agree; [|exact Hsrc]. intros q Hq. apply Hout. intros Hp.
    apply (apart_prefix dst src [n]); [by apply apart_sym|]. by etransitivity.
  - eapply real_dirs_agree; [|exact Hdst]. intros q Hq. apply Hout. by apply above_prefix.
  - intros x Hx. rewrite Hout; [by apply Has|]. by apply apart_below, apart_sym.
  - intros m x Hm. rewrite Hout; [apply Had; by right|]. intros Hp.
    apply (sibling_prefix dst m n (dst ++ m :: x)); [by intros ->| |done].
    exists x. by rewrite <-app_assoc.
  - done.
  - split_and!; [done| |].
    + intros q Hq. rewrite Ho2 by (intros m Hm; apply Hq; by right). apply Hout, Hq. left.
    + intros -> m x Hm. apply elem_of_cons in Hm as [->|Hm]; [|by apply Hi2].
      rewrite Ho2.
      * specialize (Hin eq_refl x). by rewrite <-!app_assoc in Hin.
      * intros m Hm Hp. apply (sibling_prefix dst n m (dst ++ n :: x)); [by intros ->| |done].
        exists x. by rewrite <-app_assoc.
Qed.
End entries.

(** *** The recursion *)

Context (Hplain : forall p n, is_Some (t !! (p ++ [n])) -> n <> dotdot).

Lemma depth_bound p : is_Some (t !! p) -> (length p <= depth t)%nat.
Proof.
  intros Hs. apply max_list_elem_of_le. apply list_elem_of_fmap. exists p. split; [done|].
  apply elem_of_elements. by apply elem_of_dom.
Qed.

Lemma mergeDir_spec fuel src dst :
  apart src dst -> node_at t src = Some NDir -> (length src + fuel > depth t)%nat ->
  (forall x l, x <> [] -> t !! (src ++ x) = Some NDir -> t !! (dst ++ x) <> Some (NLink l)) ->
  merges (mergeDir umask fuel src dst) src dst.
Proof.
  revert src dst. induction fuel as [|fuel IH]; intros src dst Hapart Hdir Hfuel Hnolink.
  { exfalso. destruct (decide (src = [])) as [->|Hne].
    - by apply (proj1 Hapart), prefix_nil.
    - unfold node_at in Hdir. rewrite decide_False in Hdir by done.
      pose proof (depth_bound src ltac:(by eexists)). lia. }
  intros u r u' Hsrc Hdst Has Had. cbn [mergeDir]. unfold ReadDir.
  rewrite namei_real, (real_dirs_self _ _ Hsrc) by done. intros Hrun.
  assert (forall n, n ∈ children u src <-> is_Some (t !! (src ++ [n]))) as Hch
    by (intros n; rewrite elem_of_children; by rewrite Has).
  apply (entries_spec src dst Hapart (mergeDir umask fuel)) in Hrun as (Hf & Ho & Hi); try done.
  - split_and!; [done| |].
    + intros q Hq. apply Ho. intros n _ Hp. destruct Hq as [Hq| ->].
      * apply Hq. etransitivity; [by eexists|done].
      * by apply (above_prefix dst n dst).
    + intros -> [|k x] Hx; [done|]. destruct (decide (k ∈ children u src)) as [Hk|Hk]; [by apply Hi|].
      rewrite Ho.
      * rewrite Had by done.
        assert (t !! (src ++ k :: x) = None) as ->; [|done].
        apply eq_None_not_Some. intros Hs. apply Hk, Hch. by eapply closed_above.
      * intros n Hn [k' Hp]. rewrite <-app_assoc in Hp. apply app_inv_head in Hp. by simplify_eq/=.
  - by apply Hplain.
  - intros n l Hd. by apply Hnolink.
  - intros n Hd. apply IH.
    + by apply apart_app.
    + by rewrite node_at_child.
    + rewrite length_app. simpl. lia.
    + intros x l Hx Hd'. rewrite <-!app_assoc in *. by apply Hnolink.
  - by intros n Hn%Hch.
  - apply NoDup_children.
  - intros n x Hn. by apply Had.
Qed.
End merge.

(** ** Mirroring one path *)

Lemma as_directory_clean p : clean_abs p -> as_directory p = false.
Proof.
  intros Hp. pose proof (clean_abs_plain _ Hp) as Hpl. pose proof Hp as (_ & Hne & Hr).
  destruct (segments p) as [|n ns _] using rev_ind; [done|].
  apply Forall_app in Hpl as [_ [(Hnm & Hns & _) _]%Forall_cons].
  assert (exists a, p = a ++ slash :: n) as [a ->].
  { rewrite Hr. unfold render. rewrite join_slash by by destruct ns.
    rewrite map_app, concat_app. simpl. rewrite app_nil_r. by eexists. }
  unfold as_directory. destruct n as [|c n _] using rev_ind; [by destruct Hnm|].
  apply orb_false_iff. split; apply not_true_iff_false; rewrite has_suffix_spec; intros [r Heq].
  - rewrite app_comm_cons, app_assoc in Heq. apply app_inj_tail in Heq as [_ ->]. set_solver.
  - change ("/." : gostring) with ([slash] ++ ["."%char]) in Heq.
    rewrite app_comm_cons, !app_assoc in Heq. apply app_inj_tail in Heq as [Heq ->].
    destruct n as [|c' n _] using rev_ind; [by destruct Hnm|].
    rewrite app_comm_cons, app_assoc in Heq. apply app_inj_tail in Heq as [_ ->]. set_solver.
Qed.

(** The state of a path after a run without error: a file of the workspace is
    left alone; anything else is now a link to a directory of the cache, which
    has the merger of what was at both places. *)
Definition mirrored (umask : Z) (t : tree) (W : path) (cachePath : gostring) (t' : tree) : Prop :=
  let C := segments cachePath in
  (exists m d, t !! W = Some (NFile m d) /\ t' !! W = t !! W) \/
  (t' !! W = Some (NLink cachePath) /\ namei true t' W = Ok C /\ real_dirs C t' /\
   forall x, x <> [] ->
     t' !! (C ++ x) = merged umask (if decide (t !! W = Some NDir) then t !! (W ++ x) else None) (t !! (C ++ x))).

(** Everything else is as it was, but for directories made on the two paths. *)
Definition elsewhere (t : tree) (W C : path) (t' : tree) : Prop :=
  forall q, ~ W `prefix_of` q -> ~ C `prefix_of` q ->
    t' !! q = t !! q \/ (t' !! q = Some NDir /\ (on_path C q \/ on_path W q)).

Section mirror_spec.
Context (umask : Z) (t : tree) (Hclosed : closed t).
Context (Hplain : forall p n, is_Some (t !! (p ++ [n])) -> n <> dotdot).
Context (wsPath cachePath : gostring) (Hws : clean_abs wsPath) (Hcache : clean_abs cachePath).
Context (P : path) (w : gostring) (HW : segments wsPath = P ++ [w]).

Abbreviation W := (P ++ [w]).
Abbreviation C := (segments cachePath).

Context (Hapart : apart W C) (HC : open_path C t) (HP : open_path P t).
Context (Hnolink : forall x l, x <> [] -> t !! (W ++ x) = Some NDir -> t !! (C ++ x) <> Some (NLink l)).

(** The three calls of [MkdirAll] make the two paths. *)
Lemma mkdirs_spec :
  exists t1, (MkdirAll (segments (Dir cachePath)) ≫= fun _ => MkdirAll C ≫= fun _ =>
              MkdirAll (segments (Dir wsPath))) t = (Ok tt, t1) /\
    real_dirs C t1 /\ real_dirs P t1 /\ closed t1 /\
    forall q, t1 !! q = if decide (on_path C q \/ on_path P q) then Some NDir else t !! q.
Proof.
  assert (segments (Dir wsPath) = P) as ->.
  { destruct (segments_Dir_snoc _ Hws) as [n Hn]. rewrite HW in Hn. by apply app_inj_tail in Hn as [-> _]. }
  destruct (segments_Dir_snoc _ Hcache) as [c HCc].
  assert (open_path (segments (Dir cachePath)) t) as HD by (apply (open_path_app _ [c]); by rewrite <-HCc).
  unfold mbind, act_bind.
  destruct (MkdirAll_open _ t Hclosed HD) as (ta & -> & _ & Hca & Hla).
  destruct (MkdirAll_open C ta Hca) as (tb & -> & Hrb & Hcb & Hlb).
  { eapply open_path_mono; [|exact HC]. intros q. rewrite Hla. case_decide; auto. }
  destruct (MkdirAll_open P tb Hcb) as (t1 & -> & Hr1 & Hc1 & Hl1).
  { eapply open_path_mono; [|exact HP]. intros q. rewrite Hlb, Hla. repeat case_decide; auto. }
  exists t1. split_and!; [done| |done|done|].
  - split; [apply Hrb|]. intros q Hq. pose proof (proj2 Hrb q Hq) as Hn. unfold node_at in *.
    case_decide; [done|]. rewrite Hl1. by case_decide.
  - intros q. rewrite Hl1, Hlb, Hla.
    destruct (decide (on_path P q)) as [HPq|HPq]; [by rewrite decide_True by by right|].
    destruct (decide (on_path C q)) as [HCq|HCq]; [by rewrite decide_True by by left|].
    rewrite (decide_False (P := on_path C q \/ on_path P q)) by by intros [?|?].
    rewrite decide_False; [done|]. intros [Hq Hne]. apply HCq. split; [|done].
    rewrite HCc. by apply prefix_app_r.
Qed.

Lemma w_dotdot : w <> dotdot.
Proof.
  pose proof (clean_abs_plain _ Hws) as Hp. rewrite HW in Hp.
  apply Forall_app in Hp as [_ [Hp _]%Forall_cons]. by apply plain_not_dotdot.
Qed.

Lemma above_W q : q `prefix_of` P -> ~ W `prefix_of` q.
Proof. apply above_prefix. Qed.

(** What the calls leave alone. *)
Section made.
Context (t1 : tree).
Context (Hl : forall q, t1 !! q = if decide (on_path C q \/ on_path P q) then Some NDir else t !! q).

Lemma made_W x : t1 !! (W ++ x) = t !! (W ++ x).
Proof.
  rewrite Hl, decide_False; [done|]. intros [[Hq _]|[Hq _]].
  - by apply (apart_prefix W C x).
  - apply (above_W P); [done|]. etransitivity; [by eexists|done].
Qed.

Lemma made_C x : x <> [] -> t1 !! (C ++ x) = t !! (C ++ x).
Proof.
  intros Hx. rewrite Hl, decide_False; [done|]. intros [[[k Hk] _]|[Hq _]].
  - apply (f_equal length) in Hk. rewrite !length_app in Hk. destruct x; simpl in *; [done|lia].
  - apply (proj2 Hapart). etransitivity; [by eexists|]. etransitivity; [exact Hq|]. by eexists.
Qed.

Lemma made_plain p n : is_Some (t1 !! (p ++ [n])) -> n <> dotdot.
Proof.
  rewrite Hl. case_decide as Hp; [intros _|by apply Hplain].
  destruct HC as [HdC _], HP as [HdP _].
  destruct Hp as [[[k Hk] _]|[[k Hk] _]]; rewrite Hk in *; set_solver.
Qed.
End made.

Abbreviation mirrored_here := (mirrored umask t W cachePath).
Abbreviation elsewhere_here := (elsewhere t W C).

Lemma namei_linked t' :
  real_dirs P t' -> real_dirs C t' -> t' !! W = Some (NLink cachePath) -> namei true t' W = Ok C.
Proof.
  intros HPr HCr HWl. pose proof w_dotdot as Hdd. unfold namei. destruct HPr as [Hd Hq].
  rewrite resolve_real by done. simpl app. rewrite resolve_cons, decide_False, node_at_child, HWl by done.
  rewrite andb_false_r, (clean_abs_IsAbs _ Hcache). change max_links with (S 39). cbv iota beta.
  rewrite resolve_real by apply HCr. by rewrite resolve_nil.
Qed.

(** Linking, once nothing is at the place. *)
Lemma link_done t2 r t' :
  t2 !! W = None -> real_dirs P t2 -> real_dirs C t2 -> elsewhere_here t2 ->
  (forall x, x <> [] -> t2 !! (C ++ x) =
     merged umask (if decide (t !! W = Some NDir) then t !! (W ++ x) else None) (t !! (C ++ x))) ->
  symlink_as cachePath wsPath t2 = (r, t') -> r = Ok tt /\ mirrored_here t' /\ elsewhere_here t'.
Proof.
  intros Hfree HPr HCr Hels Hblend. unfold symlink_as. rewrite as_directory_clean, HW by done.
  pose proof w_dotdot as Hdd. rewrite Symlink_child, Hfree, decide_False by
    (done || by intros E; destruct Hcache as (_ & Hne & _); rewrite E in Hne).
  intros [= <- <-]. split; [done|]. split.
  - assert (real_dirs C (<[W := NLink cachePath]> t2)) as HCr'.
    { eapply real_dirs_agree; [|exact HCr]. intros q Hq. apply lookup_insert_ne. intros <-.
      by apply (proj1 Hapart). }
    right. split_and!; [|..|done|].
    + apply lookup_insert_eq.
    + apply namei_linked; [by apply real_dirs_insert|done|apply lookup_insert_eq].
    + intros x Hx. rewrite lookup_insert_ne; [by apply Hblend|]. intros E.
      apply (apart_prefix C W x (apart_sym _ _ Hapart)). by rewrite E.
  - intros q HqW HqC. rewrite lookup_insert_ne by by intros <-. by apply Hels.
Qed.

Section linking.
Context (t1 : tree) (HCr : real_dirs C t1) (HPr : real_dirs P t1) (Hc1 : closed t1).
Context (Hl : forall q, t1 !! q = if decide (on_path C q \/ on_path P q) then Some NDir else t !! q).

Lemma at_W : t1 !! W = t !! W.
Proof. pose proof (made_W t1 Hl []) as H0. by rewrite !app_nil_r in H0. Qed.

Lemma made_elsewhere : elsewhere_here t1.
Proof.
  intros q _ _. rewrite Hl. case_decide as Hq; [right|by left]. split; [done|].
  destruct Hq as [?|[Hq ?]]; [by left|right]. split; [by apply prefix_app_r|done].
Qed.

Lemma made_blend x : t !! W <> Some NDir -> x <> [] ->
  t1 !! (C ++ x) =
    merged umask (if decide (t !! W = Some NDir) then t !! (W ++ x) else None) (t !! (C ++ x)).
Proof. intros Hd Hx. by rewrite made_C, decide_False. Qed.

(** A link there: kept if it is right, else replaced. *)
Lemma mirror_link l r t' :
  t !! W = Some (NLink l) ->
  (if decide (l = cachePath) then (Ok tt, t1)
   else map_error MirrorOs (Remove W ≫= fun _ => symlink_as cachePath wsPath) t1) = (r, t') ->
  r <> Err OutOfFuel /\ (r = Ok tt -> mirrored_here t' /\ elsewhere_here t').
Proof.
  intros HWn. pose proof w_dotdot as Hdd.
  assert (t !! W <> Some NDir) as Hnd by by rewrite HWn.
  destruct (decide (l = cachePath)) as [->|Hne].
  - intros [= <- <-]. split; [done|]. intros _. split; [|apply made_elsewhere]. right.
    assert (t1 !! W = Some (NLink cachePath)) as HW1 by by rewrite at_W.
    split_and!; [done|by apply namei_linked|done|]. intros x Hx. by apply made_blend.
  - unfold map_error, mbind, act_bind, Remove, at_path.
    rewrite namei_child, node_at_child, at_W, HWn by done. cbn.
    destruct (symlink_as cachePath wsPath (delete W t1)) as [r1 t2] eqn:Hs.
    assert (forall q, q <> W -> delete W t1 !! q = t1 !! q) as Hdel by (intros q Hq; by apply lookup_delete_ne).
    apply link_done in Hs as (-> & Hm & He); [by intros [= <- <-]|..].
    + apply lookup_delete_eq.
    + eapply real_dirs_agree; [|exact HPr]. intros q Hq. apply Hdel. intros ->. by apply (above_W W).
    + eapply real_dirs_agree; [|exact HCr]. intros q Hq. apply Hdel. intros ->. by apply (proj1 Hapart).
    + intros q HqW HqC. rewrite Hdel by by intros ->. by apply made_elsewhere.
    + intros x Hx. rewrite Hdel; [by apply made_blend|]. intros E.
      apply (apart_prefix C W x (apart_sym _ _ Hapart)). by rewrite E.
Qed.

(** A directory there: merged, removed and linked. *)
Lemma mirror_dir r t' :
  t !! W = Some NDir ->
  (mergeDir umask (S (depth t1)) W C ≫= fun _ =>
   map_error MirrorOs (remove_all_as wsPath ≫= fun _ => symlink_as cachePath wsPath)) t1 = (r, t') ->
  r <> Err OutOfFuel /\ (r = Ok tt -> mirrored_here t' /\ elsewhere_here t').
Proof.
  intros HWn. pose proof w_dotdot as Hdd.
  assert (remove_all_as wsPath = RemoveAll W) as ->.
  { pose proof (as_directory_clean _ Hws) as Ha. unfold as_directory in Ha. reflect_bools.
    unfold remove_all_as. by rewrite HW, H0. }
  unfold mbind at 1, act_bind at 1.
  destruct (mergeDir umask (S (depth t1)) W C t1) as [rm u] eqn:Hm.
  apply (mergeDir_spec umask t1 Hc1 (made_plain t1 Hl) (S (depth t1)) W C) in Hm as (Hfuel & Hout & Hin);
    [| done | by rewrite node_at_child, at_W | rewrite length_app; simpl; lia | | | done | done | done ].
  2: { intros x l Hx. rewrite made_W, made_C by done. by apply Hnolink. }
  2: { apply real_dirs_snoc; [done..|]. by rewrite at_W. }
  destruct rm as [[]|err]; [|intros [= <- <-]; split; [done|by intros ?]].
  unfold map_error, mbind, act_bind.
  assert (forall q, q `prefix_of` P -> u !! q = t1 !! q) as HuP.
  { intros q Hq. apply Hout. left. intros HCq. apply (proj2 Hapart). etransitivity; [exact HCq|].
    etransitivity; [exact Hq|by eexists]. }
  assert (forall q, q `prefix_of` C -> u !! q = t1 !! q) as HuC.
  { intros q Hq. apply Hout. destruct (decide (q = C)); [by right|left]. intros ?.
    by destruct (anti_symm prefix q C). }
  assert (real_dirs P u) as HPu by by eapply real_dirs_agree.
  rewrite RemoveAll_child by done.
  destruct (symlink_as cachePath wsPath (prune W u)) as [r1 t2] eqn:Hs.
  assert (forall q, ~ W `prefix_of` q -> prune W u !! q = u !! q) as Hpr
    by (intros q Hq; by rewrite lookup_prune, decide_False).
  apply link_done in Hs as (-> & Hmir & He); [by intros [= <- <-]|..].
  - by rewrite lookup_prune, decide_True.
  - by apply real_dirs_prune.
  - eapply real_dirs_agree; [|exact HCr]. intros q Hq. rewrite Hpr; [by apply HuC|].
    intros HWq. apply (proj1 Hapart). by etransitivity.
  - intros q HqW HqC. rewrite Hpr, Hout by auto. by apply made_elsewhere.
  - intros x Hx. rewrite Hpr.
    + rewrite Hin, made_W, made_C by done. by rewrite decide_True.
    + intros Hp. rewrite <-(app_nil_r W) in Hp. by eapply apart_below.
Qed.

Lemma mirror_at_spec r t' :
  mirror_at umask wsPath cachePath t1 = (r, t') ->
  r <> Err OutOfFuel /\ (r = Ok tt -> mirrored_here t' /\ elsewhere_here t').
Proof.
  pose proof w_dotdot as Hdd. unfold mirror_at, lstat_as.
  rewrite as_directory_clean, HW, Lstat_child, at_W by done.
  destruct (t !! W) as [[|m d|l]|] eqn:HWn.
  - by apply mirror_dir.
  - intros [= <- <-]. split; [done|]. intros _. split; [|apply made_elsewhere]. left. exists m, d.
    by rewrite at_W.
  - by apply mirror_link.
  - unfold map_error. destruct (symlink_as cachePath wsPath t1) as [r1 t2] eqn:Hs.
    apply link_done in Hs as (-> & Hm & He); [by intros [= <- <-]|by rewrite at_W|done|done|
      apply made_elsewhere|]. intros x Hx. apply made_blend; [by rewrite HWn|done].
Qed.
End linking.
End mirror_spec.

(** ** The theorems *)

Definition names_ok (t : tree) : Prop := forall p n, is_Some (t !! (p ++ [n])) -> n <> dotdot.

(** No link of the cache stands where the workspace has a directory. *)
Definition no_link_over (t : tree) (W C : path) : Prop :=
  forall x l, x <> [] -> t !! (W ++ x) = Some NDir -> t !! (C ++ x) <> Some (NLink l).

(** C13: mirroring a declared path.  Suppose the path resolves to two clean
    absolute paths, neither is below the other, only directories are on the way
    to them, no file is named [..], and no link of the cache stands where the
    workspace has a directory.  Then the recursion ends, and without an error
    the path is a link that leads to its place in the cache, where everything
    of the workspace now is, over what was cached before; only a plain file is
    left as it is; and nothing else has changed.  (The conditions are needed:
    see [merge_into_itself] and [merge_through_link] below.) *)
Theorem mirror_one umask workspace cache home rel wsPath cachePath t r t' :
  rel <> [] -> resolvePath workspace cache home rel = Ok (wsPath, cachePath) ->
  clean_abs wsPath -> clean_abs cachePath -> closed t -> names_ok t ->
  apart (segments wsPath) (segments cachePath) ->
  open_path (segments (Dir wsPath)) t -> open_path (segments cachePath) t ->
  no_link_over t (segments wsPath) (segments cachePath) ->
  mirrorOne umask workspace cache home rel t = (r, t') ->
  r <> Err OutOfFuel /\
  (r = Ok tt -> mirrored umask t (segments wsPath) cachePath t' /\
                elsewhere t (segments wsPath) (segments cachePath) t').
Proof.
  intros Hrel Hres Hws Hca Hcl Hnm Hap HP HC Hno. destruct (segments_Dir_snoc _ Hws) as [w HW].
  rewrite HW in *. unfold mirrorOne. rewrite decide_False, Hres by done.
  unfold mbind at 1, act_bind at 1. unfold map_error at 1.
  destruct (mkdirs_spec t Hcl wsPath cachePath Hws Hca _ w HW Hap HC HP Hno) as (t1 & -> & HCr & HPr & Hc1 & Hl).
  by apply (mirror_at_spec umask t Hcl Hnm wsPath cachePath Hws Hca _ w HW Hap HC HP Hno t1).
Qed.

(** Mirroring again changes nothing: a path that is a link to its place in
    the cache, in a tree where both are reached through directories, is
    accepted as it is. *)
Theorem mirror_idempotent umask workspace cache home rel wsPath cachePath t :
  rel <> [] -> resolvePath workspace cache home rel = Ok (wsPath, cachePath) ->
  clean_abs wsPath -> clean_abs cachePath ->
  real_dirs (segments (Dir wsPath)) t -> real_dirs (segments cachePath) t ->
  t !! segments wsPath = Some (NLink cachePath) ->
  mirrorOne umask workspace cache home rel t = (Ok tt, t).
Proof.
  intros Hrel Hres Hws Hca HP HC Hl. destruct (segments_Dir_snoc _ Hws) as [w HW].
  destruct (segments_Dir_snoc _ Hca) as [c HCc].
  unfold mirrorOne. rewrite decide_False, Hres by done.
  unfold map_error, mbind, act_bind. rewrite !MkdirAll_real; [|done..|].
  2: { rewrite HCc in HC. by eapply real_dirs_app. }
  unfold mirror_at, lstat_as. rewrite as_directory_clean by done.
  rewrite HW in *. assert (w <> dotdot) as Hdd.
  { pose proof (clean_abs_plain _ Hws) as Hp. rewrite HW in Hp.
    apply Forall_app in Hp as [_ [Hp _]%Forall_cons]. by apply plain_not_dotdot. }
  rewrite Lstat_child, Hl by done. by rewrite decide_True.
Qed.

(** *** Where the links point *)

Lemma trim_prefix_slash p : has_traversal p = false -> has_traversal (trim_prefix p [slash]) = false /\
  segments (trim_prefix p [slash]) = segments p.
Proof.
  intros Hp. unfold trim_prefix. destruct (has_prefix p [slash]) eqn:E; [|done].
  apply has_prefix_spec in E as [r ->]. change ([slash] ++ r) with (slash :: r) in *.
  rewrite traversal_slash in Hp. by rewrite segments_slash.
Qed.

Lemma trim_prefix_sub p q : has_prefix p q = true -> exists r, p = q ++ r /\ trim_prefix p q = r.
Proof. intros [r ->]%has_prefix_spec. exists r. by rewrite trim_prefix_app. Qed.

Lemma join_three root p q :
  clean_abs root -> has_traversal p = false -> has_traversal q = false ->
  Join [root; p; q] = under root (segments p ++ segments q).
Proof.
  intros Hroot Hp Hq.
  assert (has_traversal (p ++ slash :: q) = false) as Hpq by by rewrite traversal_app, Hp, Hq.
  assert (root <> []) as Hne by (intros ->; by destruct Hroot as (_ & [] & _)).
  rewrite <-segments_app, <-join_under by done. cbn [Join]. by rewrite !decide_False by done.
Qed.

Lemma tilde_rest rel :
  is_tilde rel = true -> has_traversal rel = false ->
  has_traversal (trim_prefix (trim_prefix rel "~") [slash]) = false.
Proof.
  intros Ht Hn. apply trim_prefix_slash. unfold is_tilde in Ht. apply orb_true_iff in Ht as [Ht|Ht].
  - reflect_bools. by subst.
  - apply trim_prefix_sub in Ht as (r & -> & _).
    change ("~/" ++ r) with ("~" ++ slash :: r). rewrite trim_prefix_app.
    assert (has_traversal ("~" ++ slash :: r) = false) as Hn' by exact Hn.
    rewrite traversal_app in Hn'. reflect_bools. by rewrite traversal_slash.
Qed.

(** C27: declared paths are kept below the cache.  A path the controller
    accepts from a workflow is mirrored, whatever the home directory (without
    [..]), into a place below the cache root, and a relative one from a place
    below the workspace; only a path in an unset home is refused. *)
Theorem cache_places steps ci workspace cache home rel :
  extractCacheInfo steps = Ok ci -> rel ∈ ciPaths ci ->
  clean_abs workspace -> clean_abs cache -> has_traversal home = false ->
  match resolvePath workspace cache home rel with
  | Ok (wsPath, cachePath) =>
      (exists ns, Forall plain ns /\ cachePath = under cache ns) /\
      (IsAbs rel = false -> is_tilde rel = false ->
         exists ns, Forall plain ns /\ wsPath = under workspace ns /\ cachePath = under cache ns)
  | Err e => e = HomeRequired /\ home = [] /\ is_tilde rel = true
  end.
Proof.
  intros Hci Hrel Hws Hca Hhome.
  apply extract_paths_safe in Hci as [Hsafe _].
  destruct (proj1 (Forall_forall _ _) Hsafe rel Hrel) as [Hne Ht].
  unfold resolvePath. destruct (is_tilde rel) eqn:Htil.
  - destruct (decide (home = [])) as [->|Hh]; [done|]. pose proof (tilde_rest rel Htil Ht) as Hr.
    destruct (trim_prefix_slash home Hhome) as [Hh1 Hh2]. split; [|done].
    rewrite join_three by done. eexists. split; [|done].
    apply Forall_app_2; by apply segments_plain.
  - destruct (IsAbs rel) eqn:Habs.
    + split; [|done]. destruct (trim_prefix_slash rel Ht) as [Ht1 Ht2]. rewrite join_under by done.
      eexists. split; [|done]. by apply segments_plain.
    + rewrite !join_under by done. split; [|intros _ _]; eexists;
        (split; [by apply segments_plain|done]).
Qed.

(** The first path in an unset home stops the round; any other error only
    costs its path. *)
Lemma mirror_fatal umask workspace cache home paths t r t' :
  mirrorCachePaths umask workspace cache home paths t = (r, t') ->
  r = Ok tt \/ (r = Err HomeRequired).
Proof.
  revert t. induction paths as [|p paths IH]; intros t; simpl; [intros [= <- _]; by left|].
  destruct (mirrorOne umask workspace cache home p t) as [[[]|e] t1]; [apply IH|].
  destruct e; try apply IH. intros [= <- _]. by right.
Qed.

(** ** Examples *)

#[export] Instance apart_dec p q : Decision (apart p q).
Proof. unfold apart. apply _. Defined.

#[export] Instance names_ok_dec t : Decision (names_ok t).
Proof.
  refine (cast_if (decide (map_Forall (fun p _ => last p <> Some dotdot) t))).
  - intros p n [x Hx] ->. apply m in Hx. by rewrite last_snoc in Hx.
  - intros Hn. apply n. intros p x Hp Hl. destruct p as [|s p _] using rev_ind; [done|].
    rewrite last_snoc in Hl. simplify_eq. by apply (Hn p dotdot); [eexists|].
Defined.

Definition is_link (n : option node) : bool := match n with Some (NLink _) => true | _ => false end.

Definition link_over_at (t : tree) (W C p : path) (n : node) : Prop :=
  match strip W p with
  | Some x => x = [] \/ n <> NDir \/ is_link (t !! (C ++ x)) = false
  | None => True
  end.
#[export] Instance link_over_at_dec t W C p n : Decision (link_over_at t W C p n).
Proof. unfold link_over_at. destruct (strip W p); apply _. Defined.

#[export] Instance no_link_over_dec t W C : Decision (no_link_over t W C).
Proof.
  refine (cast_if (decide (map_Forall (link_over_at t W C) t))).
  - intros x l Hx Hd Hl. apply m in Hd. unfold link_over_at in Hd.
    rewrite (proj2 (strip_Some W (W ++ x) x) eq_refl) in Hd.
    destruct Hd as [?|[?|Hf]]; [done..|]. by rewrite Hl in Hf.
  - intros Hn. apply n. intros p x Hp. unfold link_over_at. destruct (strip W p) as [y|] eqn:E; [|done].
    apply strip_Some in E as ->. destruct (decide (y = [])) as [|Hy]; [by left|right].
    destruct (decide (x = NDir)) as [->|]; [right|by left].
    destruct (t !! (C ++ y)) as [[| |l]|] eqn:Ec; try done. by destruct (Hn y l).
Defined.

(** A checkout with a fresh [target], and a cache with an older one. *)
Definition example_tree : tree :=
  list_to_map [
    (["workspace"], NDir); (["workspace"; "target"], NDir);
    (["workspace"; "target"; "a"], NFile 420 "new"); (["workspace"; "target"; "sub"], NDir);
    (["workspace"; "target"; "sub"; "b"], NFile 493 "b");
    (["cache"], NDir); (["cache"; "target"], NDir); (["cache"; "target"; "a"], NFile 384 "old");
    (["cache"; "target"; "c"], NFile 420 "cached")].

Definition mirror_example (rel : gostring) (t : tree) : result mirror_error unit * tree :=
  mirrorOne 18 "/workspace" "/cache" "/root" rel t.

Example mirror_result :
  let '(r, t') := mirror_example "target" example_tree in
  r = Ok tt /\
  t' !! (["cache"; "target"; "a"] : path) = Some (NFile 384 "new") /\
  t' !! (["cache"; "target"; "sub"; "b"] : path) = Some (NFile 493 "b") /\
  t' !! (["cache"; "target"; "c"] : path) = Some (NFile 420 "cached") /\
  Stat t' ["workspace"; "target"; "c"] = Ok (NFile 420 "cached").
Proof. by vm_compute. Qed.

Lemma mirror_one_witness :
  mirrored 18 example_tree ["workspace"; "target"] "/cache/target" (mirror_example "target" example_tree).2.
Proof.
  destruct (mirror_one 18 "/workspace" "/cache" "/root" "target" "/workspace/target" "/cache/target"
              example_tree (Ok tt) (mirror_example "target" example_tree).2) as [_ H].
  - discriminate.
  - reflexivity.
  - split; [reflexivity|split; [discriminate|reflexivity]].
  - split; [reflexivity|split; [discriminate|reflexivity]].
  - decide_now.
  - decide_now.
  - decide_now.
  - decide_now.
  - decide_now.
  - decide_now.
  - apply pair_from_fst. vm_compute. reflexivity.
  - apply H. reflexivity.
Defined.

Lemma mirror_idempotent_witness :
  mirror_example "target" (mirror_example "target" example_tree).2 =
    (Ok tt, (mirror_example "target" example_tree).2).
Proof.
  apply (mirror_idempotent 18 "/workspace" "/cache" "/root" "target" "/workspace/target" "/cache/target").
  - discriminate.
  - reflexivity.
  - split; [reflexivity|split; [discriminate|reflexivity]].
  - split; [reflexivity|split; [discriminate|reflexivity]].
  - decide_now.
  - decide_now.
  - vm_compute. reflexivity.
Defined.

(** A path declared with a slash at its end loses its directory: it is merged
    and removed, and then the link cannot be made. *)
Example trailing_slash :
  let t : tree := <[["var"] := NDir]> (<[["var"; "x"] := NDir]> (<[["var"; "x"; "f"] := NFile 420 "1"]> example_tree)) in
  let '(r, t') := mirror_example "/var/x/" t in
  r = Err (MirrorOs ENOENT) /\ t' !! (["var"; "x"] : path) = None /\
  t' !! (["cache"; "var"; "x"; "f"] : path) = Some (NFile 420 "1").
Proof. by vm_compute. Qed.

(** A link to a directory in the cache is followed by [MkdirAll] and the files
    below it are written where it leads. *)
Example merge_through_link :
  let t : tree := <[["etc"] := NDir]> (<[["cache"; "target"; "sub"] := NLink "/etc"]> example_tree) in
  let '(r, t') := mirror_example "target" t in
  r = Ok tt /\ t' !! (["etc"; "b"] : path) = Some (NFile 493 "b").
Proof. by vm_compute. Qed.

(** A declared path that contains its own place in the cache is merged into
    itself without end. *)
Example merge_into_itself :
  (mirror_example "/cache" example_tree).1 = Err OutOfFuel.
Proof. by vm_compute. Qed.

Lemma cache_places_witness :
  exists ns, Forall plain ns /\ ("/cache/target" : gostring) = under "/cache" ns.
Proof.
  set (step := {| ssID := []; ssName := []; ssShell := []; ssScript := []; ssArgs := [];
                  ssEnv := {[ ("INPUT_KEY" : gostring) := ("k" : gostring);
                              ("INPUT_PATH" : gostring) := ("target" : gostring) ]};
                  ssImage := []; ssCmd := []; ssActionDir := []; ssContinueOnError := false;
                  ssIf := []; ssTimeoutMinutes := QArith_base.Qmake 0 1 |} : StepSpec).
  pose proof (cache_places [step] {| ciKey := "k"; ciPaths := ["target"]; ciRestore := [] |}
                "/workspace" "/cache" "/root" "target") as H.
  cbv beta iota in H. change (resolvePath "/workspace" "/cache" "/root" "target")
    with (Ok ("/workspace/target", "/cache/target") : result mirror_error (gostring * gostring)) in H.
  cbv beta iota in H. apply H.
  - vm_compute. reflexivity.
  - left.
  - split; [reflexivity|split; [discriminate|reflexivity]].
  - split; [reflexivity|split; [discriminate|reflexivity]].
  - reflexivity.
Defined.
