(* ===== verification/Sha256.v ===== *)
(** * SHA-256 ([crypto/sha256])

    The hash of FIPS 180-4 on 32-bit words, as the standard library computes
    it; the snapshot cache labels its snapshots with the first half of it. *)
From S2P Require Import Prelude GoStrings.
#[local] Open Scope Z_scope.
#[local] Open Scope go_scope.

Definition word (z : Z) : Z := z mod 2 ^ 32.
Definition rotr (n x : Z) : Z := Z.lor (Z.shiftr x n) (word (Z.shiftl x (32 - n))).
Definition not32 (x : Z) : Z := 2 ^ 32 - 1 - x.

Definition round_constants : list Z :=
  [1116352408; 1899447441; 3049323471; 3921009573; 961987163; 1508970993; 2453635748; 2870763221;
   3624381080; 310598401; 607225278; 1426881987; 1925078388; 2162078206; 2614888103; 3248222580;
   3835390401; 4022224774; 264347078; 604807628; 770255983; 1249150122; 1555081692; 1996064986;
   2554220882; 2821834349; 2952996808; 3210313671; 3336571891; 3584528711; 113926993; 338241895;
   666307205; 773529912; 1294757372; 1396182291; 1695183700; 1986661051; 2177026350; 2456956037;
   2730485921; 2820302411; 3259730800; 3345764771; 3516065817; 3600352804; 4094571909; 275423344;
   430227734; 506948616; 659060556; 883997877; 958139571; 1322822218; 1537002063; 1747873779;
   1955562222; 2024104815; 2227730452; 2361852424; 2428436474; 2756734187; 3204031479; 3329325298].

Definition initial_hash : list Z :=
  [1779033703; 3144134277; 1013904242; 2773480762; 1359893119; 2600822924; 528734635; 1541459225].

Definition small_sigma0 x := Z.lxor (Z.lxor (rotr 7 x) (rotr 18 x)) (Z.shiftr x 3).
Definition small_sigma1 x := Z.lxor (Z.lxor (rotr 17 x) (rotr 19 x)) (Z.shiftr x 10).
Definition big_sigma0 x := Z.lxor (Z.lxor (rotr 2 x) (rotr 13 x)) (rotr 22 x).
Definition big_sigma1 x := Z.lxor (Z.lxor (rotr 6 x) (rotr 11 x)) (rotr 25 x).
Definition choose x y z := Z.lxor (Z.land x y) (Z.land (not32 x) z).
Definition majority x y z := Z.lxor (Z.lxor (Z.land x y) (Z.land x z)) (Z.land y z).

(** The bytes of [z] in [n] places, the most significant first. *)
Fixpoint be_bytes (n : nat) (z : Z) : list Z :=
  match n with O => [] | S n => (z / 2 ^ (8 * Z.of_nat n)) mod 256 :: be_bytes n z end.

Definition be_word (bs : list Z) : Z := fold_left (fun acc b => acc * 256 + b) bs 0.

(** The message with a one bit, zeros and its length in bits. *)
Definition pad (m : list Z) : list Z :=
  let len := Z.of_nat (length m) in
  m ++ 128 :: repeat 0 (Z.to_nat ((55 - len) mod 64)) ++ be_bytes 8 (8 * len).

Fixpoint chunks {A} (fuel n : nat) (l : list A) : list (list A) :=
  match fuel, l with
  | S fuel, _ :: _ => take n l :: chunks fuel n (drop n l)
  | _, _ => []
  end.

(** The schedule, the latest word first. *)
Fixpoint schedule (k : nat) (w : list Z) : list Z :=
  match k with
  | O => w
  | S k =>
      let at_ i := nth i w 0 in
      schedule k (word (small_sigma1 (at_ 1%nat) + at_ 6%nat + small_sigma0 (at_ 14%nat) + at_ 15%nat) :: w)
  end.

Definition compress_round (s : list Z) (kw : Z * Z) : list Z :=
  match s with
  | [a; b; c; d; e; f; g; h] =>
      let t1 := h + big_sigma1 e + choose e f g + kw.1 + kw.2 in
      let t2 := big_sigma0 a + majority a b c in
      [word (t1 + t2); a; b; c; word (d + t1); e; f; g]
  | _ => s
  end.

Definition compress (h : list Z) (block : list Z) : list Z :=
  let w := reverse (schedule 48 (reverse (map be_word (chunks 16 4 block)))) in
  zip_with (fun x y => word (x + y)) h (fold_left compress_round (zip round_constants w) h).

Definition sha256_bytes (m : list Z) : list Z :=
  let p := pad m in concat (map (be_bytes 4) (fold_left compress (chunks (length p) 64 p) initial_hash)).

(** [sha256.Sum256] of a string. *)
Definition Sum256 (s : gostring) : list Z := sha256_bytes (map code s).

(** The test vectors of the standard. *)
Example sha256_empty :
  concat (map (fmt_hex_pad 2) (Sum256 [])) =
    "e3b0c44298fc1c149afbf4c8996fb92427ae41e4649b934ca495991b7852b855".
Proof. by vm_compute. Qed.

Example sha256_abc :
  concat (map (fmt_hex_pad 2) (Sum256 "abc")) =
    "ba7816bf8f01cfea414140de5dae2223b00361a396177a9cb410ff61f20015ad".
Proof. by vm_compute. Qed.

Example sha256_two_blocks :
  concat (map (fmt_hex_pad 2) (Sum256 "abcdbcdecdefdefgefghfghighijhijkijkljklmklmnlmnomnopnopq")) =
    "248d6a61d20638b8e5c026930c3e6039a33ce45964ff2167f6ecedd419db06c1".
Proof. by vm_compute. Qed.

Lemma be_bytes_length n z : length (be_bytes n z) = n.
Proof. induction n as [|n IH]; simpl; [done|]. by rewrite IH. Qed.

Lemma be_bytes_range n z : Forall (fun b => 0 <= b < 256) (be_bytes n z).
Proof. induction n as [|n IH]; simpl; constructor; [apply Z.mod_pos_bound; lia|done]. Qed.

Lemma compress_round_length s kw : length (compress_round s kw) = length s.
Proof. unfold compress_round. by do 9 (destruct s as [|? s]; [done|]). Qed.

Lemma schedule_length k w : length (schedule k w) = (k + length w)%nat.
Proof. revert w. induction k as [|k IH]; intros w; simpl; [done|]. rewrite IH. simpl. lia. Qed.

Lemma compress_length h block : length (compress h block) = length h.
Proof.
  unfold compress. rewrite length_zip_with.
  assert (forall l s, length (fold_left compress_round l s) = length s) as ->; [|lia].
  induction l as [|kw l IH]; intros s; simpl; [done|]. by rewrite IH, compress_round_length.
Qed.

(** A digest has 32 bytes. *)
Lemma Sum256_bytes s : length (Sum256 s) = 32%nat /\ Forall (fun b => 0 <= b < 256) (Sum256 s).
Proof.
  unfold Sum256, sha256_bytes.
  assert (forall l h, length (fold_left compress l h) = length h) as Hl
    by (induction l as [|b l IH]; intros h; simpl; [done|]; by rewrite IH, compress_length).
  set (h := fold_left compress _ initial_hash). assert (length h = 8%nat) as Hh by apply Hl.
  clearbody h. split.
  - do 8 (destruct h as [|? h]; [done|]). by destruct h.
  - clear Hh Hl. induction h as [|x h IH]; [constructor|].
    change (concat (map (be_bytes 4) (x :: h))) with (be_bytes 4 x ++ concat (map (be_bytes 4) h)).
    apply Forall_app_2; [apply be_bytes_range|done].
Qed.
