(* ===== verification/Snapshot.v ===== *)
(** * The snapshot cache ([pkg/snapshot/snapshot.go])

    Volume snapshots tagged with labels, and the claims made from them, in the
    namespace of the manager.  The API server is modelled by its objects: lists
    select by labels, creation refuses a name that is taken, and calls may
    fail. *)
From Stdlib Require Import Ascii.
From S2P Require Import Prelude GoStrings K8sNames Sha256.
#[local] Open Scope go_scope.
#[local] Open Scope Z_scope.

Definition labelManagedBy : gostring := "app.kubernetes.io/managed-by".
Definition labelRepository : gostring := "drawbar.dev/repository".
Definition labelCacheKey : gostring := "drawbar.dev/cache-key".
Definition annotationKeyRaw : gostring := "drawbar.dev/cache-key-raw".
Definition managerName : gostring := "drawbar".

Abbreviation labels := (gmap gostring gostring).

Record VolumeSnapshot := {
  vsName : gostring;
  vsLabels : labels;
  vsAnnotations : labels;
  vsCreated : Z;
  vsClass : gostring;
  vsClaim : gostring;
}.

Record Claim := {
  claimName : gostring;
  claimLabels : labels;
  claimSource : option gostring;
  claimClass : gostring;
  claimSize : gostring;
}.

Record Manager := {
  SnapshotClass : gostring;
  StorageClass : gostring;
  PVCSize : gostring;
  RetentionDays : Z;
}.

(** The objects of the namespace, in the order the API server lists them. *)
Record Cluster := {
  snapshots : list VolumeSnapshot;
  claims : list Claim;
}.

(** A selector of equalities. *)
Definition selects (sel : list (gostring * gostring)) (l : labels) : bool :=
  forallb (fun kv => bool_decide (l !! kv.1 = Some kv.2)) sel.

(** ** Looking up *)

(** [HashCacheKey]: the first sixteen bytes of the digest, in hexadecimal. *)
Definition HashCacheKey (key : gostring) : gostring :=
  concat (map (fmt_hex_pad 2) (take 16 (Sum256 key))).

Definition select_snapshots (sel : list (gostring * gostring)) (c : Cluster) : list VolumeSnapshot :=
  List.filter (fun s => selects sel (vsLabels s)) (snapshots c).

(** The later of the best so far and the next, the earlier in the list if they
    are of the same time. *)
Definition newer (best : option VolumeSnapshot) (s : VolumeSnapshot) : option VolumeSnapshot :=
  match best with
  | None => Some s
  | Some b => if (vsCreated b <? vsCreated s)%Z then Some s else Some b
  end.

Definition newestSnapshot (items : list VolumeSnapshot) : option VolumeSnapshot :=
  fold_left newer items None.

Definition repo_selector (repo : gostring) : list (gostring * gostring) :=
  [(labelManagedBy, managerName); (labelRepository, SanitizeLabelValue repo)].

Definition key_selector (repo cacheKey : gostring) : list (gostring * gostring) :=
  repo_selector repo ++ [(labelCacheKey, HashCacheKey cacheKey)].

Definition raw_key (s : VolumeSnapshot) : gostring := default [] (vsAnnotations s !! annotationKeyRaw).

Definition findByExactKey (repo cacheKey : gostring) (c : Cluster) : option VolumeSnapshot :=
  newestSnapshot (select_snapshots (key_selector repo cacheKey) c).

Fixpoint first_prefix (items : list VolumeSnapshot) (prefixes : list gostring) : option VolumeSnapshot :=
  match prefixes with
  | [] => None
  | prefix :: prefixes =>
      let prefix := trim_space prefix in
      if decide (prefix = []) then first_prefix items prefixes
      else match newestSnapshot (List.filter (fun s => has_prefix (raw_key s) prefix) items) with
           | Some s => Some s
           | None => first_prefix items prefixes
           end
  end.

Definition findByPrefix (repo : gostring) (prefixes : list gostring) (c : Cluster) : option VolumeSnapshot :=
  first_prefix (select_snapshots (repo_selector repo) c) prefixes.

(** [FindSnapshot]; [fail1], [fail2]: its first or second list fails. *)
Definition FindSnapshot (fail1 fail2 : bool) (repo cacheKey : gostring) (restoreKeys : list gostring)
    (c : Cluster) : result unit (option VolumeSnapshot) :=
  if fail1 then Err tt
  else match findByExactKey repo cacheKey c with
       | Some s => Ok (Some s)
       | None =>
           match restoreKeys with
           | [] => Ok None
           | _ => if fail2 then Err tt else Ok (findByPrefix repo restoreKeys c)
           end
       end.

(** ** Claims *)

(** [WithLabel] options, applied in order. *)
Definition applyPVCOptions (opts : list (gostring * gostring)) : labels :=
  fold_left (fun l kv => <[kv.1 := kv.2]> l) opts ∅.

Definition mergeLabels (extra defaults : labels) : labels := defaults ∪ extra.

Inductive create_error := BadQuantity | CreateFailed.

Section claims.
(** [resource.MustParse] panics on what is not a quantity. *)
Context (is_quantity : gostring -> bool) (m : Manager).

Definition new_claim (source : option gostring) (pvcName : gostring) (opts : list (gostring * gostring)) : Claim :=
  {| claimName := pvcName;
     claimLabels := mergeLabels (applyPVCOptions opts) {[ labelManagedBy := managerName ]};
     claimSource := source; claimClass := StorageClass m; claimSize := PVCSize m |}.

Definition create_claim (fault : bool) (p : Claim) (c : Cluster) : result create_error Claim * Cluster :=
  if negb (is_quantity (PVCSize m)) then (Err BadQuantity, c)
  else if fault || existsb (fun q => bool_decide (claimName q = claimName p)) (claims c)
  then (Err CreateFailed, c)
  else (Ok p, {| snapshots := snapshots c; claims := claims c ++ [p] |}).

Definition CreatePVCFromSnapshot (fault : bool) (s : VolumeSnapshot) (pvcName : gostring)
    (opts : list (gostring * gostring)) : Cluster -> result create_error Claim * Cluster :=
  create_claim fault (new_claim (Some (vsName s)) pvcName opts).

Definition CreateEmptyPVC (fault : bool) (pvcName : gostring) (opts : list (gostring * gostring))
    : Cluster -> result create_error Claim * Cluster :=
  create_claim fault (new_claim None pvcName opts).
End claims.

Definition DeletePVC (fault : bool) (pvcName : gostring) (c : Cluster) : result unit unit * Cluster :=
  if fault || negb (existsb (fun q => bool_decide (claimName q = pvcName)) (claims c)) then (Err tt, c)
  else (Ok tt, {| snapshots := snapshots c;
                  claims := List.filter (fun q => negb (bool_decide (claimName q = pvcName))) (claims c) |}).

(** ** Snapshots *)

Definition new_snapshot (m : Manager) (now : Z) (pvcName snapshotName repo cacheKey : gostring) : VolumeSnapshot :=
  {| vsName := snapshotName;
     vsLabels := {[ labelManagedBy := managerName; labelRepository := SanitizeLabelValue repo;
                    labelCacheKey := HashCacheKey cacheKey ]};
     vsAnnotations := {[ annotationKeyRaw := cacheKey ]};
     vsCreated := now; vsClass := SnapshotClass m; vsClaim := pvcName |}.

Definition SnapshotPVC (m : Manager) (fault : bool) (now : Z)
    (pvcName snapshotName repo cacheKey : gostring) (c : Cluster) : result unit VolumeSnapshot * Cluster :=
  let s := new_snapshot m now pvcName snapshotName repo cacheKey in
  if fault || existsb (fun q => bool_decide (vsName q = snapshotName)) (snapshots c) then (Err tt, c)
  else (Ok s, {| snapshots := snapshots c ++ [s]; claims := claims c |}).

(** [WaitForSnapshot]: what each poll finds, and whether the context ends
    before the next; [None]: still waiting after all of them. *)
Inductive poll := GetFailed | Ready | SnapshotError | Pending (cancelled : bool).

Fixpoint WaitForSnapshot (polls : list poll) : option (result unit unit) :=
  match polls with
  | [] => None
  | GetFailed :: _ | SnapshotError :: _ | Pending true :: _ => Some (Err tt)
  | Ready :: _ => Some (Ok tt)
  | Pending false :: polls => WaitForSnapshot polls
  end.

(** [GarbageCollect] at time [now], in seconds and in UTC, where a day has
    86,400 of them; [fault name]: that deletion fails. *)
Definition cutoff (m : Manager) (now : Z) : Z := now - RetentionDays m * 86400.

Definition expired (m : Manager) (now : Z) (s : VolumeSnapshot) : bool :=
  selects [(labelManagedBy, managerName)] (vsLabels s) && (vsCreated s <? cutoff m now)%Z.

Definition delete_snapshot (fault : gostring -> bool) (acc : Z * list VolumeSnapshot) (s : VolumeSnapshot)
    : Z * list VolumeSnapshot :=
  if fault (vsName s) then acc
  else (acc.1 + 1, List.filter (fun q => negb (bool_decide (vsName q = vsName s))) acc.2)%Z.

Definition GarbageCollect (m : Manager) (list_fault : bool) (fault : gostring -> bool) (now : Z)
    (c : Cluster) : result unit Z * Cluster :=
  if list_fault then (Err tt, c)
  else
    let '(n, rest) :=
      fold_left (delete_snapshot fault) (List.filter (expired m now) (snapshots c)) (0%Z, snapshots c) in
    (Ok n, {| snapshots := rest; claims := claims c |}).

(** ** Selection *)

Lemma selects_spec sel l : selects sel l = true <-> Forall (fun kv => l !! kv.1 = Some kv.2) sel.
Proof.
  unfold selects. induction sel as [|kv sel IH]; simpl; [by split; [constructor|]|].
  by rewrite andb_true_iff, bool_decide_eq_true, IH, Forall_cons.
Qed.

Lemma selects_app sel1 sel2 l : selects (sel1 ++ sel2) l = selects sel1 l && selects sel2 l.
Proof. apply forallb_app. Qed.

(** The newest of a list: everything listed before it is older, nothing after
    it is newer. *)
Definition is_newest (items : list VolumeSnapshot) (s : VolumeSnapshot) : Prop :=
  exists before after, items = before ++ s :: after /\
    Forall (fun t => vsCreated t < vsCreated s)%Z before /\
    Forall (fun t => vsCreated t <= vsCreated s)%Z after.

Lemma newest_from items b :
  exists s, fold_left newer items (Some b) = Some s /\ is_newest (b :: items) s.
Proof.
  revert b. induction items as [|t items IH] using rev_ind; intros b.
  { exists b. split; [done|]. exists [], []. split_and!; [done|constructor..]. }
  rewrite fold_left_app. destruct (IH b) as (s & -> & before & after & Heq & Hb & Ha). simpl.
  case_match eqn:Hlt; reflect_bools.
  - exists t. split; [done|]. exists (b :: items), []. split; [done|]. split; [|constructor].
    rewrite Heq. apply Forall_app. split; [|constructor; [done|]].
    + eapply Forall_impl; [exact Hb|]. simpl. lia.
    + eapply Forall_impl; [exact Ha|]. simpl. lia.
  - exists s. split; [done|]. exists before, (after ++ [t]). split; [|split; [done|]].
    + change (b :: items ++ [t]) with ((b :: items) ++ [t]). by rewrite Heq, <-app_assoc.
    + apply Forall_app. split; [done|]. by repeat constructor.
Qed.

Lemma newestSnapshot_spec items :
  match newestSnapshot items with None => items = [] | Some s => is_newest items s end.
Proof.
  destruct items as [|b items]; [done|]. unfold newestSnapshot. cbn [fold_left newer].
  by destruct (newest_from items b) as (s & -> & Hs).
Qed.

(** An item newer than all others is the one found. *)
Lemma newestSnapshot_latest before s after :
  Forall (fun t => vsCreated t < vsCreated s)%Z (before ++ after) ->
  newestSnapshot (before ++ s :: after) = Some s.
Proof.
  intros Hall. pose proof (newestSnapshot_spec (before ++ s :: after)) as Hn.
  destruct (newestSnapshot _) as [t|]; [|by destruct before].
  destruct Hn as (b & a & Heq & Hb & Ha).
  assert (t = s \/ t ∈ before ++ after) as [->|Hin]; [|done|].
  { assert (t ∈ before ++ s :: after) as Ht by (rewrite Heq; apply elem_of_app; right; left).
    elem_inv Ht; subst; rewrite ?elem_of_app; auto. }
  eapply Forall_forall in Hall; [|exact Hin].
  assert (s = t \/ s ∈ b ++ a) as [->|Hs]; [|done|].
  { assert (s ∈ b ++ t :: a) as Ht by (rewrite <-Heq; apply elem_of_app; right; left).
    elem_inv Ht; subst; rewrite ?elem_of_app; auto. }
  apply elem_of_app in Hs as [Hs|Hs]; [eapply Forall_forall in Hb|eapply Forall_forall in Ha];
    try exact Hs; simpl in *; lia.
Qed.

(** ** What a lookup finds *)

Lemma filter_false {A} (f : A -> bool) l : (forall x, f x = false) -> List.filter f l = [].
Proof. intros Hf. induction l as [|x l IH]; simpl; [done|]. by rewrite Hf. Qed.

(** A restore key after trimming; blank ones are skipped. *)
Definition starts (k : gostring) (s : VolumeSnapshot) : bool :=
  negb (bool_decide (trim_space k = [])) && has_prefix (raw_key s) (trim_space k).

Lemma first_prefix_spec items ks :
  match first_prefix items ks with
  | Some s => exists before k after, ks = before ++ k :: after /\
                Forall (fun k' => List.filter (starts k') items = []) before /\
                is_newest (List.filter (starts k) items) s
  | None => Forall (fun k => List.filter (starts k) items = []) ks
  end.
Proof.
  induction ks as [|k ks IH]; [constructor|]. cbn [first_prefix].
  assert (Hskip : List.filter (starts k) items = [] ->
    match first_prefix items ks with
    | Some s => exists before k0 after, k :: ks = before ++ k0 :: after /\
                  Forall (fun k' => List.filter (starts k') items = []) before /\
                  is_newest (List.filter (starts k0) items) s
    | None => Forall (fun k => List.filter (starts k) items = []) (k :: ks)
    end).
  { intros Hk. destruct (first_prefix items ks) as [s|]; [|by constructor].
    destruct IH as (before & k0 & after & -> & Hb & Hs).
    exists (k :: before), k0, after. split_and!; [done|by constructor|done]. }
  case_decide as Hblank.
  - apply Hskip. apply filter_false. intros s. unfold starts. by rewrite bool_decide_true.
  - assert (Heq : List.filter (fun s => has_prefix (raw_key s) (trim_space k)) items =
                  List.filter (starts k) items).
    { apply List.filter_ext. intros s. unfold starts. by rewrite bool_decide_false. }
    rewrite Heq. pose proof (newestSnapshot_spec (List.filter (starts k) items)) as Hn.
    destruct (newestSnapshot _) as [s|]; [|by apply Hskip].
    exists [], k, ks. split_and!; [done|constructor|done].
Qed.

(** The snapshots of a repository and key, and those of a repository: the
    managed ones that carry its labels, in the order of the list. *)
Definition exact_matches (repo cacheKey : gostring) (c : Cluster) : list VolumeSnapshot :=
  List.filter (fun s => bool_decide (vsLabels s !! labelManagedBy = Some managerName) &&
                        bool_decide (vsLabels s !! labelRepository = Some (SanitizeLabelValue repo)) &&
                        bool_decide (vsLabels s !! labelCacheKey = Some (HashCacheKey cacheKey)))
    (snapshots c).

Definition repo_matches (repo : gostring) (c : Cluster) : list VolumeSnapshot :=
  List.filter (fun s => bool_decide (vsLabels s !! labelManagedBy = Some managerName) &&
                        bool_decide (vsLabels s !! labelRepository = Some (SanitizeLabelValue repo)))
    (snapshots c).

Lemma select_exact repo k c : select_snapshots (key_selector repo k) c = exact_matches repo k c.
Proof.
  apply List.filter_ext. intros s. unfold selects. simpl. by rewrite andb_true_r, andb_assoc.
Qed.

Lemma select_repo repo c : select_snapshots (repo_selector repo) c = repo_matches repo c.
Proof. apply List.filter_ext. intros s. unfold selects. simpl. by rewrite andb_true_r. Qed.

Lemma findByExactKey_spec repo k c :
  match findByExactKey repo k c with
  | None => exact_matches repo k c = []
  | Some s => is_newest (exact_matches repo k c) s
  end.
Proof. unfold findByExactKey. rewrite select_exact. apply newestSnapshot_spec. Qed.

(** C15: a lookup finds the right snapshot.  It is the newest of the managed
    snapshots that carry the labels of exactly this repository and key.  When
    there are none, the restore keys are tried in order, trimmed, the blank ones
    skipped: it is the newest snapshot of the repository whose recorded key
    starts with the first of them that any snapshot starts with.  Nothing is
    found only when there is no such snapshot, and an error means that a list
    that was needed failed. *)
Theorem find_snapshot_correct fail1 fail2 repo key restoreKeys c :
  let restorable k := List.filter (starts k) (repo_matches repo c) in
  match FindSnapshot fail1 fail2 repo key restoreKeys c with
  | Err _ => fail1 = true \/ (fail2 = true /\ exact_matches repo key c = [] /\ restoreKeys <> [])
  | Ok None => exact_matches repo key c = [] /\ Forall (fun k => restorable k = []) restoreKeys
  | Ok (Some s) =>
      is_newest (exact_matches repo key c) s \/
      (exact_matches repo key c = [] /\
       exists before k after, restoreKeys = before ++ k :: after /\
         Forall (fun k' => restorable k' = []) before /\ is_newest (restorable k) s)
  end.
Proof.
  intros restorable. unfold FindSnapshot. destruct fail1; [by left|].
  pose proof (findByExactKey_spec repo key c) as He.
  destruct (findByExactKey repo key c) as [s|]; [by left|].
  destruct restoreKeys as [|rk rks]; [by split; [|constructor]|].
  destruct fail2; [by right|]. unfold findByPrefix. rewrite select_repo.
  pose proof (first_prefix_spec (repo_matches repo c) (rk :: rks)) as Hp.
  destruct (first_prefix _ _) as [s|]; [by right|done].
Qed.

(** ** Labels *)

Lemma mergeLabels_lookup extra defaults k :
  mergeLabels extra defaults !! k =
    match defaults !! k with Some v => Some v | None => extra !! k end.
Proof. unfold mergeLabels. rewrite lookup_union. by destruct (defaults !! k), (extra !! k). Qed.

Lemma applyPVCOptions_snoc opts k v : applyPVCOptions (opts ++ [(k, v)]) = <[k := v]> (applyPVCOptions opts).
Proof. unfold applyPVCOptions. by rewrite fold_left_app. Qed.

Lemma hex_digit_label c : 48 <= code c <= 57 \/ 97 <= code c <= 102 -> isAlnum c = true.
Proof. unfold isAlnum, in_range. lia. Qed.

(** The hash of a key is thirty-two hexadecimal digits. *)
Lemma HashCacheKey_chars key :
  length (HashCacheKey key) = 32%nat /\
  Forall (fun c => 48 <= code c <= 57 \/ 97 <= code c <= 102) (HashCacheKey key).
Proof.
  destruct (Sum256_bytes key) as [Hlen Hb]. unfold HashCacheKey.
  assert (forall l, Forall (fun b => 0 <= b < 256) l ->
    length (concat (map (fmt_hex_pad 2) l)) = (2 * length l)%nat /\
    Forall (fun c => 48 <= code c <= 57 \/ 97 <= code c <= 102) (concat (map (fmt_hex_pad 2) l))) as Hhex.
  { clear. induction 1 as [|b l Hb _ [IH1 IH2]]; [by split|]. cbn [map concat]. split.
    - rewrite length_app, fmt_hex_pad_length, IH1 by lia. simpl. lia.
    - apply Forall_app. split; [apply fmt_hex_pad_chars; lia|done]. }
  destruct (Hhex (take 16 (Sum256 key))) as [H1 H2]; [by apply Forall_take|].
  split; [|done]. rewrite H1, length_take, Hlen. done.
Qed.

Lemma HashCacheKey_valid key : valid_label_value (HashCacheKey key).
Proof.
  destruct (HashCacheKey_chars key) as [Hlen Hc].
  assert (Forall (fun c => isAlnum c = true) (HashCacheKey key)) as Ha
    by (eapply Forall_impl; [exact Hc|]; apply hex_digit_label).
  split_and!.
  - eapply Forall_impl; [exact Ha|]. intros c H. unfold isLabelChar. by rewrite H.
  - lia.
  - intros c H. eapply Forall_forall in Ha; [exact Ha|]. destruct (HashCacheKey key); simplify_eq/=. left.
  - intros c H. eapply Forall_forall in Ha; [exact Ha|]. by apply last_Some_elem_of.
Qed.

Lemma managerName_valid : valid_label_value managerName.
Proof.
  split_and!; [by repeat constructor|vm_compute; lia| |]; intros c Hc; vm_compute in Hc; by simplify_eq.
Qed.

(** ** What a snapshot is found by *)

Lemma SnapshotPVC_ok m fault now pvc name repo key c s c' :
  SnapshotPVC m fault now pvc name repo key c = (Ok s, c') ->
  s = new_snapshot m now pvc name repo key /\ snapshots c' = snapshots c ++ [s] /\ claims c' = claims c /\
  name ∉ map vsName (snapshots c).
Proof.
  unfold SnapshotPVC. case_match eqn:Hc; [done|]. reflect_bools. intros [= <- <-]. split_and!; [done..|].
  intros Hin. apply list_elem_of_In, in_map_iff in Hin as (q & <- & Hq).
  enough (existsb (fun q0 => bool_decide (vsName q0 = vsName q)) (snapshots c) = true) by congruence.
  apply existsb_exists. exists q. split; [done|]. by apply bool_decide_eq_true.
Qed.

Lemma new_snapshot_labels m now pvc name repo key :
  vsLabels (new_snapshot m now pvc name repo key) !! labelManagedBy = Some managerName /\
  vsLabels (new_snapshot m now pvc name repo key) !! labelRepository = Some (SanitizeLabelValue repo) /\
  vsLabels (new_snapshot m now pvc name repo key) !! labelCacheKey = Some (HashCacheKey key) /\
  raw_key (new_snapshot m now pvc name repo key) = key.
Proof.
  unfold raw_key, new_snapshot. cbn [vsLabels vsAnnotations]. split_and!.
  - by rewrite lookup_insert_eq.
  - by rewrite lookup_insert_ne, lookup_insert_eq.
  - by rewrite !lookup_insert_ne, lookup_singleton_eq.
  - by rewrite lookup_singleton_eq.
Qed.

Lemma exact_matches_snoc repo key c c' m now pvc name :
  snapshots c' = snapshots c ++ [new_snapshot m now pvc name repo key] ->
  exact_matches repo key c' = exact_matches repo key c ++ [new_snapshot m now pvc name repo key].
Proof.
  intros H. unfold exact_matches. rewrite H, List.filter_app. f_equal. simpl.
  destruct (new_snapshot_labels m now pvc name repo key) as (H1 & H2 & H3 & _).
  by rewrite !bool_decide_true.
Qed.

Lemma restorable_snoc k repo key c c' m now pvc name :
  snapshots c' = snapshots c ++ [new_snapshot m now pvc name repo key] ->
  trim_space k <> [] -> trim_space k `prefix_of` key ->
  List.filter (starts k) (repo_matches repo c') =
    List.filter (starts k) (repo_matches repo c) ++ [new_snapshot m now pvc name repo key].
Proof.
  intros H Hne Hp. unfold repo_matches. rewrite H, !List.filter_app. f_equal. simpl.
  destruct (new_snapshot_labels m now pvc name repo key) as (H1 & H2 & _ & H4).
  rewrite !bool_decide_true by done. simpl. unfold starts. rewrite bool_decide_false by done.
  unfold has_prefix. by rewrite H4, bool_decide_true.
Qed.

Lemma filtered_older (f : VolumeSnapshot -> bool) now l :
  Forall (fun t => vsCreated t < now) l -> Forall (fun t => vsCreated t < now) (List.filter f l).
Proof. induction 1; simpl; [constructor|]. case_match; [by constructor|done]. Qed.

Lemma FindSnapshot_exact fail2 repo key rks c s :
  newestSnapshot (exact_matches repo key c) = Some s ->
  FindSnapshot false fail2 repo key rks c = Ok (Some s).
Proof. intros H. unfold FindSnapshot, findByExactKey. by rewrite select_exact, H. Qed.

Lemma FindSnapshot_restored repo key k rks c s :
  exact_matches repo key c = [] -> trim_space k <> [] ->
  newestSnapshot (List.filter (starts k) (repo_matches repo c)) = Some s ->
  FindSnapshot false false repo key (k :: rks) c = Ok (Some s).
Proof.
  intros He Hne H. unfold FindSnapshot, findByExactKey, findByPrefix. rewrite select_exact, select_repo, He.
  cbn [newestSnapshot fold_left first_prefix]. rewrite decide_False by done.
  erewrite List.filter_ext; [by rewrite H|]. intros t. unfold starts. by rewrite bool_decide_false.
Qed.

Lemma create_claim_ok is_quantity m p c :
  is_quantity (PVCSize m) = true -> claimName p ∉ map claimName (claims c) ->
  (create_claim is_quantity m false p c).1 = Ok p.
Proof.
  intros Hq Hn. unfold create_claim. rewrite Hq. simpl. case_match eqn:He; [|done]. exfalso. apply Hn.
  apply existsb_exists in He as (q & Hin & Hq'). reflect_bools. rewrite <-Hq'.
  by apply list_elem_of_In, in_map.
Qed.

(** C14: what a run saved, the next one starts from.  A snapshot that was
    created, at a time after all others, is the one found for its repository and
    key, whatever the restore keys; it is found for another key without
    snapshots of its own, when the first restore key is the start of the key it
    was saved under; a claim made from it names it as its source, with the
    manager's label and the task's, so that the sweep at start-up selects it.
    All its label values are of the form the API server accepts. *)
Theorem snapshot_restored m fault now pvc name repo key c s c' :
  SnapshotPVC m fault now pvc name repo key c = (Ok s, c') ->
  Forall (fun t => vsCreated t < now) (snapshots c) ->
  vsClaim s = pvc /\ (forall k v, vsLabels s !! k = Some v -> valid_label_value v) /\
  (forall fail2 rks, FindSnapshot false fail2 repo key rks c' = Ok (Some s)) /\
  (forall key' k rks, exact_matches repo key' c' = [] ->
     trim_space k <> [] -> trim_space k `prefix_of` key ->
     FindSnapshot false false repo key' (k :: rks) c' = Ok (Some s)) /\
  (forall is_quantity pvc' task, is_quantity (PVCSize m) = true -> pvc' ∉ map claimName (claims c') ->
     exists p, (CreatePVCFromSnapshot is_quantity m false s pvc' [("drawbar.dev/task-id" : gostring, task)] c').1 = Ok p /\
       claimName p = pvc' /\ claimSource p = Some name /\
       selects [(labelManagedBy, managerName); ("drawbar.dev/task-id" : gostring, task)] (claimLabels p) = true).
Proof.
  intros H Hold. apply SnapshotPVC_ok in H as (-> & Hc & Hcl & _).
  split; [done|]. split; [|split; [|split]].
  - intros k v. cbn [new_snapshot vsLabels]. rewrite !lookup_insert_Some, lookup_singleton_Some.
    intros [[_ <-]|[_ [[_ <-]|[_ [_ <-]]]]];
      [apply managerName_valid|apply SanitizeLabelValue_valid|apply HashCacheKey_valid].
  - intros fail2 rks. apply FindSnapshot_exact. erewrite exact_matches_snoc by done.
    apply newestSnapshot_latest. rewrite app_nil_r. by apply filtered_older.
  - intros key' k rks He Hne Hp. apply FindSnapshot_restored; [done..|].
    erewrite restorable_snoc by done. apply newestSnapshot_latest. rewrite app_nil_r.
    by apply filtered_older, filtered_older.
  - intros isq pvc' task Hq Hn. eexists. split; [by apply create_claim_ok|]. split_and!; [done..|].
    apply selects_spec. repeat constructor; cbn [new_claim claimLabels fst snd]; rewrite mergeLabels_lookup.
Qed.

Definition sample_manager : Manager :=
  {| SnapshotClass := "zfs"; StorageClass := "fast"; PVCSize := "10Gi"; RetentionDays := 7 |}.

(** The namespace after one run saved its cache. *)
Definition sample_cluster : Cluster :=
  {| snapshots := [new_snapshot sample_manager 100 "cache-1" "snap-1" "o/r" "npm-a"]; claims := [] |}.

Definition second_run : result unit VolumeSnapshot * Cluster :=
  SnapshotPVC sample_manager false 200 "cache-2" "snap-2" "o/r" "npm-b" sample_cluster.

Lemma snapshot_restored_witness :
  let s := new_snapshot sample_manager 200 "cache-2" "snap-2" "o/r" "npm-b" in
  let c' := second_run.2 in
  vsClaim s = "cache-2" /\ (forall k v, vsLabels s !! k = Some v -> valid_label_value v) /\
  (forall fail2 rks, FindSnapshot false fail2 "o/r" "npm-b" rks c' = Ok (Some s)) /\
  (forall key' k rks, exact_matches "o/r" key' c' = [] ->
     trim_space k <> [] -> trim_space k `prefix_of` ("npm-b" : gostring) ->
     FindSnapshot false false "o/r" key' (k :: rks) c' = Ok (Some s)) /\
  (forall is_quantity pvc' task, is_quantity "10Gi" = true -> pvc' ∉ map claimName (claims c') ->
     exists p, (CreatePVCFromSnapshot is_quantity sample_manager false s pvc'
                  [("drawbar.dev/task-id" : gostring, task)] c').1 = Ok p /\
       claimName p = pvc' /\ claimSource p = Some ("snap-2" : gostring) /\
       selects [(labelManagedBy, managerName); ("drawbar.dev/task-id" : gostring, task)] (claimLabels p) = true).
Proof.
  apply (snapshot_restored sample_manager false 200 "cache-2" "snap-2" "o/r" "npm-b" sample_cluster).
  - reflexivity.
  - repeat constructor.
Defined.

(** ** Garbage collection *)

Lemma filter_filter {A} (f g : A -> bool) l : List.filter f (List.filter g l) = List.filter (fun x => g x && f x) l.
Proof. induction l as [|x l IH]; simpl; [done|]. by destruct (g x); simpl; rewrite IH. Qed.

Lemma filter_all {A} (f : A -> bool) l : (forall x, f x = true) -> List.filter f l = l.
Proof. intros Hf. induction l as [|x l IH]; simpl; [done|]. by rewrite Hf, IH. Qed.

(** Going over a list: one is counted for every deletion that works, and what
    is left has none of their names. *)
Lemma delete_all_spec fault l n rest :
  fold_left (delete_snapshot fault) l (n, rest) =
    (n + Z.of_nat (length (List.filter (fun s => negb (fault (vsName s))) l)),
     List.filter (fun q => forallb (fun s => fault (vsName s) || negb (bool_decide (vsName q = vsName s))) l) rest).
Proof.
  revert n rest. induction l as [|s l IH]; intros n rest; simpl.
  { rewrite filter_all by done. f_equal. lia. }
  unfold delete_snapshot at 2. destruct (fault (vsName s)); simpl; rewrite IH; [done|].
  rewrite filter_filter. f_equal. lia.
Qed.

Definition collectable (m : Manager) (fault : gostring -> bool) (now : Z) (s : VolumeSnapshot) : bool :=
  expired m now s && negb (fault (vsName s)).

Lemma name_determines l s t :
  NoDup (map vsName l) -> s ∈ l -> t ∈ l -> vsName s = vsName t -> s = t.
Proof.
  induction l as [|x l IH]; intros Hd Hs Ht He; [by apply elem_of_nil in Hs|].
  apply NoDup_cons in Hd as [Hx Hd].
  assert (forall y, y ∈ l -> vsName y ∈ map vsName l) as Hm
    by (intros y Hy; apply list_elem_of_In, in_map, list_elem_of_In, Hy).
  apply elem_of_cons in Hs as [->|Hs], Ht as [->|Ht]; [done| | |by apply IH].
  - destruct Hx. rewrite He. by apply Hm.
  - destruct Hx. rewrite <-He. by apply Hm.
Qed.

Lemma filter_ext_elem {A} (f g : A -> bool) l :
  (forall x, x ∈ l -> f x = g x) -> List.filter f l = List.filter g l.
Proof. intros H. apply List.filter_ext_in. intros x Hx. by apply H, list_elem_of_In. Qed.

(** Garbage collection deletes what it says.  With names unique, as the
    API server keeps them, exactly the managed snapshots created before the
    cut-off whose deletion works are gone; the others stay, in their order, and
    no claim is touched.  The answer is the number of deletions, and an error
    means that nothing was done. *)
Theorem garbage_collection_exact m list_fault fault now c :
  NoDup (map vsName (snapshots c)) ->
  let (r, c') := GarbageCollect m list_fault fault now c in
  if list_fault then r = Err tt /\ c' = c
  else r = Ok (Z.of_nat (length (List.filter (collectable m fault now) (snapshots c)))) /\
       snapshots c' = List.filter (fun s => negb (collectable m fault now s)) (snapshots c) /\
       claims c' = claims c.
Proof.
  intros Hd. unfold GarbageCollect. destruct list_fault; [done|].
  rewrite delete_all_spec. split_and!; [f_equal|cbn [snapshots]|done].
  { by rewrite filter_filter. }
  apply filter_ext_elem. intros q Hq. unfold collectable.
  destruct (expired m now q && negb (fault (vsName q))) eqn:Hc; simpl.
  - apply not_true_iff_false. intros Hall. reflect_bools.
    assert (In q (List.filter (expired m now) (snapshots c))) as Hin
      by (apply List.filter_In; by rewrite <-list_elem_of_In).
    eapply forallb_forall in Hall; [|exact Hin]. rewrite bool_decide_true in Hall by done. by destruct (fault _).
  - apply forallb_forall. intros s Hs. apply List.filter_In in Hs as [Hs He].
    destruct (fault (vsName s)) eqn:Hf; [done|]. simpl. apply negb_true_iff, bool_decide_eq_false. intros Heq.
    assert (q = s) as -> by (eapply name_determines; [done..|by apply list_elem_of_In|done]).
    by rewrite He, Hf in Hc.
Qed.

Lemma garbage_collection_exact_witness :
  let late := 100 + 7 * 86400 + 1 in
  NoDup (map vsName (snapshots second_run.2)) /\
  let (r, c') := GarbageCollect sample_manager false (fun _ => false) late second_run.2 in
  r = Ok (Z.of_nat (length (List.filter (collectable sample_manager (fun _ => false) late) (snapshots second_run.2)))) /\
  snapshots c' = List.filter (fun s => negb (collectable sample_manager (fun _ => false) late s)) (snapshots second_run.2) /\
  claims c' = claims second_run.2.
Proof.
  assert (NoDup (map vsName (snapshots second_run.2))) as Hd by decide_now.
  split; [exact Hd|].
  apply (garbage_collection_exact sample_manager false (fun _ => false) (100 + 7 * 86400 + 1) second_run.2 Hd).
Defined.

(** There the older of the two is deleted. *)
Example older_collected :
  map vsName (snapshots (GarbageCollect sample_manager false (fun _ => false) (100 + 7 * 86400 + 1) second_run.2).2)
    = ["snap-2" : gostring].
Proof. vm_compute. reflexivity. Qed.

(** ** Repositories that share a label *)

(** A lookup sees a repository only through its label. *)
Lemma lookup_by_label fail1 fail2 repo repo' key rks c :
  SanitizeLabelValue repo = SanitizeLabelValue repo' ->
  FindSnapshot fail1 fail2 repo key rks c = FindSnapshot fail1 fail2 repo' key rks c.
Proof.
  intros H. unfold FindSnapshot, findByExactKey, findByPrefix, key_selector, repo_selector. by rewrite H.
Qed.

(** Two repositories whose names differ only in what the label cannot hold
    share their caches. *)
Example repositories_collide :
  option_map vsName
    (match FindSnapshot false false "a-b/c" "npm" [] {| snapshots :=
       [new_snapshot sample_manager 100 "cache-1" "snap-1" "a/b-c" "npm"]; claims := [] |} with
     | Ok o => o | Err _ => None end) = Some ("snap-1" : gostring).
Proof. vm_compute. reflexivity. Qed.
