(* ===== verification/Watcher.v ===== *)
(** * Watching a job's pod ([pkg/k8s/watcher.go])

    The two log streams of a pod (the runner's output and the state events),
    the waits on the pod's status, the job's result and the diagnosis of a
    failed pod.  What the API server answers is given as data: a stream is the
    bytes read from it, a polling loop gets the list of answers it would see. *)
From Stdlib Require Import Ascii.
From S2P Require Import Prelude GoStrings Masker Reporter LogDelivery Commands Envfile Entrypoint.
#[local] Open Scope Z_scope.
#[local] Open Scope go_scope.

(** ** The log stream ([streamLogs]) *)

Definition is_eol (c : ascii) : bool := bool_decide (c = nl \/ c = cr).

(** What [ReadString] returns on the whole stream: the lines with their
    newline, and the unterminated rest if there is one. *)
Definition read_strings (data : gostring) : list gostring :=
  let '(ls, rest) := raw_lines data in
  map (fun l => l ++ [nl]) ls ++ (if decide (rest = []) then [] else [rest]).

(** One line: through the command processor, if there is one, to the reporter.
    [now] is the clock's answer when the row is appended. *)
Definition log_line `{UnicodeTables} (now : Z) (line : gostring)
    (st : option CommandProcessor * Reporter) : option CommandProcessor * Reporter :=
  let '(proc, r) := st in
  let line := trim_right is_eol line in
  match proc with
  | Some p =>
      let '(out, p, r) := ProcessLine line p r in
      (Some p, match out with Some l => AddLog now l r | None => r end)
  | None => (None, AddLog now line r)
  end.

Fixpoint log_lines `{UnicodeTables} (clock : nat -> Z) (n : nat) (ls : list gostring)
    (st : option CommandProcessor * Reporter) : option CommandProcessor * Reporter :=
  match ls with
  | [] => st
  | l :: ls => log_lines clock (S n) ls (log_line (clock n) l st)
  end.

(** The whole stream; how it ends (EOF or an error) does not matter to the
    rows already read. *)
Definition streamLogs `{UnicodeTables} (clock : nat -> Z) (data : gostring)
    (st : option CommandProcessor * Reporter) : option CommandProcessor * Reporter :=
  log_lines clock 0 (read_strings data) st.

(** ** The state stream ([streamStateFileWith], [routeStateEvent]) *)

Definition routeStateEvent (now : Z) (ev : StateEvent) (r : Reporter) : Reporter :=
  if decide (Event ev = "start") then StartStep now (Step ev) r
  else if decide (Event ev = "end") then
    FinishStep now (Step ev)
      (if decide (ExitCode ev <> 0) then RESULT_FAILURE else RESULT_SUCCESS) r
  else if decide (Event ev = "skip") then FinishStep now (Step ev) RESULT_SKIPPED r
  else r.

(** [encoding/json] on state events. *)
Class StateEventCodec := {
  marshal : StateEvent -> gostring;
  unmarshal : gostring -> option StateEvent;
}.

(** Events as the runner writes them: Go ints and one of the three kinds. *)
Definition fits (ev : StateEvent) : Prop := in_int64 (Step ev) /\ in_int64 (ExitCode ev).

Definition event_kinds : list gostring := ["start"; "end"; "skip"].

Definition same_event (ev ev' : StateEvent) : Prop :=
  Event ev' = Event ev /\ Step ev' = Step ev /\ ExitCode ev' = ExitCode ev.

(** The documented behaviour the stream relies on: a marshalled event is one
    non-empty line, and unmarshalling it gives the kind and the numbers back. *)
Class StateEventCodecLaws `(StateEventCodec) : Prop := {
  marshal_line : forall ev, marshal ev <> [] /\ (nl ∉ marshal ev) /\
                            has_suffix (marshal ev) [cr] = false;
  unmarshal_marshal : forall ev, Event ev ∈ event_kinds -> fits ev ->
                                 exists ev', unmarshal (marshal ev) = Some ev' /\ same_event ev ev';
}.

Section state_stream.
Context `{StateEventCodec}.

(** One terminated line: counted, and routed unless empty or malformed. *)
Definition state_line (now : Z) (line : gostring) (r : Reporter) : Reporter :=
  let trimmed := trim_right is_eol line in
  if decide (trimmed = []) then r
  else match unmarshal trimmed with
       | None => r
       | Some ev => routeStateEvent now ev r
       end.

Fixpoint state_lines (clock : nat -> Z) (n : nat) (ls : list gostring) (r : Reporter) : Reporter :=
  match ls with
  | [] => r
  | l :: ls => state_lines clock (S n) ls (state_line (clock n) l r)
  end.

(** The count of lines and the reporter; an unterminated rest is dropped. *)
Definition streamStateFileWith (clock : nat -> Z) (data : gostring) (r : Reporter) : nat * Reporter :=
  let ls := map (fun l => l ++ [nl]) (raw_lines data).1 in
  (length ls, state_lines clock 0 ls r).

(** What [writeState] appends for a list of events. *)
Definition state_file (evs : list StateEvent) : gostring :=
  concat (map (fun ev => marshal ev ++ [nl]) evs).
End state_stream.

(** ** Pod status *)

Record Terminated := { tExitCode : Z; tReason : gostring; tMessage : gostring }.

Record ContainerStatus := {
  csName : gostring;
  csRunning : bool;
  csWaiting : option (gostring * gostring);
  csTerminated : option Terminated;
  csLastTerminated : option Terminated;
}.

Record Pod := {
  podName : gostring;
  podPhase : gostring;
  podReason : gostring;
  initStatuses : list ContainerStatus;
  statuses : list ContainerStatus;
}.

(** What one [Get] answers. *)
Inductive get_answer :=
  | GotPod (p : Pod)
  | NotFound
  | GetFailed.

(** How the wait between two polls ends. *)
Inductive poll_wait := PollAgain | DeadlineExceeded | ParentCancelled.

Inductive watch_error :=
  | EWaitPod | EWaitRunning (why : gostring) | ENoTermination | ECancelled | EStatusNotFound | EGet.

(** [waitForPod]: the answers of successive [List] calls. *)
Fixpoint waitForPod (polls : list (option (list gostring) * poll_wait)) : option (result watch_error gostring) :=
  match polls with
  | [] => None
  | (None, _) :: _ => Some (Err EWaitPod)
  | (Some (name :: _), _) :: _ => Some (Ok name)
  | (Some [], w) :: polls =>
      match w with PollAgain => waitForPod polls | _ => Some (Err ECancelled) end
  end.

(** [findFailingContainer]. *)
Definition failing_in (cs : ContainerStatus) : option (gostring * Terminated) :=
  match csTerminated cs with
  | Some t => if decide (tExitCode t <> 0) then Some (csName cs, t) else
      match csLastTerminated cs with
      | Some t => if decide (tExitCode t <> 0) then Some (csName cs, t) else None
      | None => None
      end
  | None =>
      match csLastTerminated cs with
      | Some t => if decide (tExitCode t <> 0) then Some (csName cs, t) else None
      | None => None
      end
  end.

Fixpoint pick_failing (l : list ContainerStatus) : option (gostring * Terminated) :=
  match l with
  | [] => None
  | cs :: l => match failing_in cs with Some f => Some f | None => pick_failing l end
  end.

Definition findFailingContainer (p : Pod) : option (gostring * Terminated * gostring) :=
  match pick_failing (initStatuses p) with
  | Some f => Some (f, "init")
  | None => match pick_failing (statuses p) with
            | Some f => Some (f, "main")
            | None => None
            end
  end.

(** An ellipsis, U+2026 in UTF-8. *)
Definition ellipsis : gostring := map chr [0xE2; 0x80; 0xA6].

Definition truncate (s : gostring) (max : nat) : gostring :=
  if (length s <=? max)%nat then s else take max s ++ ellipsis.

(** [fetchPreviousLogTail] on what the log endpoint returned, if anything. *)
Definition log_tail (buf : option gostring) : gostring :=
  match buf with
  | None | Some [] => []
  | Some buf => join [nl] (map (fun l => "  " ++ l)
                  (split nl (trim_right (fun c => bool_decide (c = nl)) buf)))
  end.

Definition formatPodFailure (logs : gostring -> option gostring) (p : Pod) : gostring :=
  match findFailingContainer p with
  | Some (name, t, kind) =>
      let summary := kind ++ " container " ++ name ++ " terminated with exit code " ++
                     itoa (tExitCode t) ++ " (" ++ tReason t ++ ")" in
      let summary := if decide (tMessage t <> [])
                     then summary ++ ": " ++ truncate (trim_space (tMessage t)) 1024
                     else summary in
      let tail := log_tail (logs name) in
      if decide (tail <> []) then summary ++ nl :: "last log lines:" ++ nl :: tail else summary
  | None => if decide (podReason p <> []) then podReason p else "unknown reason"
  end.

(** [waitForContainerRunning] on one pod: nothing yet, running, or an error. *)
Definition bad_reasons : list gostring :=
  ["ImagePullBackOff"; "ErrImagePull"; "InvalidImageName"; "CreateContainerConfigError"].

Fixpoint running_in (name : gostring) (l : list ContainerStatus) : option (result gostring unit) :=
  match l with
  | [] => None
  | cs :: l =>
      if decide (csName cs = name) then
        if csRunning cs || bool_decide (is_Some (csTerminated cs)) then Some (Ok tt)
        else match csWaiting cs with
             | Some (reason, msg) =>
                 if decide (reason ∈ bad_reasons) then Some (Err (reason ++ ": " ++ msg))
                 else running_in name l
             | None => running_in name l
             end
      else running_in name l
  end.

Fixpoint waitForContainerRunning (logs : gostring -> option gostring) (name : gostring)
    (polls : list (get_answer * poll_wait)) : option (result watch_error unit) :=
  match polls with
  | [] => None
  | (GotPod p, w) :: polls =>
      if decide (podPhase p = "Failed")
      then Some (Err (EWaitRunning ("pod failed: " ++ formatPodFailure logs p)))
      else match running_in name (statuses p) with
           | Some (Ok _) => Some (Ok tt)
           | Some (Err why) => Some (Err (EWaitRunning why))
           | None => match w with
                     | PollAgain => waitForContainerRunning logs name polls
                     | _ => Some (Err ECancelled)
                     end
           end
  | (_, _) :: _ => Some (Err EGet)
  end.

(** [waitForContainerTerminated]: a failed [Get] is only logged. *)
Definition terminated_seen (name : gostring) (g : get_answer) : bool :=
  match g with
  | NotFound => true
  | GetFailed => false
  | GotPod p =>
      bool_decide (podPhase p = "Failed") || bool_decide (podPhase p = "Succeeded") ||
      existsb (fun cs => bool_decide (csName cs = name) && bool_decide (is_Some (csTerminated cs)))
        (statuses p)
  end.

Fixpoint waitForContainerTerminated (name : gostring) (polls : list (get_answer * poll_wait))
    : option (result watch_error unit) :=
  match polls with
  | [] => None
  | (g, w) :: polls =>
      if terminated_seen name g then Some (Ok tt)
      else match w with
           | PollAgain => waitForContainerTerminated name polls
           | DeadlineExceeded => Some (Err ENoTermination)
           | ParentCancelled => Some (Err ECancelled)
           end
  end.

(** [getContainerResult]. *)
Fixpoint runner_exit (l : list ContainerStatus) : option Z :=
  match l with
  | [] => None
  | cs :: l =>
      match csTerminated cs with
      | Some t => if decide (csName cs = "runner") then Some (tExitCode t) else runner_exit l
      | None => runner_exit l
      end
  end.

Definition getContainerResult (g : get_answer) : Result * option watch_error :=
  match g with
  | GotPod p =>
      match runner_exit (statuses p) with
      | Some code => (if decide (code = 0) then RESULT_SUCCESS else RESULT_FAILURE, None)
      | None => (RESULT_FAILURE, Some EStatusNotFound)
      end
  | _ => (RESULT_FAILURE, Some EGet)
  end.

(** ** [watchJobWith] *)

(** The order in which the two stream goroutines got to the reporter. *)
Inductive stream_item :=
  | LogItem (line : gostring)
  | StateItem (line : gostring).

Section watch.
Context `{UnicodeTables} `{StateEventCodec}.

Definition run_item (now : Z) (it : stream_item) (st : option CommandProcessor * Reporter)
    : option CommandProcessor * Reporter :=
  match it with
  | LogItem line => log_line now line st
  | StateItem line => (st.1, state_line now line st.2)
  end.

Fixpoint run_items (clock : nat -> Z) (n : nat) (its : list stream_item)
    (st : option CommandProcessor * Reporter) : option CommandProcessor * Reporter :=
  match its with
  | [] => st
  | it :: its => run_items clock (S n) its (run_item (clock n) it st)
  end.

(** Everything the watch of one job observes.  The state stream is cancelled
    once the container has ended, so its items are those read until then. *)
Record Scenario := {
  pod_polls : list (option (list gostring) * poll_wait);
  run_polls : list (get_answer * poll_wait);
  items : list stream_item;
  term_polls : list (get_answer * poll_wait);
  final_get : get_answer;
  pod_logs : gostring -> option gostring;
}.

(** The result, the error and the reporter after it; [None] while a wait is
    not over. *)
Definition watchJobWith (clock : nat -> Z) (sc : Scenario)
    (st : option CommandProcessor * Reporter)
    : option (Result * option watch_error * (option CommandProcessor * Reporter)) :=
  pod ← waitForPod (pod_polls sc);
  match pod with
  | Err e => Some (RESULT_FAILURE, Some e, st)
  | Ok _ =>
      running ← waitForContainerRunning (pod_logs sc) "runner" (run_polls sc);
      match running with
      | Err e => Some (RESULT_FAILURE, Some e, st)
      | Ok _ =>
          let st := run_items clock 0 (items sc) st in
          ended ← waitForContainerTerminated "runner" (term_polls sc);
          match ended with
          | Err e => Some (RESULT_FAILURE, Some e, st)
          | Ok _ => let '(res, err) := getContainerResult (final_get sc) in Some (res, err, st)
          end
      end
  end.

End watch.

(** *** What it should find

    The specification does not use the functions above: it speaks of the pods
    the polls return and of the statuses of the container named [runner]. *)

(** The polls up to the first one that [hit]s: until then each said [wait],
    and the watch went on polling. *)
Definition first_such {A} (wait hit : A -> Prop) (l : list (A * poll_wait)) : Prop :=
  exists pre a w rest, l = pre ++ (a, w) :: rest /\ hit a /\
    Forall (fun x => wait x.1 /\ x.2 = PollAgain) pre.

(** The first status of a kind among those named [name]. *)
Definition first_status (name : gostring) (kind : ContainerStatus -> Prop) (other : ContainerStatus -> Prop)
    (l : list ContainerStatus) : Prop :=
  exists pre cs post, l = pre ++ cs :: post /\ csName cs = name /\ kind cs /\
    Forall (fun d => csName d = name -> other d) pre.

Definition started (cs : ContainerStatus) : Prop := csRunning cs = true \/ csTerminated cs <> None.
Definition not_yet (cs : ContainerStatus) : Prop :=
  csRunning cs = false /\ csTerminated cs = None /\
  forall reason msg, csWaiting cs = Some (reason, msg) -> reason ∉ bad_reasons.

Definition pod_created : list (option (list gostring) * poll_wait) -> Prop :=
  first_such (fun pods => pods = Some []) (fun pods => exists n ns, pods = Some (n :: ns)).

Definition runner_started : list (get_answer * poll_wait) -> Prop :=
  first_such
    (fun g => exists p, g = GotPod p /\ podPhase p <> "Failed" /\
       Forall (fun cs => csName cs = "runner" -> not_yet cs) (statuses p))
    (fun g => exists p, g = GotPod p /\ podPhase p <> "Failed" /\
       first_status "runner" started not_yet (statuses p)).

Definition over (g : get_answer) : Prop :=
  g = NotFound \/
  exists p, g = GotPod p /\
    (podPhase p = "Failed" \/ podPhase p = "Succeeded" \/
     exists cs, cs ∈ statuses p /\ csName cs = "runner" /\ csTerminated cs <> None).

Definition runner_over : list (get_answer * poll_wait) -> Prop := first_such (fun g => ~ over g) over.

Definition runner_exited (code : Z) (g : get_answer) : Prop :=
  exists p, g = GotPod p /\
    first_status "runner" (fun cs => exists t, csTerminated cs = Some t /\ tExitCode t = code)
      (fun cs => csTerminated cs = None) (statuses p).

Lemma first_such_cons {A} (wait hit : A -> Prop) a w l :
  first_such wait hit ((a, w) :: l) <-> hit a \/ (wait a /\ w = PollAgain /\ first_such wait hit l).
Proof.
  split.
  - intros ([|x pre] & b & v & rest & Hl & Hb & Hpre); simplify_eq/=; [by left|].
    apply Forall_cons in Hpre as [[Hw Hp] Hpre]. simpl in Hp. right. split; [done|]. split; [done|].
    by exists pre, b, v, rest.
  - intros [Ha|(Hw & -> & pre & b & v & rest & -> & Hb & Hpre)]; [by exists [], a, w, l|].
    exists ((a, PollAgain) :: pre), b, v, rest. split; [done|]. split; [done|]. by constructor.
Qed.

Lemma first_such_nil {A} (wait hit : A -> Prop) : ~ first_such wait hit [].
Proof. by intros ([|] & a & w & rest & [=] & _). Qed.

Lemma first_status_cons name kind other cs l :
  first_status name kind other (cs :: l) <->
  (csName cs = name /\ kind cs) \/ ((csName cs = name -> other cs) /\ first_status name kind other l).
Proof.
  split.
  - intros ([|x pre] & d & post & Hl & Hn & Hk & Hpre); simplify_eq/=; [by left|].
    apply Forall_cons in Hpre as [Ho Hpre]. right. split; [done|]. by exists pre, d, post.
  - intros [[Hn Hk]|(Ho & pre & d & post & -> & Hn & Hk & Hpre)]; [by exists [], cs, l|].
    exists (cs :: pre), d, post. split_and!; try done. by constructor.
Qed.

Lemma first_status_nil name kind other : ~ first_status name kind other [].
Proof. by intros ([|] & d & post & [=] & _). Qed.

Lemma runner_exit_spec l code :
  runner_exit l = Some code <->
  first_status "runner" (fun cs => exists t, csTerminated cs = Some t /\ tExitCode t = code)
    (fun cs => csTerminated cs = None) l.
Proof.
  induction l as [|cs l IH]; cbn [runner_exit].
  { split; [done|]. by intros ?%first_status_nil. }
  rewrite first_status_cons. destruct (csTerminated cs) as [t|] eqn:Ht.
  - case_decide as Hn.
    + split; [intros [= <-]; left; eauto|]. intros [[_ (t' & [= <-] & <-)]|[Ho _]]; [done|].
      by specialize (Ho Hn).
    + rewrite IH. split; [intros ?; right; split; [by intros ?|done]|]. by intros [[? _]|[_ ?]].
  - rewrite IH. split; [intros ?; right; by split|]. by intros [[_ (t' & [=] & _)]|[_ ?]].
Qed.

Lemma started_spec cs :
  started cs <-> csRunning cs || bool_decide (is_Some (csTerminated cs)) = true.
Proof.
  unfold started. rewrite orb_true_iff, bool_decide_eq_true, <-not_eq_None_Some. done.
Qed.

Lemma not_yet_spec cs :
  not_yet cs <->
  csRunning cs || bool_decide (is_Some (csTerminated cs)) = false /\
  forall reason msg, csWaiting cs = Some (reason, msg) -> reason ∉ bad_reasons.
Proof.
  unfold not_yet. rewrite orb_false_iff, bool_decide_eq_false, <-eq_None_not_Some. tauto.
Qed.

Lemma running_in_spec name l :
  (running_in name l = Some (Ok tt) <-> first_status name started not_yet l) /\
  (running_in name l = None <-> Forall (fun cs => csName cs = name -> not_yet cs) l).
Proof.
  induction l as [|cs l [IHs IHn]]; cbn [running_in].
  { split; [|done]. split; [done|]. by intros ?%first_status_nil. }
  rewrite first_status_cons, Forall_cons, started_spec, not_yet_spec.
  case_decide as Hn; [|rewrite IHs, IHn; tauto].
  destruct (_ || _); [naive_solver|].
  destruct (csWaiting cs) as [[reason msg]|]; [case_decide|]; rewrite ?IHs, ?IHn; naive_solver.
Qed.

Lemma waitForPod_spec polls : (exists n, waitForPod polls = Some (Ok n)) <-> pod_created polls.
Proof.
  unfold pod_created. induction polls as [|[[[|n ns]|] w] polls IH]; cbn [waitForPod].
  - split; [by intros [? ?]|]. by intros ?%first_such_nil.
  - rewrite first_such_cons. destruct w; try rewrite IH; naive_solver.
  - rewrite first_such_cons. naive_solver.
  - rewrite first_such_cons. naive_solver.
Qed.

Lemma running_spec logs polls :
  waitForContainerRunning logs "runner" polls = Some (Ok tt) <-> runner_started polls.
Proof.
  unfold runner_started. induction polls as [|[g w] polls IH]; cbn [waitForContainerRunning].
  { split; [done|]. by intros ?%first_such_nil. }
  rewrite first_such_cons. destruct g as [p| |]; [|naive_solver..].
  case_decide as Hp; [naive_solver|].
  destruct (running_in_spec "runner" (statuses p)) as [Hs Hn].
  destruct (running_in "runner" (statuses p)) as [[[]|e]|].
  - split; [intros _; left; exists p; tauto|done].
  - split; [done|]. intros [(q & [= <-] & _ & Hq)|((q & [= <-] & _ & Hq) & _)].
    + by apply Hs in Hq.
    + by apply Hn in Hq.
  - destruct w; [rewrite IH|..]; (split; [|intros [(q & [= <-] & _ & Hq)|(_ & Hw & ?)]]); try done;
      try (by apply Hs in Hq).
    intros ?. right. split; [|done]. exists p. tauto.
Qed.

Lemma terminated_seen_spec g : terminated_seen "runner" g = true <-> over g.
Proof.
  unfold over. destruct g as [p| |]; cbn [terminated_seen]; [|naive_solver..].
  rewrite !orb_true_iff, !bool_decide_eq_true, existsb_exists. split.
  - intros [[?|?]|(cs & Hin & Hc)]; right; exists p; split; auto.
    apply andb_true_iff in Hc as [Hn Ht]. rewrite bool_decide_eq_true in Hn, Ht.
    right; right. exists cs. rewrite list_elem_of_In. split; [done|]. split; [done|].
    by apply not_eq_None_Some.
  - intros [[=]|(q & [= <-] & [?|[?|(cs & Hin & Hn & Ht)]])]; [by left; left|by left; right|].
    right. exists cs. rewrite <-list_elem_of_In. split; [done|].
    rewrite !bool_decide_true; [done|by apply not_eq_None_Some|done].
Qed.

Lemma terminated_spec polls :
  waitForContainerTerminated "runner" polls = Some (Ok tt) <-> runner_over polls.
Proof.
  unfold runner_over. induction polls as [|[g w] polls IH]; cbn [waitForContainerTerminated].
  { split; [done|]. by intros ?%first_such_nil. }
  rewrite first_such_cons. pose proof (terminated_seen_spec g) as Hg.
  destruct (terminated_seen "runner" g).
  - split; [intros _; left; by apply Hg|done].
  - assert (~ over g) by (by rewrite <-Hg). destruct w; try rewrite IH; naive_solver.
Qed.

(** The three waits went well. *)
Definition waits_over (sc : Scenario) : Prop :=
  pod_created (pod_polls sc) /\ runner_started (run_polls sc) /\ runner_over (term_polls sc).

Lemma getContainerResult_spec g res err :
  getContainerResult g = (res, err) ->
  (res = RESULT_SUCCESS <-> runner_exited 0 g) /\
  (res = RESULT_FAILURE /\ err = None <-> exists code, code <> 0 /\ runner_exited code g) /\
  (res = RESULT_SUCCESS /\ err = None \/ res = RESULT_FAILURE).
Proof.
  unfold runner_exited, getContainerResult. destruct g as [p| |];
    [|intros [= <- <-]; naive_solver..].
  intros Hr. assert (forall code, runner_exit (statuses p) = Some code <->
    exists p', GotPod p = GotPod p' /\ first_status "runner"
      (fun cs => exists t, csTerminated cs = Some t /\ tExitCode t = code)
      (fun cs => csTerminated cs = None) (statuses p')) as Hs.
  { intros code. rewrite runner_exit_spec. naive_solver. }
  setoid_rewrite <-Hs. destruct (runner_exit (statuses p)) as [c|]; [case_decide|];
    simplify_eq; naive_solver.
Qed.

(** C40: the job's result.  The watch answers SUCCESS, and then without an
    error, exactly when a pod was created, the container named [runner] started
    in it (before the pod failed and without a fatal waiting reason), it or the
    pod was then seen to be over, and the final status shows that container,
    and not another, terminated with exit code zero.  It answers FAILURE
    without an error exactly when the waits went the same way and that exit
    code is not zero; everything else it answers is FAILURE with an error. *)
Theorem watch_result `{UnicodeTables} `{StateEventCodec} clock sc st :
  ((exists st', watchJobWith clock sc st = Some (RESULT_SUCCESS, None, st')) <->
     waits_over sc /\ runner_exited 0 (final_get sc)) /\
  ((exists st', watchJobWith clock sc st = Some (RESULT_FAILURE, None, st')) <->
     waits_over sc /\ exists code, code <> 0 /\ runner_exited code (final_get sc)) /\
  (forall res e st', watchJobWith clock sc st = Some (res, e, st') ->
     (e = None /\ res = RESULT_SUCCESS) \/ res = RESULT_FAILURE).
Proof.
  unfold waits_over. rewrite <-waitForPod_spec, <-(running_spec (pod_logs sc)), <-terminated_spec.
  unfold watchJobWith.
  destruct (waitForPod _) as [[pod|e]|]; cbn [mbind option_bind]; [|naive_solver..].
  destruct (waitForContainerRunning _ _ _) as [[[]|e]|]; cbn [mbind option_bind]; [|naive_solver..].
  destruct (waitForContainerTerminated _ _) as [[[]|e]|]; cbn [mbind option_bind]; [|naive_solver..].
  destruct (getContainerResult (final_get sc)) as [res err] eqn:Hg.
  apply getContainerResult_spec in Hg as (Hok & Hko & Hany).
  split_and!.
  - rewrite <-Hok. naive_solver.
  - rewrite <-Hko. naive_solver.
  - intros res' e st' [= <- <- <-]. naive_solver.
Qed.

(** ** Step results *)

(** What a list of events says about step [i]. *)
Definition event_result (i : nat) (acc : Result) (ev : StateEvent) : Result :=
  if decide (Step ev = Z.of_nat i) then
    if decide (Event ev = "end") then
      if decide (ExitCode ev <> 0) then RESULT_FAILURE else RESULT_SUCCESS
    else if decide (Event ev = "skip") then RESULT_SKIPPED else acc
  else acc.

Definition result_of (evs : list StateEvent) (i : nat) (acc : Result) : Result :=
  foldl (event_result i) acc evs.

(** The result of a step of a reporter. *)
Definition step_result (r : Reporter) (i : nat) : option Result :=
  sResult <$> Reporter.Steps (state r) !! i.

Lemma step_result_update r k f i :
  step_result (update_step r k f) i =
    if decide (k = i) then (fun st => sResult (f st)) <$> Reporter.Steps (state r) !! i
    else step_result r i.
Proof.
  unfold step_result. simpl. case_decide as Hk.
  - subst. rewrite list_lookup_alter_eq. by destruct (Reporter.Steps (state r) !! i).
  - by rewrite list_lookup_alter_ne.
Qed.

Lemma step_slot_lt r z i :
  (i < length (Reporter.Steps (state r)))%nat -> step_slot r z = Some i <-> z = Z.of_nat i.
Proof. intros Hi. rewrite step_slot_Some. by split; [intros [? _]|]. Qed.

Lemma StartStep_result now z r i : step_result (StartStep now z r) i = step_result r i.
Proof.
  unfold StartStep. destruct (step_slot r z) as [k|]; [|done].
  assert (forall r' f, (forall st, sResult (f st) = sResult st) ->
            step_result (update_step r' k f) i = step_result r' i) as Hu.
  { intros r' f Hf. rewrite step_result_update. case_decide; [|done]. unfold step_result.
    destruct (_ !! _); simpl; [by rewrite Hf|done]. }
  match goal with |- context [update_step ?r1 k ?f] => pose proof (Hu r1 f (fun _ => eq_refl)) as H1 end.
  by destruct (tStartedAt _).
Qed.

Lemma FinishStep_result now z res r i :
  (i < length (Reporter.Steps (state r)))%nat ->
  step_result (FinishStep now z res r) i =
    if decide (z = Z.of_nat i) then Some res else step_result r i.
Proof.
  intros Hi. unfold FinishStep. destruct (step_slot r z) as [k|] eqn:Hk.
  - rewrite step_result_update. apply step_slot_Some in Hk as [-> Hk].
    destruct (decide (k = i)) as [->|Hne].
    + rewrite decide_True by done.
      destruct (Reporter.Steps (state r) !! i) eqn:Hl; [done|].
      apply lookup_ge_None in Hl. lia.
    + by rewrite decide_False by lia.
  - rewrite decide_False; [done|]. by apply (step_slot_None r z i Hk).
Qed.

Lemma StartStep_length now z r :
  length (Reporter.Steps (state (StartStep now z r))) = length (Reporter.Steps (state r)).
Proof.
  unfold StartStep. destruct (step_slot r z); [|done].
  destruct (tStartedAt _); simpl; by rewrite length_alter.
Qed.

Lemma FinishStep_length now z res r :
  length (Reporter.Steps (state (FinishStep now z res r))) = length (Reporter.Steps (state r)).
Proof. unfold FinishStep. destruct (step_slot r z); [|done]. simpl. by rewrite length_alter. Qed.

Lemma steps_length now ev r :
  length (Reporter.Steps (state (routeStateEvent now ev r))) = length (Reporter.Steps (state r)).
Proof.
  unfold routeStateEvent. repeat case_decide; rewrite ?StartStep_length, ?FinishStep_length; done.
Qed.

Lemma routeStateEvent_result now ev r i :
  (i < length (Reporter.Steps (state r)))%nat ->
  step_result (routeStateEvent now ev r) i =
    (fun acc => event_result i acc ev) <$> step_result r i.
Proof.
  intros Hi. unfold routeStateEvent, event_result.
  destruct (decide (Event ev = "start")) as [Hs|Hs].
  { rewrite StartStep_result, Hs. destruct (step_result r i); [|done]. simpl.
    by case_decide. }
  destruct (decide (Event ev = "end")) as [He|He].
  { rewrite FinishStep_result by done. unfold step_result.
    destruct (Reporter.Steps (state r) !! i) eqn:Hl; [|by apply lookup_ge_None in Hl; lia].
    simpl. by case_decide. }
  destruct (decide (Event ev = "skip")) as [Hk|Hk].
  { rewrite FinishStep_result by done. unfold step_result.
    destruct (Reporter.Steps (state r) !! i) eqn:Hl; [|by apply lookup_ge_None in Hl; lia].
    simpl. by case_decide. }
  destruct (step_result r i); simpl; [by case_decide|done].
Qed.

(** Log lines leave the step results alone. *)
Lemma AddLog_result now c r i :
  step_result (AddLog now c r) i = step_result r i /\
  length (Reporter.Steps (state (AddLog now c r))) = length (Reporter.Steps (state r)).
Proof.
  unfold AddLog. match goal with |- context [step_slot ?r1 ?z] => destruct (step_slot r1 z) as [k|] end;
    [|done]. split; [|simpl; by rewrite length_alter].
  rewrite step_result_update. case_decide; [|done]. done.
Qed.

Lemma AddMask_steps v r : state (AddMask v r) = state r.
Proof. unfold AddMask. by destruct (_ <=? _)%nat. Qed.

Lemma log_line_result `{UnicodeTables} now line st i :
  step_result (log_line now line st).2 i = step_result st.2 i /\
  length (Reporter.Steps (state (log_line now line st).2)) = length (Reporter.Steps (state st.2)).
Proof.
  destruct st as [[p|] r]; simpl; [|apply AddLog_result].
  destruct (ProcessLine _ p r) as [[out p'] r'] eqn:Hp. apply ProcessLine_effect in Hp as (_ & Hr & _).
  assert (state r' = state r) as Hst by (destruct Hr as [->|[v ->]]; [done|apply AddMask_steps]).
  simpl. destruct out as [l|].
  - destruct (AddLog_result now l r' i) as [-> ->]. unfold step_result. by rewrite Hst.
  - unfold step_result. by rewrite Hst.
Qed.

Section end_to_end.
Context `{UnicodeTables} `{StateEventCodecLaws}.

Definition state_items (its : list stream_item) : list gostring :=
  omap (fun it => match it with StateItem l => Some l | LogItem _ => None end) its.

Lemma trim_right_line l :
  nl ∉ l -> has_suffix l [cr] = false -> trim_right is_eol (l ++ [nl]) = l.
Proof.
  intros Hn Hc. unfold trim_right. rewrite reverse_snoc. simpl.
  rewrite trim_left_id; [apply reverse_involutive|].
  destruct (reverse l) as [|c t] eqn:Hr; [done|].
  assert (l = reverse t ++ [c]) as Hl.
  { rewrite <-(reverse_involutive l), Hr. by rewrite reverse_cons. }
  apply bool_decide_eq_false. intros [->| ->].
  - apply Hn. rewrite Hl. apply elem_of_app. right. left.
  - assert (has_suffix l [cr] = true) by (apply has_suffix_spec; by exists (reverse t)).
    congruence.
Qed.

Lemma routeStateEvent_same now ev ev' r :
  same_event ev ev' -> routeStateEvent now ev' r = routeStateEvent now ev r.
Proof. intros (He & Hs & Hc). unfold routeStateEvent. by rewrite He, Hs, Hc. Qed.

Definition routed (ev : StateEvent) : Prop := Event ev ∈ event_kinds /\ fits ev.

Lemma state_line_event now ev r :
  routed ev -> state_line now (marshal ev ++ [nl]) r = routeStateEvent now ev r.
Proof.
  intros [Hk Hf]. destruct (marshal_line ev) as (Hne & Hn & Hc). unfold state_line.
  rewrite trim_right_line by done. rewrite decide_False by done.
  destruct (unmarshal_marshal ev Hk Hf) as (ev' & -> & Hs). by apply routeStateEvent_same.
Qed.

Lemma run_items_result clock n its st evs i :
  state_items its = map (fun ev => marshal ev ++ [nl]) evs -> Forall routed evs ->
  (i < length (Reporter.Steps (state st.2)))%nat ->
  step_result (run_items clock n its st).2 i = result_of evs i <$> step_result st.2 i /\
  length (Reporter.Steps (state (run_items clock n its st).2)) = length (Reporter.Steps (state st.2)).
Proof.
  revert n st evs. induction its as [|[l|l] its IH]; intros n st evs Hev Hro Hi; cbn [run_items].
  - destruct evs; [|done]. split; [|done]. by destruct (step_result st.2 i).
  - destruct (log_line_result (clock n) l st i) as [Hr Hl].
    destruct (IH (S n) (run_item (clock n) (LogItem l) st) evs) as [-> ->]; simpl; [done|done|lia|].
    by rewrite Hr.
  - destruct evs as [|ev evs]; [done|]. injection Hev as -> Hev.
    apply Forall_cons in Hro as [Hr1 Hro].
    assert (state_line (clock n) (marshal ev ++ [nl]) st.2 = routeStateEvent (clock n) ev st.2)
      as Hsl by by apply state_line_event.
    destruct (IH (S n) (run_item (clock n) (StateItem (marshal ev ++ [nl])) st) evs) as [-> ->];
      simpl; rewrite ?Hsl, ?steps_length; [done..|].
    rewrite routeStateEvent_result by done. split; [|done].
    by destruct (step_result st.2 i).
Qed.

(** The events of a run, read as step results. *)
Lemma event_result_other i acc ev : Step ev <> Z.of_nat i -> event_result i acc ev = acc.
Proof. intros Hne. unfold event_result. by rewrite decide_False. Qed.

Definition outcome_result (acc : Result) (o : option (option Z)) : Result :=
  match o with
  | None => acc
  | Some None => RESULT_SKIPPED
  | Some (Some code) => if decide (code <> 0) then RESULT_FAILURE else RESULT_SUCCESS
  end.

Lemma result_of_app evs1 evs2 i acc :
  result_of (evs1 ++ evs2) i acc = result_of evs2 i (result_of evs1 i acc).
Proof. apply foldl_app. Qed.

Lemma blocks_result i k steps os acc :
  (length os <= length steps)%nat ->
  result_of (blocks k steps os) i acc =
    outcome_result acc (if decide (k <= i)%nat then os !! (i - k)%nat else None).
Proof.
  revert k os acc. induction steps as [|step steps IH]; intros k [|o os] acc Hlen;
    cbn [blocks length] in *; try lia; try (by case_decide).
  rewrite result_of_app, IH by lia. destruct (decide (k = i)) as [->|Hne].
  - rewrite decide_False by lia. rewrite decide_True by lia. rewrite Nat.sub_diag.
    destruct o as [code|]; simpl; unfold event_result; simpl; by rewrite !decide_True by done.
  - assert (result_of (block k step o) i acc = acc) as ->.
    { unfold result_of. destruct o; simpl; by rewrite !event_result_other by (simpl; lia). }
    destruct (decide (S k <= i)%nat).
    + rewrite decide_True by lia. by replace (i - k)%nat with (S (i - S k))%nat by lia.
    + by rewrite decide_False by lia.
Qed.

Lemma blocks_kinds k steps os : Forall (fun ev => Event ev ∈ event_kinds) (blocks k steps os).
Proof.
  revert k os. induction steps as [|step steps IH]; intros k [|o os]; cbn [blocks]; try constructor.
  apply Forall_app. split; [|apply IH].
  destruct o; repeat constructor; decide_now.
Qed.

Lemma events_routed os tail steps evs :
  evs = blocks 0 steps os ++ tail ->
  (tail = [] \/ exists step, tail = [start_event (length os) step]) ->
  Forall fits evs -> Forall routed evs.
Proof.
  intros -> Ht Hf. apply Forall_and. split; [|done]. apply Forall_app.
  split; [apply blocks_kinds|]. destruct Ht as [->|(step & ->)]; [constructor|].
  repeat constructor; decide_now.
Qed.

(** What the forge is told about a step once the reporter closes. *)
Definition closed_result (jobResult : Result) (o : option (option Z)) : Result :=
  match o with
  | None => if decide (jobResult = RESULT_SKIPPED) then RESULT_SKIPPED else RESULT_CANCELLED
  | _ => outcome_result RESULT_UNSPECIFIED o
  end.

Lemma close_prepare_result now jr r i :
  step_result (close_prepare now jr r) i =
    (fun x => if decide (x = RESULT_UNSPECIFIED)
              then if decide (jr = RESULT_SKIPPED) then RESULT_SKIPPED else RESULT_CANCELLED
              else x) <$> step_result r i.
Proof.
  unfold step_result, close_prepare. simpl. rewrite list_lookup_fmap.
  destruct (Reporter.Steps (state r) !! i) as [st|]; [|done]. simpl. unfold close_step.
  by case_decide.
Qed.

Lemma New_step_result id n i : (i < n)%nat -> step_result (New id n) i = Some RESULT_UNSPECIFIED.
Proof.
  intros Hi. unfold step_result. simpl. rewrite list_lookup_fmap.
  by rewrite lookup_seq_lt.
Qed.

Context {W C E : Type} `{StepRunner W} `{StepEvaluator C E}.

(** Step results, end to end.  Whatever the runner does with a manifest,
    and however its log lines and its state events interleave on their way to
    a fresh reporter, the final report gives each step that was skipped
    SKIPPED, each that exited with code zero SUCCESS, each that exited with
    another code FAILURE, and each that did not complete CANCELLED (SKIPPED
    when the job is); and when the runner succeeded, every step completed and
    only steps with continue-on-error are FAILURE. *)
Lemma report_of_run environ workDir (m : Manifest C) w res rs s
    clock its id proc secrets now jr :
  runEntrypoint environ workDir m w = (res, rs, s) ->
  state_items its = map (fun ev => marshal ev ++ [nl]) (events s) -> Forall fits (events s) ->
  let r0 := SetSecrets secrets (New id (length (Steps m))) in
  let r := close_prepare now jr (run_items clock 0 its (proc, r0)).2 in
  exists os, (length os <= length (Steps m))%nat /\
    (forall i, (i < length (Steps m))%nat ->
       step_result r i = Some (closed_result jr (os !! i))) /\
    (res = Some true -> length os = length (Steps m) /\ any_hard (Steps m) os = false) /\
    exists tail, events s = blocks 0 (Steps m) os ++ tail /\ (length tail <= 1)%nat.
Proof.
  intros Hrun Hits Hfits r0 r.
  destruct (run_events_shape environ workDir m w res rs s Hrun)
    as (os & tail & Hev & Hlen & Htail & Hok).
  exists os. split; [done|]. split; [|split; [done|]].
  - intros i Hi. subst r. rewrite close_prepare_result.
    assert (step_result r0 i = Some RESULT_UNSPECIFIED) as Hr0 by by apply New_step_result.
    destruct (run_items_result clock 0 its (proc, r0) (events s) i) as [-> _];
      [done|by eapply events_routed|simpl; by rewrite length_map, length_seq|].
    simpl. rewrite Hr0. simpl. f_equal.
    rewrite Hev, result_of_app, blocks_result by done.
    destruct (decide (0 <= i)%nat) as [_|]; [|lia].
    rewrite Nat.sub_0_r.
    assert (forall acc, result_of tail i acc = acc) as Ht.
    { intros acc. destruct Htail as [->|(step & ->)]; [done|].
      unfold result_of. simpl. unfold event_result. simpl. by case_decide. }
    rewrite Ht. destruct (os !! i) as [[code|]|]; simpl; [|done|done].
    unfold closed_result, outcome_result. by repeat case_decide.
  - exists tail. split; [done|]. destruct Htail as [->|(step & ->)]; [apply Nat.le_0_l|apply Nat.le_refl].
Qed.
End end_to_end.

(** A codec for concrete runs: a letter for the kind, the step and the exit
    code. *)
Definition kind_code (e : gostring) : ascii :=
  if decide (e = "start") then "s" else if decide (e = "end") then "e"
  else if decide (e = "skip") then "k" else "x".

Definition kind_of (c : ascii) : gostring :=
  if decide (c = "s"%char) then "start" else if decide (c = "e"%char) then "end"
  else if decide (c = "k"%char) then "skip" else [c].

Definition comma : ascii := chr 44.

Definition plain_codec : StateEventCodec := {|
  marshal ev := kind_code (Event ev) :: itoa (Step ev) ++ comma :: itoa (ExitCode ev) ++ "}";
  unmarshal l :=
    match l with
    | [] => None
    | c :: l =>
        '(a, b) ← cut comma l;
        i ← parse_int 64 a;
        code ← parse_int 64 (trim_suffix b "}");
        Some {| Event := kind_of c; Step := i; EvName := []; ExitCode := code |}
    end;
|}.

#[export] Instance plain_codec_laws : StateEventCodecLaws plain_codec.
Proof.
  split.
  - intros ev. cbn [marshal plain_codec]. split; [done|]. split.
    + apply not_elem_of_cons. split; [unfold kind_code; by repeat case_decide|].
      apply not_elem_of_app. split; [by apply itoa_no; [|left]|].
      apply not_elem_of_cons. split; [done|]. apply not_elem_of_app.
      split; [by apply itoa_no; [|left]|decide_now].
    + destruct (has_suffix _ _) eqn:Hs; [|done]. apply has_suffix_spec in Hs as [r Hr].
      rewrite app_comm_cons, app_comm_cons, !app_assoc in Hr.
      by apply app_inj_tail in Hr as [_ ?].
  - intros [e i n code] Hk [Hi Hc]. cbn [marshal unmarshal plain_codec Event Step ExitCode] in *.
    rewrite (proj2 (cut_Some comma _ (itoa i) (itoa code ++ "}"))).
    2: { split; [done|]. by apply itoa_no; [|left]. }
    cbn [mbind option_bind]. unfold trim_suffix. rewrite (proj2 (has_suffix_spec _ _)) by eauto.
    rewrite length_app, Nat.add_sub, take_app_length.
    rewrite !parse_int_itoa by (unfold in_int64, int64_min, int64_max in *; simpl in *; lia).
    eexists. split; [done|]. unfold same_event. simpl. split; [|done].
    unfold event_kinds in Hk. repeat (apply elem_of_cons in Hk as [->|Hk]; [done|]).
    by apply elem_of_nil in Hk.
Qed.

Definition sample_items : list stream_item :=
  map (fun ev => StateItem (@marshal plain_codec ev ++ [nl])) (take 3 (events sample_result.2)) ++
  [LogItem "hello"] ++
  map (fun ev => StateItem (@marshal plain_codec ev ++ [nl])) (drop 3 (events sample_result.2)).

Definition sample_report : Reporter :=
  close_prepare 9 RESULT_FAILURE
    (@run_items ascii_tables plain_codec (fun _ => 5) 0 sample_items
       (None, SetSecrets [] (New 7 4))).2.

Example sample_report_results :
  map (step_result sample_report) [0; 1; 2; 3]%nat =
    [Some RESULT_FAILURE; Some RESULT_FAILURE; Some RESULT_SKIPPED; Some RESULT_SUCCESS].
Proof. vm_compute. reflexivity. Qed.

(** A sidecar that ended well does not make up for a runner that did not. *)
Lemma watch_result_witness :
  let exited name code :=
    {| csName := name; csRunning := false; csWaiting := None;
       csTerminated := Some {| tExitCode := code; tReason := "Completed"; tMessage := [] |};
       csLastTerminated := None |} in
  let pod code := {| podName := "p"; podPhase := "Running"; podReason := []; initStatuses := [];
                     statuses := [exited "redis" 0; exited "runner" code] |} in
  let sc code := {| pod_polls := [(Some [], PollAgain); (Some ["p" : gostring], PollAgain)];
               run_polls := [(GotPod (pod code), PollAgain)]; items := [LogItem "hi"];
               term_polls := [(GetFailed, PollAgain); (GotPod (pod code), PollAgain)];
               final_get := GotPod (pod code); pod_logs := fun _ => None |} in
  runner_exited 0 (final_get (sc 0)) /\ runner_exited 1 (final_get (sc 1)) /\
  ~ exists st', @watchJobWith ascii_tables plain_codec (fun _ => 1) (sc 1) (None, New 7 1) =
                Some (RESULT_SUCCESS, None, st').
Proof.
  intros exited pod sc.
  assert (forall code, runner_exited code (final_get (sc code))) as Hx.
  { intros code. exists (pod code). split; [reflexivity|].
    exists [exited ("redis" : gostring) 0], (exited ("runner" : gostring) code), [].
    split; [reflexivity|]. split; [reflexivity|]. split; [eexists; split; reflexivity|].
    constructor; [discriminate|constructor]. }
  split; [apply Hx|]. split; [apply Hx|].
  destruct (@watch_result ascii_tables plain_codec (fun _ => 1) (sc 1) (None, New 7 1))
    as (_ & [_ Hf] & _).
  intros [st' Hs].
  assert (exists st', @watchJobWith ascii_tables plain_codec (fun _ => 1) (sc 1) (None, New 7 1) =
            Some (RESULT_FAILURE, None, st')) as [st'' Hs'].
  { apply Hf. split; [|exists 1; split; [discriminate|apply Hx]].
    split; [|split].
    - apply waitForPod_spec. eexists. reflexivity.
    - apply (running_spec (fun _ => None)). reflexivity.
    - apply terminated_spec. reflexivity. }
  congruence.
Defined.

(** ** Masking commands in the log stream *)

Section masking.
Context `{UnicodeTables}.
Context (v : gostring) (Hne : v <> []) (Hstar : star ∉ v).




End masking.



(** ** Failure diagnosis *)

(** A container that ended with a non-zero code, now or in its last run. *)
Definition failed_container (cs : ContainerStatus) : Prop := failing_in cs <> None.

Lemma pick_failing_spec l :
  match pick_failing l with
  | Some f => exists l1 cs l2, l = l1 ++ cs :: l2 /\ failing_in cs = Some f /\
                Forall (fun c => failing_in c = None) l1
  | None => Forall (fun c => failing_in c = None) l
  end.
Proof.
  induction l as [|cs l IH]; simpl; [constructor|].
  destruct (failing_in cs) as [f|] eqn:Hf; [by exists [], cs, l|].
  destruct (pick_failing l) as [f|]; [|by constructor].
  destruct IH as (l1 & c & l2 & -> & ? & ?). exists (cs :: l1), c, l2. by repeat constructor.
Qed.

Lemma failing_in_Some cs name t :
  failing_in cs = Some (name, t) ->
  name = csName cs /\ tExitCode t <> 0 /\
  (csTerminated cs = Some t \/ csLastTerminated cs = Some t).
Proof. unfold failing_in. intros Hf. split_matches; eauto. Qed.

(** The container blamed for a failed pod.  It really ended with a
    non-zero exit code, it is the first such one, init containers before the
    main ones; and none is blamed only when no container has failed. *)
Theorem failing_container_first p :
  match findFailingContainer p with
  | Some (name, t, kind) =>
      exists cs before, csName cs = name /\ tExitCode t <> 0 /\
        (csTerminated cs = Some t \/ csLastTerminated cs = Some t) /\
        Forall (fun c => failing_in c = None) before /\
        (kind = "init" /\ (exists rest, initStatuses p = before ++ cs :: rest) \/
         kind = "main" /\ (exists rest, initStatuses p ++ statuses p = before ++ cs :: rest))
  | None => Forall (fun c => failing_in c = None) (initStatuses p ++ statuses p)
  end.
Proof.
  unfold findFailingContainer. pose proof (pick_failing_spec (initStatuses p)) as Hi.
  destruct (pick_failing (initStatuses p)) as [[name t]|].
  - destruct Hi as (l1 & cs & l2 & -> & (-> & ? & ?)%failing_in_Some & ?).
    exists cs, l1. split; [done|]. split; [done|]. split; [done|]. split; [done|]. left. eauto.
  - pose proof (pick_failing_spec (statuses p)) as Hm.
    destruct (pick_failing (statuses p)) as [[name t]|]; [|by apply Forall_app].
    destruct Hm as (l1 & cs & l2 & -> & (-> & ? & ?)%failing_in_Some & ?).
    exists cs, (initStatuses p ++ l1). split; [done|]. split; [done|]. split; [done|].
    split; [by apply Forall_app|]. right. split; [done|]. exists l2. by rewrite <-app_assoc.
Qed.
