(* ===== verification/Tail.v ===== *)
(** * Following the state file ([cmd/entrypoint/tail.go])

    The argument parser of [entrypoint tail] and [runTail].  A file that grows
    is the list of the pieces the reader gets between one end of file and the
    next. *)
From Stdlib Require Import Ascii.
From S2P Require Import Prelude GoStrings Envfile.
#[local] Open Scope Z_scope.
#[local] Open Scope go_scope.

Record tailArgs := { path : gostring; once : bool; skip : Z }.

#[export] Instance tail_args_eq_dec : EqDecision tailArgs.
Proof. solve_decision. Defined.

Inductive tail_error :=
  | SkipNeedsValue | SkipNotNumber | SkipNegative | UnknownFlag (a : gostring)
  | UnexpectedArgument (a : gostring) | MissingPath.

Fixpoint parse_args (argv : list gostring) (args : tailArgs) : result tail_error tailArgs :=
  match argv with
  | [] => if decide (path args = []) then Err MissingPath else Ok args
  | a :: argv =>
      if decide (a = "--once") then
        parse_args argv {| path := path args; once := true; skip := skip args |}
      else if decide (a = "--skip") then
        match argv with
        | [] => Err SkipNeedsValue
        | v :: argv =>
            match parse_int 64 v with
            | None => Err SkipNotNumber
            | Some n => if n <? 0 then Err SkipNegative
                        else parse_args argv {| path := path args; once := once args; skip := n |}
            end
        end
      else if (2 <? length a)%nat && has_prefix a "--" then Err (UnknownFlag a)
      else if decide (path args <> []) then Err (UnexpectedArgument a)
      else parse_args argv {| path := a; once := once args; skip := skip args |}
  end.

Definition parseTailArgs (argv : list gostring) : result tail_error tailArgs :=
  parse_args argv {| path := []; once := false; skip := 0 |}.

(** ** [runTail] *)

Record tail_state := { skipped : Z; pending : gostring; out : gostring }.

(** One terminated line, with the pending bytes before it. *)
Definition tail_line (args : tailArgs) (line : gostring) (s : tail_state) : tail_state :=
  let full := if (0 <? length (pending s))%nat then pending s ++ line else line in
  if skipped s <? skip args
  then {| skipped := skipped s + 1; pending := []; out := out s |}
  else {| skipped := skipped s; pending := []; out := out s ++ full |}.

(** Everything up to the next end of file; the partial line is carried over. *)
Definition tail_chunk (args : tailArgs) (chunk : gostring) (s : tail_state) : tail_state :=
  let '(ls, rest) := raw_lines chunk in
  let s := foldl (fun s l => tail_line args (l ++ [nl]) s) s ls in
  {| skipped := skipped s; pending := pending s ++ rest; out := out s |}.

(** With [--once] the first end of file ends the run; otherwise it follows the
    file until it is cancelled, here after the given pieces. *)
Definition runTail (args : tailArgs) (chunks : list gostring) : gostring :=
  let s0 := {| skipped := 0; pending := []; out := [] |} in
  if once args
  then out (tail_chunk args (default [] (head chunks)) s0)
  else out (foldl (fun s c => tail_chunk args c s) s0 chunks).

(** ** Lemmas *)

Definition terminated (ls : list gostring) : gostring := concat (map (fun l => l ++ [nl]) ls).

Lemma raw_lines_spec data ls rest :
  raw_lines data = (ls, rest) <->
  data = terminated ls ++ rest /\ Forall (fun l => nl ∉ l) ls /\ (nl ∉ rest).
Proof.
  unfold raw_lines, terminated. split.
  - intros [= Hls Hrest].
    assert (split nl data = ls ++ [rest]) as Hs.
    { rewrite <-Hls, <-Hrest. apply app_removelast_last, split_nonempty. }
    pose proof (split_no_sep nl data) as Hn. rewrite Hs in Hn.
    apply Forall_snoc in Hn as [Hn1 Hn2]. split; [|done].
    rewrite <-(join_split nl data), Hs. clear. induction ls as [|l ls IH]; [done|].
    change ((l :: ls) ++ [rest]) with (l :: (ls ++ [rest])).
    rewrite join_byte by (by destruct ls). rewrite IH. simpl. by rewrite <-!app_assoc.
  - intros (-> & Hls & Hr).
    assert (split nl (concat (map (fun l => l ++ [nl]) ls) ++ rest) = ls ++ [rest]) as ->.
    { induction ls as [|l ls IH]; [by apply split_nosep|]. apply Forall_cons in Hls as [Hl Hls].
      simpl. rewrite <-!app_assoc. simpl. rewrite split_cons by done. by rewrite IH. }
    by rewrite removelast_last, last_last.
Qed.

Lemma terminated_app ls1 ls2 : terminated (ls1 ++ ls2) = terminated ls1 ++ terminated ls2.
Proof. unfold terminated. by rewrite map_app, concat_app. Qed.

(** The lines of two pieces: the rest of the first completes the first line of
    the second. *)
Definition join_lines (p1 p2 : list gostring * gostring) : list gostring * gostring :=
  match p2 with
  | ([], rest) => (p1.1, p1.2 ++ rest)
  | (l :: ls, rest) => (p1.1 ++ (p1.2 ++ l) :: ls, rest)
  end.

Lemma raw_lines_app a b : raw_lines (a ++ b) = join_lines (raw_lines a) (raw_lines b).
Proof.
  destruct (raw_lines a) as [ls1 r1] eqn:Ha, (raw_lines b) as [ls2 r2] eqn:Hb.
  apply raw_lines_spec in Ha as (-> & Hl1 & Hr1), Hb as (-> & Hl2 & Hr2).
  destruct ls2 as [|l ls2]; cbn [join_lines fst snd]; apply raw_lines_spec.
  - split; [by rewrite <-app_assoc|]. split; [done|]. by apply not_elem_of_app.
  - apply Forall_cons in Hl2 as [Hl Hl2]. split; [|split; [|done]].
    + rewrite terminated_app. unfold terminated. simpl. by rewrite <-!app_assoc.
    + apply Forall_app. split; [done|]. apply Forall_cons. split; [|done].
      by apply not_elem_of_app.
Qed.

(** The state of a run that has read the lines [ls] and the partial line
    [rest]. *)
Definition tail_inv (args : tailArgs) (p : list gostring * gostring) (s : tail_state) : Prop :=
  skipped s = Z.min (skip args) (Z.of_nat (length p.1)) /\ pending s = p.2 /\
  out s = terminated (drop (Z.to_nat (skip args)) p.1).

Lemma tail_line_inv args ls rest l s :
  0 <= skip args -> tail_inv args (ls, rest) s ->
  tail_inv args (ls ++ [rest ++ l], []) (tail_line args (l ++ [nl]) s).
Proof.
  intros Hsk (Hs & Hp & Ho). unfold tail_inv, tail_line in *. simpl in *.
  rewrite length_app. simpl. rewrite Hp.
  assert ((if (0 <? length rest)%nat then rest ++ l ++ [nl] else l ++ [nl]) =
          (rest ++ l) ++ [nl]) as ->.
  { destruct rest; simpl; [done|]. by rewrite <-app_assoc. }
  destruct (skipped s <? skip args) eqn:Hlt; reflect_bools; simpl.
  - split; [lia|]. split; [done|]. rewrite Ho. rewrite !drop_ge; [done|..];
      rewrite ?length_app; simpl; lia.
  - split; [lia|]. split; [done|]. rewrite Ho, drop_app_le by lia.
    rewrite terminated_app. unfold terminated at 3. simpl. by rewrite app_nil_r.
Qed.

Lemma tail_lines_inv args ls0 ls s :
  0 <= skip args -> tail_inv args (ls0, []) s ->
  tail_inv args (ls0 ++ ls, []) (foldl (fun s l => tail_line args (l ++ [nl]) s) s ls).
Proof.
  intros Hsk. revert ls0 s. induction ls as [|l ls IH]; intros ls0 s Hi; simpl.
  - by rewrite app_nil_r.
  - apply (tail_line_inv args ls0 [] l) in Hi; [|done]. simpl in Hi.
    apply IH in Hi. by rewrite <-app_assoc in Hi.
Qed.

Lemma tail_chunk_inv args p chunk s :
  0 <= skip args -> tail_inv args p s ->
  tail_inv args (join_lines p (raw_lines chunk)) (tail_chunk args chunk s).
Proof.
  intros Hsk Hi. destruct p as [ls0 r0]. unfold tail_chunk.
  destruct (raw_lines chunk) as [[|l ls] rest]; cbn [join_lines fst snd].
  - destruct Hi as (? & ? & ?). unfold tail_inv. simpl in *. split; [done|]. split; [congruence|done].
  - simpl foldl. apply (tail_line_inv args ls0 r0 l) in Hi; [|done].
    apply (tail_lines_inv args _ ls) in Hi; [|done]. rewrite <-app_assoc in Hi.
    destruct Hi as (? & Hp & ?). unfold tail_inv. simpl in *. split; [done|].
    split; [by rewrite Hp|done].
Qed.

Lemma tail_chunks_inv args data chunks s :
  0 <= skip args -> tail_inv args (raw_lines data) s ->
  tail_inv args (raw_lines (data ++ concat chunks)) (foldl (fun s c => tail_chunk args c s) s chunks).
Proof.
  intros Hsk. revert data s. induction chunks as [|c chunks IH]; intros data s Hi; simpl.
  - by rewrite app_nil_r.
  - rewrite app_assoc. apply IH. rewrite raw_lines_app. by apply tail_chunk_inv.
Qed.

Lemma tail_start args : 0 <= skip args -> tail_inv args (raw_lines []) {| skipped := 0; pending := []; out := [] |}.
Proof. intros Hsk. unfold tail_inv. simpl. rewrite drop_nil. split; [lia|done]. Qed.

Lemma tail_follow args chunks :
  0 <= skip args -> once args = false ->
  runTail args chunks = terminated (drop (Z.to_nat (skip args)) (raw_lines (concat chunks)).1).
Proof.
  intros Hsk Ho. unfold runTail. rewrite Ho.
  apply (tail_chunks_inv args [] chunks _ Hsk (tail_start args Hsk)).
Qed.

(** C31: the tail is independent of timing.  However the file's bytes arrive
    between the reader's ends of file, even inside a line, a following tail
    has written exactly the complete lines of what arrived, without the first
    [skip] ones, each once and in order; nothing of a partial line.  With
    [--once] it writes those of the first piece. *)
Theorem tail_complete_lines args chunks :
  0 <= skip args ->
  runTail args chunks =
    terminated (drop (Z.to_nat (skip args))
      (raw_lines (if once args then default [] (head chunks) else concat chunks)).1).
Proof.
  intros Hsk. destruct (once args) eqn:Ho; [|by apply tail_follow]. unfold runTail. rewrite Ho.
  pose proof (tail_chunks_inv args [] [default [] (head chunks)] _ Hsk (tail_start args Hsk)) as (_ & _ & Hout).
  simpl in Hout. rewrite app_nil_r in Hout. exact Hout.
Qed.

Lemma tail_complete_lines_witness :
  let args := {| path := "f"; once := false; skip := 1 |} in
  let chunks := ["a" ++ [nl] ++ "b"; "c"; [nl] ++ "d" ++ [nl] ++ "e"] in
  runTail args chunks = "bc" ++ [nl] ++ "d" ++ [nl] /\
  runTail args chunks = terminated (drop 1 (raw_lines (concat chunks)).1).
Proof.
  intros args chunks. split; [vm_compute; reflexivity|].
  apply (tail_complete_lines args chunks). discriminate.
Defined.

(** ** Arguments *)

Definition show_args (a : tailArgs) : list gostring :=
  (if once a then ["--once" : gostring] else []) ++ ["--skip" : gostring; itoa (skip a); path a].

(** Every valid request can be written on the command line and is read
    back: any non-negative skip count of Go's int, and any path that does not
    look like a flag. *)
Theorem tail_args_roundtrip a :
  0 <= skip a <= int64_max -> path a <> [] -> has_prefix (path a) "--" = false ->
  parseTailArgs (show_args a) = Ok a.
Proof.
  intros Hs Hp Hf. destruct a as [p o n]. simpl in *.
  assert (forall o', parse_args ["--skip"; itoa n; p] {| path := []; once := o'; skip := 0 |} =
                     Ok {| path := p; once := o'; skip := n |}) as Hrest.
  { intros o'. cbn [parse_args]. rewrite decide_False, decide_True by done.
    rewrite parse_int_itoa by (unfold int64_max in Hs; simpl; lia).
    rewrite (proj2 (Z.ltb_ge _ _)) by lia.
    rewrite decide_False by (by intros ->). rewrite decide_False by (by intros ->).
    rewrite Hf, andb_false_r. simpl. rewrite decide_False by tauto. simpl.
    done. }
  unfold parseTailArgs, show_args. simpl. destruct o; cbn [app].
  - cbn [parse_args]. rewrite decide_True by done. apply Hrest.
  - apply Hrest.
Qed.

Lemma tail_args_roundtrip_witness :
  parseTailArgs ["--once"; "--skip"; "12"; "/shim/state.jsonl"] =
    Ok {| path := "/shim/state.jsonl"; once := true; skip := 12 |}.
Proof.
  apply (tail_args_roundtrip {| path := "/shim/state.jsonl"; once := true; skip := 12 |});
    [unfold int64_max; simpl; lia|discriminate|reflexivity].
Defined.
