(* ===== verification/Pod.v ===== *)
(** * The pod of a job, end to end

    What the controller puts into a job's pod is what the entrypoint does
    there, and what the entrypoint does is what the controller reports: the
    dispatch of the entrypoint's [main] ([cmd/entrypoint/main.go]) and the
    reading of its manifest ([manifest.go]), on the containers of [Builder], with
    the runner of [Entrypoint], the sidecar of [Tail] and the streams of
    [Watcher]. *)
From Stdlib Require Import Ascii.
From S2P Require Import Prelude GoStrings K8sNames Reporter Commands Envfile Entrypoint Expressions Loader.
From S2P Require Import Builder Watcher Tail.
#[local] Open Scope Z_scope.
#[local] Open Scope go_scope.

Definition shimDir : gostring := "/shim".
Definition actionsDir : gostring := "/actions".

(** ** [main] of the entrypoint *)

Inductive command :=
  | Usage
  | CmdSetup (manifestPath : gostring)
  | CmdRun (manifestPath : gostring)
  | CmdTail (args : result tail_error tailArgs).

Definition dispatch (argv : list gostring) : command :=
  match argv with
  | _ :: name :: rest =>
      if decide (name = "setup") then match rest with path :: _ => CmdSetup path | [] => Usage end
      else if decide (name = "run") then match rest with path :: _ => CmdRun path | [] => Usage end
      else if decide (name = "tail") then CmdTail (parseTailArgs rest)
      else Usage
  | _ => Usage
  end.

(** ** The shell of setup-shim *)

Definition space : ascii := chr 32.
Definition apostrophe : ascii := chr 39.

(** The last command of a line, if it is a [cat] into a file from a
    here-document with a quoted delimiter. *)
Definition cat_redirect (line : gostring) : option (gostring * gostring) :=
  match reverse (split space line) with
  | quoted :: op :: file :: gt :: cmd :: _ =>
      if decide (op = "<<" /\ gt = ">" /\ cmd = "cat") then
        match quoted with
        | q :: d => if decide (q = apostrophe /\ last d = Some apostrophe)
                    then Some (file, removelast d) else None
        | [] => None
        end
      else None
  | _ => None
  end.

(** The file a command writes through a here-document on its first line, what
    it writes, and the lines that follow. *)
Definition here_document (command : gostring) : option (gostring * gostring * list gostring) :=
  match split nl command with
  | first :: rest =>
      '(file, delimiter) ← cat_redirect first;
      '(body, after) ← here_lines delimiter rest;
      Some (file, terminated body, after)
  | [] => None
  end.

(** The arguments of an [exec]. *)
Definition exec_argv (line : gostring) : option (list gostring) :=
  match split space line with
  | w :: argv => if decide (w = "exec") then Some argv else None
  | [] => None
  end.

(** ** Running the manifest *)

Section pod.
Context `{UnicodeTables} `{StateEventCodecLaws}.
Context {W E : Type} `{StepRunner W} `{StepEvaluator EvalContext E}.
(** [encoding/json] on manifests. *)
Context (marshal_manifest : full_manifest -> option gostring)
        (unmarshal_manifest : gostring -> option full_manifest).

Definition loadManifest (files : gmap gostring gostring) (path : gostring) : option full_manifest :=
  files !! path ≫= unmarshal_manifest.

Definition exit_status (res : option bool) : Z := match res with Some true => 0 | _ => 1 end.

(** [entrypoint run]: the exit status and the events written; without a
    manifest or a state file nothing is run. *)
Definition run_command (files : gmap gostring gostring) (state_opens : bool) (environ : list gostring)
    (path : gostring) (w : W) : Z * list StateEvent * W :=
  match loadManifest files path with
  | None => (1, [], w)
  | Some m =>
      if negb state_opens then (1, [], w)
      else
        let '(res, _, s) := runEntrypoint environ shimDir m.1 w in
        (exit_status res, events s, lworld s)
  end.

(** *** The state file, through the sidecar *)

Definition agent_args : tailArgs := {| path := shimDir ++ "/state.jsonl"; once := false; skip := 0 |}.

Lemma read_strings_terminated ls :
  Forall (fun l => nl ∉ l) ls -> read_strings (terminated ls) = map (fun l => l ++ [nl]) ls.
Proof.
  intros Hls. unfold read_strings. unfold terminated. rewrite raw_lines_terminated by done.
  by rewrite decide_True, app_nil_r.
Qed.

(** However the file grows, the sidecar's output is its lines. *)
Lemma agent_lines evs chunks :
  concat chunks = state_file evs ->
  read_strings (runTail agent_args chunks) = map (fun ev => marshal ev ++ [nl]) evs.
Proof.
  intros Hc. assert (Forall (fun l => nl ∉ l) (map marshal evs)) as Hnl.
  { apply Forall_map, Forall_forall. intros ev _. apply marshal_line. }
  rewrite tail_follow, Hc by done.
  assert (state_file evs = terminated (map marshal evs)) as ->
    by (unfold state_file, terminated; by rewrite map_map).
  unfold terminated at 2. rewrite raw_lines_terminated by done. cbn [fst]. change (drop _ ?l) with l.
  rewrite read_strings_terminated by done. by rewrite map_map.
Qed.

(** *** The manifest, through the shell *)

Lemma cat_redirect_word pre d :
  (space ∉ d) ->
  reverse (split space pre) = ["<<"; "/shim/manifest.json"; ">"; "cat"] ++ drop 4 (reverse (split space pre)) ->
  cat_redirect (pre ++ space :: apostrophe :: d ++ [apostrophe]) = Some ("/shim/manifest.json" : gostring, d).
Proof.
  intros Hd Hpre. unfold cat_redirect. rewrite split_app_sep, (split_nosep _ (apostrophe :: _)).
  - rewrite reverse_snoc, Hpre. cbn [app]. rewrite decide_True by done.
    rewrite last_snoc, decide_True by done. by rewrite removelast_last.
  - rewrite elem_of_cons, elem_of_app, list_elem_of_singleton. intros [?|[?|?]]; done.
Qed.

Lemma setup_redirect d :
  (space ∉ d) -> cat_redirect (setup_line d) = Some ("/shim/manifest.json" : gostring, d).
Proof.
  intros Hd. rewrite <-(cat_redirect_word ("cp /entrypoint /shim/entrypoint && chmod +x /shim/entrypoint && " ++
    "touch /shim/state.jsonl && " ++ "cat > /shim/manifest.json <<") d Hd) by by vm_compute.
  done.
Qed.

Lemma delimiter_no_space bytes :
  Forall (fun b => 0 <= b < 256) bytes -> space ∉ "MANIFEST_" ++ hex bytes.
Proof.
  intros Hb. rewrite elem_of_app. intros [Hin|Hin]; [revert Hin; decide_now|].
  apply hex_chars in Hin; [|done]. change (code space) with 32 in Hin. lia.
Qed.

(** What the controller learns from the pod's exit status. *)
Lemma status_result pod code :
  runner_exit (statuses pod) = Some code ->
  (getContainerResult (GotPod pod)).1 = RESULT_SUCCESS <-> code = 0.
Proof. intros Hc. unfold getContainerResult. rewrite Hc. simpl. by case_decide. Qed.

Lemma exit_status_success res : exit_status res = 0 <-> res = Some true.
Proof. by destruct res as [[]|]. Qed.

(** Containers by name, as [BuildJob] declares them. *)
Definition container (j : Job) (name : gostring) (c : Container) : Prop :=
  c ∈ RunnerContainer j :: InitContainers j /\ cName c = name.

(** The commands of the pod are the ones its binary understands, on the same
    files. *)
Lemma pod_commands cfg bytes j json :
  BuildJob marshal_manifest cfg (Some bytes) = Ok j -> Forall (fun b => 0 <= b < 256) bytes ->
  marshal_manifest (buildManifest cfg) = Some json -> (nl ∉ json) -> head json = Some lbrace ->
  exists setup agent script file exec_line argv,
    container j "setup-shim" setup /\ container j "state-agent" agent /\ container j "runner" (RunnerContainer j) /\
    cCommand setup = ["/bin/sh"; "-c"] /\ cArgs setup = [script] /\
    here_document script = Some (file, json ++ [nl], [exec_line]) /\
    exec_argv exec_line = Some argv /\ dispatch argv = CmdSetup file /\
    dispatch (cCommand (RunnerContainer j)) = CmdRun file /\
    dispatch (cCommand agent) = CmdTail (Ok agent_args).
Proof.
  unfold BuildJob. intros Hj Hb Hjson Hnl Hhead. rewrite Hjson in Hj. injection Hj as <-.
  set (d := "MANIFEST_" ++ hex bytes). cbn [InitContainers RunnerContainer].
  exists (shim_container "setup-shim" (controller_image cfg) ["/bin/sh"; "-c"] [setupCmd d json] false
     [rw "shim" "/shim"; rw "actions" "/actions"]),
    (shim_container "state-agent" (controller_image cfg)
       ["/shim/entrypoint"; "tail"; "/shim/state.jsonl"] [] true [rw "shim" "/shim"]),
    (setupCmd d json), "/shim/manifest.json", "exec /shim/entrypoint setup /shim/manifest.json",
    ["/shim/entrypoint"; "setup"; "/shim/manifest.json"].
  unfold container. cbn [InitContainers RunnerContainer]. unfold build_init_containers. split_and!; try done.
  - rewrite elem_of_cons, !elem_of_app. right. right. right. left.
  - rewrite elem_of_cons, !elem_of_app. right. right. right. right. left.
  - left.
  - unfold here_document. rewrite setup_command_lines by (done || by apply delimiter_no_nl).
    rewrite setup_redirect by by apply delimiter_no_space. cbn [mbind option_bind].
    rewrite here_lines_manifest by done. cbn [mbind option_bind]. unfold terminated.
    cbn [map concat]. by rewrite app_nil_r.
Qed.

(** C1: from the controller's job to the controller's report.  In the job built
    for a task, the setup container's script writes the manifest to the file it
    then passes to the entrypoint's setup, the runner container runs the
    manifest in that file, and the sidecar tails the state file the runner
    writes.  Whatever the runner does with the steps, however the state file
    grows and its lines interleave with the log on their way to a fresh
    reporter, the closed report gives each step of the task that was skipped
    SKIPPED, each that exited with zero SUCCESS, each that exited with another
    code FAILURE, and each that did not complete CANCELLED; and the job is a
    success exactly when the runner exited with zero, and then every step
    completed and only steps with continue-on-error are FAILURE. *)
Theorem pod_reports cfg bytes j json :
  BuildJob marshal_manifest cfg (Some bytes) = Ok j -> Forall (fun b => 0 <= b < 256) bytes ->
  marshal_manifest (buildManifest cfg) = Some json -> (nl ∉ json) -> head json = Some lbrace ->
  unmarshal_manifest (json ++ [nl]) = Some (buildManifest cfg) ->
  exists setup agent script file line argv args,
    container j "setup-shim" setup /\ cArgs setup = [script] /\
    here_document script = Some (file, json ++ [nl], [line]) /\
    exec_argv line = Some argv /\ dispatch argv = CmdSetup file /\
    dispatch (cCommand (RunnerContainer j)) = CmdRun file /\
    container j "state-agent" agent /\ dispatch (cCommand agent) = CmdTail (Ok args) /\
    forall files environ w code evs w' chunks its clock id proc secrets now pod,
      files !! file = Some (json ++ [nl]) ->
      run_command files true environ file w = (code, evs, w') -> Forall fits evs ->
      concat chunks = state_file evs -> state_items its = read_strings (runTail args chunks) ->
      runner_exit (statuses pod) = Some code ->
      let jobResult := (getContainerResult (GotPod pod)).1 in
      let r0 := SetSecrets secrets (New id (length (cfgSteps cfg))) in
      let r := close_prepare now jobResult (run_items clock 0 its (proc, r0)).2 in
      exists os, (length os <= length (cfgSteps cfg))%nat /\
        (forall i, (i < length (cfgSteps cfg))%nat ->
           step_result r i = Some (closed_result jobResult (os !! i))) /\
        (jobResult = RESULT_SUCCESS <-> code = 0) /\
        (jobResult = RESULT_SUCCESS ->
           length os = length (cfgSteps cfg) /\ any_hard (map manifest_step (cfgSteps cfg)) os = false) /\
        exists tail, evs = blocks 0 (map manifest_step (cfgSteps cfg)) os ++ tail /\ (length tail <= 1)%nat.
Proof.
  intros Hj Hb Hjson Hnl Hhead Hdec.
  destruct (pod_commands cfg bytes j json Hj Hb Hjson Hnl Hhead)
    as (setup & agent & script & file & line & argv & Hs & Ha & _ & _ & Hargs & Hdoc & Hex & Hdis & Hrun & Htail).
  exists setup, agent, script, file, line, argv, agent_args. split_and!; try done.
  intros files environ w code evs w' chunks its clock id proc secrets now pod Hfile Hcmd Hfits Hch Hits Hcode
    jobResult r0 r.
  rewrite (agent_lines evs chunks Hch) in Hits. unfold run_command, loadManifest in Hcmd.
  rewrite Hfile in Hcmd. cbn [mbind option_bind] in Hcmd. rewrite Hdec in Hcmd. cbn [negb buildManifest fst] in Hcmd.
  set (m := {| Entrypoint.Steps := map manifest_step (cfgSteps cfg) |}) in Hcmd.
  destruct (runEntrypoint environ shimDir m w) as [[res rs] s] eqn:Hr. injection Hcmd as <- <- <-.
  pose proof (report_of_run environ shimDir m w res rs s clock its id proc secrets now jobResult Hr Hits Hfits)
    as (os & Hlen & Hsteps & Hok & Hevs).
  cbn [Entrypoint.Steps m] in Hlen, Hsteps, Hok, Hevs. rewrite length_map in *.
  exists os. split_and!; [done|done| |intros HS; apply Hok|done].
  - exact (status_result pod _ Hcode).
  - apply exit_status_success. by apply (status_result pod _ Hcode).
Qed.
End pod.

(** ** A concrete job, from its steps to its report *)

Definition pod_config : JobConfig := {|
  TaskID := 42; cfgRunID := "17"; Namespace := "ci"; cfgImage := "node:22"; ControllerImage := [];
  cfgSteps := [new_spec "build" "sh" "make" [] ∅; new_spec "test" "sh" "make test" [] ∅];
  cfgBaseEnv := ∅; Services := []; Timeout := 600; Actions := []; JobSecrets := [];
  cfgEvalContext := None; SnapshotPVCName := []; SnapshotPaths := [] |}.

Definition pod_decoder (s : gostring) : option full_manifest :=
  if decide (s = "{2}" ++ [nl]) then Some (buildManifest pod_config) else None.

#[local] Instance context_eval : StepEvaluator EvalContext bool := {|
  NewEvaluator _ := true; EvalCondition c e := Ok e; SetJobStatus st _ := bool_decide (st = "success");
  SetStepResult _ _ _ _ e := e |}.

(** The second step fails. *)
Definition pod_run : Z * list StateEvent * list Z :=
  @run_command _ _ scripted context_eval pod_decoder {["/shim/manifest.json" : gostring := "{2}" ++ [nl]]}
    true [] "/shim/manifest.json" [0; 3].

Definition pod_status : Pod := {|
  podName := "p"; podPhase := "Failed"; podReason := []; initStatuses := [];
  statuses := [{| csName := "runner"; csRunning := false; csWaiting := None;
                  csTerminated := Some {| tExitCode := 1; tReason := "Error"; tMessage := [] |};
                  csLastTerminated := None |}] |}.

Definition pod_items : list stream_item := map (fun ev => StateItem (@marshal plain_codec ev ++ [nl])) pod_run.1.2.

Definition pod_report : Reporter :=
  close_prepare 9 RESULT_FAILURE
    (@run_items ascii_tables plain_codec (fun _ => 5) 0 pod_items (None, SetSecrets [] (New 7 2))).2.

Lemma pod_reports_witness :
  map (step_result pod_report) [0; 1]%nat = [Some RESULT_SUCCESS; Some RESULT_FAILURE] /\
  exists os : list (option Z), forall i, (i < 2)%nat ->
    step_result pod_report i = Some (closed_result RESULT_FAILURE (os !! i)).
Proof.
  split; [vm_compute; reflexivity|].
  destruct (@BuildJob ascii_tables count_steps pod_config (Some [0; 171])) as [j|] eqn:Hj; [|discriminate].
  destruct (@pod_reports ascii_tables plain_codec plain_codec_laws _ _ scripted context_eval count_steps pod_decoder
    pod_config [0; 171] j "{2}" Hj)
    as (setup & agent & script & file & line & argv & args & _ & _ & _ & _ & _ & Hrun & [Hin Hname] & Hag & Hall).
  - repeat constructor; lia.
  - reflexivity.
  - decide_now.
  - reflexivity.
  - reflexivity.
  - injection Hj as <-. injection Hrun as <-.
    assert (args = agent_args) as ->.
    { revert Hag. clear - Hin Hname. cbn in Hin. repeat (apply elem_of_cons in Hin as [->|Hin]; [try discriminate Hname|]);
        [|by apply elem_of_nil in Hin]. by intros [= <-]. }
    destruct (Hall {["/shim/manifest.json" : gostring := "{2}" ++ [nl]]} [] [0; 3] pod_run.1.1 pod_run.1.2 pod_run.2
      [@state_file plain_codec pod_run.1.2] pod_items (fun _ => 5) 7 None [] 9 pod_status) as (os & _ & Hos & _).
    + vm_compute. reflexivity.
    + unfold pod_run. by destruct (run_command _ _ _ _ _ _) as [[??]?].
    + repeat constructor; vm_compute; discriminate.
    + simpl. by rewrite app_nil_r.
    + vm_compute. reflexivity.
    + vm_compute. reflexivity.
    + exists os. exact Hos.
Defined.
