(* ===== verification/Poller.v ===== *)
(** * The poll loop ([pkg/server/poller.go])

    One round of [fetchTask] and the backoff of [waitBackoff] as functions,
    [Run] with its handlers and [Shutdown] as a transition system over atomic
    actions: semaphore, counters, wait group, contexts and channels are moved
    one at a time, as the goroutines do. *)
From S2P Require Import Prelude GoStrings.
#[local] Open Scope Z_scope.

(** ** [fetchTask] *)

Record Task := { taskId : Z }.

#[export] Instance task_eq_dec : EqDecision Task.
Proof. solve_decision. Defined.

(** The request key is opaque: [gouuid.New] is a supply of keys. *)
Record workerState := {
  tasksVersion : Z;
  requestKey : nat;
  consecutiveEmpty : Z;
  consecutiveErrors : Z;
}.

Definition resetBackoff (s : workerState) : workerState :=
  {| tasksVersion := tasksVersion s; requestKey := requestKey s;
     consecutiveEmpty := 0; consecutiveErrors := 0 |}.

Record heartbeats := { lastPollNs : Z; lastSuccessfulFetchNs : Z }.

Inductive fetch_response :=
  | FetchOk (version : Z) (task : option Task)
  | FetchDeadline
  | FetchError.

(** The heartbeats advance only while the polling context is live. *)
Definition beat (cancelled : bool) (now : Z) (resp : fetch_response) (h : heartbeats) : heartbeats :=
  if cancelled then h
  else {| lastPollNs := now;
          lastSuccessfulFetchNs :=
            match resp with FetchError => lastSuccessfulFetchNs h | _ => now end |}.

Definition fetchTask (cancelled : bool) (newKey : nat) (resp : fetch_response) (s : workerState)
    : workerState * option Task :=
  match resp with
  | FetchDeadline =>
      if cancelled then (s, None)
      else ({| tasksVersion := tasksVersion s; requestKey := requestKey s;
               consecutiveEmpty := consecutiveEmpty s + 1;
               consecutiveErrors := consecutiveErrors s |}, None)
  | FetchError =>
      if cancelled then (s, None)
      else ({| tasksVersion := tasksVersion s; requestKey := requestKey s;
               consecutiveEmpty := consecutiveEmpty s;
               consecutiveErrors := consecutiveErrors s + 1 |}, None)
  | FetchOk v task =>
      let version := if tasksVersion s <? v then v else tasksVersion s in
      match task with
      | Some t =>
          if decide (taskId t = 0) then
            ({| tasksVersion := version; requestKey := newKey;
                consecutiveEmpty := consecutiveEmpty s + 1; consecutiveErrors := 0 |}, None)
          else ({| tasksVersion := 0; requestKey := newKey;
                   consecutiveEmpty := consecutiveEmpty s; consecutiveErrors := 0 |}, Some t)
      | None => ({| tasksVersion := version; requestKey := newKey;
                    consecutiveEmpty := consecutiveEmpty s + 1; consecutiveErrors := 0 |}, None)
      end
  end.

(** ** [waitBackoff] *)

Definition second : Z := 1000 * 1000 * 1000.
Definition backoffMax : Z := 60 * second.

(** The duration it sleeps; [base * time.Duration(1 << shift)] in int64. *)
Definition backoff (base : Z) (s : workerState) : Z :=
  let n := if consecutiveErrors s <? consecutiveEmpty s then consecutiveEmpty s
           else consecutiveErrors s in
  if 1 <? n then
    let shift := if 5 <? n - 1 then 5 else n - 1 in
    let d := wrap64 (base * Z.shiftl 1 shift) in
    if backoffMax <? d then backoffMax else d
  else base.

(** ** [Run], its handlers, and [Shutdown] *)

(** Where the loop is.  A call of [FetchTask] is [late] when its context was
    already cancelled as it was made; the response is kept while the heartbeats
    are stored and, after that, the worker state is updated, since each reads
    the context again. *)
Inductive phase :=
  | Acquire
  | Acquired
  | Fetching (late : bool)
  | Responded (resp : fetch_response)
  | Beaten (resp : fetch_response)
  | Releasing
  | Backoff
  | Dispatching
  | Spawned
  | Stopped.

(** A task from the moment the fetch returned it.  The loop takes it past
    [wg.Add], [inFlight.Add] and [go]; its goroutine runs the handler and then
    the three deferred calls: slot, in-flight count, [wg.Done]. *)
Inductive stage := Received | Added | Counted | Running | SlotFree | Uncounted.

#[export] Instance stage_eq_dec : EqDecision stage.
Proof. solve_decision. Defined.
#[export] Instance fetch_response_eq_dec : EqDecision fetch_response.
Proof. solve_decision. Defined.
#[export] Instance phase_eq_dec : EqDecision phase.
Proof. solve_decision. Defined.

(** Where a call of [Shutdown] is: at its [select], past the expiry of its
    context and about to look at [done] once more, waiting for [done] after
    having cancelled the jobs, or returned. *)
Inductive shutdown := NoShutdown | Waiting | Rechecking | CancelledJobs | Returned (err : bool).

(** The goroutine [Shutdown] starts: [wg.Wait(); close(done)]. *)
Inductive waiter := NoWaiter | InWait | PastWait | DoneClosed.

#[export] Instance shutdown_eq_dec : EqDecision shutdown.
Proof. solve_decision. Defined.
#[export] Instance waiter_eq_dec : EqDecision waiter.
Proof. solve_decision. Defined.

Record Sys := {
  loop : phase;
  worker : workerState;
  beats : heartbeats;
  sem : Z;
  inFlight : Z;
  wg : Z;
  handlers : list (Task * stage);
  pollCancelled : bool;
  jobsCancelled : bool;
  down : shutdown;
  waitG : waiter;
  ctxExpired : bool;
  fetched : list Task;
  finished : list Task;
}.

Inductive action :=
  | ActAcquire
  | ActStop
  | ActCall
  | ActResponse (resp : fetch_response)
  | ActBeat (now : Z)
  | ActFetched (key : nat)
  | ActRelease
  | ActTimer
  | ActBackoffCancelled
  | ActTask (i : nat) (from : stage)
  | ActDispatched
  | ActSignal
  | ActShutdown
  | ActWaitZero
  | ActCloseDone
  | ActExpire
  | ActDrained
  | ActTimedOut
  | ActRecheck
  | ActShutdownReturn.

Section poller.
Context (capacity : Z) (ephemeral : bool).

Definition upd_loop (p : phase) (w : workerState) (h : heartbeats) (m : Z) (s : Sys) : Sys :=
  {| loop := p; worker := w; beats := h; sem := m; inFlight := inFlight s; wg := wg s;
     handlers := handlers s; pollCancelled := pollCancelled s; jobsCancelled := jobsCancelled s;
     down := down s; waitG := waitG s; ctxExpired := ctxExpired s; fetched := fetched s;
     finished := finished s |}.

Definition goto (p : phase) (s : Sys) : Sys := upd_loop p (worker s) (beats s) (sem s) s.

(** What [Run] does with the outcome of a fetch: it keeps the task, or will
    give the slot back. *)
Definition do_fetch (key : nat) (resp : fetch_response) (s : Sys) : Sys :=
  match fetchTask (pollCancelled s) key resp (worker s) with
  | (w, None) => upd_loop Releasing w (beats s) (sem s) s
  | (w, Some t) =>
      {| loop := Dispatching; worker := resetBackoff w; beats := beats s; sem := sem s;
         inFlight := inFlight s; wg := wg s; handlers := handlers s ++ [(t, Received)];
         pollCancelled := pollCancelled s; jobsCancelled := jobsCancelled s;
         down := down s; waitG := waitG s; ctxExpired := ctxExpired s;
         fetched := fetched s ++ [t]; finished := finished s |}
  end.

Definition upd_task (p : phase) (m n w : Z) (hs : list (Task * stage)) (over : list Task)
    (s : Sys) : Sys :=
  {| loop := p; worker := worker s; beats := beats s; sem := m; inFlight := n; wg := w;
     handlers := hs; pollCancelled := pollCancelled s; jobsCancelled := jobsCancelled s;
     down := down s; waitG := waitG s; ctxExpired := ctxExpired s; fetched := fetched s;
     finished := finished s ++ over |}.

(** The three steps of a dispatch, and the three deferred calls of a handler
    in the order they run. *)
Definition handler_step (i : nat) (from : stage) (s : Sys) : option Sys :=
  '(t, st) ← handlers s !! i;
  if decide (st = from) then
    let next st' := <[i := (t, st')]> (handlers s) in
    match from with
    | Received => Some (upd_task (loop s) (sem s) (inFlight s) (wg s + 1) (next Added) [] s)
    | Added => Some (upd_task (loop s) (sem s) (inFlight s + 1) (wg s) (next Counted) [] s)
    | Counted => Some (upd_task Spawned (sem s) (inFlight s) (wg s) (next Running) [] s)
    | Running => Some (upd_task (loop s) (sem s - 1) (inFlight s) (wg s) (next SlotFree) [] s)
    | SlotFree => Some (upd_task (loop s) (sem s) (inFlight s - 1) (wg s) (next Uncounted) [] s)
    | Uncounted =>
        Some (upd_task (loop s) (sem s) (inFlight s) (wg s - 1) (delete i (handlers s)) [t] s)
    end
  else None.

Definition cancel (p : phase) (poll jobs : bool) (d : shutdown) (c : waiter) (e : bool)
    (s : Sys) : Sys :=
  {| loop := p; worker := worker s; beats := beats s; sem := sem s; inFlight := inFlight s;
     wg := wg s; handlers := handlers s; pollCancelled := pollCancelled s || poll;
     jobsCancelled := jobsCancelled s || jobs; down := d; waitG := c; ctxExpired := e;
     fetched := fetched s; finished := finished s |}.

(** One atomic action of the loop, or of a task it dispatched. *)
Definition exec_run (a : action) (s : Sys) : option Sys :=
  match a, loop s with
  | ActAcquire, Acquire =>
      if decide (sem s < capacity)
      then Some (upd_loop Acquired (worker s) (beats s) (sem s + 1) s) else None
  | ActStop, Acquire => if pollCancelled s then Some (goto Stopped s) else None
  | ActCall, Acquired => Some (goto (Fetching (pollCancelled s)) s)
  | ActResponse resp, Fetching _ => Some (goto (Responded resp) s)
  | ActBeat now, Responded resp =>
      Some (upd_loop (Beaten resp) (worker s) (beat (pollCancelled s) now resp (beats s)) (sem s) s)
  | ActFetched key, Beaten resp => Some (do_fetch key resp s)
  | ActRelease, Releasing => Some (upd_loop Backoff (worker s) (beats s) (sem s - 1) s)
  | ActTimer, Backoff => Some (goto Acquire s)
  | ActBackoffCancelled, Backoff => if pollCancelled s then Some (goto Stopped s) else None
  | ActTask i from, _ => handler_step i from s
  | ActDispatched, Spawned =>
      Some (cancel Acquire ephemeral false (down s) (waitG s) (ctxExpired s) s)
  | _, _ => None
  end.

(** One atomic action of a signal, of [Shutdown] and of its goroutine.
    [ActSignal] is the cancellation of the context [Run] was given, from which
    both the polling and the jobs context derive; [ActExpire] that of the
    context of [Shutdown]; a return runs the deferred [stopJobs]. *)
Definition exec_down (a : action) (s : Sys) : option Sys :=
  let upd := cancel (loop s) in
  match a, down s with
  | ActSignal, _ => Some (upd true true (down s) (waitG s) (ctxExpired s) s)
  | ActShutdown, NoShutdown => Some (upd true false Waiting InWait false s)
  | ActExpire, Waiting => Some (upd false false Waiting (waitG s) true s)
  | ActWaitZero, _ =>
      if decide (waitG s = InWait /\ wg s = 0)
      then Some (upd false false (down s) PastWait (ctxExpired s) s) else None
  | ActCloseDone, _ =>
      if decide (waitG s = PastWait)
      then Some (upd false false (down s) DoneClosed (ctxExpired s) s) else None
  | ActDrained, Waiting =>
      if decide (waitG s = DoneClosed)
      then Some (upd false true (Returned false) (waitG s) (ctxExpired s) s) else None
  | ActTimedOut, Waiting =>
      if ctxExpired s then Some (upd false false Rechecking (waitG s) true s) else None
  | ActRecheck, Rechecking =>
      if decide (waitG s = DoneClosed)
      then Some (upd false true (Returned false) (waitG s) (ctxExpired s) s)
      else Some (upd false true CancelledJobs (waitG s) (ctxExpired s) s)
  | ActShutdownReturn, CancelledJobs =>
      if decide (waitG s = DoneClosed)
      then Some (upd false true (Returned true) (waitG s) (ctxExpired s) s) else None
  | _, _ => None
  end.

Definition is_down (a : action) : bool :=
  match a with
  | ActSignal | ActShutdown | ActWaitZero | ActCloseDone | ActExpire | ActDrained | ActTimedOut
  | ActRecheck | ActShutdownReturn => true
  | _ => false
  end.

Definition exec (a : action) (s : Sys) : option Sys :=
  if is_down a then exec_down a s else exec_run a s.

Definition start (key : nat) : Sys :=
  {| loop := Acquire;
     worker := {| tasksVersion := 0; requestKey := key; consecutiveEmpty := 0;
                  consecutiveErrors := 0 |};
     beats := {| lastPollNs := 0; lastSuccessfulFetchNs := 0 |};
     sem := 0; inFlight := 0; wg := 0; handlers := []; pollCancelled := false;
     jobsCancelled := false; down := NoShutdown; waitG := NoWaiter; ctxExpired := false;
     fetched := []; finished := [] |}.

Fixpoint run_actions (l : list action) (s : Sys) : option Sys :=
  match l with [] => Some s | a :: l => s' ← exec a s; run_actions l s' end.

(** A condition on every action of a run, in the state it is taken from. *)
Fixpoint along (P : action -> Sys -> Prop) (l : list action) (s : Sys) : Prop :=
  match l with
  | [] => True
  | a :: l => P a s /\ match exec a s with Some s' => along P l s' | None => True end
  end.

(** An invariant of every step taken under [P] holds at the end of a run. *)
Lemma along_inv (P : action -> Sys -> Prop) (I : Sys -> Prop) l s s' :
  (forall a s s', P a s -> exec a s = Some s' -> I s -> I s') ->
  along P l s -> run_actions l s = Some s' -> I s -> I s'.
Proof.
  intros Hstep. revert s. induction l as [|a l IH]; intros s; cbn [along run_actions].
  { by intros _ [= <-]. }
  intros [HP Hl] Hr Hs. destruct (exec a s) as [s1|] eqn:Ha; [|done].
  eapply IH; [exact Hl|exact Hr|by eapply Hstep].
Qed.

Lemma run_inv (I : Sys -> Prop) l s s' :
  (forall a s s', exec a s = Some s' -> I s -> I s') ->
  run_actions l s = Some s' -> I s -> I s'.
Proof.
  intros Hstep. apply (along_inv (fun _ _ => True)); [by eauto|].
  revert s. induction l as [|a l IH]; intros s; cbn [along]; [done|].
  split; [done|]. destruct (exec a s); [apply IH|done].
Qed.

(** ** Invariant *)

Definition before_spawn (st : stage) : bool :=
  match st with Received | Added | Counted => true | _ => false end.
Definition in_flight (st : stage) : bool :=
  match st with Counted | Running | SlotFree => true | _ => false end.

Definition with_slot (s : Sys) : Z := count (fun p => p.2 = Running) (handlers s).
Definition counted (s : Sys) : Z := count (fun p => in_flight p.2 = true) (handlers s).
Definition dispatching (s : Sys) : Z := count (fun p => before_spawn p.2 = true) (handlers s).
Definition waited (s : Sys) : Z := count (fun p => p.2 <> Received) (handlers s).

(** The slot the loop itself holds. *)
Definition loop_slot (p : phase) : Z :=
  match p with Acquired | Fetching _ | Responded _ | Beaten _ | Releasing => 1 | _ => 0 end.

Definition inv (s : Sys) : Prop :=
  sem s = with_slot s + dispatching s + loop_slot (loop s) /\
  sem s <= capacity /\
  dispatching s = (if decide (loop s = Dispatching) then 1 else 0) /\
  inFlight s = counted s /\ wg s = waited s /\
  fetched s ≡ₚ finished s ++ (handlers s).*1.

Lemma count_pos {A} (P : A -> Prop) `{!forall x, Decision (P x)} l i x :
  l !! i = Some x -> P x -> 1 <= count P l.
Proof.
  intros Hi Hx. pose proof (count_delete P l i x Hi) as Hd.
  pose proof (count_nonneg P (delete i l)). rewrite decide_True in Hd by done. lia.
Qed.

Lemma count_nil {A} (P : A -> Prop) `{!forall x, Decision (P x)} : count P [] = 0.
Proof. done. Qed.

Lemma handler_step_inv i st s s' : handler_step i st s = Some s' -> inv s -> inv s'.
Proof.
  unfold handler_step. destruct (handlers s !! i) as [[t st']|] eqn:Hi; [|done].
  cbn [mbind option_bind]. case_decide as Hst; [subst st'|done].
  intros Hs (Hsem & Hcap & Hd & Hif & Hwg & Hf).
  assert (before_spawn st = true -> loop s = Dispatching) as Hdisp.
  { intros Hb. pose proof (count_pos (fun p => before_spawn p.2 = true) _ _ _ Hi Hb) as Hp.
    unfold dispatching in Hd. case_decide; [done|lia]. }
  assert (forall y, (<[i := (t, y)]> (handlers s)).*1 = (handlers s).*1) as Hfst.
  { intros y. rewrite list_fmap_insert. apply list_insert_id. by rewrite list_lookup_fmap, Hi. }
  unfold inv, with_slot, counted, dispatching, waited in *.
  destruct st; injection Hs as <-; cbn [upd_task loop sem inFlight wg handlers fetched finished];
    try rewrite (Hdisp eq_refl) in *; rewrite ?app_nil_r;
    first [ rewrite !(count_insert _ _ _ _ _ Hi), Hfst | rewrite !(count_delete _ _ _ _ Hi) ];
    cbn [snd before_spawn in_flight loop_slot] in *;
    repeat case_decide; try congruence; split_and!; try done; try lia.
  all: rewrite Hf, <-app_assoc; apply Permutation_app_head; simpl.
  all: by rewrite (delete_Permutation (handlers s) i (t, Uncounted) Hi) at 1.
Qed.

Ltac close_inv :=
  unfold inv, with_slot, counted, dispatching, waited in *; cbn -[count] in *;
  split_and!; try done; try lia.

Lemma exec_run_inv a s s' : exec_run a s = Some s' -> inv s -> inv s'.
Proof.
  intros Hs Hinv.
  destruct a; try (by destruct (loop s); apply (handler_step_inv i from s));
    destruct (loop s) eqn:Hl; cbn [exec_run] in Hs; rewrite ?Hl in Hs; try discriminate;
    try (by repeat case_decide; repeat case_match; simplify_eq;
         destruct Hinv as (Hsem & Hcap & Hd & Hif & Hwg & Hf); rewrite Hl in *; close_inv).
  destruct Hinv as (Hsem & Hcap & Hd & Hif & Hwg & Hf). rewrite Hl in *.
  injection Hs as <-. unfold do_fetch. destruct (fetchTask _ _ _ _) as [w [t|]]; [|by close_inv].
  unfold inv, with_slot, counted, dispatching, waited in *.
  cbn [handlers loop sem inFlight wg fetched finished] in *.
  rewrite !count_app, !count_cons. cbn -[count] in *.
  rewrite !count_nil.
  repeat case_decide; try congruence; split_and!; try done; try lia.
  by rewrite fmap_app, Hf, app_assoc.
Qed.

Lemma exec_down_cancel a s s' :
  exec_down a s = Some s' -> exists p j d c e, s' = cancel (loop s) p j d c e s.
Proof.
  intros Hs. destruct a, (down s); cbn [exec_down] in Hs; repeat case_decide; repeat case_match;
    simplify_eq; by eexists _, _, _, _, _.
Qed.

Lemma exec_down_inv a s s' : exec_down a s = Some s' -> inv s -> inv s'.
Proof. by intros (p & j & d & c & e & ->)%exec_down_cancel. Qed.

Lemma exec_inv a s s' : exec a s = Some s' -> inv s -> inv s'.
Proof. unfold exec. destruct (is_down a); [apply exec_down_inv|apply exec_run_inv]. Qed.

Lemma start_inv key : 0 <= capacity -> inv (start key).
Proof.
  intros Hc. unfold inv, with_slot, counted, dispatching, waited. simpl.
  split_and!; try done; vm_compute; done.
Qed.

Lemma poller_reachable_inv key l s : 0 <= capacity -> run_actions l (start key) = Some s -> inv s.
Proof. intros Hc Hr. eapply (run_inv inv); [apply exec_inv|exact Hr|by apply start_inv]. Qed.

Lemma with_slot_counted s : with_slot s <= counted s.
Proof.
  unfold with_slot, counted. induction (handlers s) as [|[t st] hs IH]; [done|].
  rewrite !count_cons. destruct st; cbn [snd in_flight]; repeat case_decide; try congruence; lia.
Qed.

Lemma with_slot_sem s : inv s -> with_slot s <= sem s.
Proof.
  intros (Hsem & _).
  assert (0 <= dispatching s) by apply count_nonneg.
  assert (0 <= loop_slot (loop s)) by (by destruct (loop s)). lia.
Qed.

(** C19: capacity and conservation of tasks.  In every reachable state of the
    loop, its handlers and a shutdown, at most [capacity] handlers are running
    a task, the in-flight counter counts exactly the tasks whose counter has
    been raised and not yet lowered, and the tasks fetched so far are exactly
    those finished and those being dispatched or handled: none is dropped or
    handled twice. *)
Theorem poller_capacity key l s :
  0 <= capacity -> run_actions l (start key) = Some s ->
  with_slot s <= sem s <= capacity /\
  inFlight s = counted s /\ with_slot s <= inFlight s /\
  fetched s ≡ₚ finished s ++ (handlers s).*1.
Proof.
  intros Hc Hinv%poller_reachable_inv; [|done].
  pose proof (with_slot_counted s). pose proof (with_slot_sem s Hinv).
  destruct Hinv as (_ & Hcap & _ & Hif & _ & Hf). split; [lia|]. split; [done|]. split; [lia|done].
Qed.

(** ** Shutdown *)

(** [Shutdown] is called once [Run] has returned, as [run] in
    [cmd/controller/main.go] does. *)
Definition shutdown_after_run (a : action) (s : Sys) : Prop := a = ActShutdown -> loop s = Stopped.

Definition zero_seen (c : waiter) : bool :=
  match c with PastWait | DoneClosed => true | _ => false end.

Definition down_inv (s : Sys) : Prop :=
  inv s /\
  (down s <> NoShutdown -> loop s = Stopped /\ waitG s <> NoWaiter /\ pollCancelled s = true) /\
  (down s = NoShutdown -> waitG s = NoWaiter) /\
  (zero_seen (waitG s) = true -> handlers s = []) /\
  (forall err, down s = Returned err -> waitG s = DoneClosed /\ jobsCancelled s = true) /\
  (down s = Rechecking \/ down s = CancelledJobs \/ down s = Returned true -> ctxExpired s = true).

Lemma no_entries s : dispatching s + waited s <= 0 -> handlers s = [].
Proof.
  unfold dispatching, waited. destruct (handlers s) as [|[t st] hs]; [done|].
  rewrite !count_cons.
  pose proof (count_nonneg (fun p : Task * stage => before_spawn p.2 = true) hs).
  pose proof (count_nonneg (fun p : Task * stage => p.2 <> Received) hs).
  destruct st; cbn [snd before_spawn]; repeat case_decide; try congruence; lia.
Qed.

(** The loop and its tasks leave alone what a shutdown moves. *)
Lemma exec_run_frame a s s' :
  exec_run a s = Some s' ->
  down s' = down s /\ waitG s' = waitG s /\ ctxExpired s' = ctxExpired s /\
  jobsCancelled s' = jobsCancelled s.
Proof.
  intros Hs. destruct a; cbn [exec_run] in Hs; try done.
  all: try (assert (handler_step i from s = Some s') as Hh by (by destruct (loop s)); clear Hs;
    unfold handler_step in Hh; destruct (handlers s !! i) as [[t st]|]; [|done];
    cbn [mbind option_bind] in Hh; case_decide; [|done]; destruct from; by simplify_eq).
  all: destruct (loop s); try done; try case_decide; try case_match; simplify_eq; try done.
  - unfold do_fetch. by destruct (fetchTask _ _ _ _) as [w [t|]].
  - cbn. by rewrite orb_false_r.
Qed.

(** Once the loop has stopped it stays so, and dispatches nothing. *)
Lemma stopped_step a s s' :
  exec_run a s = Some s' -> inv s -> loop s = Stopped ->
  loop s' = Stopped /\ down s' = down s /\ waitG s' = waitG s /\ ctxExpired s' = ctxExpired s /\
  jobsCancelled s' = jobsCancelled s /\ pollCancelled s' = pollCancelled s /\
  (handlers s = [] -> handlers s' = []).
Proof.
  intros Hs (_ & _ & Hd & _) Hl. destruct a; cbn [exec_run] in Hs; rewrite ?Hl in Hs; try done.
  unfold handler_step in Hs. destruct (handlers s !! i) as [[t st]|] eqn:Hi; [|done].
  cbn [mbind option_bind] in Hs. destruct (decide (st = from)) as [->|]; [|done].
  destruct from; injection Hs as <-; cbn; repeat (split; [done|]);
    try (intros Hh; rewrite Hh in *; done).
  exfalso. pose proof (count_pos (fun p => before_spawn p.2 = true) _ _ _ Hi eq_refl).
  unfold dispatching in Hd. rewrite Hl in Hd. case_decide; [done|lia].
Qed.

Lemma exec_down_down_inv a s s' :
  shutdown_after_run a s -> exec_down a s = Some s' -> down_inv s -> down_inv s'.
Proof.
  intros Hseq Hs (Hinv & Hrun & Hno & Hz & Hret & Hexp).
  pose proof (exec_down_inv _ _ _ Hs Hinv) as Hinv'. split; [done|].
  assert (waitG s = InWait -> wg s = 0 -> handlers s = []) as Hzero.
  { intros Hw Hwg. destruct Hinv as (_ & _ & Hd & _ & Hwg' & _). apply no_entries.
    destruct (decide (down s = NoShutdown)) as [Hd0|Hd0]; [rewrite (Hno Hd0) in Hw; done|].
    destruct (Hrun Hd0) as [Hl _]. rewrite Hl in Hd. case_decide; [done|lia]. }
  destruct a; cbn [exec_down] in Hs; try done;
    destruct (down s) eqn:Hd; try discriminate;
    repeat case_decide; try case_match; simplify_eq; destruct_and?;
    try (destruct (Hrun ltac:(done)) as (Hl & Hw & Hp));
    try (destruct (Hret _ eq_refl) as (Hret1 & Hret2));
    try (pose proof (Hno eq_refl));
    cbn -[zero_seen]; rewrite ?orb_true_r, ?orb_false_r, ?Hd, ?Hp.
  all: split_and!; intros; destruct_or?; try done; try congruence; try (by auto).
  all: apply Hz; by match goal with H : waitG _ = _ |- _ => rewrite H end.
Qed.

Lemma exec_run_down_inv a s s' : exec_run a s = Some s' -> down_inv s -> down_inv s'.
Proof.
  intros Hs (Hinv & Hrun & Hno & Hz & Hret & Hexp).
  pose proof (exec_run_inv _ _ _ Hs Hinv) as Hinv'. split; [done|].
  destruct (decide (down s = NoShutdown)) as [Hd|Hd].
  - destruct (exec_run_frame _ _ _ Hs) as (-> & -> & -> & ->). rewrite Hd in *.
    rewrite (Hno eq_refl). cbn [zero_seen]. repeat split; intros; destruct_or?; done.
  - destruct (Hrun Hd) as (Hl & Hw & Hp).
    destruct (stopped_step _ _ _ Hs Hinv Hl) as (-> & -> & -> & -> & -> & -> & Hh). naive_solver.
Qed.

Lemma down_inv_step a s s' :
  shutdown_after_run a s -> exec a s = Some s' -> down_inv s -> down_inv s'.
Proof.
  unfold exec. destruct (is_down a); [apply exec_down_down_inv|]. intros _. apply exec_run_down_inv.
Qed.

Lemma start_down_inv key : 0 <= capacity -> down_inv (start key).
Proof.
  intros Hc. split; [by apply start_inv|]. cbn. repeat split; intros; destruct_or?; done.
Qed.

(** Without a signal, only an expired or a finished [Shutdown] cancels jobs. *)
Definition jobs_inv (s : Sys) : Prop :=
  jobsCancelled s = true -> down s = CancelledJobs \/ exists err, down s = Returned err.

Lemma jobs_inv_step a s s' : a <> ActSignal -> exec a s = Some s' -> jobs_inv s -> jobs_inv s'.
Proof.
  unfold exec, jobs_inv. intros Ha Hs Hj. destruct (is_down a) eqn:Hd.
  - destruct a; try done; cbn [exec_down] in Hs; destruct (down s) eqn:?; try done;
      repeat case_decide; try case_match; simplify_eq; cbn; rewrite ?orb_false_r;
      intros; eauto; naive_solver.
  - by destruct (exec_run_frame _ _ _ Hs) as (-> & _ & _ & ->).
Qed.

Lemma along_forall (P : action -> Prop) l s : Forall P l -> along (fun a _ => P a) l s.
Proof.
  intros Hl. revert s. induction Hl as [|a l Ha Hl IH]; intros s; cbn [along]; [done|].
  split; [done|]. destruct (exec a s); [apply IH|done].
Qed.

(** What is left to do for [Shutdown] to return once no task is left. *)
Definition drain_steps (s : Sys) : list action :=
  match waitG s with
  | InWait => [ActWaitZero; ActCloseDone] | PastWait => [ActCloseDone] | _ => []
  end ++
  match down s with
  | Waiting => [ActDrained] | Rechecking => [ActRecheck] | CancelledJobs => [ActShutdownReturn]
  | _ => []
  end.

Lemma drain_steps_return s :
  down_inv s -> down s <> NoShutdown -> handlers s = [] ->
  exists s' err, run_actions (drain_steps s) s = Some s' /\ down s' = Returned err.
Proof.
  intros (Hinv & Hrun & _ & _ & Hret & _) Hd Hh. destruct (Hrun Hd) as (_ & Hw & _).
  destruct Hinv as (_ & _ & _ & _ & Hwg & _). unfold waited in Hwg. rewrite Hh, count_nil in Hwg.
  unfold drain_steps.
  destruct (waitG s) eqn:Hg, (down s) eqn:Hds; try done;
    try (by destruct (Hret _ eq_refl)); cbn; unfold exec; cbn;
    rewrite ?decide_True by (by rewrite ?Hg, ?Hwg); cbn; rewrite ?Hds; cbn;
    rewrite ?decide_True by done; cbn; eauto.
Qed.

(** C37: what [Shutdown] promises when it is called, as the controller does,
    after [Run] has returned.  When it has returned, however the loop, the
    handlers, the waiting goroutine and the two contexts interleaved, no task
    is being dispatched or handled any more, every task fetched is finished,
    and the jobs' context is released; it returns an error only if its own
    context had expired.  Before that, and without a signal, it cancels the
    jobs only after its context has expired.  And it does return: once every
    handler has, a bounded number of its own steps is enough. *)
Theorem shutdown_waits key l s :
  0 <= capacity -> along shutdown_after_run l (start key) -> run_actions l (start key) = Some s ->
  (forall err, down s = Returned err ->
     handlers s = [] /\ fetched s ≡ₚ finished s /\ inFlight s = 0 /\ jobsCancelled s = true /\
     (err = true -> ctxExpired s = true)) /\
  (Forall (fun a => a <> ActSignal) l -> jobsCancelled s = true ->
     ctxExpired s = true \/ exists err, down s = Returned err) /\
  (down s <> NoShutdown -> handlers s = [] ->
     (length (drain_steps s) <= 3)%nat /\
     exists s' err, run_actions (drain_steps s) s = Some s' /\ down s' = Returned err).
Proof.
  intros Hc Hal Hr.
  assert (down_inv s) as Hdi
    by (eapply (along_inv _ down_inv); [apply down_inv_step|exact Hal|exact Hr|by apply start_down_inv]).
  pose proof Hdi as ((_ & _ & _ & Hif & _ & Hf) & _ & _ & Hz & Hret & Hexp).
  split_and!.
  - intros err Hd. destruct (Hret err Hd) as [Hw Hj].
    assert (handlers s = []) as Hh by (apply Hz; by rewrite Hw).
    rewrite Hh, app_nil_r in Hf. unfold counted in Hif. rewrite Hh, count_nil in Hif.
    split_and!; try done. intros ->. auto.
  - intros Hsig Hj.
    assert (jobs_inv s) as [Hd|Hd]; [|done|left; auto|by right].
    eapply (along_inv _ jobs_inv); [apply jobs_inv_step|by apply along_forall|exact Hr|done].
  - intros Hd Hh. split; [|by apply drain_steps_return].
    unfold drain_steps. rewrite length_app. by destruct (waitG s), (down s); simpl; lia.
Qed.

(** ** Stopping *)

(** A client of net/http: a call made with a context that is already
    cancelled is not sent, so it returns no task.  A call that was open when
    the context was cancelled may still return one. *)
Definition gives_task (resp : fetch_response) : bool :=
  match resp with FetchOk _ (Some _) => true | _ => false end.

Definition late_call_fails (a : action) (s : Sys) : Prop :=
  match a with ActResponse resp => loop s = Fetching true -> gives_task resp = false | _ => True end.

(** The task the loop's open call can still bring. *)
Definition pending (s : Sys) : nat :=
  match loop s with
  | Fetching late => if late then 0 else 1
  | Responded resp | Beaten resp => if gives_task resp then 1 else 0
  | _ => 0
  end.

Definition between_fetches (p : phase) : bool :=
  match p with Dispatching | Spawned => true | _ => false end.

Lemma handler_step_loop i st s s' :
  handler_step i st s = Some s' ->
  fetched s' = fetched s /\ pollCancelled s' = pollCancelled s /\
  (loop s' = loop s \/ loop s' = Spawned).
Proof.
  unfold handler_step. destruct (handlers s !! i) as [[t st']|]; [|done].
  cbn [mbind option_bind]. case_decide; [|done]. destruct st; intros [= <-]; cbn; auto.
Qed.

Lemma exec_down_loop a s s' :
  exec_down a s = Some s' ->
  fetched s' = fetched s /\ loop s' = loop s /\ (pollCancelled s = true -> pollCancelled s' = true).
Proof.
  intros (p & j & d & c & e & ->)%exec_down_cancel. cbn. by split_and!; [..|intros ->].
Qed.

Lemma pending_spawned s s' :
  loop s' = loop s \/ loop s' = Spawned -> (pending s' <= pending s)%nat.
Proof. unfold pending. intros [->| ->]; lia. Qed.

Lemma do_fetch_result key resp s :
  pollCancelled (do_fetch key resp s) = pollCancelled s /\
  ((loop (do_fetch key resp s) = Releasing /\ fetched (do_fetch key resp s) = fetched s) \/
   exists t, loop (do_fetch key resp s) = Dispatching /\ gives_task resp = true /\
     fetched (do_fetch key resp s) = fetched s ++ [t]).
Proof.
  unfold do_fetch, fetchTask.
  destruct resp as [v [t|]| |]; repeat case_decide; try destruct (pollCancelled s) eqn:Hp; cbn;
    split; auto; right; by exists t.
Qed.

(** One action, what it fetches, and the task the open call can still bring. *)
Definition fetch_step (s s' : Sys) : Prop :=
  (pollCancelled s = true -> pollCancelled s' = true) /\
  ((fetched s' = fetched s /\ (pollCancelled s = true -> (pending s' <= pending s)%nat)) \/
   exists t, fetched s' = fetched s ++ [t] /\ between_fetches (loop s) = false /\
     pending s = 1%nat /\ loop s' = Dispatching) /\
  (between_fetches (loop s) = true ->
   between_fetches (loop s') = true \/
   (pending s' = 0%nat /\ pollCancelled s' = pollCancelled s || ephemeral)).

Lemma do_fetch_step key resp s : loop s = Beaten resp -> fetch_step s (do_fetch key resp s).
Proof.
  intros Hl. unfold fetch_step, pending. rewrite Hl.
  destruct (do_fetch_result key resp s) as [-> [[-> ->]|(t & -> & -> & ->)]]; cbn.
  - split; [done|]. split; [left; split; [done|lia]|done].
  - split; [done|]. split; [right; by exists t|done].
Qed.

Lemma exec_run_fetched a s s' : exec_run a s = Some s' -> late_call_fails a s -> fetch_step s s'.
Proof.
  intros Hs Hlate.
  destruct a; try (assert (handler_step i from s = Some s') as Hh by (by destruct (loop s));
    destruct (handler_step_loop _ _ _ _ Hh) as (Hf & Hp & Hl);
    unfold fetch_step; rewrite Hf, Hp; split; [done|]; split; [left; split; [done|intros _; by apply pending_spawned]|];
    destruct Hl as [->| ->]; [by left|by left]).
  all: cbn [exec_run] in Hs; destruct (loop s) eqn:Hl; try done; repeat case_decide;
    try (injection Hs as <-; by apply do_fetch_step);
    try (destruct (pollCancelled s) eqn:Hp; try done); simplify_eq.
  all: unfold fetch_step, pending; rewrite ?Hl; cbn; rewrite ?orb_true_r, ?orb_false_r, ?Hp.
  all: try (split; [done|]; split; [left; split; [done|]|done]; intros Hc;
    first [discriminate Hc|lia|done]).
  - split; [done|]. split; [|done]. left. split; [done|]. intros _.
    destruct late; [rewrite (Hlate Hl)|case_match]; lia.
  - split; [done|]. split; [left; split; [done|lia]|]. intros _. right. split; [done|].
    by destruct ephemeral.
  - split; [done|]. split; [left; split; [done|lia]|]. by right.
Qed.

Lemma exec_fetched a s s' : exec a s = Some s' -> late_call_fails a s -> fetch_step s s'.
Proof.
  unfold exec. destruct (is_down a); [|apply exec_run_fetched].
  intros (Hf & Hl & Hp)%exec_down_loop _. split; [done|]. unfold pending. rewrite Hl.
  split; [left; split; [done|lia]|by left].
Qed.

(** What has been fetched since a cancellation, in the state [s1]. *)
Definition stopping (s1 s : Sys) : Prop :=
  pollCancelled s = true /\
  exists new, fetched s = fetched s1 ++ new /\ (length new + pending s <= pending s1)%nat.

Lemma stopping_step s1 a s s' :
  late_call_fails a s -> exec a s = Some s' -> stopping s1 s -> stopping s1 s'.
Proof.
  intros Hlate Hs (Hp & new & Hf & Hn). destruct (exec_fetched a s s' Hs Hlate) as (Hp' & Hf' & _).
  split; [auto|]. destruct Hf' as [[-> Hle]|(t & -> & _ & H1 & Hl)].
  - specialize (Hle Hp). exists new. split; [done|lia].
  - exists (new ++ [t]). rewrite Hf, <-app_assoc, length_app. split; [done|].
    unfold pending in *. rewrite Hl. simpl. lia.
Qed.

(** Ephemeral mode: nothing fetched yet, one task being dispatched, or polling
    cancelled. *)
Definition one_task (s : Sys) : Prop :=
  fetched s = [] \/ (length (fetched s) = 1%nat /\ between_fetches (loop s) = true) \/
  (pollCancelled s = true /\ (length (fetched s) + pending s <= 1)%nat).

Lemma one_task_step a s s' :
  ephemeral = true -> late_call_fails a s -> exec a s = Some s' -> one_task s -> one_task s'.
Proof.
  intros He Hlate Hs H1. destruct (exec_fetched a s s' Hs Hlate) as (Hp & Hf & Hb).
  unfold one_task in *. rewrite He, orb_true_r in Hb.
  destruct Hf as [[-> Hle]|(t & -> & Hbf & Hpd & Hl)].
  - destruct H1 as [?|[[Hlen Hbf]|[Hc ?]]]; [by left| |].
    + right. destruct (Hb Hbf) as [?|[-> ->]]; [by left|right; lia].
    + right; right. specialize (Hle Hc). split; [auto|lia].
  - rewrite length_app. unfold pending at 1. rewrite Hl. cbn [length between_fetches].
    destruct H1 as [->|[[_ ?]|[? ?]]]; [right; left|congruence|right; right];
      (split; [auto|]); try done; lia.
Qed.

Lemma along_app (P : action -> Sys -> Prop) l1 l2 s s1 :
  along P (l1 ++ l2) s -> run_actions l1 s = Some s1 -> along P l2 s1.
Proof.
  revert s. induction l1 as [|a l1 IH]; intros s; cbn [app along run_actions].
  - by intros ? [= <-].
  - intros [_ Hl]. destruct (exec a s) as [s2|]; [|done]. by apply IH.
Qed.

Lemma run_actions_app l1 l2 s :
  run_actions (l1 ++ l2) s = s1 ← run_actions l1 s; run_actions l2 s1.
Proof.
  revert s. induction l1 as [|a l1 IH]; intros s; [done|]. cbn [app run_actions].
  destruct (exec a s); simpl; [apply IH|done].
Qed.

(** C36: stopping.  From any state in which polling has been cancelled, by a
    signal, by [Shutdown] or by ephemeral mode, at most one more task is
    fetched, and that one only if a call of [FetchTask] that was made before
    the cancellation, or the response it has brought, is still open; and in
    ephemeral mode at most one task is ever fetched.  It is assumed only that
    a call made with a context already cancelled brings no task. *)
Theorem stop_polling key l s :
  along late_call_fails l (start key) -> run_actions l (start key) = Some s ->
  (forall l1 l2 s1, l = l1 ++ l2 -> run_actions l1 (start key) = Some s1 ->
     pollCancelled s1 = true ->
     exists new, fetched s = fetched s1 ++ new /\ (length new <= pending s1 <= 1)%nat) /\
  (ephemeral = true -> (length (fetched s) <= 1)%nat).
Proof.
  intros Hal Hr. split.
  - intros l1 l2 s1 -> Hl1 Hp. rewrite run_actions_app, Hl1 in Hr. simpl in Hr.
    assert (stopping s1 s) as (_ & new & Hf & Hn).
    { eapply (along_inv late_call_fails (stopping s1)); [|by eapply along_app|exact Hr|].
      - intros a s2 s3. apply stopping_step.
      - split; [done|]. exists []. by rewrite app_nil_r. }
    exists new. split; [done|]. assert (pending s1 <= 1)%nat; [|lia].
    unfold pending. repeat case_match; lia.
  - intros He.
    assert (one_task s) as [->|[[-> _]|[_ ?]]]; [|simpl; lia..|lia].
    eapply (along_inv late_call_fails one_task); [|exact Hal|exact Hr|by left].
    intros a s2 s3. by apply one_task_step.
Qed.

(** A signal cancels running jobs at once: the jobs context is a child of the
    context [Run] is given, so it is cancelled with it, whatever is running and
    before any shutdown has started to drain. *)
Lemma signal_cancels_jobs s :
  exists s', exec ActSignal s = Some s' /\ jobsCancelled s' = true /\
    handlers s' = handlers s /\ down s' = down s.
Proof. eexists. split; [done|]. simpl. by rewrite orb_true_r. Qed.
End poller.

(** ** Backoff *)

Definition failures (s : workerState) : Z := Z.max (consecutiveEmpty s) (consecutiveErrors s).

Lemma backoff_unfold base s :
  0 < base <= backoffMax -> 0 <= failures s ->
  backoff base s = if 1 <? failures s then Z.min backoffMax (base * 2 ^ Z.min 5 (failures s - 1))
                   else base.
Proof.
  unfold backoff, failures. intros Hb Hf.
  assert ((if consecutiveErrors s <? consecutiveEmpty s then consecutiveEmpty s
           else consecutiveErrors s) = Z.max (consecutiveEmpty s) (consecutiveErrors s)) as ->
    by (case_match; reflect_bools; lia).
  destruct (1 <? _) eqn:H1; [|done]. reflect_bools.
  set (n := Z.max _ _) in *.
  assert ((if 5 <? n - 1 then 5 else n - 1) = Z.min 5 (n - 1)) as ->
    by (case_match; reflect_bools; lia).
  rewrite Z.shiftl_1_l.
  assert (0 < 2 ^ Z.min 5 (n - 1) <= 2 ^ 5) as Hp.
  { split; [apply Z.pow_pos_nonneg; lia|apply Z.pow_le_mono_r; lia]. }
  rewrite wrap64_id.
  2: { unfold in_int64, int64_min, int64_max, backoffMax, second in *. nia. }
  case_match; reflect_bools; lia.
Qed.

(** Backoff.  With a configured interval of at most a minute, the sleep
    between two fetches is never shorter than the interval nor longer than a
    minute, equals the interval after at most one failure in a row, and never
    gets shorter as failures accumulate. *)
Theorem backoff_bounds base s s' :
  0 < base <= backoffMax -> 0 <= failures s <= failures s' ->
  base <= backoff base s <= backoffMax /\
  (failures s <= 1 -> backoff base s = base) /\
  backoff base s <= backoff base s'.
Proof.
  intros Hb [Hs Hs']. rewrite !backoff_unfold by lia.
  assert (forall k, 0 <= k -> 1 <= 2 ^ k) as Hpow.
  { intros k Hk. pose proof (Z.pow_pos_nonneg 2 k). lia. }
  destruct (1 <? failures s) eqn:H1, (1 <? failures s') eqn:H2; reflect_bools; try lia.
  - pose proof (Hpow (Z.min 5 (failures s - 1))).
    assert (2 ^ Z.min 5 (failures s - 1) <= 2 ^ Z.min 5 (failures s' - 1))
      by (apply Z.pow_le_mono_r; lia).
    assert (base <= base * 2 ^ Z.min 5 (failures s - 1)) by nia.
    assert (base * 2 ^ Z.min 5 (failures s - 1) <= base * 2 ^ Z.min 5 (failures s' - 1)) by nia.
    lia.
  - pose proof (Hpow (Z.min 5 (failures s' - 1))).
    assert (base <= base * 2 ^ Z.min 5 (failures s' - 1)) by nia. lia.
Qed.

(** ** Concrete runs *)

Definition fetch_round (now : Z) (key : nat) (resp : fetch_response) : list action :=
  [ActAcquire; ActCall; ActResponse resp; ActBeat now; ActFetched key].

Definition gives (id : Z) : fetch_response := FetchOk 3 (Some {| taskId := id |}).

Definition dispatch (i : nat) : list action :=
  [ActTask i Received; ActTask i Added; ActTask i Counted; ActDispatched].

(** Two tasks on two slots; the first handler has released its slot but not
    yet lowered the counter when the loop acquires it again. *)
Definition sample_actions : list action :=
  fetch_round 5 1 (gives 11) ++ dispatch 0 ++
  fetch_round 6 2 FetchDeadline ++ [ActRelease; ActTimer] ++
  fetch_round 7 2 (gives 12) ++ dispatch 1 ++ [ActTask 0 Running; ActAcquire].

Definition sample_state : Sys := default (start 0) (run_actions 2 false sample_actions (start 0)).

(** Ephemeral mode: one task, the loop stops by itself, and the drain times
    out; the last handler ends only after the jobs have been cancelled. *)
Definition drain_actions : list action :=
  fetch_round 5 1 (gives 11) ++ dispatch 0 ++
  [ActAcquire; ActCall; ActResponse FetchError; ActBeat 6; ActFetched 2; ActRelease;
   ActBackoffCancelled; ActShutdown; ActExpire; ActTimedOut; ActTask 0 Running; ActRecheck;
   ActTask 0 SlotFree; ActTask 0 Uncounted; ActWaitZero; ActCloseDone; ActShutdownReturn].

Definition drain_state : Sys := default (start 0) (run_actions 2 true drain_actions (start 0)).

(** [Shutdown] called while [Run] is fetching: it sees the wait group at zero
    and returns, and the task then received runs with a cancelled context. *)
Example shutdown_race :
  let l := [ActAcquire; ActCall; ActShutdown; ActWaitZero; ActCloseDone; ActDrained;
            ActResponse (gives 11); ActBeat 5; ActFetched 1] ++ dispatch 0 in
  exists s, run_actions 2 false l (start 0) = Some s /\ down s = Returned false /\
    handlers s = [({| taskId := 11 |}, Running)] /\ jobsCancelled s = true.
Proof. eexists. split; [vm_compute; reflexivity|]. done. Qed.

(** The race of the comment in [Shutdown]: its context has expired, but the
    drain completed at the same instant, so it returns nil. *)
Example drained_at_expiry :
  let l := fetch_round 5 1 FetchError ++ [ActRelease; ActTimer; ActSignal; ActStop; ActShutdown;
             ActExpire; ActTimedOut; ActWaitZero; ActCloseDone; ActRecheck] in
  exists s, run_actions 2 false l (start 0) = Some s /\ down s = Returned false /\ ctxExpired s = true.
Proof. eexists. split; [vm_compute; reflexivity|]. done. Qed.

Lemma poller_capacity_witness :
  inFlight sample_state = 2 /\ sem sample_state = 2 /\ with_slot sample_state = 1 /\
  fetched sample_state ≡ₚ finished sample_state ++ (handlers sample_state).*1.
Proof.
  split; [vm_compute; reflexivity|]. split; [vm_compute; reflexivity|].
  split; [vm_compute; reflexivity|].
  apply (poller_capacity 2 false 0 sample_actions sample_state); [lia|vm_compute; reflexivity].
Defined.

Lemma shutdown_waits_witness :
  down drain_state = Returned true /\ handlers drain_state = [] /\
  fetched drain_state ≡ₚ finished drain_state /\ finished drain_state = [{| taskId := 11 |}].
Proof.
  assert (down drain_state = Returned true) as Hd by (vm_compute; reflexivity).
  destruct (shutdown_waits 2 true 0 drain_actions drain_state) as (H & _ & _);
    [lia|vm_compute; repeat split; intros; discriminate || reflexivity|vm_compute; reflexivity|].
  destruct (H true Hd) as (Hh & Hf & _).
  split; [exact Hd|]. split; [exact Hh|]. split; [exact Hf|vm_compute; reflexivity].
Defined.

(** A task whose call was open at a signal is still fetched, and no other. *)
Lemma stop_polling_witness :
  let l1 := [ActAcquire; ActCall; ActSignal] in
  let l2 := [ActResponse (gives 11); ActBeat 5; ActFetched 1] ++ dispatch 0 ++
            [ActAcquire; ActCall; ActResponse FetchError; ActBeat 6; ActFetched 2; ActRelease;
             ActBackoffCancelled] in
  exists s1 s, run_actions 2 true l1 (start 0) = Some s1 /\
    run_actions 2 true (l1 ++ l2) (start 0) = Some s /\
    loop s = Stopped /\ fetched s = [{| taskId := 11 |}] /\ (length (fetched s) <= 1)%nat /\
    exists new, fetched s = fetched s1 ++ new /\ (length new <= pending s1 <= 1)%nat.
Proof.
  intros l1 l2. eexists _, _. split; [vm_compute; reflexivity|].
  split; [vm_compute; reflexivity|]. split; [reflexivity|]. split; [reflexivity|].
  split.
  - apply (stop_polling 2 true 0 (l1 ++ l2));
      [vm_compute; repeat split; intros; discriminate || reflexivity|vm_compute; reflexivity|
       reflexivity].
  - apply (stop_polling 2 true 0 (l1 ++ l2)) with (l1 := l1) (l2 := l2);
      [vm_compute; repeat split; intros; discriminate || reflexivity|vm_compute; reflexivity|
       reflexivity|vm_compute; reflexivity|reflexivity].
Defined.

Lemma backoff_bounds_witness :
  let s n := {| tasksVersion := 0; requestKey := 0; consecutiveEmpty := n; consecutiveErrors := 0 |} in
  backoff (2 * second) (s 3) = 8 * second /\ backoff (2 * second) (s 9) = 60 * second /\
  backoff (2 * second) (s 3) <= backoff (2 * second) (s 9).
Proof.
  intros s. split; [reflexivity|]. split; [reflexivity|].
  apply (backoff_bounds (2 * second) (s 3) (s 9)); unfold backoffMax, second, failures; simpl; lia.
Defined.
