(* ===== verification/Health.v ===== *)
(** * Health, readiness and metrics ([cmd/controller/main.go])

    The staleness thresholds and the probe handlers, as functions of what the
    handlers read from the poller, and what they say about the poller's
    states. *)
From Stdlib Require Import Ascii.
From S2P Require Import Prelude GoStrings Poller.
#[local] Open Scope Z_scope.
#[local] Open Scope go_scope.

Definition at_least (floor t : Z) : Z := if t <? floor then floor else t.

Definition pollStalenessThreshold (fetchInterval : Z) : Z :=
  at_least (30 * second) (wrap64 (fetchInterval * 10)).

Definition successFetchStalenessThreshold (fetchInterval : Z) : Z :=
  at_least (120 * second) (wrap64 (fetchInterval * 10)).

Inductive wedge := PollLoop | SuccessfulFetch.

#[export] Instance wedge_eq_dec : EqDecision wedge.
Proof. solve_decision. Defined.

(** What one request reads: the clock, the two heartbeats (0 for the zero
    time), the in-flight counter at its two reads, and the backoff flag. *)
Record probe := {
  now : Z;
  lastPoll : Z;
  lastSuccessfulFetch : Z;
  inFlight1 : Z;
  inFlight2 : Z;
  inBackoff : bool;
}.

Definition stale (now t threshold : Z) : bool := negb (t =? 0) && (threshold <? now - t).

Definition poll_stale (pollStaleness : Z) (p : probe) : bool :=
  (inFlight1 p =? 0) && negb (inBackoff p) && stale (now p) (lastPoll p) pollStaleness.

Definition fetch_stale (successFetchStaleness capacity : Z) (p : probe) : bool :=
  (inFlight2 p <? capacity) && stale (now p) (lastSuccessfulFetch p) successFetchStaleness.

(** The status code, and the call of [onWedge], if any; [dumped] is the state
    of [dumpOnce]. *)
Definition healthzHandler (pollStaleness successFetchStaleness capacity : Z) (dumped : bool)
    (p : probe) : Z * option wedge * bool :=
  if poll_stale pollStaleness p then
    (503, if dumped then None else Some PollLoop, true)
  else if fetch_stale successFetchStaleness capacity p then
    (503, if dumped then None else Some SuccessfulFetch, true)
  else (200, None, dumped).

Fixpoint healthz_all (ps ss capacity : Z) (dumped : bool) (l : list probe)
    : list (Z * option wedge) :=
  match l with
  | [] => []
  | p :: l =>
      let '(code, w, dumped) := healthzHandler ps ss capacity dumped p in
      (code, w) :: healthz_all ps ss capacity dumped l
  end.

Definition readyzHandler (registered : bool) : Z * gostring :=
  if registered then (200, "ok") else (503, "not ready").

Definition quote : ascii := chr 34.
Definition field (name : gostring) (v : Z) : gostring :=
  quote :: name ++ quote :: ":" ++ itoa v.

Definition metricsHandler (activeJobs capacity : Z) : gostring :=
  "{" ++ field "active" activeJobs ++ "," ++ field "capacity" capacity ++ "}".

(** What a request sees of a poller: the counter may be read twice in the same
    state, the heartbeats are the poller's, the flag is the loop's phase. *)
Definition probe_of (t : Z) (s : Sys) : probe :=
  {| now := t; lastPoll := lastPollNs (beats s); lastSuccessfulFetch := lastSuccessfulFetchNs (beats s);
     inFlight1 := inFlight s; inFlight2 := inFlight s;
     inBackoff := bool_decide (loop s = Backoff) |}.

(** ** Properties *)

Definition wedges (l : list (Z * option wedge)) : list wedge := omap snd l.

Lemma healthz_dumped ps ss c l : wedges (healthz_all ps ss c true l) = [].
Proof.
  induction l as [|p l IH]; [done|]. cbn [healthz_all]. unfold healthzHandler.
  by destruct (poll_stale ps p), (fetch_stale ss c p).
Qed.

(** Diagnostics are captured once.  Over any sequence of requests the
    goroutine dump is taken at the first request answered 503 and never again;
    as long as every answer is 200 it is not taken. *)
Theorem wedge_once ps ss capacity l :
  exists ok rest, healthz_all ps ss capacity false l = ok ++ rest /\
    Forall (fun a => a = (200, None)) ok /\
    (rest = [] \/ exists w more, rest = (503, Some w) :: more /\ wedges more = []).
Proof.
  induction l as [|p l IH]; [exists [], []; repeat split; auto|].
  cbn [healthz_all]. unfold healthzHandler.
  destruct (poll_stale ps p).
  { exists [], ((503, Some PollLoop) :: healthz_all ps ss capacity true l).
    split; [done|]. split; [done|]. right. eexists _, _. split; [done|]. apply healthz_dumped. }
  destruct (fetch_stale ss capacity p).
  { exists [], ((503, Some SuccessfulFetch) :: healthz_all ps ss capacity true l).
    split; [done|]. split; [done|]. right. eexists _, _. split; [done|]. apply healthz_dumped. }
  destruct IH as (ok & rest & -> & Hok & Hrest). exists ((200, None) :: ok), rest.
  split; [done|]. split; [by constructor|done].
Qed.

Section with_poller.
Context (capacity : Z) (ephemeral : bool).

(** A busy runner is healthy.  In every reachable state in which all slots
    are held by running handlers the health check answers 200, however old the
    heartbeats are: the loop cannot poll, and is not blamed for it. *)
Lemma busy_runner_healthy key l s t ps ss dumped :
  0 < capacity -> run_actions capacity ephemeral l (start key) = Some s ->
  with_slot s = capacity ->
  healthzHandler ps ss capacity dumped (probe_of t s) = (200, None, dumped).
Proof.
  intros Hc Hr Hw. apply poller_reachable_inv in Hr as (_ & _ & _ & Hif & _); [|lia].
  assert (with_slot s <= counted s) as Hle by apply with_slot_counted.
  unfold healthzHandler, poll_stale, fetch_stale, probe_of. simpl.
  rewrite (proj2 (Z.eqb_neq (inFlight s) 0)) by lia.
  by rewrite (proj2 (Z.ltb_ge (inFlight s) capacity)) by lia.
Qed.

(** A healthy loop can be reported as wedged.  With an interval between
    one and three seconds, after six or more failures in a row the loop sleeps
    longer than the poll-staleness threshold; when it then fetches again,
    before that fetch returns, the health check answers 503. *)
Theorem false_alarm_after_backoff base s t late dumped :
  second <= base <= 3 * second -> 6 <= failures (worker s) ->
  loop s = Fetching late -> inFlight s = 0 -> lastPollNs (beats s) <> 0 ->
  lastPollNs (beats s) + backoff base (worker s) <= t ->
  (healthzHandler (pollStalenessThreshold base) (successFetchStalenessThreshold base)
     capacity dumped (probe_of t s)).1.1 = 503.
Proof.
  intros Hb Hf Hl Hi Hp Ht. unfold second in *.
  assert (backoff base (worker s) > 30 * 1000000000) as Hlong.
  { rewrite backoff_unfold by (unfold backoffMax, second; lia).
    rewrite (proj2 (Z.ltb_lt _ _)) by lia.
    replace (Z.min 5 (failures (worker s) - 1)) with 5 by lia.
    unfold backoffMax, second. lia. }
  assert (pollStalenessThreshold base = 30 * 1000000000) as Hth.
  { unfold pollStalenessThreshold, at_least, second.
    rewrite wrap64_id by (unfold in_int64, int64_min, int64_max; lia).
    case_match; reflect_bools; lia. }
  unfold healthzHandler, poll_stale, probe_of, stale. simpl. rewrite Hi, Hl, Hth. simpl.
  rewrite (proj2 (Z.eqb_neq _ 0)) by done. simpl.
  by rewrite (proj2 (Z.ltb_lt _ _)) by lia.
Qed.
End with_poller.

Lemma false_alarm_after_backoff_witness :
  let fail := fetch_round second 1 FetchError ++ [ActRelease; ActTimer] in
  let l := concat (replicate 6 fail) ++ [ActAcquire; ActCall] in
  exists s, run_actions 1 false l (start 0) = Some s /\
    (healthzHandler (pollStalenessThreshold (2 * second)) (successFetchStalenessThreshold (2 * second))
       1 false (probe_of (61 * second) s)).1.1 = 503.
Proof.
  intros fail l. eexists. split; [vm_compute; reflexivity|].
  apply (false_alarm_after_backoff 1 (2 * second)) with (late := false); try reflexivity;
    vm_compute; try (split; discriminate); discriminate.
Defined.
