(* ===== verification/Register.v ===== *)
(** * Registration ([pkg/server/register.go], [pkg/server/client.go])

    Loading or obtaining the runner's identity, over two interfaces: a
    [CredentialStore], with the file and the Kubernetes secret as
    implementations, and the [Forge] the calls go to.  The JSON encoding of a
    registration is a parameter with its round trip as law. *)
From Stdlib Require Import Ascii.
From S2P Require Import Prelude GoStrings.
#[local] Open Scope Z_scope.
#[local] Open Scope go_scope.

Record Registration := {
  rID : Z;
  rUUID : gostring;
  rName : gostring;
  rToken : gostring;
  rAddress : gostring;
  rLabels : list gostring;
  CacheSecret : gostring;
}.

(** A client for an endpoint with the identity its requests carry; an empty
    string is not sent. *)
Record Client := {
  endpoint : gostring;
  insecure : bool;
  cUUID : gostring;
  cToken : gostring;
  fetchInterval : Z;
  httpTimeout : Z;
}.

Definition NewClient (endpoint : gostring) (insecure : bool) (uuid token : gostring)
    (fetchInterval httpTimeout : Z) : Client :=
  {| endpoint := endpoint; insecure := insecure; cUUID := uuid; cToken := token;
     fetchInterval := fetchInterval;
     httpTimeout := if decide (httpTimeout = 0) then 60000000000 else httpTimeout |}.

(** The base URL of the services, and the identity headers of a request. *)
Definition base_url (c : Client) : gostring :=
  trim_right (fun x => bool_decide (x = "/"%char)) (endpoint c) ++ "/api/actions".

Definition identity_headers (c : Client) (requestKey : option gostring) : list (gostring * gostring) :=
  (if decide (cUUID c = []) then [] else [("x-runner-uuid", cUUID c)]) ++
  (if decide (cToken c = []) then [] else [("x-runner-token", cToken c)]) ++
  match requestKey with Some k => [("x-runner-request-key", k)] | None => [] end.

Record RegisterConfig := {
  Endpoint : gostring;
  cfgInsecure : bool;
  RegistrationToken : gostring;
  cfgName : gostring;
  cfgLabels : list gostring;
  Version : gostring;
  cfgFetchInterval : Z;
  HTTPTimeout : Z;
}.

Inductive declare_answer := Declared | Unimplemented | DeclareError.

(** The forge; a registration gives id, uuid, name and token. *)
Class Forge (W : Type) := {
  ping : Client -> W -> bool * W;
  register_runner : Client -> gostring -> gostring -> gostring -> list gostring -> W ->
                    option (Z * gostring * gostring * gostring) * W;
  declare_runner : Client -> gostring -> list gostring -> W -> declare_answer * W;
}.

(** [Load] answers an error, nothing, or the stored registration. *)
Class CredentialStore (W : Type) := {
  Load : W -> result unit (option Registration) * W;
  Save : Registration -> W -> bool * W;
}.

(** What a working store promises: what is saved is loaded, and loading
    changes nothing; calls to the forge do not touch it. *)
Class LawfulStore (W : Type) `{CredentialStore W, Forge W} := {
  stored : W -> option Registration -> Prop;
  load_stored : forall w r, stored w r -> Load w = (Ok r, w);
  save_stored : forall reg w w', Save reg w = (true, w') -> stored w' (Some reg);
  forge_keeps : forall w r c v l, stored w r -> stored (declare_runner c v l w).2 r;
}.

Inductive register_error :=
  | LoadingCredentials | NoToken | PingFailed | RegistrationFailed | SavingCredentials.

Section registration.
Context {W : Type} `{CredentialStore W} `{Forge W}.

(** [declare]: an unimplemented call counts as success. *)
Definition declare (c : Client) (version : gostring) (labels : list gostring) (w : W) : bool * W :=
  let '(a, w) := declare_runner c version labels w in
  (match a with DeclareError => false | _ => true end, w).

Definition authed (cfg : RegisterConfig) (address : gostring) (uuid token : gostring) : Client :=
  NewClient address (cfgInsecure cfg) uuid token (cfgFetchInterval cfg) (HTTPTimeout cfg).

Definition register (cfg : RegisterConfig) (w : W) : result register_error Client * W :=
  let client := authed cfg (Endpoint cfg) [] [] in
  let '(up, w) := ping client w in
  if negb up then (Err PingFailed, w) else
  match register_runner client (cfgName cfg) (RegistrationToken cfg) (Version cfg) (cfgLabels cfg) w with
  | (None, w) => (Err RegistrationFailed, w)
  | (Some (id, uuid, name, token), w) =>
      let reg := {| rID := id; rUUID := uuid; rName := name; rToken := token;
                    rAddress := Endpoint cfg; rLabels := cfgLabels cfg; CacheSecret := [] |} in
      let '(saved, w) := Save reg w in
      if negb saved then (Err SavingCredentials, w) else
      let c := authed cfg (Endpoint cfg) uuid token in
      let '(_, w) := declare c (Version cfg) (cfgLabels cfg) w in
      (Ok c, w)
  end.

Definition EnsureRegistered (cfg : RegisterConfig) (w : W) : result register_error Client * W :=
  match Load w with
  | (Err _, w) => (Err LoadingCredentials, w)
  | (Ok reg, w) =>
      let fresh w :=
        if decide (RegistrationToken cfg = []) then (Err NoToken, w) else register cfg w in
      match reg with
      | None => fresh w
      | Some reg =>
          let c := authed cfg (rAddress reg) (rUUID reg) (rToken reg) in
          let '(ok, w) := declare c (Version cfg) (cfgLabels cfg) w in
          if ok then (Ok c, w) else fresh w
      end
  end.
End registration.

(** ** The identity persists *)

Section persistence.
Context {W : Type} `{LawfulStore W}.

(** The forge still accepts the identity of a client. *)
Definition accepts (cfg : RegisterConfig) (c : Client) (w : W) : Prop :=
  (declare_runner c (Version cfg) (cfgLabels cfg) w).1 <> DeclareError.

Lemma declare_accepted cfg c w :
  accepts cfg c w ->
  declare c (Version cfg) (cfgLabels cfg) w = (true, (declare_runner c (Version cfg) (cfgLabels cfg) w).2).
Proof.
  unfold accepts, declare. destruct (declare_runner _ _ _ _) as [[] ?]; done.
Qed.

Lemma reconnect cfg w reg :
  stored w (Some reg) -> accepts cfg (authed cfg (rAddress reg) (rUUID reg) (rToken reg)) w ->
  exists w', EnsureRegistered cfg w = (Ok (authed cfg (rAddress reg) (rUUID reg) (rToken reg)), w') /\
    stored w' (Some reg).
Proof.
  intros Hs Ha. unfold EnsureRegistered. rewrite (load_stored _ _ Hs).
  rewrite declare_accepted by done. eexists. split; [done|]. by apply forge_keeps.
Qed.

Lemma register_stores cfg w c w' :
  register cfg w = (Ok c, w') ->
  exists reg, stored w' (Some reg) /\ c = authed cfg (rAddress reg) (rUUID reg) (rToken reg).
Proof.
  unfold register. destruct (ping _ w) as [[] w1]; [|done]. cbn [negb].
  destruct (register_runner _ _ _ _ _ w1) as [[[[[id uuid] name] token]|] w2]; [|done].
  destruct (Save _ w2) as [[] w3] eqn:Hsv; [|done]. cbn [negb]. unfold declare.
  destruct (declare_runner _ _ _ w3) as [a w4] eqn:Hd. intros [= <- <-].
  apply save_stored in Hsv. match type of Hsv with stored _ (Some ?r) => exists r end.
  split; [|done].
  eapply (forge_keeps _ _ (authed cfg (Endpoint cfg) uuid token) (Version cfg) (cfgLabels cfg)) in Hsv.
  by rewrite Hd in Hsv.
Qed.

(** The configuration without the one-time token. *)
Definition without_token (cfg : RegisterConfig) : RegisterConfig :=
  {| Endpoint := Endpoint cfg; cfgInsecure := cfgInsecure cfg; RegistrationToken := [];
     cfgName := cfgName cfg; cfgLabels := cfgLabels cfg; Version := Version cfg;
     cfgFetchInterval := cfgFetchInterval cfg; HTTPTimeout := HTTPTimeout cfg |}.

(** C23: a runner that has registered keeps its identity.  If
    [EnsureRegistered] returns a client, then calling it again (after a
    restart, with the same configuration), while the forge accepts that
    client's identity, returns the same client, without the registration
    token being needed, and so on forever: the stored registration is the one
    the client was made from. *)
Theorem registration_persists cfg w c w1 :
  (exists r, stored w r) -> EnsureRegistered cfg w = (Ok c, w1) -> accepts cfg c w1 ->
  exists w2 reg, EnsureRegistered (without_token cfg) w1 = (Ok c, w2) /\ stored w2 (Some reg) /\
    cUUID c = rUUID reg /\ cToken c = rToken reg /\ endpoint c = rAddress reg.
Proof.
  intros [r Hr] He Ha.
  assert (exists reg, stored w1 (Some reg) /\ c = authed cfg (rAddress reg) (rUUID reg) (rToken reg))
    as (reg & Hreg & ->).
  { unfold EnsureRegistered in He. rewrite (load_stored _ _ Hr) in He.
    assert (forall w0, (if decide (RegistrationToken cfg = []) then (Err NoToken, w0) else register cfg w0)
                = (Ok c, w1) ->
              exists reg, stored w1 (Some reg) /\ c = authed cfg (rAddress reg) (rUUID reg) (rToken reg))
      as Hfresh by (intros w0; case_decide; [done|]; apply register_stores).
    destruct r as [reg|]; [|by eapply Hfresh].
    unfold declare in He. destruct (declare_runner _ _ _ w) as [a w2] eqn:Hd.
    destruct a; try (by eapply Hfresh); injection He as <- <-; exists reg;
      (split; [|done]); eapply (forge_keeps _ _ (authed cfg (rAddress reg) (rUUID reg) (rToken reg))
        (Version cfg) (cfgLabels cfg)) in Hr; by rewrite Hd in Hr. }
  destruct (reconnect (without_token cfg) w1 reg Hreg Ha) as (w2 & Hw2 & Hst).
  exists w2, reg. by repeat split.
Qed.
End persistence.

(** ** The two stores *)

(** A machine with files, the secrets of a cluster whose API may be down, and
    the forge's state. *)
Record machine (S : Type) := {
  files : gmap gostring gostring;
  secrets : gmap (gostring * gostring) (gmap gostring gostring);
  api_up : bool;
  disk_full : bool;
  forge : S;
}.
Arguments files {S} _.
Arguments secrets {S} _.
Arguments api_up {S} _.
Arguments disk_full {S} _.
Arguments forge {S} _.

Section stores.
Context {S : Type} (encode : Registration -> gostring) (decode : gostring -> option Registration).
Context (decode_encode : forall r, decode (encode r) = Some r).
Implicit Types w : machine S.

Definition set_files (f : gmap gostring gostring) w : machine S :=
  {| files := f; secrets := secrets w; api_up := api_up w; disk_full := disk_full w; forge := forge w |}.
Definition set_secrets (m : gmap (gostring * gostring) (gmap gostring gostring)) w : machine S :=
  {| files := files w; secrets := m; api_up := api_up w; disk_full := disk_full w; forge := forge w |}.
Definition set_forge (s : S) w : machine S :=
  {| files := files w; secrets := secrets w; api_up := api_up w; disk_full := disk_full w; forge := s |}.

Definition parsed (data : gostring) : result unit (option Registration) :=
  match decode data with Some r => Ok (Some r) | None => Err tt end.

(** [FileStore]. *)
Definition file_load (path : gostring) w : result unit (option Registration) :=
  match files w !! path with Some data => parsed data | None => Ok None end.

Definition file_save (path : gostring) (reg : Registration) w : bool * machine S :=
  if disk_full w then (false, w) else (true, set_files (<[path := encode reg]> (files w)) w).

Definition FileStore (path : gostring) : CredentialStore (machine S) :=
  {| Load w := (file_load path w, w); Save := file_save path |}.

(** [SecretStore]: the data of a secret under one key; saving creates the
    secret or, when it exists, replaces it. *)
Definition secretDataKey : gostring := "registration".

Definition secret_load (ns name : gostring) w : result unit (option Registration) :=
  if negb (api_up w) then Err tt
  else match secrets w !! (ns, name) with
       | None => Ok None
       | Some data => match data !! secretDataKey with
                      | None => Ok None
                      | Some d => parsed d
                      end
       end.

Definition create_secret (k : gostring * gostring) (data : gmap gostring gostring) w
    : option bool * machine S :=
  if negb (api_up w) then (None, w)
  else match secrets w !! k with
       | Some _ => (Some false, w)
       | None => (Some true, set_secrets (<[k := data]> (secrets w)) w)
       end.

Definition update_secret (k : gostring * gostring) (data : gmap gostring gostring) w : bool * machine S :=
  if negb (api_up w) then (false, w) else (true, set_secrets (<[k := data]> (secrets w)) w).

Definition secret_save (ns name : gostring) (reg : Registration) w : bool * machine S :=
  let data := {[secretDataKey := encode reg]} in
  match create_secret (ns, name) data w with
  | (Some true, w) => (true, w)
  | (Some false, w) => update_secret (ns, name) data w
  | (None, w) => (false, w)
  end.

Definition SecretStore (ns name : gostring) : CredentialStore (machine S) :=
  {| Load w := (secret_load ns name w, w); Save := secret_save ns name |}.

Lemma secret_load_saved ns name reg w :
  api_up w = true ->
  secret_load ns name (set_secrets (<[(ns, name) := {[secretDataKey := encode reg]}]> (secrets w)) w) =
    Ok (Some reg).
Proof.
  intros Hup. unfold secret_load. cbn [set_secrets api_up secrets]. rewrite Hup. cbn [negb].
  rewrite lookup_insert_eq, lookup_singleton_eq. unfold parsed. by rewrite decode_encode.
Qed.

(** A forge that only has its own state. *)
Definition on_forge `{Forge S} : Forge (machine S) := {|
  ping c w := let '(a, s) := ping c (forge w) in (a, set_forge s w);
  register_runner c n t v l w := let '(a, s) := register_runner c n t v l (forge w) in (a, set_forge s w);
  declare_runner c v l w := let '(a, s) := declare_runner c v l (forge w) in (a, set_forge s w);
|}.

#[export] Program Instance file_store_lawful `{Forge S} (path : gostring) :
  @LawfulStore (machine S) (FileStore path) on_forge := {|
  stored w r := file_load path w = Ok r
|}.
Next Obligation. intros ? path w r Hl. simpl. by rewrite Hl. Qed.
Next Obligation.
  intros ? path reg w w'. simpl. unfold file_save, file_load. destruct (disk_full w); [done|].
  intros [= <-]. simpl. rewrite lookup_insert_eq. unfold parsed. by rewrite decode_encode.
Qed.
Next Obligation.
  intros ? path w r c v l Hl. simpl. by destruct (declare_runner c v l (forge w)).
Qed.

#[export] Program Instance secret_store_lawful `{Forge S} (ns name : gostring) :
  @LawfulStore (machine S) (SecretStore ns name) on_forge := {|
  stored w r := secret_load ns name w = Ok r
|}.
Next Obligation. intros ? ns name w r Hl. simpl. by rewrite Hl. Qed.
Next Obligation.
  intros ? ns name reg w w'. cbn [Save SecretStore]. unfold secret_save, create_secret, update_secret.
  destruct (api_up w) eqn:Hup; cbn [negb]; [|done].
  destruct (secrets w !! (ns, name)); rewrite ?Hup; cbn [negb]; intros [= <-]; by apply secret_load_saved.
Qed.
Next Obligation.
  intros ? ns name w r c v l Hl. simpl. by destruct (declare_runner c v l (forge w)).
Qed.
End stores.

(** ** A concrete restart *)

(** A forge that hands out numbered runners and accepts their tokens. *)
Definition toy_forge : Forge Z := {|
  ping _ s := (true, s);
  register_runner _ name t _ _ s :=
    (if decide (t = "join") then Some (s, "uuid-" ++ itoa s, name, "tok-" ++ itoa s) else None, s + 1);
  declare_runner c _ _ s := (if decide (cToken c = []) then DeclareError else Declared, s);
|}.

Definition toy_config : RegisterConfig :=
  {| Endpoint := "https://forge"; cfgInsecure := false; RegistrationToken := "join"; cfgName := "r1";
     cfgLabels := []; Version := "1"; cfgFetchInterval := 2; HTTPTimeout := 30 |}.

(** A concrete encoding: the number of a registration, in decimal. *)
Definition registration_fields (r : Registration) :=
  (rID r, rUUID r, rName r, rToken r, rAddress r, rLabels r, CacheSecret r).

#[export] Instance registration_eq_dec : EqDecision Registration.
Proof. solve_decision. Defined.

#[export] Instance registration_countable : Countable Registration.
Proof.
  apply (inj_countable' registration_fields
    (fun p => let '(i, u, n, t, a, l, c) := p in
       {| rID := i; rUUID := u; rName := n; rToken := t; rAddress := a; rLabels := l;
          CacheSecret := c |})).
  by intros [].
Defined.

Definition number_encode (r : Registration) : gostring := itoa (Zpos (encode r)).
Definition number_decode (s : gostring) : option Registration :=
  match parse_uint 10 s with Some (Zpos p) => decode p | _ => None end.

Lemma number_decode_encode r : number_decode (number_encode r) = Some r.
Proof.
  unfold number_decode, number_encode, itoa.
  rewrite (proj2 (Z.ltb_ge _ _)) by lia. rewrite parse_uint_fmt by lia. apply decode_encode.
Qed.

Definition toy_machine : machine Z :=
  {| files := ∅; secrets := {[("ci", "drawbar") := {["other" := "data"]}]}; api_up := true;
     disk_full := false; forge := 5 |}.

#[local] Opaque number_encode number_decode.

Lemma registration_persists_witness :
  let st := SecretStore number_encode number_decode "ci" "drawbar" in
  let r := @EnsureRegistered _ st (@on_forge Z toy_forge) toy_config toy_machine in
  exists c w2 reg, r.1 = Ok c /\ cUUID c = "uuid-5" /\ cToken c = rToken reg /\
    @EnsureRegistered _ st (@on_forge Z toy_forge) (without_token toy_config) r.2 = (Ok c, w2).
Proof.
  intros st r.
  assert (r.1 = Ok (authed toy_config "https://forge" "uuid-5" "tok-5")) as H1 by reflexivity.
  destruct (@registration_persists _ st (@on_forge Z toy_forge)
    (@secret_store_lawful Z number_encode number_decode number_decode_encode toy_forge "ci" "drawbar")
    toy_config toy_machine (authed toy_config "https://forge" "uuid-5" "tok-5") r.2)
    as (w2 & reg & He & _ & _ & Ht & _).
  - exists None. reflexivity.
  - rewrite <-H1. unfold r. by destruct (EnsureRegistered _ _).
  - discriminate.
  - exists (authed toy_config "https://forge" "uuid-5" "tok-5"), w2, reg.
    split; [exact H1|]. split; [reflexivity|]. split; [exact Ht|exact He].
Defined.
