(* ===== verification/CacheDb.v ===== *)
(** * The cache index ([pkg/cache/db.go])

    The [caches] table and the queries on it.  The SQL engine is an interface
    ([Sql]): which of several newest rows a [LIMIT 1] query returns, and the
    [LIKE] operator; its laws are the documented meaning of [ORDER BY] and of
    [LIKE] with an [ESCAPE] character. *)
From Stdlib Require Import Ascii.
From S2P Require Import Prelude GoStrings.
#[local] Open Scope Z_scope.
#[local] Open Scope go_scope.

Record Cache := {
  cID : Z;
  Key : gostring;
  Version : gostring;
  Size : Z;
  Complete : bool;
  UsedAt : Z;
  CreatedAt : Z;
}.

#[export] Instance cache_eq_dec : EqDecision Cache.
Proof. solve_decision. Defined.

(** The table, and the largest id ever assigned (AUTOINCREMENT). *)
Record DB := { rows : list Cache; last_id : Z }.

(** ** [LIKE] *)

Definition percent : ascii := chr 37.
Definition underscore : ascii := chr 95.
Definition backslash : ascii := chr 92.
Definition meta (c : ascii) : bool := bool_decide (c = percent \/ c = underscore \/ c = backslash).

(** [LIKE] ignores the case of ASCII letters. *)
Definition fold_case (c : ascii) : ascii :=
  if (65 <=? code c) && (code c <=? 90) then chr (code c + 32) else c.

(** The meaning of a pattern without a bare underscore, under ESCAPE backslash. *)
Inductive like_matches : gostring -> gostring -> Prop :=
  | lm_nil : like_matches [] []
  | lm_escaped c p d t :
      meta c = true -> fold_case c = fold_case d -> like_matches p t ->
      like_matches (backslash :: c :: p) (d :: t)
  | lm_plain c p d t :
      meta c = false -> fold_case c = fold_case d -> like_matches p t ->
      like_matches (c :: p) (d :: t)
  | lm_any p t' t : like_matches p t -> like_matches (percent :: p) (t' ++ t).

Fixpoint plain_pattern (p : gostring) : bool :=
  match p with
  | [] => true
  | c :: p' =>
      if decide (c = backslash) then
        match p' with [] => false | d :: p'' => meta d && plain_pattern p'' end
      else negb (bool_decide (c = underscore)) && plain_pattern p'
  end.

Definition utf8 (s : gostring) : Prop := of_runes (runes s) = s.

Class Sql := {
  newest : list Cache -> option Cache;
  like : gostring -> gostring -> bool;
}.

Class SqlLaws `(Sql) : Prop := {
  newest_none : forall l, newest l = None <-> l = [];
  newest_some : forall l c, newest l = Some c ->
    c ∈ l /\ Forall (fun d => CreatedAt d <= CreatedAt c) l;
  like_spec : forall p t, plain_pattern p = true -> utf8 p -> utf8 t ->
    like p t = true <-> like_matches p t;
}.

(** [likeEscaper.Replace]. *)
Definition likeEscape (s : gostring) : gostring :=
  concat (map (fun c => if meta c then [backslash; c] else [c]) s).

Section queries.
Context `{Sql}.

Definition exact (key version : gostring) (c : Cache) : bool :=
  bool_decide (Key c = key) && bool_decide (Version c = version) && Complete c.

Definition prefixed (prefix version : gostring) (c : Cache) : bool :=
  like (likeEscape prefix ++ [percent]) (Key c) && bool_decide (Version c = version) && Complete c.

Fixpoint FindCache (db : DB) (keys : list gostring) (version : gostring) : option Cache :=
  match keys with
  | [] => None
  | prefix :: keys =>
      match newest (List.filter (exact prefix version) (rows db)) with
      | Some c => Some c
      | None =>
          match newest (List.filter (prefixed prefix version) (rows db)) with
          | Some c => Some c
          | None => FindCache db keys version
          end
      end
  end.
End queries.

(** [InsertCache]: the new row and its id. *)
Definition InsertCache (now : Z) (key version : gostring) (size : Z) (db : DB) : Z * DB :=
  let id := last_id db + 1 in
  (id, {| rows := rows db ++ [{| cID := id; Key := key; Version := version; Size := size;
                                 Complete := false; UsedAt := now; CreatedAt := now |}];
          last_id := id |}).

Definition GetCache (id : Z) (db : DB) : option Cache :=
  List.find (fun c => cID c =? id) (rows db).

Definition update_row (id : Z) (f : Cache -> Cache) (db : DB) : DB :=
  {| rows := map (fun c => if cID c =? id then f c else c) (rows db); last_id := last_id db |}.

Definition CompleteCache (id size : Z) (db : DB) : DB :=
  update_row id (fun c => {| cID := cID c; Key := Key c; Version := Version c; Size := size;
                             Complete := true; UsedAt := UsedAt c; CreatedAt := CreatedAt c |}) db.

Definition TouchCache (now id : Z) (db : DB) : DB :=
  update_row id (fun c => {| cID := cID c; Key := Key c; Version := Version c; Size := Size c;
                             Complete := Complete c; UsedAt := now; CreatedAt := CreatedAt c |}) db.

Definition DeleteCache (id : Z) (db : DB) : DB :=
  {| rows := List.filter (fun c => negb (cID c =? id)) (rows db); last_id := last_id db |}.

(** [FindExpired], for the three conditions it is called with. *)
Definition FindExpired (cond : Cache -> bool) (db : DB) : list Cache := List.filter cond (rows db).

(** [FindDuplicates]: complete rows with a newer complete row of the same key
    and version.  A group with a strictly newer member has at least two rows,
    as its HAVING clause asks. *)
Definition same_group (c d : Cache) : bool :=
  bool_decide (Key c = Key d) && bool_decide (Version c = Version d) && Complete d.

Definition FindDuplicates (keepOlderThan : Z) (db : DB) : list Cache :=
  List.filter (fun c =>
    Complete c && (UsedAt c <? keepOlderThan) &&
    (1 <? length (List.filter (same_group c) (rows db)))%nat &&
    existsb (fun d => same_group c d && (CreatedAt c <? CreatedAt d)) (rows db)) (rows db).

(** ** Lemmas *)

Lemma elem_of_filter_bool {A} (f : A -> bool) l x : x ∈ List.filter f l <-> f x = true /\ x ∈ l.
Proof. rewrite !list_elem_of_In, filter_In. tauto. Qed.

Lemma plain_escape s : plain_pattern (likeEscape s ++ [percent]) = true.
Proof.
  induction s as [|c s IH]; [reflexivity|]. unfold likeEscape in *. simpl.
  destruct (meta c) eqn:Hm; cbn [app plain_pattern].
  - rewrite decide_True by done. by rewrite Hm.
  - unfold meta in Hm. apply bool_decide_eq_false in Hm. rewrite decide_False by tauto.
    rewrite bool_decide_false by tauto. done.
Qed.

Lemma like_inv_escaped c p t :
  like_matches (backslash :: c :: p) t ->
  exists d t', t = d :: t' /\ fold_case c = fold_case d /\ like_matches p t'.
Proof.
  intros Hl. inversion Hl as [|? ? ? ? ? ? Hp| ? ? ? ? Hm|? ? ? Hp]; subst; [by eauto|].
  by vm_compute in Hm.
Qed.

Lemma like_inv_plain c p t :
  meta c = false -> like_matches (c :: p) t ->
  exists d t', t = d :: t' /\ fold_case c = fold_case d /\ like_matches p t'.
Proof.
  intros Hm Hl. inversion Hl; subst; [by vm_compute in Hm|by eauto|by vm_compute in Hm].
Qed.

(** An escaped prefix followed by a percent sign matches exactly the texts
    that start with the prefix, up to the case of letters. *)
Lemma like_matches_prefix s t :
  like_matches (likeEscape s ++ [percent]) t <-> map fold_case s `prefix_of` map fold_case t.
Proof.
  revert t. induction s as [|c s IH]; intros t.
  - split; [intros _; apply prefix_nil|]. intros _.
    rewrite <-(app_nil_r t). apply (lm_any [] t []). constructor.
  - assert (likeEscape (c :: s) = (if meta c then [backslash; c] else [c]) ++ likeEscape s) as ->
      by done.
    rewrite <-app_assoc. split.
    + intros Hl. assert (exists d t', t = d :: t' /\ fold_case c = fold_case d /\
                           like_matches (likeEscape s ++ [percent]) t') as (d & t' & -> & Hf & Hl').
      { destruct (meta c) eqn:Hm; [by apply like_inv_escaped in Hl|by apply like_inv_plain in Hl]. }
      simpl. rewrite Hf. apply prefix_cons. by apply IH.
    + intros Hp. destruct t as [|d t]; [by apply prefix_nil_inv in Hp|]. simpl in Hp.
      pose proof (prefix_cons_inv_1 _ _ _ _ Hp) as Hcd. apply prefix_cons_inv_2, IH in Hp.
      destruct (meta c) eqn:Hm; simpl; by constructor.
Qed.

Section find.
Context `{SqlLaws}.

Definition candidate (version : gostring) (c : Cache) : Prop :=
  Version c = version /\ Complete c = true.

Definition starts_with (prefix key : gostring) : Prop :=
  map fold_case prefix `prefix_of` map fold_case key.

(** What a row found under one key of the list is. *)
Definition best_for (db : DB) (prefix version : gostring) (c : Cache) : Prop :=
  c ∈ rows db /\ candidate version c /\
  ((Key c = prefix /\
    forall d, d ∈ rows db -> candidate version d -> Key d = prefix -> CreatedAt d <= CreatedAt c) \/
   (starts_with prefix (Key c) /\
    forall d, d ∈ rows db -> candidate version d ->
      Key d <> prefix /\ (starts_with prefix (Key d) -> CreatedAt d <= CreatedAt c))).

Definition no_match (db : DB) (prefix version : gostring) : Prop :=
  forall d, d ∈ rows db -> candidate version d -> ~ starts_with prefix (Key d).

Definition texts_ok (db : DB) (keys : list gostring) : Prop :=
  Forall (fun c => utf8 (Key c)) (rows db) /\ Forall (fun k => utf8 (likeEscape k ++ [percent])) keys.

Lemma exact_spec db key version c :
  c ∈ List.filter (exact key version) (rows db) <->
  c ∈ rows db /\ candidate version c /\ Key c = key.
Proof.
  rewrite elem_of_filter_bool. unfold exact, candidate.
  rewrite !andb_true_iff, !bool_decide_eq_true. tauto.
Qed.

Lemma prefixed_spec db prefix version c :
  utf8 (likeEscape prefix ++ [percent]) -> Forall (fun c => utf8 (Key c)) (rows db) ->
  c ∈ List.filter (prefixed prefix version) (rows db) <->
  c ∈ rows db /\ candidate version c /\ starts_with prefix (Key c).
Proof.
  intros Hp Hk. rewrite elem_of_filter_bool. unfold prefixed, candidate, starts_with.
  rewrite !andb_true_iff, !bool_decide_eq_true. split.
  - intros ([[Hl ?] ?] & Hin). split; [done|]. split; [done|].
    apply like_matches_prefix, like_spec; auto using plain_escape. by eapply Forall_forall in Hk.
  - intros (Hin & [? ?] & Hs). split; [|done]. split; [split|]; [|done..].
    apply like_spec; [apply plain_escape|done|by eapply Forall_forall in Hk|].
    by apply like_matches_prefix.
Qed.

Lemma newest_filter_none f l : newest (List.filter f l) = None -> forall d, d ∈ l -> f d = false.
Proof.
  intros Hn d Hd. apply newest_none in Hn. destruct (f d) eqn:Hf; [|done].
  assert (d ∈ List.filter f l) as Hin by by apply elem_of_filter_bool.
  rewrite Hn in Hin. by apply elem_of_nil in Hin.
Qed.

Lemma FindCache_spec db keys version :
  texts_ok db keys ->
  match FindCache db keys version with
  | Some c => exists before prefix after, keys = before ++ prefix :: after /\
                Forall (fun k => no_match db k version) before /\ best_for db prefix version c
  | None => Forall (fun k => no_match db k version) keys
  end.
Proof.
  intros [Hr Hk]. induction keys as [|k keys IH]; cbn [FindCache]; [constructor|].
  apply Forall_cons in Hk as [Hk Hks].
  destruct (newest (List.filter (exact k version) (rows db))) as [c|] eqn:He.
  { apply newest_some in He as [Hin Hmax]. apply exact_spec in Hin as (Hin & Hc & Hkey).
    exists [], k, keys. split; [done|]. split; [done|]. split; [done|]. split; [done|]. left.
    split; [done|]. intros d Hd Hcd Hkd. eapply Forall_forall in Hmax; [exact Hmax|].
    by apply exact_spec. }
  assert (forall d, d ∈ rows db -> candidate version d -> Key d <> k) as Hne.
  { intros d Hd Hcd Hkd. apply newest_none in He.
    assert (d ∈ List.filter (exact k version) (rows db)) as Hin by by apply exact_spec.
    rewrite He in Hin. by apply elem_of_nil in Hin. }
  destruct (newest (List.filter (prefixed k version) (rows db))) as [c|] eqn:Hp.
  { apply newest_some in Hp as [Hin Hmax]. apply prefixed_spec in Hin as (Hin & Hc & Hs); [|done..].
    exists [], k, keys. split; [done|]. split; [done|]. split; [done|]. split; [done|]. right.
    split; [done|]. intros d Hd Hcd. split; [by apply Hne|]. intros Hsd.
    eapply Forall_forall in Hmax; [exact Hmax|]. by apply prefixed_spec. }
  assert (no_match db k version) as Hno.
  { intros d Hd Hcd Hs. apply newest_none in Hp.
    assert (d ∈ List.filter (prefixed k version) (rows db)) as Hin by by apply prefixed_spec.
    rewrite Hp in Hin. by apply elem_of_nil in Hin. }
  specialize (IH Hks). destruct (FindCache db keys version) as [c|].
  - destruct IH as (before & prefix & after & -> & Hb & Hbest).
    exists (k :: before), prefix, after. split; [done|]. split; [by constructor|done].
  - by constructor.
Qed.

(** C24: restoring a cache finds the right entry.  The keys are tried in order;
    the row returned is complete and of the requested version; it is the
    newest one stored under exactly the first key that matches anything, or,
    when no row has exactly that key, the newest one whose key starts with it.
    Wildcard characters in a key stand for themselves.  Nothing is returned
    only when no complete row of the version starts with any of the keys. *)
Theorem find_cache_correct db keys version :
  texts_ok db keys ->
  match FindCache db keys version with
  | Some c => exists before prefix after, keys = before ++ prefix :: after /\
                Forall (fun k => no_match db k version) before /\ best_for db prefix version c
  | None => Forall (fun k => no_match db k version) keys
  end.
Proof. apply FindCache_spec. Qed.
End find.

(** ** A concrete engine *)

Fixpoint like_exec (p t : gostring) : bool :=
  match p with
  | [] => bool_decide (t = [])
  | c :: p' =>
      if decide (c = backslash) then
        match p', t with
        | d :: p'', e :: t' => bool_decide (fold_case d = fold_case e) && like_exec p'' t'
        | _, _ => false
        end
      else if decide (c = percent) then
        (fix any (t : gostring) : bool :=
           like_exec p' t || match t with [] => false | _ :: t' => any t' end) t
      else match t with
           | [] => false
           | e :: t' => bool_decide (fold_case c = fold_case e) && like_exec p' t'
           end
  end.

Lemma like_exec_any p t :
  like_exec (percent :: p) t = true <-> exists t1 t2, t = t1 ++ t2 /\ like_exec p t2 = true.
Proof.
  cbn [like_exec]. rewrite decide_False, decide_True by done. split.
  - induction t as [|c t IH]; rewrite orb_true_iff; intros [Hl|Hl]; try done;
      [by exists [], []|by exists [], (c :: t)|].
    destruct (IH Hl) as (t1 & t2 & -> & ?). by exists (c :: t1), t2.
  - intros (t1 & t2 & -> & Hl). induction t1 as [|c t1 IH]; simpl.
    + destruct t2; by rewrite Hl.
    + by rewrite IH, orb_true_r.
Qed.

Lemma like_exec_spec n p t :
  (length p <= n)%nat -> plain_pattern p = true -> like_exec p t = true <-> like_matches p t.
Proof.
  revert p t. induction n as [|n IH]; intros [|c p] t Hlen Hp; simpl in Hlen; try lia;
    try (cbn [like_exec]; rewrite bool_decide_eq_true; split;
         [intros ->; constructor|by inversion 1]).
  cbn [plain_pattern] in Hp. destruct (decide (c = backslash)) as [->|Hb].
  - destruct p as [|d p]; [done|]. apply andb_true_iff in Hp as [Hm Hp]. simpl in Hlen.
    cbn [like_exec]. rewrite decide_True by done. split.
    + destruct t as [|e t]; [done|]. intros [Hf Hl]%andb_true_iff.
      apply bool_decide_eq_true in Hf. constructor; [done|done|]. apply IH; [lia|done|done].
    + intros (e & t' & -> & Hf & Hl)%like_inv_escaped. rewrite bool_decide_true by done. simpl.
      apply IH; [lia|done|done].
  - apply andb_true_iff in Hp as [Hu Hp]. apply negb_true_iff, bool_decide_eq_false in Hu.
    destruct (decide (c = percent)) as [->|Hpc].
    + rewrite like_exec_any. split.
      * intros (t1 & t2 & -> & Hl). constructor. apply IH; [lia|done|done].
      * intros Hl. inversion Hl as [|? ? ? ? Hm|? ? ? ? Hm|? t1 t2 Hl2]; subst.
        -- by vm_compute in Hm.
        -- exists t1, t2. split; [done|]. apply IH; [lia|done|done].
    + assert (meta c = false) as Hm by (apply bool_decide_eq_false; tauto).
      cbn [like_exec]. rewrite !decide_False by done. split.
      * destruct t as [|e t]; [done|]. intros [Hf Hl]%andb_true_iff.
        apply bool_decide_eq_true in Hf. constructor; [done|done|]. apply IH; [lia|done|done].
      * intros (e & t' & -> & Hf & Hl)%like_inv_plain; [|done].
        rewrite bool_decide_true by done. simpl. apply IH; [lia|done|done].
Qed.

Fixpoint newest_exec (l : list Cache) : option Cache :=
  match l with
  | [] => None
  | c :: l => match newest_exec l with
              | None => Some c
              | Some d => Some (if CreatedAt d <=? CreatedAt c then c else d)
              end
  end.

Lemma newest_exec_spec l c :
  newest_exec l = Some c -> c ∈ l /\ Forall (fun d => CreatedAt d <= CreatedAt c) l.
Proof.
  revert c. induction l as [|d l IH]; intros c; simpl; [done|].
  destruct (newest_exec l) as [e|] eqn:He.
  - destruct (IH e eq_refl) as [Hin Hmax]. case_match; reflect_bools; intros [= <-].
    + split; [left|]. constructor; [lia|]. apply (Forall_impl _ _ _ Hmax). intros x ?. lia.
    + split; [by right|]. constructor; [lia|done].
  - intros [= <-]. split; [left|]. constructor; [lia|].
    destruct l as [|x l]; [constructor|]. simpl in He. by destruct (newest_exec l).
Qed.

Definition list_sql : Sql := {| newest := newest_exec; like := like_exec |}.

#[export] Instance list_sql_laws : SqlLaws list_sql.
Proof.
  split.
  - intros [|c l]; [done|]. split; [|done]. simpl. by destruct (newest_exec l).
  - apply newest_exec_spec.
  - intros p t Hp _ _. by apply (like_exec_spec (length p)).
Qed.

Definition sample_db : DB :=
  let row i k c t := {| cID := i; Key := k; Version := "v"; Size := 1; Complete := c;
                        UsedAt := t; CreatedAt := t |} in
  {| rows := [row 1 "npm-a_b-1" true 10; row 2 "npm-axb-2" true 30; row 3 "npm-a_b-3" true 20;
              row 4 "npm-a_b-4" false 40]; last_id := 4 |}.

Lemma find_cache_correct_witness :
  (cID <$> @FindCache list_sql sample_db ["none"; "npm-a_b"] "v") = Some 3 /\
  match @FindCache list_sql sample_db ["none"; "npm-a_b"] "v" with
  | Some c => exists before prefix after, ["none"; "npm-a_b"] = before ++ prefix :: after /\
                Forall (fun k => no_match sample_db k "v") before /\ best_for sample_db prefix "v" c
  | None => Forall (fun k => no_match sample_db k "v") ["none"; "npm-a_b"]
  end.
Proof.
  split; [vm_compute; reflexivity|].
  apply (@find_cache_correct list_sql list_sql_laws sample_db ["none"; "npm-a_b"] "v").
  split; repeat constructor; vm_compute; reflexivity.
Defined.
