(* ===== verification/CacheStore.v ===== *)
(** * The cache's blob store ([pkg/cache/storage.go])

    Blobs by id, and the directory of temporary chunks of each upload, as
    [os.ReadDir] lists it: sorted by file name.  A chunk is named after its
    offset in sixteen hexadecimal digits. *)
From Stdlib Require Import Ascii Sorted.
From stdpp Require Import sorting.
From S2P Require Import Prelude GoStrings.
#[local] Open Scope Z_scope.
#[local] Open Scope go_scope.

(** ** Byte order on names *)

Fixpoint str_ltb (s t : gostring) : bool :=
  match s, t with
  | [], [] => false
  | [], _ :: _ => true
  | _ :: _, [] => false
  | c :: s, d :: t => if code c =? code d then str_ltb s t else code c <? code d
  end.

(** A directory: file names and contents, in the order of the names. *)
Abbreviation dir := (list (gostring * gostring)).

Fixpoint dir_put (n d : gostring) (l : dir) : dir :=
  match l with
  | [] => [(n, d)]
  | (n', d') :: l' =>
      if decide (n = n') then (n, d) :: l'
      else if str_ltb n n' then (n, d) :: l else (n', d') :: dir_put n d l'
  end.

Record Storage := { blobs : gmap Z gostring; temps : gmap Z dir }.

Definition Exist (id : Z) (s : Storage) : bool := bool_decide (is_Some (blobs s !! id)).

Definition tempName (offset : Z) : gostring := fmt_hex_pad 16 offset.

(** Where a file operation can fail; a failed copy has copied some bytes.
    [CRemove] is the removal of a blob of the wrong size. *)
Inductive write_fault := WMkdir | WCreate | WCopy (n : nat).
Inductive commit_fault := CReadDir | CMkdir | CCreate | CCopy (n : nat) | CRemove.

(** [os.RemoveAll] on a temporary directory; when it fails, the directory and
    the files it says are left. *)
Definition remove_all (left : option (gostring -> bool)) (id : Z) (t : gmap Z dir) : gmap Z dir :=
  match left with
  | None => delete id t
  | Some keep => alter (List.filter (fun x => keep x.1)) id t
  end.

(** What a [Remove] leaves behind: it ignores both errors. *)
Record remove_fault := { blobLeft : bool; tempLeft : option (gostring -> bool) }.
Definition removes_all : remove_fault := {| blobLeft := false; tempLeft := None |}.

Definition put_chunk (id offset : Z) (data : gostring) (s : Storage) : Storage :=
  {| blobs := blobs s;
     temps := <[id := dir_put (tempName offset) data (default [] (temps s !! id))]> (temps s) |}.

(** [Write]: the error, if any, and the store after it. *)
Definition Write (fault : option write_fault) (id offset : Z) (data : gostring) (s : Storage)
    : option unit * Storage :=
  match fault with
  | Some WMkdir => (Some tt, s)
  | Some WCreate => (Some tt, {| blobs := blobs s;
                                 temps := <[id := default [] (temps s !! id)]> (temps s) |})
  | Some (WCopy n) => (Some tt, put_chunk id offset (take n data) s)
  | None => (None, put_chunk id offset data s)
  end.

(** [Commit]: the chunks in name order, checked against the announced size;
    the temporary directory is removed in every case, as far as [left] allows. *)
Definition Commit (fault : option commit_fault) (left : option (gostring -> bool)) (id size : Z)
    (s : Storage) : result unit Z * Storage :=
  let clean b := {| blobs := b; temps := remove_all left id (temps s) |} in
  match temps s !! id with
  | None => (Err tt, clean (blobs s))
  | Some chunks =>
      let data := concat (map snd chunks) in
      let written := Z.of_nat (length data) in
      match fault with
      | Some CReadDir | Some CMkdir | Some CCreate => (Err tt, clean (blobs s))
      | Some (CCopy n) => (Err tt, clean (<[id := take n data]> (blobs s)))
      | Some CRemove | None =>
          if (0 <=? size) && negb (written =? size)
          then (Err tt, clean (match fault with
                               | None => delete id (blobs s) | Some _ => <[id := data]> (blobs s)
                               end))
          else (Ok written, clean (<[id := data]> (blobs s)))
      end
  end.

Definition Remove (fault : remove_fault) (id : Z) (s : Storage) : Storage :=
  {| blobs := if blobLeft fault then blobs s else delete id (blobs s);
     temps := remove_all (tempLeft fault) id (temps s) |}.

Lemma remove_all_ne left id t i : i <> id -> remove_all left id t !! i = t !! i.
Proof.
  intros Hi. destruct left as [keep|]; simpl; [by rewrite lookup_alter_ne|by rewrite lookup_delete_ne].
Qed.

Lemma remove_all_some left id t i : is_Some (remove_all left id t !! i) -> is_Some (t !! i).
Proof.
  destruct left as [keep|]; simpl.
  - rewrite lookup_alter. case_decide; [subst|done]. by intros ?%fmap_is_Some.
  - intros [x Hx]. apply lookup_delete_Some in Hx as [_ Hx]. by eexists.
Qed.

(** ** The order *)

Lemma str_ltb_irrefl s : str_ltb s s = false.
Proof. induction s as [|c s IH]; simpl; [done|]. by rewrite Z.eqb_refl. Qed.

Lemma str_ltb_trans s t u : str_ltb s t = true -> str_ltb t u = true -> str_ltb s u = true.
Proof.
  revert t u. induction s as [|c s IH]; intros [|d t] [|e u]; simpl; try done.
  destruct (code c =? code d) eqn:H1, (code d =? code e) eqn:H2; reflect_bools; intros;
    reflect_bools.
  - rewrite (proj2 (Z.eqb_eq _ _)) by lia. by eapply IH.
  - rewrite (proj2 (Z.eqb_neq _ _)) by lia. apply Z.ltb_lt. lia.
  - rewrite (proj2 (Z.eqb_neq _ _)) by lia. apply Z.ltb_lt. lia.
  - rewrite (proj2 (Z.eqb_neq _ _)) by lia. apply Z.ltb_lt. lia.
Qed.

Lemma str_ltb_total s t : s = t \/ str_ltb s t = true \/ str_ltb t s = true.
Proof.
  revert t. induction s as [|c s IH]; intros [|d t]; simpl; [by left|by right; left|by right; right|].
  destruct (code c =? code d) eqn:Hc; reflect_bools.
  - rewrite (proj2 (Z.eqb_eq _ _)) by lia. apply code_inj in Hc as ->.
    destruct (IH t) as [->|[?|?]]; auto.
  - rewrite (proj2 (Z.eqb_neq (code d) _)) by lia.
    destruct (decide (code c < code d)); [right; left|right; right]; apply Z.ltb_lt; lia.
Qed.

(** Hexadecimal digits are in the order of their bytes, so names of the same
    length are in the order of the numbers they show. *)
Definition hex_char (c : ascii) : Prop := 48 <= code c <= 57 \/ 97 <= code c <= 102.

Lemma digit_val_hex c : hex_char c ->
  exists x, digit_val c = Some x /\ 0 <= x < 16 /\
    x = (if code c <=? 57 then code c - 48 else code c - 87).
Proof.
  unfold hex_char, digit_val. intros Hc.
  destruct ((48 <=? code c) && (code c <=? 57)) eqn:H1.
  - reflect_bools. eexists. split; [done|]. rewrite (proj2 (Z.leb_le _ _)) by lia. lia.
  - apply andb_false_iff in H1. rewrite (proj2 (Z.leb_le 97 _)), (proj2 (Z.leb_le _ 122)).
    + simpl. eexists. split; [done|]. rewrite (proj2 (Z.leb_gt _ _)); [lia|].
      destruct H1; reflect_bools; lia.
    + destruct H1; reflect_bools; lia.
    + destruct H1; reflect_bools; lia.
Qed.

Lemma parse_digits_bounds s a x :
  Forall hex_char s -> parse_digits 16 a s = Some x ->
  a * 16 ^ Z.of_nat (length s) <= x < (a + 1) * 16 ^ Z.of_nat (length s).
Proof.
  revert a. induction s as [|c s IH]; intros a Hs.
  - intros [= <-]. simpl. lia.
  - apply Forall_cons in Hs as [Hc Hs]. cbn [parse_digits length].
    destruct (digit_val_hex c Hc) as (d & -> & Hd & _). rewrite (proj2 (Z.ltb_lt _ _)) by lia.
    intros Hp%IH; [|done]. rewrite Nat2Z.inj_succ, Z.pow_succ_r by lia.
    pose proof (Z.pow_pos_nonneg 16 (Z.of_nat (length s)) ltac:(lia) ltac:(lia)). nia.
Qed.

Lemma parse_digits_lt s t a x y :
  length s = length t -> Forall hex_char s -> Forall hex_char t ->
  parse_digits 16 a s = Some x -> parse_digits 16 a t = Some y -> str_ltb s t = true -> x < y.
Proof.
  revert t a. induction s as [|c s IH]; intros [|d t] a Hlen Hs Ht; try done.
  apply Forall_cons in Hs as [Hc Hs], Ht as [Hd Ht]. injection Hlen as Hlen.
  cbn [parse_digits str_ltb].
  destruct (digit_val_hex c Hc) as (v & -> & Hv & Hvc).
  destruct (digit_val_hex d Hd) as (w & -> & Hw & Hwd).
  rewrite !(proj2 (Z.ltb_lt _ 16)) by lia. intros Hx Hy.
  destruct (code c =? code d) eqn:Hcd; reflect_bools.
  - apply code_inj in Hcd as ->. assert (v = w) as -> by congruence. by eapply IH.
  - intros Hlt. reflect_bools.
    assert (v < w) as Hvw.
    { unfold hex_char in *. destruct (code c <=? 57) eqn:H1, (code d <=? 57) eqn:H2;
        reflect_bools; lia. }
    apply parse_digits_bounds in Hx as [_ Hx]; [|done].
    apply parse_digits_bounds in Hy as [Hy _]; [|done]. rewrite Hlen in Hx.
    pose proof (Z.pow_pos_nonneg 16 (Z.of_nat (length t)) ltac:(lia) ltac:(lia)). nia.
Qed.

Definition in_offset (z : Z) : Prop := 0 <= z < 2 ^ 63.

Lemma tempName_lt a b : in_offset a -> in_offset b -> a < b -> str_ltb (tempName a) (tempName b) = true.
Proof.
  unfold in_offset, tempName. intros Ha Hb Hab.
  assert (forall z, 0 <= z < 2 ^ 63 -> z < 16 ^ Z.of_nat 16) as Hw by (intros; simpl; lia).
  destruct (str_ltb_total (fmt_hex_pad 16 a) (fmt_hex_pad 16 b)) as [He|[?|Hgt]]; [|done|].
  - apply fmt_hex_pad_inj in He; lia.
  - exfalso. assert (b < a); [|lia].
    apply (parse_digits_lt (fmt_hex_pad 16 b) (fmt_hex_pad 16 a) 0);
      [|apply fmt_hex_pad_chars; lia|apply fmt_hex_pad_chars; lia
       |apply fmt_hex_pad_parse; lia|apply fmt_hex_pad_parse; lia|done].
    pose proof (Hw a Ha). pose proof (Hw b Hb). rewrite !fmt_hex_pad_length by lia. done.
Qed.

(** ** Directories *)

Definition name_lt (x y : gostring * gostring) : Prop := str_ltb x.1 y.1 = true.

Definition sorted_dir (l : dir) : Prop := StronglySorted name_lt l.

Lemma dir_put_elem n d l x :
  sorted_dir l -> x ∈ dir_put n d l <-> x = (n, d) \/ (x ∈ l /\ x.1 <> n).
Proof.
  assert (forall l, Forall (name_lt (n, d)) l -> forall x, x ∈ l -> x.1 <> n) as Hne.
  { intros l' Hl y Hy Heq. eapply Forall_forall in Hl; [|exact Hy]. unfold name_lt in Hl.
    simpl in Hl. rewrite Heq, str_ltb_irrefl in Hl. done. }
  intros Hs. induction l as [|[n' d'] l IH]; simpl.
  - rewrite list_elem_of_singleton. split; [by left|]. intros [?|[?%elem_of_nil _]]; done.
  - apply StronglySorted_inv in Hs as [Hs Hl]. destruct (decide (n = n')) as [<-|Hn].
    + rewrite !elem_of_cons. split; [|intros [?|[[->|?] ?]]; auto; done].
      intros [?|Hx]; [by left|right]. split; [by right|]. by apply (Hne l).
    + destruct (str_ltb n n') eqn:Hlt.
      * rewrite !elem_of_cons. split; [|intros [?|[[?|?] ?]]; auto].
        intros [?|[->|Hx]]; [by left|by right; split; [left|]|right].
        split; [by right|]. apply (Hne l); [|done]. apply (Forall_impl _ _ _ Hl).
        intros y Hy. unfold name_lt in *. simpl in *. by eapply str_ltb_trans.
      * rewrite elem_of_cons, IH by done. rewrite elem_of_cons. split.
        -- intros [->|[?|[? ?]]]; [by right; split; [left|]|by left|by right; split; [right|]].
        -- intros [?|[[?|?] ?]]; auto.
Qed.

Lemma dir_put_sorted n d l : sorted_dir l -> sorted_dir (dir_put n d l).
Proof.
  unfold sorted_dir. induction l as [|[n' d'] l IH]; intros Hs; simpl.
  - repeat constructor.
  - pose proof Hs as Hs0. apply StronglySorted_inv in Hs as [Hs Hl].
    destruct (decide (n = n')) as [<-|Hn]; [by constructor|].
    destruct (str_ltb n n') eqn:Hlt.
    + constructor; [done|]. constructor; [done|]. apply (Forall_impl _ _ _ Hl).
      intros y Hy. unfold name_lt in *. simpl in *. by eapply str_ltb_trans.
    + constructor; [by apply IH|]. apply Forall_forall. intros x Hx.
      apply dir_put_elem in Hx as [->|[Hx _]]; [|by eapply Forall_forall in Hl|done].
      unfold name_lt. simpl. by destruct (str_ltb_total n n') as [?|[?|?]]; [done|congruence|].
Qed.

(** Two sorted directories with the same entries are the same. *)
Lemma sorted_dir_unique l1 l2 :
  sorted_dir l1 -> sorted_dir l2 -> (forall x, x ∈ l1 <-> x ∈ l2) -> l1 = l2.
Proof.
  assert (forall l, sorted_dir l -> NoDup l) as Hnd.
  { intros l Hl. induction l as [|x l IH]; [constructor|].
    apply StronglySorted_inv in Hl as [Hl Hx]. constructor; [|by apply IH].
    intros Hin. eapply Forall_forall in Hx; [|exact Hin]. unfold name_lt in Hx.
    by rewrite str_ltb_irrefl in Hx. }
  intros H1 H2 He. apply (StronglySorted_unique_strong name_lt); [|done|done|].
  - intros x y _ _ Hxy Hyx. unfold name_lt in *. pose proof (str_ltb_trans _ _ _ Hxy Hyx) as Ht.
    by rewrite str_ltb_irrefl in Ht.
  - apply NoDup_Permutation; auto.
Qed.

(** ** Uploads *)

(** Chunks that cover a text from an offset on, each not empty. *)
Fixpoint contiguous (off : Z) (chunks : list (Z * gostring)) : Prop :=
  match chunks with
  | [] => off < 2 ^ 63
  | (o, d) :: chunks => o = off /\ d <> [] /\ contiguous (off + Z.of_nat (length d)) chunks
  end.

Definition named (c : Z * gostring) : gostring * gostring := (tempName c.1, c.2).

Lemma contiguous_bounds off chunks :
  contiguous off chunks -> off < 2 ^ 63 /\ Forall (fun c => off <= c.1 < 2 ^ 63) chunks.
Proof.
  revert off. induction chunks as [|[o d] chunks IH]; intros off; simpl; [by split|].
  intros (-> & Hd & Hc). apply IH in Hc as [Hlt Hf].
  assert (0 < Z.of_nat (length d)) by (destruct d; simpl; [done|lia]).
  split; [lia|]. constructor; simpl; [lia|]. apply (Forall_impl _ _ _ Hf). simpl. intros x Hx. lia.
Qed.

Lemma contiguous_sorted off chunks :
  0 <= off -> contiguous off chunks -> sorted_dir (map named chunks).
Proof.
  unfold sorted_dir. revert off. induction chunks as [|[o d] chunks IH]; intros off Ho; simpl;
    [constructor|].
  intros (-> & Hd & Hc). assert (0 < Z.of_nat (length d)) by (destruct d; simpl; [done|lia]).
  constructor; [apply (IH (off + Z.of_nat (length d))); [lia|done]|].
  apply contiguous_bounds in Hc as [Hlt Hf]. apply Forall_map, (Forall_impl _ _ _ Hf).
  intros [o' d'] Ho'. unfold name_lt, named. simpl in *.
  apply tempName_lt; unfold in_offset; lia.
Qed.

(** The directory after a series of uploads. *)
Definition put_all (us : list (Z * gostring)) (l : dir) : dir :=
  foldl (fun l c => dir_put (tempName c.1) c.2 l) l us.

Lemma put_all_snoc us c l : put_all (us ++ [c]) l = dir_put (tempName c.1) c.2 (put_all us l).
Proof. unfold put_all. by rewrite foldl_app. Qed.

Lemma put_all_sorted us : sorted_dir (put_all us []).
Proof.
  induction us as [|c us IH] using rev_ind; [constructor|].
  rewrite put_all_snoc. by apply dir_put_sorted.
Qed.

(** Whatever the order of the uploads, and however often chunks are sent again,
    the directory holds each chunk once, in order. *)
Lemma put_all_chunks chunks us :
  contiguous 0 chunks -> (forall c, c ∈ us <-> c ∈ chunks) -> put_all us [] = map named chunks.
Proof.
  intros Hc Hus. apply sorted_dir_unique; [apply put_all_sorted|by eapply contiguous_sorted|].
  assert (forall c d, c ∈ chunks -> d ∈ chunks -> tempName c.1 = tempName d.1 -> c = d) as Hinj.
  { intros c d Hcc Hdc Hn. pose proof (contiguous_bounds _ _ Hc) as [_ Hb].
    pose proof (proj1 (Forall_forall _ _) Hb) as Hb'.
    pose proof (Hb' c Hcc). pose proof (Hb' d Hdc).
    cbv beta in *. apply fmt_hex_pad_inj in Hn; [|lia..].
    clear -Hc Hcc Hdc Hn. revert Hc Hcc Hdc. generalize 0. induction chunks as [|[o x] cs IH];
      intros off Hcon Hcc Hdc; [by apply elem_of_nil in Hcc|].
    destruct Hcon as (-> & Hx & Hcon). pose proof (contiguous_bounds _ _ Hcon) as [_ Hb].
    pose proof (proj1 (Forall_forall _ _) Hb) as Hb'.
    assert (0 < Z.of_nat (length x)) by (destruct x; simpl; [done|lia]).
    apply elem_of_cons in Hcc as [->|Hcc], Hdc as [->|Hdc]; simpl in *; [done|..].
    - specialize (Hb' _ Hdc). lia.
    - specialize (Hb' _ Hcc). lia.
    - by eapply IH. }
  assert (forall us', (forall c, c ∈ us' -> c ∈ chunks) ->
            forall x, x ∈ put_all us' [] <-> exists c, c ∈ us' /\ x = named c) as Hput.
  { intros us'. induction us' as [|c us' IH] using rev_ind; intros Hsub x.
    - split; [by intros ?%elem_of_nil|by intros (? & ?%elem_of_nil & _)].
    - rewrite put_all_snoc, dir_put_elem by apply put_all_sorted.
      assert (c ∈ chunks) as Hcin by (apply Hsub, elem_of_app; right; left).
      rewrite IH by (intros d Hd; apply Hsub, elem_of_app; by left). split.
      + intros [->|[(d & Hd & ->) _]]; [exists c|exists d]; (split; [|done]);
          apply elem_of_app; [right; left|by left].
      + intros (d & [Hd| ->%list_elem_of_singleton]%elem_of_app & ->); [|by left].
        destruct (decide (tempName d.1 = tempName c.1)) as [Heq|Hne].
        * left. assert (d = c) as ->; [|done]. apply Hinj; [|done|done].
          apply Hsub, elem_of_app. by left.
        * right. split; [by exists d|done]. }
  intros x. rewrite Hput by (intros c; by rewrite Hus). rewrite list_elem_of_fmap.
  split; intros (c & Hc1 & Hc2); exists c; [|]; split; try done; by apply Hus.
Qed.

Lemma concat_named chunks : concat (map snd (map named chunks)) = concat (map snd chunks).
Proof. by rewrite map_map. Qed.
