(* ===== verification/CacheServer.v ===== *)
(** * The cache server ([pkg/cache/handler.go])

    The protocol handlers over the index and the blob store, and the garbage
    collector, with the places where an operation can fail as arguments: a
    query, a row's update or deletion, a file operation, a removal that leaves
    files behind. *)
From Stdlib Require Import Ascii.
From S2P Require Import Prelude GoStrings CacheDb CacheStore.
#[local] Open Scope Z_scope.
#[local] Open Scope go_scope.

Record Server := { db : DB; store : Storage; gcAt : option Z }.

(** ** [parseContentRange] *)

Definition cut_before (c : ascii) (s : gostring) : gostring :=
  match cut c s with Some (a, _) => a | None => s end.
Definition cut_after (c : ascii) (s : gostring) : gostring :=
  match cut c s with Some (_, b) => b | None => [] end.

Definition slash : ascii := chr 47.
Definition comma : ascii := chr 44.
Definition dash : ascii := chr 45.

Definition parseContentRange (s : gostring) : option (Z * Z) :=
  let s := cut_before slash (trim_prefix s "bytes ") in
  start ← parse_int 64 (cut_before dash s);
  stop ← parse_int 64 (cut_after dash s);
  Some (start, stop).

(** ** Responses *)

Inductive response :=
  | Status (code : Z)
  | Hit (id : Z) (key : gostring)
  | Reserved (id : Z)
  | Blob (content : option gostring).

(** Which operation of a request fails, if any. *)
Inductive fault :=
  | NoFault
  | DbQuery
  | DbUpdate
  | BlobStat
  | ChunkWrite (f : write_fault)
  | BlobCommit (f : commit_fault).

Definition set_db (d : DB) (s : Server) : Server := {| db := d; store := store s; gcAt := gcAt s |}.
Definition set_store (st : Storage) (s : Server) : Server :=
  {| db := db s; store := st; gcAt := gcAt s |}.

Section handlers.
Context `{Sql} `{UnicodeTables}.

(** [GET /cache]: [keys] and [version] are the query parameters. *)
Definition find (f : fault) (keys version : gostring) (s : Server) : response * Server :=
  let keys := map to_lower (split comma keys) in
  match f with
  | DbQuery => (Status 500, s)
  | _ =>
      match FindCache (db s) keys version with
      | None => (Status 204, s)
      | Some c =>
          match f with
          | BlobStat => (Status 500, s)
          | _ => if Exist (cID c) (store s) then (Hit (cID c) (Key c), s)
                 else (Status 204, match f with DbUpdate => s | _ => set_db (DeleteCache (cID c) (db s)) s end)
          end
      end
  end.

(** [POST /caches]: the decoded body, or [None] when it does not decode. *)
Definition reserve (f : fault) (now : Z) (req : option (gostring * gostring * Z)) (s : Server)
    : response * Server :=
  match req with
  | None => (Status 400, s)
  | Some (key, version, size) =>
      match f with
      | DbUpdate => (Status 500, s)
      | _ =>
          let '(id, d) := InsertCache now (to_lower key) version (if size =? 0 then -1 else size) (db s) in
          (Reserved id, set_db d s)
      end
  end.

(** The checks [upload] and [commit] share: the id, the row, not complete. *)
Definition open_entry (f : fault) (id : gostring) (s : Server) : response + Cache :=
  match parse_int 64 id with
  | None => inl (Status 400)
  | Some id =>
      match f with
      | DbQuery => inl (Status 500)
      | _ => match GetCache id (db s) with
             | None => inl (Status 400)
             | Some c => if Complete c then inl (Status 400) else inr c
             end
      end
  end.

(** [PATCH /caches/:id]; a failed touch is ignored. *)
Definition upload (f : fault) (now : Z) (id range body : gostring) (s : Server) : response * Server :=
  match open_entry f id s with
  | inl r => (r, s)
  | inr c =>
      match parseContentRange range with
      | None => (Status 400, s)
      | Some (start, _) =>
          match Write (match f with ChunkWrite w => Some w | _ => None end) (cID c) start body (store s) with
          | (Some _, st) => (Status 500, set_store st s)
          | (None, st) =>
              let s := set_store st s in
              (Status 200, match f with DbUpdate => s | _ => set_db (TouchCache now (cID c) (db s)) s end)
          end
      end
  end.

(** [POST /caches/:id]; [rest] is what the removal of the chunks leaves. *)
Definition commit (f : fault) (rest : option (gostring -> bool)) (id : gostring) (s : Server)
    : response * Server :=
  match open_entry f id s with
  | inl r => (r, s)
  | inr c =>
      match Commit (match f with BlobCommit w => Some w | _ => None end) rest (cID c) (Size c) (store s) with
      | (Err _, st) => (Status 500, set_store st s)
      | (Ok size, st) =>
          let s := set_store st s in
          match f with
          | DbUpdate => (Status 500, s)
          | _ => (Status 200, set_db (CompleteCache (cID c) size (db s)) s)
          end
      end
  end.

(** [GET /artifacts/:id]: the blob's content, or not found. *)
Definition get (f : fault) (now : Z) (id : gostring) (s : Server) : response * Server :=
  match parse_int 64 id with
  | None => (Status 400, s)
  | Some id =>
      (Blob (blobs (store s) !! id),
       match f with DbUpdate => s | _ => set_db (TouchCache now id (db s)) s end)
  end.

Definition clean (s : Server) : response * Server := (Status 200, s).
End handlers.

(** ** Garbage collection *)

Definition day : Z := 24 * 60 * 60.
Definition keepUsed : Z := 30 * day.
Definition keepUnused : Z := 7 * day.
Definition keepTemp : Z := 5 * 60.
Definition keepOld : Z := 5 * 60.

(** What fails in one of its loops, all of it ignored by the code: the query
    may stop after some rows, a removal may leave files, a row may stay. *)
Record loop_fault := {
  rowsFound : option nat;
  removeFails : Z -> remove_fault;
  deleteFails : Z -> bool;
}.

Definition no_loop_fault : loop_fault :=
  {| rowsFound := None; removeFails := fun _ => removes_all; deleteFails := fun _ => false |}.

Record gc_fault := { onTemp : loop_fault; onUnused : loop_fault; onOld : loop_fault; onDup : loop_fault }.

Definition no_gc_fault : gc_fault :=
  {| onTemp := no_loop_fault; onUnused := no_loop_fault; onOld := no_loop_fault;
     onDup := no_loop_fault |}.

(** One entry: its files, then its row. *)
Definition collect_one (f : loop_fault) (s : Server) (c : Cache) : Server :=
  let s := set_store (Remove (removeFails f (cID c)) (cID c) (store s)) s in
  if deleteFails f (cID c) then s else set_db (DeleteCache (cID c) (db s)) s.

(** One of its loops, over the entries a query found. *)
Definition collect (f : loop_fault) (cs : list Cache) (s : Server) : Server :=
  foldl (collect_one f) s (match rowsFound f with Some n => take n cs | None => cs end).

Definition gc_temp (now : Z) (c : Cache) : bool := (UsedAt c <? now - keepTemp) && negb (Complete c).
Definition gc_unused (now : Z) (c : Cache) : bool := UsedAt c <? now - keepUnused.
Definition gc_old (now : Z) (c : Cache) : bool := CreatedAt c <? now - keepUsed.

(** [gcCache] at a time [now] in seconds, when no other run is under way. *)
Definition gcCache (f : gc_fault) (now : Z) (s : Server) : Server :=
  if match gcAt s with Some t => now - t <? 60 * 60 | None => false end then s
  else
    let s := {| db := db s; store := store s; gcAt := Some now |} in
    let s := collect (onTemp f) (FindExpired (gc_temp now) (db s)) s in
    let s := collect (onUnused f) (FindExpired (gc_unused now) (db s)) s in
    let s := collect (onOld f) (FindExpired (gc_old now) (db s)) s in
    collect (onDup f) (FindDuplicates (now - keepOld) (db s)) s.

(** ** Requests and the server's invariant *)

Inductive request :=
  | RFind (f : fault) (keys version : gostring)
  | RReserve (f : fault) (now : Z) (req : option (gostring * gostring * Z))
  | RUpload (f : fault) (now : Z) (id range body : gostring)
  | RCommit (f : fault) (rest : option (gostring -> bool)) (id : gostring)
  | RGet (f : fault) (now : Z) (id : gostring)
  | RClean
  | RGc (f : gc_fault) (now : Z).

Definition serve `{Sql} `{UnicodeTables} (r : request) (s : Server) : response * Server :=
  match r with
  | RFind f keys version => find f keys version s
  | RReserve f now req => reserve f now req s
  | RUpload f now id range body => upload f now id range body s
  | RCommit f rest id => commit f rest id s
  | RGet f now id => get f now id s
  | RClean => clean s
  | RGc f now => (Status 200, gcCache f now s)
  end.

Fixpoint serve_all `{Sql} `{UnicodeTables} (l : list request) (s : Server) : Server :=
  match l with [] => s | r :: l => serve_all l (serve r s).2 end.

Definition empty_server : Server :=
  {| db := {| rows := []; last_id := 0 |}; store := {| blobs := ∅; temps := ∅ |}; gcAt := None |}.

(** A row: its id was assigned, and if it is complete its blob, as long as it
    is there, has the recorded size. *)
Definition row_ok (st : Storage) (last : Z) (c : Cache) : Prop :=
  cID c <= last /\
  (Complete c = true -> forall b, blobs st !! cID c = Some b -> Size c = Z.of_nat (length b)).

(** Rows have distinct ids and are all right, and files only have ids that
    were assigned. *)
Definition server_inv (s : Server) : Prop :=
  NoDup (map cID (rows (db s))) /\
  Forall (row_ok (store s) (last_id (db s))) (rows (db s)) /\
  (forall id, is_Some (blobs (store s) !! id) -> id <= last_id (db s)) /\
  (forall id, is_Some (temps (store s) !! id) -> id <= last_id (db s)).

Definition has_row (d : DB) (id : Z) : Prop := exists c, c ∈ rows d /\ cID c = id.
Definition has_open_row (d : DB) (id : Z) : Prop :=
  exists c, c ∈ rows d /\ cID c = id /\ Complete c = false.

(** Index and files agree: every complete row has its blob, no blob is without
    a row, and no temporary directory without an incomplete row. *)
Definition files_match (s : Server) : Prop :=
  Forall (fun c => Complete c = true -> is_Some (blobs (store s) !! cID c)) (rows (db s)) /\
  (forall id, is_Some (blobs (store s) !! id) -> has_row (db s) id) /\
  (forall id, is_Some (temps (store s) !! id) -> has_open_row (db s) id).

(** A request in which no removal of files or of a collected row fails. *)
Definition loop_tidy (f : loop_fault) : Prop :=
  forall id, removeFails f id = removes_all /\ deleteFails f id = false.
Definition tidy (r : request) : Prop :=
  match r with
  | RCommit _ rest _ => rest = None
  | RGc f _ => loop_tidy (onTemp f) /\ loop_tidy (onUnused f) /\ loop_tidy (onOld f) /\ loop_tidy (onDup f)
  | _ => True
  end.

Lemma ids_inj (l : list Cache) c d : NoDup (map cID l) -> c ∈ l -> d ∈ l -> cID c = cID d -> c = d.
Proof.
  induction l as [|x l IH]; intros Hn Hc Hd He; [by apply elem_of_nil in Hc|].
  apply NoDup_cons in Hn as [Hx Hn].
  apply elem_of_cons in Hc as [->|Hc], Hd as [->|Hd]; auto;
    exfalso; apply Hx; apply list_elem_of_fmap; eauto.
Qed.

Lemma GetCache_Some id d c : GetCache id d = Some c -> c ∈ rows d /\ cID c = id.
Proof.
  unfold GetCache. intros Hf. apply find_some in Hf as [Hin Hid]. reflect_bools.
  by rewrite list_elem_of_In.
Qed.

Lemma DeleteCache_rows id d c : c ∈ rows (DeleteCache id d) <-> c ∈ rows d /\ cID c <> id.
Proof.
  unfold DeleteCache. simpl. rewrite elem_of_filter_bool, negb_true_iff, Z.eqb_neq. tauto.
Qed.

Lemma NoDup_filter_ids (f : Cache -> bool) l :
  NoDup (map cID l) -> NoDup (map cID (List.filter f l)).
Proof.
  induction l as [|x l IH]; [done|]. intros [Hx Hn]%NoDup_cons. simpl.
  destruct (f x); [|by apply IH]. simpl. apply NoDup_cons. split; [|by apply IH].
  intros (c & Hc & Hin)%list_elem_of_fmap. apply elem_of_filter_bool in Hin as [_ Hin].
  apply Hx. apply list_elem_of_fmap. eauto.
Qed.

Lemma update_row_ids id f d :
  (forall c, cID (f c) = cID c) -> map cID (rows (update_row id f d)) = map cID (rows d).
Proof.
  intros Hf. unfold update_row. simpl. rewrite map_map. apply map_ext. intros c.
  destruct (cID c =? id); [apply Hf|done].
Qed.

Lemma update_row_elem id f d c :
  c ∈ rows (update_row id f d) <->
  exists c0, c0 ∈ rows d /\ c = if cID c0 =? id then f c0 else c0.
Proof.
  unfold update_row. simpl. rewrite list_elem_of_fmap. split; intros (c0 & ? & ?); eauto.
Qed.

(** A row update that keeps ids, sizes and completeness keeps both. *)
Lemma touch_inv now id s : server_inv s -> server_inv (set_db (TouchCache now id (db s)) s).
Proof.
  intros (Hn & Hr & Hb & Ht). unfold TouchCache. set (f := fun _ => _).
  unfold server_inv. cbn [set_db db store]. split; [by rewrite update_row_ids|]. split; [|done].
  apply Forall_forall. intros c (c0 & Hin & ->)%update_row_elem.
  pose proof (proj1 (Forall_forall _ _) Hr c0 Hin) as [Hl Hbl]. by destruct (cID c0 =? id).
Qed.

Lemma touch_match now id s : files_match s -> files_match (set_db (TouchCache now id (db s)) s).
Proof.
  intros (Hr & Hb & Ht). unfold TouchCache. set (f := fun _ => _).
  unfold files_match. cbn [set_db db store].
  assert (forall c0, cID (if cID c0 =? id then f c0 else c0) = cID c0 /\
                     Complete (if cID c0 =? id then f c0 else c0) = Complete c0) as Hf
    by (intros c0; by destruct (cID c0 =? id)).
  split; [|split].
  - apply Forall_forall. intros c (c0 & Hin & ->)%update_row_elem.
    destruct (Hf c0) as [-> ->]. by apply (proj1 (Forall_forall _ _) Hr).
  - intros i (c0 & Hin & Hid)%Hb. eexists. split; [apply update_row_elem; eauto|].
    by destruct (Hf c0) as [-> _].
  - intros i (c0 & Hin & Hid & Hco)%Ht. eexists. split; [apply update_row_elem; eauto|].
    by destruct (Hf c0) as [-> ->].
Qed.

(** Files may go, and rows may go. *)
Lemma fewer_files st s :
  server_inv s ->
  (forall i b, blobs st !! i = Some b -> blobs (store s) !! i = Some b) ->
  (forall i, is_Some (temps st !! i) -> is_Some (temps (store s) !! i)) ->
  server_inv (set_store st s).
Proof.
  intros (Hn & Hr & Hb & Ht) Hbs Hts. unfold server_inv. cbn [set_store db store].
  split; [done|]. split; [|split].
  - apply (Forall_impl _ _ _ Hr). intros c [Hl Hc]. split; [done|]. eauto.
  - intros i [x Hx]. apply Hb. eauto.
  - intros i Hi. by apply Ht, Hts.
Qed.

Lemma delete_row_inv id s : server_inv s -> server_inv (set_db (DeleteCache id (db s)) s).
Proof.
  intros (Hn & Hr & Hb & Ht). split; [by apply NoDup_filter_ids|]. split; [|done].
  apply Forall_forall. intros c [Hin _]%DeleteCache_rows. by apply (proj1 (Forall_forall _ _) Hr).
Qed.

Lemma Remove_files f id st :
  (forall i b, blobs (Remove f id st) !! i = Some b -> blobs st !! i = Some b) /\
  (forall i, is_Some (temps (Remove f id st) !! i) -> is_Some (temps st !! i)).
Proof.
  unfold Remove. simpl. split.
  - intros i b. destruct (blobLeft f); [done|]. by intros [_ ?]%lookup_delete_Some.
  - intros i. apply remove_all_some.
Qed.

Lemma collect_one_inv f c s : server_inv s -> server_inv (collect_one f s c).
Proof.
  intros Hs. destruct (Remove_files (removeFails f (cID c)) (cID c) (store s)) as [Hb Ht].
  pose proof (fewer_files _ s Hs Hb Ht) as Hs'. unfold collect_one.
  destruct (deleteFails _ _); [done|]. by apply (delete_row_inv _ _ Hs').
Qed.

Lemma collect_one_match f c s : loop_tidy f -> files_match s -> files_match (collect_one f s c).
Proof.
  intros Hf (Hr & Hb & Ht). unfold collect_one. destruct (Hf (cID c)) as [-> ->].
  unfold files_match, removes_all, Remove. cbn [set_db set_store db store blobs temps blobLeft tempLeft remove_all].
  split; [|split].
  - apply Forall_forall. intros d [Hin Hne]%DeleteCache_rows Hc. rewrite lookup_delete_ne by done.
    by apply (proj1 (Forall_forall _ _) Hr).
  - intros i [x Hx]. apply lookup_delete_Some in Hx as [Hne Hx].
    destruct (Hb i) as (d & Hin & Hid); [by eexists|]. exists d.
    split; [apply DeleteCache_rows; split; congruence|done].
  - intros i [x Hx]. apply lookup_delete_Some in Hx as [Hne Hx].
    destruct (Ht i) as (d & Hin & Hid & Hc); [by eexists|]. exists d.
    split; [apply DeleteCache_rows; split; congruence|done].
Qed.

(** What one entry's collection keeps, the loops and the collector keep. *)
Lemma collect_keeps (P : Server -> Prop) f cs s :
  (forall c s, P s -> P (collect_one f s c)) -> P s -> P (collect f cs s).
Proof.
  intros Hstep. unfold collect. generalize (match rowsFound f with Some n => take n cs | None => cs end).
  intros l. revert s. induction l as [|c l IH]; intros s Hs; [done|]. simpl. by apply IH, Hstep.
Qed.

Lemma collect_inv f cs s : server_inv s -> server_inv (collect f cs s).
Proof. apply collect_keeps. intros c s'. apply collect_one_inv. Qed.

Lemma collect_match f cs s : loop_tidy f -> files_match s -> files_match (collect f cs s).
Proof. intros Hf. apply collect_keeps. intros c s'. by apply collect_one_match. Qed.

Lemma gc_inv f now s : server_inv s -> server_inv (gcCache f now s).
Proof. intros Hs. unfold gcCache. case_match; [done|]. by repeat apply collect_inv. Qed.

Lemma gc_match f now s : tidy (RGc f now) -> files_match s -> files_match (gcCache f now s).
Proof.
  intros (H1 & H2 & H3 & H4) Hs. unfold gcCache. case_match; [done|].
  by repeat (apply collect_match; [done|]).
Qed.

Lemma open_entry_inr f id s c :
  open_entry f id s = inr c -> c ∈ rows (db s) /\ Complete c = false /\ parse_int 64 id = Some (cID c).
Proof.
  unfold open_entry. destruct (parse_int 64 id) as [i|]; [|done].
  destruct f; try done; destruct (GetCache i (db s)) as [c'|] eqn:Hg; try done;
    destruct (Complete c') eqn:Hc; try done; intros [= <-];
    apply GetCache_Some in Hg as [? ->]; done.
Qed.

(** A change of the files of one open entry keeps both. *)
Lemma files_inv c st s :
  server_inv s -> c ∈ rows (db s) -> Complete c = false ->
  (forall i, i <> cID c -> blobs st !! i = blobs (store s) !! i /\ temps st !! i = temps (store s) !! i) ->
  server_inv (set_store st s).
Proof.
  intros (Hn & Hr & Hb & Ht) Hin Hc Hst. unfold server_inv. cbn [set_store db store].
  pose proof (proj1 (Forall_forall _ _) Hr c Hin) as [Hlast _].
  split; [done|]. split; [|split].
  - apply Forall_forall. intros d Hd. pose proof (proj1 (Forall_forall _ _) Hr d Hd) as [Hl Hbl].
    split; [done|]. intros Hcd b. destruct (decide (cID d = cID c)) as [He|Hne].
    + assert (d = c) as -> by by eapply ids_inj. congruence.
    + destruct (Hst _ Hne) as [-> _]. by apply Hbl.
  - intros i Hi. destruct (decide (i = cID c)) as [->|Hne]; [done|].
    destruct (Hst _ Hne) as [He _]. rewrite He in Hi. by apply Hb.
  - intros i Hi. destruct (decide (i = cID c)) as [->|Hne]; [done|].
    destruct (Hst _ Hne) as [_ He]. rewrite He in Hi. by apply Ht.
Qed.

Lemma files_matching c st s :
  NoDup (map cID (rows (db s))) -> files_match s -> c ∈ rows (db s) -> Complete c = false ->
  (forall i, i <> cID c -> blobs st !! i = blobs (store s) !! i /\ temps st !! i = temps (store s) !! i) ->
  files_match (set_store st s).
Proof.
  intros Hn (Hr & Hb & Ht) Hin Hc Hst. unfold files_match. cbn [set_store db store].
  split; [|split].
  - apply Forall_forall. intros d Hd Hcd. destruct (decide (cID d = cID c)) as [He|Hne].
    + assert (d = c) as -> by by eapply ids_inj. congruence.
    + destruct (Hst _ Hne) as [-> _]. by apply (proj1 (Forall_forall _ _) Hr).
  - intros i Hi. destruct (decide (i = cID c)) as [->|Hne]; [by exists c|].
    destruct (Hst _ Hne) as [He _]. rewrite He in Hi. by apply Hb.
  - intros i Hi. destruct (decide (i = cID c)) as [->|Hne]; [by exists c|].
    destruct (Hst _ Hne) as [_ He]. rewrite He in Hi. by apply Ht.
Qed.

Lemma Write_files f id off data st e st' :
  Write f id off data st = (e, st') ->
  forall i, i <> id -> blobs st' !! i = blobs st !! i /\ temps st' !! i = temps st !! i.
Proof.
  unfold Write, put_chunk. intros Hw i Hi.
  destruct f as [[]|]; injection Hw as <- <-; simpl; by rewrite ?lookup_insert_ne.
Qed.

Lemma Commit_files f rest id size st r st' :
  Commit f rest id size st = (r, st') ->
  (forall i, i <> id -> blobs st' !! i = blobs st !! i /\ temps st' !! i = temps st !! i) /\
  temps st' = remove_all rest id (temps st) /\
  (forall n, r = Ok n -> exists chunks, temps st !! id = Some chunks /\
     blobs st' !! id = Some (concat (map snd chunks)) /\
     n = Z.of_nat (length (concat (map snd chunks)))).
Proof.
  unfold Commit. intros Hc. destruct (temps st !! id) as [chunks|] eqn:Ht.
  - destruct f as [[]|]; try (destruct (_ && _)); injection Hc as <- <-; simpl;
      (split; [intros i Hi; by rewrite ?remove_all_ne, ?lookup_insert_ne, ?lookup_delete_ne by done|]);
      rewrite ?lookup_insert_eq; (split; [done|]); intros k Hk; simplify_eq; by exists chunks.
  - injection Hc as <- <-. simpl. split; [intros i Hi; by rewrite remove_all_ne|]. by split.
Qed.

Section invariant.
Context `{SqlLaws} `{UnicodeTables}.

Lemma FindCache_row d keys version c :
  FindCache d keys version = Some c -> c ∈ rows d /\ Complete c = true.
Proof.
  induction keys as [|k keys IH]; cbn [FindCache]; [done|].
  destruct (newest (List.filter (exact k version) (rows d))) as [c'|] eqn:He.
  { intros [= ->]. apply newest_some in He as [Hin _].
    by apply exact_spec in Hin as (? & [_ ?] & _). }
  destruct (newest (List.filter (prefixed k version) (rows d))) as [c'|] eqn:Hp; [|done].
  intros [= ->]. apply newest_some in Hp as [Hin _]. apply elem_of_filter_bool in Hin as [Hf ?].
  split; [done|]. by apply andb_true_iff in Hf as [_ ?].
Qed.

Lemma find_inv f keys version s : server_inv s -> server_inv (find f keys version s).2.
Proof.
  intros Hs. unfold find.
  destruct f; try done; destruct (FindCache _ _ _) as [c|]; try done;
    destruct (Exist _ _); try done; by apply delete_row_inv.
Qed.

Lemma find_match f keys version s : files_match s -> files_match (find f keys version s).2.
Proof.
  intros Hs. pose proof Hs as (Hr & _). unfold find.
  destruct f; try done; destruct (FindCache _ _ _) as [c|] eqn:Hf; try done;
    destruct (Exist _ _) eqn:He; try done;
    apply FindCache_row in Hf as [Hin Hc]; apply bool_decide_eq_false in He; exfalso;
    apply He; by apply (proj1 (Forall_forall _ _) Hr c Hin).
Qed.

Lemma insert_inv now key version sz s :
  server_inv s -> server_inv (set_db (InsertCache now key version sz (db s)).2 s).
Proof.
  intros (Hn & Hr & Hb & Ht). unfold server_inv, InsertCache. simpl. split_and!.
  - rewrite map_app. apply NoDup_app. split; [done|]. split; [|apply NoDup_singleton].
    intros i Hi Hi1. apply list_elem_of_singleton in Hi1 as ->.
    apply list_elem_of_fmap in Hi as (c & Hc & Hin).
    destruct (proj1 (Forall_forall _ _) Hr c Hin). simpl in *. lia.
  - apply Forall_app. split; [|by repeat constructor].
    apply (Forall_impl _ _ _ Hr). intros c [? ?]. split; [lia|done].
  - intros i Hi%Hb. lia.
  - intros i Hi%Ht. lia.
Qed.

Lemma insert_match now key version sz s :
  files_match s -> files_match (set_db (InsertCache now key version sz (db s)).2 s).
Proof.
  intros (Hr & Hb & Ht). unfold files_match, InsertCache. simpl. split_and!.
  - apply Forall_app. split; [done|by repeat constructor].
  - intros i (c & Hin & Hid)%Hb. exists c. split; [apply elem_of_app; by left|done].
  - intros i (c & Hin & Hid)%Ht. exists c. split; [apply elem_of_app; by left|done].
Qed.

(** Uploads: what the store does is confined to the files of one open row. *)
Lemma upload_step_inv f now id range body s :
  server_inv s ->
  server_inv (upload f now id range body s).2 /\
  (files_match s -> files_match (upload f now id range body s).2).
Proof.
  intros Hs. unfold upload. destruct (open_entry f id s) as [r|c] eqn:Ho; [done|].
  apply open_entry_inr in Ho as (Hin & Hc & _).
  destruct (parseContentRange range) as [[start stop]|]; [|done].
  destruct (Write _ _ _ _ _) as [e st] eqn:Hw. pose proof (Write_files _ _ _ _ _ _ _ Hw) as Hf.
  assert (server_inv (set_store st s)) as Hs1 by by eapply files_inv.
  assert (files_match s -> files_match (set_store st s)) as Hm1
    by (intros Hm; eapply files_matching; [apply Hs|done..]).
  destruct e as [[]|]; [done|]. cbn [snd].
  destruct f; (split; [by apply touch_inv || exact Hs1|]); intros Hm%Hm1; by apply touch_match || exact Hm.
Qed.

Lemma complete_inv id n b s :
  blobs (store s) !! id = Some b -> n = Z.of_nat (length b) ->
  server_inv s -> server_inv (set_db (CompleteCache id n (db s)) s).
Proof.
  intros Hblob Hb' (Hn & Hr & Hb & Ht). unfold server_inv, CompleteCache. set (g := fun _ => _).
  cbn [set_db db store]. split; [by rewrite update_row_ids|]. split; [|done].
  apply Forall_forall. intros d (d0 & Hd & ->)%update_row_elem.
  destruct (proj1 (Forall_forall _ _) Hr d0 Hd) as [Hl Hbl].
  destruct (cID d0 =? id) eqn:He; reflect_bools; [|done].
  split; [simpl; lia|]. intros _ b'. simpl. rewrite He, Hblob. by intros [= <-].
Qed.

Lemma complete_match id n s :
  is_Some (blobs (store s) !! id) -> temps (store s) !! id = None ->
  files_match s -> files_match (set_db (CompleteCache id n (db s)) s).
Proof.
  intros Hblob Htn (Hr & Hb & Ht). unfold files_match, CompleteCache.
  cbn [set_db db store]. split_and!.
  - apply Forall_forall. intros d (d0 & Hd & ->)%update_row_elem.
    destruct (cID d0 =? id) eqn:He; reflect_bools; [simpl; intros _; by rewrite He|].
    by apply (proj1 (Forall_forall _ _) Hr).
  - intros i (d & Hd & Hid)%Hb. eexists.
    split; [apply update_row_elem; exists d; split; [done|reflexivity]|].
    by destruct (cID d =? id).
  - intros i Hi. destruct (Ht i Hi) as (d & Hd & Hid & Hcd).
    assert (i <> id) by (intros ->; rewrite Htn in Hi; by destruct Hi).
    exists d. split; [|done]. apply update_row_elem. exists d. split; [done|].
    by rewrite (proj2 (Z.eqb_neq _ _)) by congruence.
Qed.

Lemma commit_step_inv f rest id s :
  server_inv s ->
  server_inv (commit f rest id s).2 /\
  (rest = None -> files_match s -> files_match (commit f rest id s).2).
Proof.
  intros Hs. unfold commit. destruct (open_entry f id s) as [r|c] eqn:Ho; [done|].
  apply open_entry_inr in Ho as (Hin & Hc & _).
  destruct (Commit _ _ _ _ _) as [r st] eqn:Hcm. apply Commit_files in Hcm as (Hf & Htn & Hok).
  pose proof (files_inv c st s Hs Hin Hc Hf) as Hs1.
  assert (files_match s -> files_match (set_store st s)) as Hm1
    by (intros Hm; eapply files_matching; [apply Hs|done..]).
  destruct r as [n|[]]; [|by split].
  destruct (Hok n eq_refl) as (chunks & _ & Hblob & ->).
  destruct f; try (by split); (split; [by apply (complete_inv _ _ (concat (map snd chunks)) (set_store st s))|]);
    intros -> Hm%Hm1; apply (complete_match _ _ (set_store st s)); try done;
    cbn [set_store store]; rewrite ?Hblob; try (by eexists);
    by rewrite Htn; simpl; rewrite lookup_delete_eq.
Qed.

Lemma cache_serve_inv r s :
  server_inv s ->
  server_inv (serve r s).2 /\ (tidy r -> files_match s -> files_match (serve r s).2).
Proof.
  destruct r as [f keys version|f now req|f now id range body|f rest id|f now id| |f now];
    cbn [serve]; intros Hs.
  - split; [by apply find_inv|intros _; apply find_match].
  - unfold reserve. destruct req as [[[key version] size]|]; [|done].
    destruct f; try done; split; by intros; apply insert_inv || apply insert_match.
  - destruct (upload_step_inv f now id range body s Hs). by split.
  - by apply commit_step_inv.
  - unfold get. destruct (parse_int 64 id); [|done].
    destruct f; try done; split; by intros; apply touch_inv || apply touch_match.
  - done.
  - split; [by apply gc_inv|]. intros Ht. by apply gc_match.
Qed.

Lemma serve_all_inv l s : server_inv s -> server_inv (serve_all l s).
Proof.
  revert s. induction l as [|r l IH]; intros s Hs; [done|]. cbn [serve_all]. apply IH.
  by apply cache_serve_inv.
Qed.

Lemma serve_all_match l s :
  Forall tidy l -> server_inv s -> files_match s -> files_match (serve_all l s).
Proof.
  intros Hl. revert s. induction Hl as [|r l Hr Hl IH]; intros s Hs Hm; [done|].
  cbn [serve_all]. destruct (cache_serve_inv r s Hs) as [Hs' Hm']. by apply IH; [|apply Hm'].
Qed.

Lemma empty_inv : server_inv empty_server.
Proof.
  split; [constructor|]. split; [constructor|].
  split; intros id [x Hx]; simpl in Hx; by rewrite lookup_empty in Hx.
Qed.

Lemma empty_match : files_match empty_server.
Proof.
  split; [constructor|].
  split; intros id [x Hx]; simpl in Hx; by rewrite lookup_empty in Hx.
Qed.

(** C9: what the cache answers is what it holds.  After any sequence of
    requests and garbage collections, with any failures of the database and of
    the file system on the way, the ignored ones of the collector included:
    the ids are distinct; a hit names a complete row whose blob is there, has
    exactly the recorded size, and is what downloading it gives; and a complete
    row whose blob is gone is not served but deleted by the lookup that meets
    it.  If no removal failed (of an upload's temporary directory, of a
    collected entry's files or of its row), index and files agree as well:
    every complete row has its blob, no blob is without a row and no temporary
    directory without an unfinished upload. *)
Theorem cache_consistent l f keys version now :
  let s := serve_all l empty_server in
  NoDup (map cID (rows (db s))) /\
  (forall id key, (find f keys version s).1 = Hit id key -> exists c b,
     c ∈ rows (db s) /\ cID c = id /\ Key c = key /\ Complete c = true /\
     Z.of_nat (length b) = Size c /\
     (- 2 ^ 63 <= id < 2 ^ 63 -> (get f now (itoa id) s).1 = Blob (Some b))) /\
  (forall c, FindCache (db s) (map to_lower (split comma keys)) version = Some c ->
     blobs (store s) !! cID c = None ->
     (find NoFault keys version s).1 = Status 204 /\
     forall d, d ∈ rows (db (find NoFault keys version s).2) <-> d ∈ rows (db s) /\ d <> c) /\
  (Forall tidy l -> files_match s).
Proof.
  intros s. assert (server_inv s) as Hs by apply serve_all_inv, empty_inv.
  pose proof Hs as (Hn & Hr & _). split; [done|]. split_and!.
  - intros id key. unfold find. intros Hhit.
    assert (exists c, FindCache (db s) (map to_lower (split comma keys)) version = Some c /\
                      Exist (cID c) (store s) = true /\ cID c = id /\ Key c = key)
      as (c & Hf & He & Hid & Hk).
    { destruct f; try done; destruct (FindCache _ _ _) as [c|]; try done;
        destruct (Exist _ _) eqn:He; try done; injection Hhit as <- <-; eauto. }
    apply FindCache_row in Hf as [Hin Hc].
    apply bool_decide_eq_true in He as [b Hb].
    destruct (proj1 (Forall_forall _ _) Hr c Hin) as [_ Hbl].
    exists c, b. rewrite (Hbl Hc b Hb). split_and!; try done.
    intros Hrange. unfold get. rewrite parse_int_itoa by (simpl; lia). simpl. by rewrite <-Hid, Hb.
  - intros c Hf Hb. unfold find. rewrite Hf.
    assert (Exist (cID c) (store s) = false) as ->.
    { apply bool_decide_eq_false. rewrite Hb. by intros [? ?]. }
    split; [done|]. intros d. cbn [snd set_db db]. rewrite DeleteCache_rows.
    apply FindCache_row in Hf as [Hin _].
    split; intros [Hd Hne]; (split; [done|]); [by intros ->|].
    intros He. apply Hne. by eapply ids_inj.
  - intros Hl. apply serve_all_match; [done|apply empty_inv|apply empty_match].
Qed.
End invariant.

(** ** Uploading and downloading *)

(** The Content-Range header a client sends for a chunk. *)
Definition show_range (start : Z) (len : nat) : gostring :=
  "bytes " ++ itoa start ++ dash :: itoa (start + Z.of_nat len - 1) ++ "/*".

Lemma parse_show_range start len :
  0 <= start -> (0 < len)%nat -> start + Z.of_nat len < 2 ^ 63 ->
  parseContentRange (show_range start len) = Some (start, start + Z.of_nat len - 1).
Proof.
  intros Hs Hl Hb. unfold parseContentRange, show_range. rewrite trim_prefix_app.
  assert (forall z, slash ∉ itoa z) as Hsl by (intros z; by apply itoa_no; [|left]).
  assert (dash ∉ itoa start) as Hd.
  { intros Hin. unfold itoa in Hin. rewrite (proj2 (Z.ltb_ge _ _)) in Hin by lia.
    destruct (fmt_uint_spec 10 start) as (_ & _ & Hf); [lia|lia|].
    eapply Forall_forall in Hf; [|exact Hin]. destruct Hf as (d & Hd & Hc).
    pose proof (digit_char_code d ltac:(lia)) as Hcode. rewrite <-Hc in Hcode.
    unfold dash in Hcode. rewrite code_chr in Hcode by lia. lia. }
  assert (cut_before slash (itoa start ++ dash :: itoa (start + Z.of_nat len - 1) ++ "/*") =
          itoa start ++ dash :: itoa (start + Z.of_nat len - 1)) as ->.
  { unfold cut_before. rewrite (proj2 (cut_Some slash _
      (itoa start ++ dash :: itoa (start + Z.of_nat len - 1)) "*")); [done|].
    split; [by rewrite <-app_assoc|]. apply not_elem_of_app. split; [apply Hsl|].
    apply not_elem_of_cons. split; [done|apply Hsl]. }
  unfold cut_before, cut_after.
  rewrite (proj2 (cut_Some dash _ (itoa start) (itoa (start + Z.of_nat len - 1)))) by done.
  rewrite !parse_int_itoa by (simpl; lia). done.
Qed.

Lemma GetCache_update i id f d :
  (forall c, cID (f c) = cID c) ->
  GetCache i (update_row id f d) = (fun c => if cID c =? id then f c else c) <$> GetCache i d.
Proof.
  intros Hf. unfold GetCache, update_row. simpl. induction (rows d) as [|c l IH]; [done|]. simpl.
  assert (cID (if cID c =? id then f c else c) = cID c) as Hc by (destruct (_ =? _); auto).
  rewrite Hc. destruct (cID c =? i) eqn:Hci; [done|]. exact IH.
Qed.

Lemma GetCache_insert now key version size d :
  Forall (fun c => cID c <= last_id d) (rows d) ->
  GetCache (last_id d + 1) (InsertCache now key version size d).2 =
    Some {| cID := last_id d + 1; Key := key; Version := version; Size := size;
            Complete := false; UsedAt := now; CreatedAt := now |}.
Proof.
  unfold GetCache, InsertCache. simpl. induction (rows d) as [|c l IH]; simpl.
  - by rewrite Z.eqb_refl.
  - intros [Hc Hl]%Forall_cons. rewrite (proj2 (Z.eqb_neq _ _)) by lia. by apply IH.
Qed.

Section roundtrip.
Context `{SqlLaws} `{UnicodeTables}.

(** The uploads of some chunks, in the given order. *)
Definition upload_all (now : Z) (id : Z) (us : list (Z * gostring)) (s : Server) : Server :=
  foldl (fun s c => (upload NoFault now (itoa id) (show_range c.1 (length c.2)) c.2 s).2) s us.

(** An upload in progress: its row, and the chunks written so far. *)
Definition uploading (id size : Z) (key version : gostring) (us : list (Z * gostring)) (s : Server) : Prop :=
  (exists c, GetCache id (db s) = Some c /\ cID c = id /\ Key c = key /\ Version c = version /\
             Size c = size /\ Complete c = false) /\
  default [] (temps (store s) !! id) = put_all us [] /\
  (us <> [] -> is_Some (temps (store s) !! id)).

Definition chunk_ok (c : Z * gostring) : Prop :=
  0 <= c.1 /\ c.2 <> [] /\ c.1 + Z.of_nat (length c.2) < 2 ^ 63.

Lemma open_entry_uploading id size key version us s :
  0 <= id < 2 ^ 63 -> uploading id size key version us s ->
  exists c, open_entry NoFault (itoa id) s = inr c /\ GetCache id (db s) = Some c /\ cID c = id /\
            Key c = key /\ Version c = version /\ Size c = size.
Proof.
  intros Hid ((c & Hg & Hc & Hk & Hv & Hs & Hco) & _). exists c. unfold open_entry.
  rewrite parse_int_itoa by (simpl; lia). by rewrite Hg, Hco.
Qed.

Lemma upload_step now id size key version us c s :
  0 <= id < 2 ^ 63 -> chunk_ok c -> uploading id size key version us s ->
  uploading id size key version (us ++ [c])
    (upload NoFault now (itoa id) (show_range c.1 (length c.2)) c.2 s).2.
Proof.
  intros Hid (Hpos & Hne & Hlt) Hu.
  destruct (open_entry_uploading _ _ _ _ _ _ Hid Hu) as (r & Ho & Hg & Hr & Hk & Hv & Hsz).
  destruct Hu as ((r' & Hg' & _ & _ & _ & _ & Hco) & Ht & _).
  assert (r' = r) as -> by congruence.
  unfold upload. rewrite Ho. rewrite parse_show_range by first [lia | destruct (c.2); [done|simpl; lia]].
  unfold Write, put_chunk. cbn [snd]. unfold uploading. cbn [set_db set_store db store temps].
  split; [|split].
  - unfold TouchCache. rewrite GetCache_update by done. rewrite Hg. simpl. eexists.
    split; [done|]. by destruct (cID r =? cID r).
  - rewrite Hr, lookup_insert_eq. simpl. by rewrite Ht, put_all_snoc.
  - intros _. rewrite Hr, lookup_insert_eq. by eexists.
Qed.

Lemma upload_all_spec now id size key version us s :
  0 <= id < 2 ^ 63 -> Forall chunk_ok us -> uploading id size key version [] s ->
  uploading id size key version us (upload_all now id us s).
Proof.
  intros Hid Hus Hu. induction us as [|c us IH] using rev_ind; [done|].
  apply Forall_snoc in Hus as [Hus Hc]. unfold upload_all. rewrite foldl_app. simpl.
  apply upload_step; [done|done|]. by apply IH.
Qed.

Lemma contiguous_ok chunks : contiguous 0 chunks -> Forall chunk_ok chunks.
Proof.
  assert (forall off, 0 <= off -> contiguous off chunks -> Forall chunk_ok chunks) as Hg.
  { induction chunks as [|[o d] chunks IH]; intros off Hoff; simpl; [constructor|].
    intros (-> & Hd & Hc). constructor; [|apply (IH (off + Z.of_nat (length d))); [lia|done]].
    apply contiguous_bounds in Hc as [? _]. unfold chunk_ok. simpl.
    split; [lia|]. by split. }
  by apply Hg.
Qed.

Definition content (chunks : list (Z * gostring)) : gostring := concat (map snd chunks).

(** C8: what is uploaded is what is downloaded.  An entry is reserved, its
    content is uploaded in chunks, in any order and with chunks sent again any
    number of times, and committed, with the right size announced or none: the
    commit succeeds, the entry is complete under the lower-cased key, with the
    size of the content, and downloading it gives the content. *)
Theorem upload_download now key version size s chunks us :
  server_inv s -> 0 <= last_id (db s) -> last_id (db s) + 1 < 2 ^ 63 ->
  contiguous 0 chunks -> chunks <> [] -> (forall c, c ∈ us <-> c ∈ chunks) ->
  (size = 0 \/ size = Z.of_nat (length (content chunks))) ->
  let id := last_id (db s) + 1 in
  let s1 := reserve NoFault now (Some (key, version, size)) s in
  let s2 := upload_all now id us s1.2 in
  let s3 := commit NoFault None (itoa id) s2 in
  s1.1 = Reserved id /\ s3.1 = Status 200 /\
  (get NoFault now (itoa id) s3.2).1 = Blob (Some (content chunks)) /\
  exists c, GetCache id (db s3.2) = Some c /\ Key c = to_lower key /\ Version c = version /\
    Complete c = true /\ Size c = Z.of_nat (length (content chunks)).
Proof.
  intros Hs Hl Hid Hch Hne Hus Hsize id.
  set (size' := if size =? 0 then -1 else size). intros s0.
  set (s1 := s0.2). intros s2 s3.
  assert (uploading id size' (to_lower key) version [] s1) as Hu0.
  { destruct Hs as (_ & Hr & _ & Ht). split; [|split; [|done]].
    - eexists. split; [apply (GetCache_insert now (to_lower key) version size' (db s))|done].
      apply (Forall_impl _ _ _ Hr). by intros c [? _].
    - simpl. destruct (temps (store s) !! id) as [t|] eqn:Htt; [|done].
      assert (id <= last_id (db s)); [apply Ht; by eexists|unfold id in *; lia]. }
  assert (Forall chunk_ok us) as Hok.
  { apply Forall_forall. intros c Hc%Hus. by eapply Forall_forall in Hc; [|by apply contiguous_ok]. }
  apply (upload_all_spec now id size' (to_lower key) version us) in Hu0; [|unfold id; lia|done].
  fold s2 in Hu0. assert (0 <= id < 2 ^ 63) as Hidr by (unfold id; lia).
  destruct (open_entry_uploading _ _ _ _ _ _ Hidr Hu0)
    as (c & Ho & Hg & Hc & Hk & Hv & Hsz).
  destruct Hu0 as (_ & Ht & Hsome).
  assert (us <> []) as Hne'.
  { intros ->. destruct chunks as [|x chunks]; [done|].
    assert (x ∈ []) as Hx by (apply Hus; left). by apply elem_of_nil in Hx. }
  destruct (Hsome Hne') as [t Htt]. rewrite Htt in Ht. simpl in Ht.
  rewrite (put_all_chunks chunks us Hch Hus) in Ht. subst t.
  subst s3. unfold commit. rewrite Ho. unfold Commit. rewrite Hc, Htt, Hsz, concat_named.
  fold (content chunks).
  assert ((0 <=? size') && negb (Z.of_nat (length (content chunks)) =? size') = false) as ->.
  { subst size'. destruct Hsize as [-> | ->]; [done|].
    case_match; reflect_bools; [done|]. by rewrite Z.eqb_refl, andb_false_r. }
  split; [done|]. split; [done|]. split.
  - unfold get. rewrite parse_int_itoa by (unfold id; simpl; lia). simpl.
    by rewrite lookup_insert_eq.
  - cbn [snd set_db db]. unfold CompleteCache. rewrite GetCache_update by done.
    cbn [set_store db]. rewrite Hg. simpl. rewrite Hc, Z.eqb_refl. eexists. split; [done|].
    by simpl.
Qed.
End roundtrip.

(** ** What garbage collection keeps *)

Lemma collect_rows cs s c :
  c ∈ rows (db (collect no_loop_fault cs s)) <-> c ∈ rows (db s) /\ forall d, d ∈ cs -> cID c <> cID d.
Proof.
  unfold collect. cbn [rowsFound no_loop_fault]. revert s. induction cs as [|d cs IH]; intros s; cbn [foldl].
  - split; [|by intros [? _]]. intros ?. split; [done|]. by intros d ?%elem_of_nil.
  - rewrite IH. change (db (collect_one no_loop_fault s d)) with (DeleteCache (cID d) (db s)).
    rewrite DeleteCache_rows. split.
    + intros [[Hc Hd] Hcs]. split; [done|]. intros x [->|Hx]%elem_of_cons; auto.
    + intros [Hc Hcs]. split; [split; [done|]|]; [apply Hcs; left|].
      intros x Hx. apply Hcs. by right.
Qed.

Lemma collect_blobs cs s i :
  (forall d, d ∈ cs -> i <> cID d) -> blobs (store (collect no_loop_fault cs s)) !! i = blobs (store s) !! i.
Proof.
  unfold collect. cbn [rowsFound no_loop_fault]. revert s. induction cs as [|d cs IH]; intros s Hi; cbn [foldl]; [done|].
  rewrite IH by (intros x Hx; apply Hi; by right). simpl. rewrite lookup_delete_ne; [done|].
  intros He. apply (Hi d); [left|done].
Qed.

(** With distinct ids, collecting the rows that satisfy a condition leaves
    exactly the others, with their blobs. *)
Lemma collect_filter (f : Cache -> bool) s c :
  NoDup (map cID (rows (db s))) ->
  (c ∈ rows (db (collect no_loop_fault (List.filter f (rows (db s))) s)) <-> c ∈ rows (db s) /\ f c = false) /\
  (c ∈ rows (db s) -> f c = false ->
   blobs (store (collect no_loop_fault (List.filter f (rows (db s))) s)) !! cID c = blobs (store s) !! cID c).
Proof.
  intros Hn. split.
  - rewrite collect_rows. split; intros [Hc Hf]; (split; [done|]).
    + destruct (f c) eqn:He; [|done]. exfalso. apply (Hf c); [|done]. by apply elem_of_filter_bool.
    + intros d [Hfd Hd]%elem_of_filter_bool Hid. assert (c = d) as -> by by eapply ids_inj.
      congruence.
  - intros Hc Hf. apply collect_blobs. intros d [Hfd Hd]%elem_of_filter_bool Hid.
    assert (c = d) as -> by by eapply ids_inj. congruence.
Qed.

(** An entry with a newer complete sibling among some rows. *)
Definition superseded (l : list Cache) (c : Cache) : Prop :=
  exists d, d ∈ l /\ same_group c d = true /\ CreatedAt c < CreatedAt d.

Definition fresh (now : Z) (c : Cache) : Prop :=
  gc_temp now c = false /\ gc_unused now c = false /\ gc_old now c = false.

Lemma filter_length_two (f : Cache -> bool) l c d :
  c ∈ l -> d ∈ l -> c <> d -> f c = true -> f d = true ->
  (1 < length (List.filter f l))%nat.
Proof.
  intros Hc Hd Hne Hfc Hfd.
  assert (c ∈ List.filter f l) as Hc' by by apply elem_of_filter_bool.
  assert (d ∈ List.filter f l) as Hd' by by apply elem_of_filter_bool.
  destruct (List.filter f l) as [|x [|y l']]; simpl; [by apply elem_of_nil in Hc'| |lia].
  apply list_elem_of_singleton in Hc', Hd'. congruence.
Qed.

Lemma duplicate_spec t d c :
  c ∈ rows d ->
  (Complete c && (UsedAt c <? t) &&
    (1 <? length (List.filter (same_group c) (rows d)))%nat &&
    existsb (fun x => same_group c x && (CreatedAt c <? CreatedAt x)) (rows d)) = true <->
  Complete c = true /\ UsedAt c < t /\ superseded (rows d) c.
Proof.
  intros Hin. rewrite !andb_true_iff, Z.ltb_lt, Nat.ltb_lt, existsb_exists. split.
  - intros [[[Hc Hu] _] (x & Hx & Hg)]. apply andb_true_iff in Hg as [Hg Hlt].
    apply Z.ltb_lt in Hlt. split; [done|]. split; [done|]. exists x.
    by rewrite list_elem_of_In.
  - intros (Hc & Hu & x & Hx & Hg & Hlt). split; [split; [by split|]|].
    + apply (filter_length_two _ _ c x); try done; [intros ->; lia|].
      unfold same_group. by rewrite Hc, !bool_decide_true by done.
    + exists x. rewrite <-list_elem_of_In, Hg. split; [done|]. by apply Z.ltb_lt.
Qed.

(** The three collections by age, one after the other. *)
Definition collect_aged (now : Z) (s : Server) : Server :=
  let s := {| db := db s; store := store s; gcAt := Some now |} in
  let s := collect no_loop_fault (FindExpired (gc_temp now) (db s)) s in
  let s := collect no_loop_fault (FindExpired (gc_unused now) (db s)) s in
  collect no_loop_fault (FindExpired (gc_old now) (db s)) s.

Lemma collect_aged_spec now s :
  server_inv s ->
  server_inv (collect_aged now s) /\
  forall c, (c ∈ rows (db (collect_aged now s)) <-> c ∈ rows (db s) /\ fresh now c) /\
            (c ∈ rows (db (collect_aged now s)) ->
             blobs (store (collect_aged now s)) !! cID c = blobs (store s) !! cID c).
Proof.
  intros Hinv. unfold collect_aged. cbv zeta. set (s0 := {| db := db s; store := store s; gcAt := Some now |}).
  assert (server_inv s0) as H0 by exact Hinv. unfold FindExpired.
  set (s1   := collect no_loop_fault (List.filter (gc_temp now) (rows (db s0))) s0).
  assert (server_inv s1) as H1 by by apply collect_inv.
  set (s2   := collect no_loop_fault (List.filter (gc_unused now) (rows (db s1))) s1).
  assert (server_inv s2) as H2 by by apply collect_inv.
  split; [by apply collect_inv|]. intros c.
  destruct (collect_filter (gc_temp now) s0 c (proj1 H0)) as [E1 B1].
  destruct (collect_filter (gc_unused now) s1 c (proj1 H1)) as [E2 B2].
  destruct (collect_filter (gc_old now) s2 c (proj1 H2)) as [E3 B3].
  fold s1 in E1, B1. fold s2 in E2, B2. change (rows (db s0)) with (rows (db s)) in E1, B1.
  change (store s0) with (store s) in B1.
  set (s3 := collect _ _ s2) in *. unfold fresh. split; [tauto|]. intros Hc.
  apply E3 in Hc as [Hc2 ?]. apply E2 in Hc2 as Hc2'. destruct Hc2' as [Hc1 ?].
  apply E1 in Hc1 as Hc1'. destruct Hc1' as [Hc0 ?]. by rewrite B3, B2, B1.
Qed.

(** C35: what a collection keeps.  When it runs, and none of its queries and
    removals fails, an entry survives exactly if
    it is fresh (an unfinished upload used in the last five minutes; used in
    the last seven days; created in the last thirty) and it is not a complete
    entry, unused for five minutes, with a newer complete sibling of the same
    key and version that is itself fresh; survivors keep their blobs. *)
Theorem gc_keeps now s :
  server_inv s -> (forall t, gcAt s = Some t -> 60 * 60 <= now - t) ->
  let s' := gcCache no_gc_fault now s in
  let kept := List.filter (fun c => negb (gc_temp now c) && negb (gc_unused now c) &&
                                    negb (gc_old now c)) (rows (db s)) in
  forall c, (c ∈ rows (db s') <-> c ∈ rows (db s) /\ fresh now c /\
               ~ (Complete c = true /\ UsedAt c < now - keepOld /\ superseded kept c)) /\
            (c ∈ rows (db s') -> blobs (store s') !! cID c = blobs (store s) !! cID c).
Proof.
  intros Hinv Hgc s' kept c. unfold s', gcCache. cbn [onTemp onUnused onOld onDup no_gc_fault].
  assert (match gcAt s with Some t => now - t <? 60 * 60 | None => false end = false) as ->.
  { destruct (gcAt s) as [t|]; [|done]. apply Z.ltb_ge. by apply Hgc. }
  destruct (collect_aged_spec now s Hinv) as [Hi Haged]. fold (collect_aged now s). unfold FindDuplicates.
  set (s3 := collect_aged now s) in *.
  assert (forall x, x ∈ kept <-> x ∈ rows (db s3)) as Hkept.
  { intros x. rewrite (proj1 (Haged x)). unfold kept, fresh.
    rewrite elem_of_filter_bool, !andb_true_iff, !negb_true_iff. tauto. }
  destruct (collect_filter (fun c => Complete c && (UsedAt c <? now - keepOld) &&
    (1 <? length (List.filter (same_group c) (rows (db s3))))%nat &&
    existsb (fun d => same_group c d && (CreatedAt c <? CreatedAt d)) (rows (db s3))) s3 c
    (proj1 Hi)) as [Hr4 Hb4].
  assert (superseded kept c <-> superseded (rows (db s3)) c) as Hsup.
  { unfold superseded. split; intros (d & Hd & ?); exists d; (split; [by apply Hkept|done]). }
  destruct (Haged c) as [Hrows Hblob]. split.
  - rewrite Hr4, <-not_true_iff_false, Hsup. split.
    + intros [Hc Hd]. rewrite duplicate_spec in Hd by done. apply Hrows in Hc. tauto.
    + intros (Hc & Hf & Hd). assert (c ∈ rows (db s3)) as H3 by by apply Hrows.
      split; [done|]. by rewrite duplicate_spec.
  - intros Hc. apply Hr4 in Hc as [Hc Hd]. rewrite Hb4 by done. by apply Hblob.
Qed.

(** ** A concrete run *)

Definition sample_chunks : list (Z * gostring) := [(0, "hello "); (6, "wor"); (9, "ld")].

Definition sample_log : list request :=
  [RReserve NoFault 100 (Some ("Npm-A", "v", 11));
   RUpload NoFault 101 "1" (show_range 6 3) "wor";
   RUpload (ChunkWrite (WCopy 2)) 101 "1" (show_range 0 6) "hello ";
   RUpload NoFault 102 "1" (show_range 9 2) "ld";
   RUpload NoFault 102 "1" (show_range 0 6) "hello ";
   RCommit NoFault None "1"; RFind NoFault "npm-a,x" "v"; RGc no_gc_fault 200;
   RReserve NoFault 300 (Some ("npm-b", "v", 0))].

Lemma cache_consistent_witness :
  let s := @serve_all list_sql ascii_tables sample_log empty_server in
  (@find list_sql ascii_tables NoFault "npm" "v" s).1 = Hit 1 "npm-a" /\
  (get NoFault 400 "1" s).1 = Blob (Some ("hello world" : gostring)) /\
  exists c b, c ∈ rows (db s) /\ cID c = 1 /\ Key c = "npm-a" /\ Complete c = true /\
    Z.of_nat (length b) = Size c /\
    (- 2 ^ 63 <= 1 < 2 ^ 63 -> (get NoFault 400 (itoa 1) s).1 = Blob (Some b)) /\
    files_match s.
Proof.
  intros s. split; [vm_compute; reflexivity|]. split; [vm_compute; reflexivity|].
  destruct (@cache_consistent list_sql list_sql_laws ascii_tables sample_log NoFault "npm" "v" 400)
    as (_ & Hhit & _ & Htidy).
  destruct (Hhit 1 "npm-a") as (c & b & H1 & H2 & H3 & H4 & H5 & H6); [vm_compute; reflexivity|].
  exists c, b. split_and!; [exact H1|exact H2|exact H3|exact H4|exact H5|exact H6|].
  apply Htidy. repeat constructor.
Defined.

(** What the collector's ignored errors can leave: the blob is removed, its
    complete row is not; the next lookup of the key deletes the row. *)
Definition stuck_row : gc_fault :=
  {| onTemp := no_loop_fault;
     onUnused := {| rowsFound := None; removeFails := fun _ => removes_all;
                    deleteFails := fun _ => true |};
     onOld := no_loop_fault; onDup := no_loop_fault |}.

Example gc_leaves_row :
  let s := @serve_all list_sql ascii_tables (sample_log ++ [RGc stuck_row 1000000]) empty_server in
  map cID (rows (db s)) = [1] /\ map Complete (rows (db s)) = [true] /\
  blobs (store s) !! 1 = None /\
  (@find list_sql ascii_tables NoFault "npm" "v" s).1 = Status 204 /\
  rows (db (@find list_sql ascii_tables NoFault "npm" "v" s).2) = [].
Proof. repeat split; vm_compute; reflexivity. Qed.

Lemma upload_download_witness :
  let us := [(9, "ld" : gostring); (0, "hello "); (9, "ld"); (6, "wor")] in
  let s1 := @reserve ascii_tables NoFault 100 (Some ("K", "v", 0)) empty_server in
  let s2 := upload_all 100 1 us s1.2 in
  s1.1 = Reserved 1 /\
  (commit NoFault None (itoa 1) s2).1 = Status 200 /\
  (get NoFault 100 (itoa 1) (commit NoFault None (itoa 1) s2).2).1 =
    Blob (Some ("hello world" : gostring)).
Proof.
  intros us s1 s2. split; [vm_compute; reflexivity|].
  assert (server_inv empty_server) as Hinv.
  { split; [constructor|]. split; [constructor|].
    split; intros id [x Hx]; simpl in Hx; rewrite lookup_empty in Hx; discriminate. }
  pose proof (@upload_download ascii_tables 100 "K" "v" 0 empty_server sample_chunks us Hinv) as Ht.
  destruct Ht as (_ & Hc & Hg & _).
  - discriminate.
  - reflexivity.
  - simpl. split; [reflexivity|]. split; [discriminate|]. split; [reflexivity|].
    split; [discriminate|]. split; [reflexivity|]. split; [discriminate|reflexivity].
  - discriminate.
  - intros c. unfold us, sample_chunks. rewrite !elem_of_cons, !elem_of_nil. tauto.
  - by left.
  - split; [exact Hc|exact Hg].
Defined.

Lemma gc_keeps_witness :
  let s := @serve_all list_sql ascii_tables sample_log empty_server in
  let s' := gcCache no_gc_fault 100000 s in
  map cID (rows (db s)) = [1; 2] /\ map cID (rows (db s')) = [1] /\
  forall c, c ∈ rows (db s') -> blobs (store s') !! cID c = blobs (store s) !! cID c.
Proof.
  intros s s'. split; [vm_compute; reflexivity|]. split; [vm_compute; reflexivity|].
  intros c. apply (gc_keeps 100000 s).
  - apply (serve_all_inv (H := list_sql) sample_log). apply empty_inv.
  - intros t Ht. assert (gcAt s = Some 200) as Hg by (vm_compute; reflexivity).
    rewrite Hg in Ht. injection Ht as <-. discriminate.
Defined.
