(* ===== verification/Controller.v ===== *)
(** * The controller's start and end ([cmd/controller/main.go], [pkg/cache/handler.go])

    [main] and [run]: from the flags, the configuration and the environment to
    the components of the other files, wired together, in the order the code
    starts them; [StartHandler] brings up the cache server.  The trace has an
    event for each part that was started, with what it was given. *)
From Stdlib Require Import Ascii.
From S2P Require Import Prelude GoStrings Paths Labels Loader Builder TaskHandler Config Register.
From S2P Require Import Snapshot CacheServer Poller Health.
#[local] Open Scope Z_scope.
#[local] Open Scope go_scope.

(** ** The cache server *)

(** What the host offers: the home directory, the address of the outbound
    interface, whether directories, the database and the listener on a port can
    be had, and the index and blobs found on disk. *)
Record Host := {
  UserHomeDir : option gostring;
  GetOutboundIP : option gostring;
  can_mkdir : gostring -> bool;
  can_open : gostring -> bool;
  listen : Z -> option Z;
  on_disk : gostring -> Server;
  clock : Z;
  gcFails : gc_fault;
}.

Record Handler := { hdlDir : gostring; hdlIP : gostring; hdlPort : Z; hdlServer : Server }.

Inductive handler_error := NoHome | NoDir | NoDatabase | NoStorage | NoOutboundIP | NoListener.

Definition require {E} (b : bool) (e : E) : result E unit := if b then Ok tt else Err e.
Definition require_some {A E} (o : option A) (e : E) : result E A := match o with Some a => Ok a | None => Err e end.

Definition StartHandler (h : Host) (dir outboundIP : gostring) (port : Z) : result handler_error Handler :=
  let? dir := if decide (dir = [])
              then (let? home := require_some (UserHomeDir h) NoHome in Ok (Join [home; ".cache"; "actcache"]))
              else Ok dir in
  let? _u := require (can_mkdir h dir) NoDir in
  let? _u := require (can_open h (Join [dir; "cache.db"])) NoDatabase in
  let? _u := require (can_mkdir h (Join [dir; "cache"])) NoStorage in
  let? ip := if decide (outboundIP = []) then require_some (GetOutboundIP h) NoOutboundIP else Ok outboundIP in
  let s := gcCache (gcFails h) (clock h) (on_disk h dir) in
  let? p := require_some (listen h port) NoListener in
  Ok {| hdlDir := dir; hdlIP := ip; hdlPort := p; hdlServer := s |}.

Definition ExternalURL (h : Handler) : gostring := "http://" ++ hdlIP h ++ ":" ++ itoa (hdlPort h).

Definition startCacheServer (h : Host) (cfg : Config.Config) : result handler_error Handler :=
  let? _u := require (can_mkdir h (CacheDir cfg)) NoDir in
  StartHandler h (CacheDir cfg) [] (CachePort cfg).

(** ** [run] *)

Record runDeps := { depLabels : LabelSet.Labels; depNamespace : gostring; depRest : bool }.

Inductive controller_event :=
  | EvRegistered (rc : RegisterConfig) (c : Client)
  | EvCacheServer (h : Handler)
  | EvSnapshots (m : Manager)
  | EvSweep (namespace : gostring)
  | EvHealthServer (capacity pollStaleness successFetchStaleness : Z)
  | EvPoll (handler : TaskHandlerConfig) (capacity fetchTimeout : Z) (ephemeral : bool)
  | EvShutdown (timeout : Z).

Inductive run_error :=
  | Registration (e : register_error) | CacheServerError (e : handler_error) | SnapshotClientError.

Section controller.
Context {W : Type} `{CredentialStore W} `{Forge W} (version : gostring) (h : Host) (snapshot_client : bool).

Definition register_config (cfg : Config.Config) (d : runDeps) : RegisterConfig := {|
  Endpoint := ServerURL cfg; cfgInsecure := Insecure cfg;
  Register.RegistrationToken := Config.RegistrationToken cfg;
  cfgName := RunnerName cfg; cfgLabels := LabelSet.Names (depLabels d); Version := version;
  cfgFetchInterval := FetchInterval cfg; HTTPTimeout := FetchTimeout cfg |}.

Definition snapshot_manager (cfg : Config.Config) : Manager := {|
  Snapshot.SnapshotClass := Config.SnapshotClass cfg; Snapshot.StorageClass := Config.StorageClass cfg;
  PVCSize := SnapshotSize cfg; Snapshot.RetentionDays := Config.RetentionDays cfg |}.

(** [convertJobSecrets]. *)
Definition convertJobSecrets (secrets : list JobSecret) : list JobSecretMount :=
  map (fun s => {| secName := jsName s; secMountPath := jsMountPath s |}) secrets.

(** Without a REST configuration snapshots are off, whatever the file says. *)
Definition snapshots_on (cfg : Config.Config) (d : runDeps) : bool := SnapshotEnabled cfg && depRest d.

(** [int64(Timeout.Seconds())] of a timeout below 2^22 seconds, where the
    float is exact enough for its integral part. *)
Definition handler_config (cfg : Config.Config) (d : runDeps) (cache : option Handler) : TaskHandlerConfig := {|
  hLabels := depLabels d; hNamespace := depNamespace d; hTimeoutSeconds := Config.Timeout cfg `quot` Second;
  hGitCloneURL := GitCloneURL cfg; hActionsURL := ActionsURL cfg;
  hControllerImage := Config.ControllerImage cfg; hCacheURL := ExternalURL <$> cache;
  hJobSecrets := convertJobSecrets (Config.JobSecrets cfg);
  hCacheDir := CacheDir cfg; hSnapshots := snapshots_on cfg d; hCountsJobs := true;
  hAptProxyURL := AptProxyURL cfg |}.

(** The events of the start, and how it ended. *)
Definition run (cfg : Config.Config) (d : runDeps) (w : W)
    : list controller_event * result run_error unit * W :=
  let rc := register_config cfg d in
  match EnsureRegistered rc w with
  | (Err e, w) => ([], Err (Registration e), w)
  | (Ok c, w) =>
      let evs := [EvRegistered rc c] in
      let cache := if CacheEnabled cfg
                   then (let? hdl := startCacheServer h cfg in Ok (Some hdl)) else Ok None in
      match cache with
      | Err e => (evs, Err (CacheServerError e), w)
      | Ok cache =>
          let evs := evs ++ match cache with Some hdl => [EvCacheServer hdl] | None => [] end in
          if snapshots_on cfg d && negb snapshot_client then (evs, Err SnapshotClientError, w)
          else
            let evs := evs ++ (if snapshots_on cfg d then [EvSnapshots (snapshot_manager cfg)] else []) in
            (evs ++
             [EvSweep (depNamespace d);
              EvHealthServer (Config.Capacity cfg) (pollStalenessThreshold (FetchInterval cfg))
                (successFetchStalenessThreshold (FetchInterval cfg));
              EvPoll (handler_config cfg d cache) (Config.Capacity cfg) (FetchTimeout cfg) (Ephemeral cfg);
              EvShutdown (ShutdownTimeout cfg)], Ok tt, w)
      end
  end.
End controller.

(** ** [main] *)

Record cliFlags := {
  ConfigPath : gostring;
  CredentialFile : gostring;
  SecretName : gostring;
  SecretNamespace : gostring;
  Kubeconfig : gostring;
  JobNamespace : gostring;
}.

(** The store the flags choose. *)
Definition createStore {W} (file_store : gostring -> CredentialStore W)
    (secret_store : gostring -> gostring -> CredentialStore W) (credFile namespace secretName : gostring)
    : CredentialStore W :=
  if decide (credFile <> []) then file_store credFile else secret_store namespace secretName.

Section main.
Context {W : Type} `{Forge W} `{ConfigEnv}.
Context (file_store : gostring -> CredentialStore W) (secret_store : gostring -> gostring -> CredentialStore W).
Context (hostname version : gostring) (file : gostring -> config_file) (h : Host) (snapshot_client : bool).
(** [k8s.NewClient]: the namespace, if a client can be had. *)
Context (NewClient : gostring -> gostring -> option gostring).

(** The exit code, and what was started. *)
Definition main (flags : cliFlags) (w : W) : Z * list controller_event * W :=
  match Config.Load hostname (file (ConfigPath flags)) with
  | Err _ => (1, [], w)
  | Ok cfg =>
      match Validate cfg with
      | Some _ => (1, [], w)
      | None =>
          match LabelSet.parseLabels (Config.Labels cfg) with
          | Err _ => (1, [], w)
          | Ok labels =>
              match NewClient (Kubeconfig flags) (SecretNamespace flags) with
              | None => (1, [], w)
              | Some namespace =>
                  let store := createStore file_store secret_store (CredentialFile flags) namespace (SecretName flags) in
                  let d := {| depLabels := labels; depRest := true;
                              depNamespace := resolveNamespace (JobNamespace flags) namespace |} in
                  match @run W store _ version h snapshot_client cfg d w with
                  | (evs, Ok _, w) => (0, evs, w)
                  | (evs, Err _, w) => (1, evs, w)
                  end
              end
          end
      end
  end.
End main.

(** ** What a start that succeeds has established *)

(** What the checks of a valid configuration say. *)
Lemma Validate_valid c :
  Validate c = None ->
  ServerURL c <> [] /\ Config.Labels c <> [] /\ 1 <= Config.Capacity c /\
  100 * Millisecond <= FetchInterval c <= FetchTimeout c /\ Minute <= Config.Timeout c /\
  Second <= ShutdownTimeout c <= Config.Timeout c /\
  (SnapshotEnabled c = true ->
     Config.SnapshotClass c <> [] /\ Config.StorageClass c <> [] /\ 1 <= Config.RetentionDays c).
Proof.
  unfold Validate. cbn [first_error]. intros H.
  repeat match type of H with (if ?b then _ else _) = None => destruct b eqn:?; [discriminate H|] end.
  reflect_bools. repeat match goal with H : (_ && _)%bool = false |- _ => apply andb_false_iff in H end.
  split_and!; try done; try lia. intros Hs. rewrite Hs in *. split_and!;
  repeat match goal with H : _ \/ _ |- _ => destruct H as [H|H]; [discriminate H|] end; by reflect_bools.
Qed.

(** The cache directory is never empty, valid or not. *)
Lemma Load_cache_dir `{ConfigEnv} hostname f c : Config.Load hostname f = Ok c -> CacheDir c <> [].
Proof.
  assert (forall old, old <> [] -> env_string "CACHE_DIR" old <> []) as He
    by (intros old Ho; unfold env_string; by case_decide).
  unfold Config.Load. destruct f as [| |decode]; [intros [= <-]; by apply He|done|].
  destruct (decode _) as [c0|]; [|done]. intros [= <-]. apply He. cbn [fill_defaults CacheDir].
  unfold or_string. by case_decide.
Qed.

Lemma parseLabels_names raw l : LabelSet.parseLabels raw = Ok l -> raw <> [] -> LabelSet.Names l <> [].
Proof.
  destruct raw as [|r raw]; [done|]. cbn [LabelSet.parseLabels].
  unfold result_bind. intros Hl _. repeat case_match; by simplify_eq.
Qed.

(** The cache server keeps the directory it is given and gives jobs an address. *)
Lemma startCacheServer_ok h cfg hdl :
  CacheDir cfg <> [] -> startCacheServer h cfg = Ok hdl ->
  hdlDir hdl = CacheDir cfg /\ (exists ip, GetOutboundIP h = Some ip /\ hdlIP hdl = ip) /\
  listen h (CachePort cfg) = Some (hdlPort hdl).
Proof.
  intros Hd. unfold startCacheServer, StartHandler, require, require_some, result_bind.
  rewrite (decide_False (P := CacheDir cfg = [])), decide_True by done.
  intros H. repeat case_match; simplify_eq. split_and!; [done|by eexists|done].
Qed.

Section ready.
Context {W : Type} `{CredentialStore W} `{Forge W} (version : gostring) (h : Host) (snapshot_client : bool).

Definition polling (e : controller_event) : Prop :=
  match e with EvSweep _ | EvHealthServer _ _ _ | EvPoll _ _ _ _ | EvShutdown _ => True | _ => False end.

Definition cache_events (cache : option Handler) : list controller_event :=
  match cache with Some hdl => [EvCacheServer hdl] | None => [] end.

Definition snapshot_events (cfg : Config.Config) (d : runDeps) : list controller_event :=
  if snapshots_on cfg d then [EvSnapshots (snapshot_manager cfg)] else [].

(** A run fails before it polls, or goes through all of it. *)
Lemma run_trace cfg d w evs r w' :
  run version h snapshot_client cfg d w = (evs, r, w') ->
  match r with
  | Err _ => Forall (fun e => ~ polling e) evs
  | Ok _ => exists c cache,
      EnsureRegistered (register_config version cfg d) w = (Ok c, w') /\
      match cache with
      | Some hdl => CacheEnabled cfg = true /\ startCacheServer h cfg = Ok hdl
      | None => CacheEnabled cfg = false
      end /\
      evs = EvRegistered (register_config version cfg d) c :: cache_events cache ++ snapshot_events cfg d ++
        [EvSweep (depNamespace d);
         EvHealthServer (Config.Capacity cfg) (pollStalenessThreshold (FetchInterval cfg))
           (successFetchStalenessThreshold (FetchInterval cfg));
         EvPoll (handler_config cfg d cache) (Config.Capacity cfg) (FetchTimeout cfg) (Ephemeral cfg);
         EvShutdown (ShutdownTimeout cfg)]
  end.
Proof.
  unfold run. destruct (EnsureRegistered _ _) as [[c|e] w1]; [|intros [= <- <- <-]; constructor].
  destruct (CacheEnabled cfg) eqn:Hen.
  - unfold result_bind. destruct (startCacheServer h cfg) as [hdl|e] eqn:Hs;
      [|intros [= <- <- <-]; repeat constructor; intros []].
    destruct (snapshots_on cfg d && negb snapshot_client);
      intros [= <- <- <-]; [repeat constructor; intros []|].
    exists c, (Some hdl). split_and!; [done..|]. done.
  - destruct (snapshots_on cfg d && negb snapshot_client);
      intros [= <- <- <-]; [repeat constructor; intros []|].
    exists c, None. split_and!; [done..|]. done.
Qed.
End ready.

Lemma running_within_capacity capacity ephemeral key l s :
  0 <= capacity -> run_actions capacity ephemeral l (start key) = Some s -> with_slot s <= capacity.
Proof.
  intros Hc Hinv%poller_reachable_inv; [|done]. pose proof (with_slot_sem _ _ Hinv).
  destruct Hinv as (_ & Hcap & _). lia.
Qed.

(** A day's margin: with at least one day of retention nothing younger expires. *)
Lemma retention_margin m now s :
  1 <= Snapshot.RetentionDays m -> expired m now s = true -> vsCreated s < now - 86400.
Proof. unfold expired, cutoff. intros Hr H. reflect_bools. lia. Qed.

Section main_theorems.
Context {W : Type} `{Forge W} `{ConfigEnv}.
Context (file_store : gostring -> CredentialStore W) (secret_store : gostring -> gostring -> CredentialStore W).
Context (hostname version : gostring) (file : gostring -> config_file) (h : Host) (snapshot_client : bool).
Context (NewClient : gostring -> gostring -> option gostring).

Abbreviation start_main :=
  (main file_store secret_store hostname version file h snapshot_client NewClient).

(** Either the exit code is 1 and nothing was polled, or all of [run] went
    through, with a valid configuration and labels that parse. *)
Lemma main_trace flags w code evs w' :
  start_main flags w = (code, evs, w') ->
  (code = 1 /\ Forall (fun e => ~ polling e) evs) \/
  (code = 0 /\ exists cfg labels ns,
     Config.Load hostname (file (ConfigPath flags)) = Ok cfg /\ Validate cfg = None /\
     LabelSet.parseLabels (Config.Labels cfg) = Ok labels /\
     NewClient (Kubeconfig flags) (SecretNamespace flags) = Some ns /\
     @run W (createStore file_store secret_store (CredentialFile flags) ns (SecretName flags)) _
       version h snapshot_client cfg
       {| depLabels := labels; depRest := true; depNamespace := resolveNamespace (JobNamespace flags) ns |} w
       = (evs, Ok tt, w')).
Proof.
  unfold main. intros Hm. destruct (Config.Load _ _) as [cfg|] eqn:Hl; [|simplify_eq; left; by split].
  destruct (Validate cfg) eqn:Hv; [simplify_eq; left; by split|].
  destruct (LabelSet.parseLabels _) as [labels|] eqn:Hp; [|simplify_eq; left; by split].
  destruct (NewClient _ _) as [ns|] eqn:Hn; [|simplify_eq; left; by split].
  destruct (run _ _ _ _ _) as [[evs' [[]|e]] w1] eqn:Hr; simplify_eq.
  - right. split; [done|]. by exists cfg, labels, ns.
  - left. split; [done|]. by apply run_trace in Hr.
Qed.

(** C18: the controller polls only when everything it needs is in place.  The
    process either exits with 1 and has started no health server and no poll
    loop, or exits with 0 after registering, sweeping, polling and draining, in
    this order.  Then: the forge was told exactly the names of the labels the
    handler picks images by, and there are some; jobs, sweep and claims are in
    one namespace; jobs have a deadline, and the drain a time that does not
    exceed it; the cache server serves actions from the directory the handler
    clones them into, at the address jobs are given, and jobs are given none
    only if the cache is off; snapshots are kept for at least a day; and the
    poll loop never runs more handlers than the configured capacity, at which
    the health check does not blame it. *)
Theorem controller_ready flags w code evs w' :
  start_main flags w = (code, evs, w') ->
  (code = 1 /\ Forall (fun e => ~ polling e) evs) \/
  (code = 0 /\ exists rc c mid capacity ps ss hc fetchTimeout ephemeral drain,
     evs = EvRegistered rc c :: mid ++ [EvSweep (hNamespace hc); EvHealthServer capacity ps ss;
                                        EvPoll hc capacity fetchTimeout ephemeral; EvShutdown drain] /\
     Forall (fun e => ~ polling e) mid /\
     cfgLabels rc = LabelSet.Names (hLabels hc) /\ cfgLabels rc <> [] /\
     60 <= hTimeoutSeconds hc /\ Second <= drain /\ drain `quot` Second <= hTimeoutSeconds hc /\
     (forall hdl, EvCacheServer hdl ∈ mid -> hdlDir hdl = hCacheDir hc /\ hCacheURL hc = Some (ExternalURL hdl)) /\
     (hCacheURL hc = None -> exists cfg, Config.Load hostname (file (ConfigPath flags)) = Ok cfg /\ CacheEnabled cfg = false) /\
     (forall m now s, EvSnapshots m ∈ mid -> expired m now s = true -> hSnapshots hc = true /\ vsCreated s < now - 86400) /\
     (forall key l s t dumped, run_actions capacity ephemeral l (start key) = Some s ->
        with_slot s <= capacity /\
        (with_slot s = capacity -> healthzHandler ps ss capacity dumped (probe_of t s) = (200, None, dumped)))).
Proof.
  intros [?|(-> & cfg & labels & ns & Hload & Hvalid & Hlabels & _ & Hrun)]%main_trace; [by left|right].
  split; [done|]. apply run_trace in Hrun as (c & cache & _ & Hcache & ->).
  apply Validate_valid in Hvalid as (_ & Hraw & Hcap & _ & Htime & Hdrain & Hsnap).
  pose proof (Load_cache_dir _ _ _ Hload) as Hdir. rewrite app_assoc.
  set (d := {| depLabels := labels |}).
  eexists _, c, _, _, _, _, (handler_config cfg d cache), _, _, _. split; [reflexivity|].
  cbn [handler_config hNamespace hLabels hTimeoutSeconds hCacheDir hCacheURL hSnapshots register_config
       cfgLabels depLabels depNamespace]. unfold Minute in *.
  assert (Config.Second = 1000000000) as Hs by done. unfold snapshot_events, cache_events.
  split_and!; try done.
  - apply Forall_app. split; [destruct cache|destruct (snapshots_on _ _)]; repeat constructor; by intros [].
  - by eapply parseLabels_names.
  - apply Z.quot_le_lower_bound; lia.
  - lia.
  - apply Z.quot_le_mono; lia.
  - intros hdl Hin. elem_inv Hin; [|by destruct (snapshots_on _ _); elem_inv Hin].
    destruct cache as [hdl'|]; elem_inv Hin. simplify_eq. destruct Hcache as [_ Hstart].
    apply startCacheServer_ok in Hstart as (? & _); [by split|done].
  - intros Hu. destruct cache; [done|]. by exists cfg.
  - intros m now s Hin He. elem_inv Hin; [by destruct cache; elem_inv Hin|].
    destruct (snapshots_on cfg _) eqn:Hon; elem_inv Hin. simplify_eq. split; [done|].
    eapply retention_margin; [|exact He]. unfold snapshots_on in Hon. reflect_bools. by apply Hsnap.
  - intros key l s t dumped Hr. split; [by eapply running_within_capacity; [lia|]|].
    intros Hw. by eapply busy_runner_healthy; [lia|..].
Qed.
End main_theorems.

(** ** A concrete start *)

Definition start_env : ConfigEnv :=
  {| Getenv k := if decide (k = "SERVER_URL") then "https://forge"
                 else if decide (k = "SERVER_REGISTRATION_TOKEN") then "join" else [];
     ParseDuration _ := None |}.

Definition start_host : Host :=
  {| UserHomeDir := None; GetOutboundIP := Some ("10.0.0.7" : gostring); can_mkdir _ := true; can_open _ := true;
     listen p := Some p; on_disk _ := {| db := {| CacheDb.rows := []; CacheDb.last_id := 0 |};
                                        store := {| CacheStore.blobs := ∅; CacheStore.temps := ∅ |};
                                        gcAt := None |}; clock := 100; gcFails := no_gc_fault |}.

Definition start_flags (credFile : gostring) : cliFlags :=
  {| ConfigPath := "config.yaml"; CredentialFile := credFile; SecretName := "drawbar"; SecretNamespace := "ci";
     Kubeconfig := []; JobNamespace := "jobs" |}.

Definition start_example (file : config_file) :=
  @main _ (@on_forge Z toy_forge) start_env (FileStore number_encode number_decode)
    (SecretStore number_encode number_decode) "host" "1" (fun _ => file) start_host true
    (fun _ ns => Some ns) (start_flags []) toy_machine.

Definition poll_config (evs : list controller_event) : option TaskHandlerConfig :=
  last (omap (fun e => match e with EvPoll hc _ _ _ => Some hc | _ => None end) evs).

#[local] Opaque number_encode number_decode.

Lemma controller_ready_witness :
  (start_example NoFile).1.1 = 0 /\
  exists rc c mid capacity ps ss hc fetchTimeout ephemeral drain,
    (start_example NoFile).1.2 =
      EvRegistered rc c :: mid ++ [EvSweep (hNamespace hc); EvHealthServer capacity ps ss;
                                   EvPoll hc capacity fetchTimeout ephemeral; EvShutdown drain] /\
    cfgLabels rc = LabelSet.Names (hLabels hc) /\ hNamespace hc = "jobs" /\
    hCacheURL hc = Some ("http://10.0.0.7:9300" : gostring).
Proof.
  assert ((start_example NoFile).1.1 = 0) as Hcode by reflexivity. split; [exact Hcode|].
  destruct (@controller_ready _ (@on_forge Z toy_forge) start_env (FileStore number_encode number_decode)
    (SecretStore number_encode number_decode) "host" "1" (fun _ => NoFile) start_host true
    (fun _ ns => Some ns) (start_flags []) toy_machine (start_example NoFile).1.1 (start_example NoFile).1.2
    (start_example NoFile).2) as [[Hc _]|(_ & rc & c & mid & capacity & ps & ss & hc & ft & eph & drain & He & _ & Hl & _)].
  - unfold start_example. by destruct (main _ _ _ _ _ _ _ _ _ _) as [[??]?].
  - rewrite Hcode in Hc. discriminate Hc.
  - exists rc, c, mid, capacity, ps, ss, hc, ft, eph, drain. split; [exact He|]. split; [exact Hl|].
    assert (poll_config (start_example NoFile).1.2 = Some hc) as Hp.
    { rewrite He. unfold poll_config. cbn [omap list_omap]. by rewrite omap_app, last_app. }
    assert ((fun hc => (hNamespace hc, hCacheURL hc)) <$> poll_config (start_example NoFile).1.2 =
            Some ("jobs" : gostring, Some ("http://10.0.0.7:9300" : gostring))) as Hv by reflexivity.
    rewrite Hp in Hv. injection Hv as -> ->. by split.
Defined.

(** A configuration that cannot be read, and one without labels: nothing is
    started. *)
Example start_refused :
  (start_example Unreadable).1 = (1, []) /\
  (start_example (Document (fun c => Some {|
    ServerURL := "https://forge"; Config.RegistrationToken := []; Insecure := false; RunnerName := [];
    Config.Labels := []; Config.Capacity := 0; Ephemeral := false; FetchInterval := 0; FetchTimeout := 0;
    Config.Timeout := 0; ShutdownTimeout := 0; GitCloneURL := []; ActionsURL := [];
    Config.ControllerImage := []; Config.JobSecrets := []; AptProxyURL := []; CacheEnabled := true;
    CacheDir := []; CachePort := 0; CacheServiceName := []; SnapshotEnabled := false;
    Config.SnapshotClass := []; Config.StorageClass := []; SnapshotSize := []; Config.RetentionDays := 0;
    LogLevel := [] |}))).1 = (1, []).
Proof. split; reflexivity. Qed.
